(* ===== verification/_CoqProject ===== *)
-Q . S2P
Prelude.v
Outcome.v
Wire.v
Message.v
Payload.v
Primitives.v
Crypto.v
Sk.v
Fragment.v
Negotiate.v
Entropy.v
Esp.v
Natt.v
Exchange.v
Informational.v
Sign.v
IkeAuth.v
Transport.v
Rekey.v
Server.v
Eap.v
EapAuth.v
Isakmp.v
Payloads1.v
ModeCfg.v
Crypto1.v
Phase2.v
Phase1.v
Quick.v
Server1.v
Digest.v
Cipher.v
Standard.v
Icmp.v
Addr.v
Programs.v
Runs.v
Testing.v
ServerSpec.v
Os.v
Loopback.v
TestsCodec.v
TestsCodec1.v
TestsVectors.v
TestsSealed.v
TestsSealed1.v
TestsHandshake.v
TestCerts.v
X509.v
TestsCerts.v
TestsIkev1.v
