(* ===== verification/Prelude.v ===== *)
(** * ryke: a verified model of an IKE / IPsec implementation

    ryke is a userspace implementation of IKEv2 (RFC 7296), IKEv1 (RFC 2409) and ESP
    (RFC 4303) in Rust, with both roles (client and server) of each protocol.  An
    IKEv2 connection goes through these parts, each the subject of one file of this
    library:

      - a message is an IKE header and a chain of payloads ([Message], from
        ikev2/message.rs), whose bodies have their own codecs ([Payload], from
        ikev2/payload.rs; [Wire] holds the shared readers);
      - IKE_SA_INIT ([Exchange], exchange.rs) negotiates a suite ([Negotiate],
        negotiate.rs), runs Diffie-Hellman and derives seven keys ([Crypto],
        crypto.rs), with cookies, group renegotiation and NAT detection ([Natt],
        natt.rs);
      - every later message is sealed with AES-GCM ([Sk], sk.rs), if need be in
        fragments ([Fragment], fragment.rs);
      - IKE_AUTH ([IkeAuth], auth.rs and ike_auth.rs) authenticates both ends by a
        pre-shared key or by signatures and certificates ([Sign], sign.rs), or by
        EAP-MSCHAPv2 ([Eap], eap.rs and mschapv2.rs; [EapAuth], eap_auth.rs);
      - INFORMATIONAL and MOBIKE messages ([Informational], informational.rs and
        mobike.rs) and rekeys ([Rekey], rekey.rs and ike_rekey.rs) maintain the SA;
      - ESP ([Esp], esp.rs) carries the traffic under the CHILD SA's keys, over a
        UDP socket ([Transport], transport.rs and tunnel.rs);
      - the drivers ([Server], server.rs and client.rs) tie the exchanges together
        and keep the tables of sessions and CHILD SAs; [ServerSpec] says what the server
        promises, as an abstract server without keys and messages;
      - the operating system is below them ([Os], transport.rs and entropy.rs): its sockets and
        files are interfaces, [UdpTransport] and [OsEntropy] the crate's layers over them.

    IKEv1 shares with them only the primitives, Diffie-Hellman and ESP; its parts,
    below src/src/ikev1, have these files:

      - ISAKMP framing ([Isakmp], isakmp.rs), the bodies of SA and ID payloads with
        their nested proposals, transforms and attributes ([Payloads1], payloads.rs)
        and the configuration payload ([ModeCfg], modecfg.rs);
      - the key schedule, the HASH values, CBC encryption and its chained
        initialisation vectors ([Crypto1], crypto1.rs);
      - Aggressive Mode ([Phase1], phase1.rs), which yields the phase-1 state;
      - encrypted messages with a HASH payload ([Phase2], phase2.rs), and Quick Mode
        over them ([Quick], quick.rs), which yields an ESP CHILD SA;
      - the drivers ([Server1], server.rs and client.rs): the server keeps, under the
        initiator's cookie, a session with its phase-1 state and the pending
        Quick Mode, and the CHILD SAs.

    On top of the library are the programs of src/examples and, in every source file, the
    unit tests:

      - [Icmp] holds the echo requests and the Internet checksum of the programs, [Addr]
        how they read addresses, [Programs] the seven programs themselves (two clients with
        a tunnelled ping, the EAP client, and the probes for liveness, rekey,
        rekey with traffic, and retransmission), and [Runs] what they decide;
      - [Digest] and [Cipher] are SHA-256, SHA-1, MD4, HMAC, AES-256 with GCM and CBC, and
        DES, from their standards; [Standard] puts them in place of the parameters;
      - [Testing] holds the assertions of a test; [TestsCodec], [TestsCodec1],
        [TestsVectors], [TestsSealed], [TestsSealed1], [TestsHandshake], [TestsCerts] and
        [TestsIkev1] the tests, one Module per source file; [TestCerts] the fixtures of test_certs.rs,
        and [X509] a reader of DER and X.509 for them;
      - [Loopback] holds the integration tests of src/tests, which run a client against a server
        on another thread.

    All other paths are below src/src.  [Outcome] (error.rs) and [Entropy] (role.rs,
    entropy.rs) hold what the others share, and this file the notation, the hint
    database [ryke] and the lemmas on integers and octets.

    ** How the code is modelled

      - Octets are integers of [0, 256), buffers are lists; [bytes_ok] states the
        range.  Casts between machine widths are written out ([as_u8] .. [as_u64]).
      - A fallible function returns [outcome]: a value, an [IkeError], or [Panic].
        Every slice, index and [unwrap] of the source is an operation that can
        panic, so that "never panics" is a theorem and not a convention; [wp] is
        the corresponding weakest-precondition calculus.
      - Loops over payloads are [for_each] over the items of the iterator, which is
        itself modelled with fuel (the length of the input: every step consumes at
        least four octets; [Message.payload_items_total]).  [prf_plus] has the
        output length as fuel, and each round produces 32 octets; the walk up a
        certificate chain has the source's own bound, the number of intermediates.
        The ISAKMP payload chain and the attribute list have the length of the input
        plus one as fuel, since each step consumes at least four octets
        ([Isakmp.parse_payloads_grammar] shows that the fuel is never exhausted); the
        feedback expansions of IKEv1 have the output length, and each turn appends a
        non-empty block.  The only loop of the programs without a bound in its text, the wait
        for a ping until a deadline, takes the number of datagrams as fuel:
        [Runs.natt_ping_terminates] shows that two seconds' worth of nanoseconds is enough
        on any machine whose clock moves.
      - Code of other crates is a parameter: [Primitives] (HMAC, SHA, AES-GCM,
        X25519, big integers), [Pki] (X.509, RSA, ECDSA), [LegacyCrypto] (MD4, DES)
        and [Legacy1] (HMAC-SHA1, AES-CBC) list the operations that are called, and
        classes of laws ([HmacLaws], [AeadLaws], [X25519Laws], [CbcLaws], ...) their
        documented behaviour.  The [toy] instances satisfy all laws and make the definitions executable; they are
        not cryptography.  The instances of [Standard] are the published algorithms, and
        every law is proved of them; only X25519 stays a prime-field group there.  The laws contain no secrecy assumption: theorems that
        speak of acceptance say what was checked, not what an adversary can forge.
      - The socket is the class [Transport] and the randomness the class
        [Entropy]; [Os.Udp_transport] and [Os.OsEntropy_entropy] are their instances over the
        operating system, whose laws ([Os.UdpSocketLaws], [Os.UrandomLaws]) say that a receive copies
        the datagram into the buffer it is given and that the random device can be read.  The drivers and the EAP machines are actions of a state monad
        ([Transport.action]) whose state survives an error, as the fields of a
        Rust struct do; the ESP counter, for example, advances although sending
        fails.
      - A program is an action on a machine ([Programs.World]: sockets, randomness, clock,
        files) with its exit status as the result; printing has no effect on the state.
        The theorems of [Runs] hold for machines given by what their sockets deliver
        ([Runs.Script], [Runs.Working]) and for one whose network is the library's own
        server ([Runs.programs_on_own_server]).
      - A unit test is an [outcome unit] that panics where an assertion fails.
      - HashMaps are [gmap]s.  Server states are reached by relations
        ([Server.reachable], [Server1.reachable]) that record the datagrams heard, the states of the
        EAP client by [EapAuth.initiator_heard]; invariants are proved by rule
        induction.

    ** What is proved

      - Completeness of the handshakes: [Server.handshake_completes] runs client
        and server against each other over an ideal network,
        [EapAuth.eap_exchange_completes] the EAP machines (for a client that does not insist
        on a certificate);
        [Exchange.sa_init_default_completes], [IkeAuth.psk_mutual_auth],
        [Rekey.child_rekey_agreement] and [Rekey.ike_rekey_agreement] the single
        exchanges; [Server1.ikev1_handshake_completes], [Phase1.aggressive_agreement]
        and [Quick.quick_agreement] do the same for IKEv1.  In all of them the two
        ends end up with the same keys.  [Loopback.integration_tests_pass] adds the events that the
        server's thread reports and traffic in both directions, for both protocols.
      - Soundness of acceptance: [IkeAuth.ike_auth_sound],
        [Sign.verify_cert_auth_sound], [Server.server_children_authenticated],
        [EapAuth.eap_credential_firewall], [Sk.sk_open_authentic],
        [Fragment.reassemble_sound], [Esp.esp_nonce_unique] (within the life of one [EspSa]); for IKEv1
        [Phase1.aggressive_auth_sound], [Phase2.phase2_protection],
        [Quick.quick_sound] and [Server1.ikev1_children_authenticated].
      - Round trips of every codec, of sealing, fragmentation, ESP and the tunnel.
      - Refinements: suite selection against a declarative preference order, prf+
        against the RFC's recursion, the key schedules against one key stream cut
        into consecutive pieces, the DES key expansion against its 56 bits; for IKEv1
        the choice of a transform against a declarative preference order, the
        feedback expansions against the RFC's recursion, the payload parser against a
        grammar, CBC under the chained IV against one encryption of all messages
        ([Crypto1.cbc_chaining]), and the server against an abstract protocol of open
        and pending sessions ([Server1.ikev1_server_refines]).  The IKEv2 server refines a table of
        half-open and established sessions, and its tables can be read off the log of its events
        ([ServerSpec.ikev2_server_refines]).
      - Parametricity: over related sockets every driver behaves alike, so that the UDP layer with its
        receive buffer is transparent to all of them ([Os.udp_transport_transparent]).
      - Programs: the exit status says what was observed.  [Runs.ike_client_ping_decides]
        (0 exactly when an echo reply came through the tunnel), [Runs.dpd_probe_decides],
        [Runs.rekey_probe_decides], [Runs.retransmit_probe_decides],
        [Runs.ike_client_eap_sound] (success only against a server that proved itself),
        [Runs.nat_detection_recognised]; the checksum is the one's complement sum
        ([Icmp.checksum_correct]) and the requests are valid packets ([Icmp.icmp_echo_valid]).
      - Tests: the vectors of RFC 4231, 2759 and 3079 come out with the standard primitives
        ([TestsVectors.known_answers]), and the other unit tests pass
        ([TestsCodec.codec_tests_pass], [TestsSealed.sealed_tests_pass],
        [TestsHandshake.handshake_tests_pass], [TestsCerts.certificate_tests_pass],
        [TestsIkev1.ikev1_tests_pass], ...).
      - No panics: every parser and every handler, on arbitrary octets.
      - Seven theorems state behaviour that the code should not have:
        [EapAuth.eap_auth_without_eap] (AUTH accepted before any EAP),
        [Server.replayed_auth_resets_child] (nonce reuse after a repeated
        datagram), [Negotiate.chosen_suite_protection] (an AES-CBC suite that no
        later message can use), the overflow that [EapAuth.eap_handlers_total]
        excludes, [Server1.quick_dropped_by_header] (a bare header ends a pending
        Quick Mode), [Server1.quick_without_hash_i] (Quick Mode completes although
        HASH_I was never heard) and [ServerSpec.half_open_sessions_unbounded] (a stranger makes the
        server keep any number of sessions).

    ** What is not modelled

      What the operating system does behind a socket or a file is not modelled beyond the laws of
      [Os]; time passes only in the programs' clock.  Of the threads of the integration tests
      only the schedule in which the server's thread answers a datagram before the client's next
      step is modelled.  lib.rs and the mod.rs files declare modules.  The
      XAUTH and Mode-Config exchanges of IKEv1 exist in the source only as codecs.
      Elliptic curves and RSA are not computed: the curve of X25519 in [Standard] and the signatures in
      [X509] are stand-ins.  Of the unit tests, the X25519 vectors of RFC 7748 and the
      one of crypto.rs that exponentiates in the MODP groups are left out, as evaluating them takes
      too long (the agreement itself is [Crypto.DhGroup_agree]); the tests of [TestsIkev1] run with
      a multiplication in place of that exponentiation. *)
From stdpp Require Export base tactics list numbers strings gmap sorting.
From Stdlib Require Export ZArith Lia.

Declare Scope ryke_scope.
Delimit Scope ryke_scope with ryke.
#[global] Open Scope Z_scope.

(** Rust byte buffers ([&[u8]], [Vec<u8>], [[u8; N]]): lists of integers, each
    in the range of a [u8]; [bytes_ok] states the range. *)
Abbreviation bytes := (list Z).

Definition byte_ok (b : Z) : Prop := 0 <= b < 256.
Definition bytes_ok (l : bytes) : Prop := Forall byte_ok l.

(** Unsigned machine integers: [x as u8], [x as u16], [x as u32], [x as u64]. *)
Definition as_u8 (x : Z) : Z := x mod 2 ^ 8.
Definition as_u16 (x : Z) : Z := x mod 2 ^ 16.
Definition as_u32 (x : Z) : Z := x mod 2 ^ 32.
Definition as_u64 (x : Z) : Z := x mod 2 ^ 64.

Definition u8_ok (x : Z) : Prop := 0 <= x < 2 ^ 8.
Definition u16_ok (x : Z) : Prop := 0 <= x < 2 ^ 16.
Definition u32_ok (x : Z) : Prop := 0 <= x < 2 ^ 32.
Definition u64_ok (x : Z) : Prop := 0 <= x < 2 ^ 64.

(** [usize as uN] of a length, and [uN as usize]. *)
Abbreviation len16 n := (as_u16 (Z.of_nat n)).
Abbreviation usize x := (Z.to_nat x).

(** Big-endian encoding: [be_bytes n x] is [x.to_be_bytes()] for an [n]-byte
    integer type, [be_val l] is [uN::from_be_bytes(l)]. *)
Fixpoint be_bytes (n : nat) (x : Z) : bytes :=
  match n with
  | O => []
  | S m => (x / 256 ^ Z.of_nat m) mod 256 :: be_bytes m x
  end.

Definition be_val (l : bytes) : Z := foldl (fun acc b => acc * 256 + b) 0 l.

(** ** Well-formed bytes *)
Create HintDb ryke discriminated.
Create Rewrite HintDb ryke.

Lemma bytes_ok_nil : bytes_ok [].
Proof. constructor. Qed.

Lemma bytes_ok_cons b l : byte_ok b -> bytes_ok l -> bytes_ok (b :: l).
Proof. by constructor. Qed.

Lemma bytes_ok_app l k : bytes_ok l -> bytes_ok k -> bytes_ok (l ++ k).
Proof. intros; by apply Forall_app. Qed.

Lemma bytes_ok_app_inv l k : bytes_ok (l ++ k) -> bytes_ok l /\ bytes_ok k.
Proof. apply Forall_app. Qed.

Lemma bytes_ok_take n l : bytes_ok l -> bytes_ok (take n l).
Proof. apply Forall_take. Qed.

Lemma bytes_ok_drop n l : bytes_ok l -> bytes_ok (drop n l).
Proof. apply Forall_drop. Qed.

Lemma bytes_ok_lookup l i b : bytes_ok l -> l !! i = Some b -> byte_ok b.
Proof. intros H ?. by eapply Forall_lookup_1 in H. Qed.

Lemma byte_ok_mod x : byte_ok (x mod 256).
Proof. unfold byte_ok. apply Z.mod_pos_bound. lia. Qed.

#[export] Hint Resolve bytes_ok_nil bytes_ok_cons bytes_ok_app bytes_ok_take
  bytes_ok_drop byte_ok_mod : ryke.

(** ** Big-endian lemmas *)
Lemma length_be_bytes n x : length (be_bytes n x) = n.
Proof. induction n; simpl; auto. Qed.

Lemma be_bytes_ok n x : bytes_ok (be_bytes n x).
Proof. induction n; simpl; auto with ryke. Qed.

Lemma be_val_snoc l b : be_val (l ++ [b]) = be_val l * 256 + b.
Proof. unfold be_val. by rewrite foldl_app. Qed.

Lemma be_val_app l k :
  be_val (l ++ k) = be_val l * 256 ^ Z.of_nat (length k) + be_val k.
Proof.
  induction k as [|b k IH] using rev_ind.
  - rewrite app_nil_r. change (be_val []) with 0. simpl. lia.
  - rewrite app_assoc, !be_val_snoc, IH, length_app. simpl.
    replace (Z.of_nat (length k + 1)) with (Z.of_nat (length k) + 1) by lia.
    rewrite Z.pow_add_r by lia. lia.
Qed.

Lemma be_val_cons b l :
  be_val (b :: l) = b * 256 ^ Z.of_nat (length l) + be_val l.
Proof. exact (be_val_app [b] l). Qed.

Lemma be_val_be_bytes_mod n x : be_val (be_bytes n x) = x mod 256 ^ Z.of_nat n.
Proof.
  induction n as [|n IH].
  - simpl. by rewrite Z.mod_1_r.
  - cbn [be_bytes]. rewrite be_val_cons, length_be_bytes, IH.
    replace (Z.of_nat (S n)) with (Z.of_nat n + 1) by lia.
    rewrite Z.pow_add_r, Z.pow_1_r by lia.
    rewrite Z.rem_mul_r by (try apply Z.pow_nonzero; lia). lia.
Qed.

Lemma be_val_be_bytes n x :
  0 <= x < 256 ^ Z.of_nat n -> be_val (be_bytes n x) = x.
Proof. intros. rewrite be_val_be_bytes_mod. by apply Z.mod_small. Qed.

Lemma be_val_bound l : bytes_ok l -> 0 <= be_val l < 256 ^ Z.of_nat (length l).
Proof.
  induction 1 as [|b l Hb Hl IH]; [cbn; lia|].
  rewrite be_val_cons. cbn [length].
  replace (Z.of_nat (S (length l))) with (Z.of_nat (length l) + 1) by lia.
  rewrite Z.pow_add_r, Z.pow_1_r by lia. unfold byte_ok in Hb. nia.
Qed.

(** Multiples of [256 ^ m] do not reach the low [n <= m] bytes. *)
Lemma be_bytes_high n m b v : (n <= m)%nat ->
  be_bytes n (b * 256 ^ Z.of_nat m + v) = be_bytes n v.
Proof.
  revert v. induction n as [|n IHn]; intros v Hnm; [done|]. cbn [be_bytes]. f_equal.
  - replace (Z.of_nat m) with (Z.of_nat n + (1 + Z.of_nat (m - S n))) by lia.
    rewrite !Z.pow_add_r by lia.
    replace (b * (256 ^ Z.of_nat n * (256 ^ 1 * 256 ^ Z.of_nat (m - S n))))
      with (b * 256 ^ Z.of_nat (m - S n) * 256 * 256 ^ Z.of_nat n) by lia.
    rewrite Z.div_add_l by (apply Z.pow_nonzero; lia).
    by rewrite Z.add_comm, Z.mod_add by lia.
  - apply IHn. lia.
Qed.

Lemma be_bytes_be_val l : bytes_ok l -> be_bytes (length l) (be_val l) = l.
Proof.
  intros Hl. induction Hl as [|b l Hb Hl IH]; [done|].
  pose proof (be_val_bound l Hl) as Hv. unfold byte_ok in Hb.
  cbn [length be_bytes]. rewrite be_val_cons, be_bytes_high, IH by lia. f_equal.
  rewrite Z.div_add_l, (Z.div_small (be_val l)) by lia.
  rewrite Z.add_0_r. by apply Z.mod_small.
Qed.

Lemma be_bytes_of_val n l : length l = n -> bytes_ok l -> be_bytes n (be_val l) = l.
Proof. intros <-. apply be_bytes_be_val. Qed.

#[export] Hint Resolve be_bytes_ok : ryke.
#[export] Hint Rewrite length_be_bytes : ryke.

Lemma be_val_u8 a : be_val [a] = a.
Proof. unfold be_val. simpl. lia. Qed.

Lemma be_val_inj l k : bytes_ok l -> bytes_ok k -> length l = length k ->
  be_val l = be_val k -> l = k.
Proof.
  intros Hl Hk Hlen Hv. rewrite <- (be_bytes_be_val l Hl), <- (be_bytes_be_val k Hk).
  by rewrite Hlen, Hv.
Qed.

Lemma be_bytes_inj n x y : 0 <= x < 256 ^ Z.of_nat n -> 0 <= y < 256 ^ Z.of_nat n ->
  be_bytes n x = be_bytes n y -> x = y.
Proof.
  intros Hx Hy E. rewrite <- (be_val_be_bytes n x Hx), <- (be_val_be_bytes n y Hy).
  by rewrite E.
Qed.

(** ** Permutations along a relation *)
Lemma Forall2_perm {A B} (R : A -> B -> Prop) l l' k : Forall2 R l k -> l ≡ₚ l' ->
  exists k', Forall2 R l' k' /\ k ≡ₚ k'.
Proof.
  intros H Hp. revert k H. induction Hp as [|x l l' _ IH|x y l|l l1 l2 _ IH1 _ IH2]; intros k H.
  - by exists k.
  - inversion_clear H as [|? b ? k0 Hx Hk]. destruct (IH k0 Hk) as (k' & ? & ?).
    exists (b :: k'). split; [by constructor|by constructor].
  - inversion_clear H as [|? a ? k0 Hx Hk]. inversion_clear Hk as [|? b ? k1 Hy Hk1].
    exists (b :: a :: k1). split; [by repeat constructor|constructor].
  - destruct (IH1 k H) as (k1 & H1 & P1). destruct (IH2 k1 H1) as (k2 & H2 & P2).
    exists k2. split; [done|by transitivity k1].
Qed.

(** ** Lengths that fit their field *)
Lemma len16_small n : Z.of_nat n < 2 ^ 16 -> be_val (be_bytes 2 (len16 n)) = Z.of_nat n.
Proof.
  intros. unfold as_u16. rewrite be_val_be_bytes_mod. change (256 ^ Z.of_nat 2) with (2 ^ 16).
  rewrite Z.mod_mod, Z.mod_small; lia.
Qed.

Lemma u16be_val x : u16_ok x -> be_val (be_bytes 2 x) = x.
Proof. intros. by apply be_val_be_bytes. Qed.

Lemma as_u8_small n : Z.of_nat n < 2 ^ 8 -> as_u8 (Z.of_nat n) = Z.of_nat n.
Proof. intros. unfold as_u8. rewrite Z.mod_small; lia. Qed.

(** ** Exhaustive checks over bytes: facts about the bits of a [u8] are decided
    by evaluating them at the 256 values. *)
Lemma byte_enum (P : Z -> bool) b :
  forallb P (seqZ 0 256) = true -> byte_ok b -> P b = true.
Proof.
  intros HP Hb. rewrite forallb_forall in HP. apply HP, list_elem_of_In, elem_of_seqZ.
  unfold byte_ok in Hb. lia.
Qed.

Lemma nibble_enum (P : Z -> Z -> bool) a b :
  forallb (fun a => forallb (P a) (seqZ 0 16)) (seqZ 0 16) = true ->
  0 <= a < 16 -> 0 <= b < 16 -> P a b = true.
Proof.
  intros HP Ha Hb. rewrite forallb_forall in HP.
  assert (Ha' : In a (seqZ 0 16)) by (apply list_elem_of_In, elem_of_seqZ; lia).
  specialize (HP a Ha'). rewrite forallb_forall in HP. apply HP.
  apply list_elem_of_In, elem_of_seqZ. lia.
Qed.
