(* ===== verification/Outcome.v ===== *)
(** * Outcomes of Rust code: values, errors and panics

    A Rust function of type [Result<T, IkeError>] either returns [Ok], returns
    [Err], or panics (an out-of-range index or slice, a failed [unwrap]).
    [outcome] keeps the three apart, so that "never panics" is a statement of
    the logic.  [wp m Q] says that [m] does not panic and that a value it
    returns satisfies [Q]; its rules are the development's panic calculus.

    Models [src/src/error.rs] ([IkeError]) and the language's slice accesses. *)
From S2P Require Import Prelude.

(** [enum IkeError] of error.rs. *)
Inductive IkeError :=
| Truncated (need have : nat)
| BadLength (declared available : nat)
| ShortPayload (len : Z)
| MissingPayload (what : string)
| NoProposalChosen
| DhGroupMismatch (expected got : Z)
| BadKeyExchange (group : Z) (len : nat)
| BadIntegrity
| AuthFailed
| Crypto (what : string).

#[export] Instance IkeError_eq_dec : EqDecision IkeError.
Proof. solve_decision. Defined.

Inductive outcome (A : Type) :=
| Ok (a : A)
| Err (e : IkeError)
| Panic.
Arguments Ok {A} a.
Arguments Err {A} e.
Arguments Panic {A}.

#[export] Instance outcome_eq_dec {A} `{!EqDecision A} : EqDecision (outcome A).
Proof. solve_decision. Defined.

(** The [?] operator: errors and panics propagate. *)
#[export] Instance outcome_ret : MRet outcome := fun A a => Ok a.
#[export] Instance outcome_bind : MBind outcome := fun A B f m =>
  match m with Ok a => f a | Err e => Err e | Panic => Panic end.
#[export] Instance outcome_fmap : FMap outcome := fun A B f m =>
  match m with Ok a => Ok (f a) | Err e => Err e | Panic => Panic end.

(** [o.ok_or(e)?] *)
Definition ok_or {A} (o : option A) (e : IkeError) : outcome A :=
  match o with Some a => Ok a | None => Err e end.

(** [m.ok()] and [if let Ok(x) = m]: an error becomes [None], a panic stays. *)
Definition ok {A} (m : outcome A) : outcome (option A) :=
  match m with Ok a => Ok (Some a) | Err _ => Ok None | Panic => Panic end.

(** [m.is_ok()] *)
Definition is_ok {A} (m : outcome A) : bool :=
  match m with Ok _ => true | _ => false end.

(** ** Slice accesses *)

(** [l[i]] *)
Definition idx (l : bytes) (i : nat) : outcome Z :=
  match l !! i with Some b => Ok b | None => Panic end.

(** [&l[i..j]] *)
Definition slice (l : bytes) (i j : nat) : outcome bytes :=
  if decide (i <= j /\ j <= length l)%nat then Ok (take (j - i) (drop i l)) else Panic.

(** [&l[i..]] *)
Definition slice_from (l : bytes) (i : nat) : outcome bytes :=
  if decide (i <= length l)%nat then Ok (drop i l) else Panic.

(** [u16::from_be_bytes([l[i], l[i + 1]])], [fn u16be] of payload.rs. *)
Definition u16be (l : bytes) (i : nat) : outcome Z :=
  a ← idx l i; b ← idx l (i + 1)%nat; Ok (be_val [a; b]).

(** [uN::from_be_bytes(l[i..j].try_into().unwrap())]: the conversion to the
    [n]-byte array panics when the slice has another length. *)
Definition be_uint (n : nat) (l : bytes) (i j : nat) : outcome Z :=
  s ← slice l i j;
  if decide (length s = n) then Ok (be_val s) else Panic.

(** ** The panic calculus *)
Definition wp {A} (m : outcome A) (Q : A -> Prop) : Prop :=
  match m with Ok a => Q a | Err _ => True | Panic => False end.

(** [m] never panics. *)
Definition safe {A} (m : outcome A) : Prop := m <> Panic.

Section wp_rules.
Context {A B : Type}.
Implicit Types (m : outcome A) (Q : A -> Prop).

Lemma wp_bind m (f : A -> outcome B) (R : B -> Prop) :
  wp m (fun a => wp (f a) R) -> wp (m ≫= f) R.
Proof. by destruct m. Qed.

Lemma wp_fmap m (f : A -> B) (R : B -> Prop) : wp m (fun a => R (f a)) -> wp (f <$> m) R.
Proof. by destruct m. Qed.

Lemma wp_mono m Q Q' : (forall a, Q a -> Q' a) -> wp m Q -> wp m Q'.
Proof. destruct m; simpl; auto. Qed.

Lemma wp_conj m Q Q' : wp m Q -> wp m Q' -> wp m (fun a => Q a /\ Q' a).
Proof. destruct m; simpl; auto. Qed.

Lemma wp_safe m Q : wp m Q -> safe m.
Proof. destruct m; simpl; [done..|intros []]. Qed.

Lemma safe_wp m : safe m -> wp m (fun a => m = Ok a).
Proof. destruct m; [done..|by intros []]. Qed.

Lemma wp_eq m Q : wp m Q -> wp m (fun a => Q a /\ m = Ok a).
Proof. by destruct m. Qed.

Lemma wp_ok m Q a : wp m Q -> m = Ok a -> Q a.
Proof. by intros H ->. Qed.

Lemma wp_ok_or (o : option A) e Q : (forall a, o = Some a -> Q a) -> wp (ok_or o e) Q.
Proof. destruct o; simpl; auto. Qed.

Lemma wp_opt m (R : option A -> Prop) :
  wp m (fun a => R (Some a)) -> R None -> wp (ok m) R.
Proof. by destruct m. Qed.

Lemma bind_Ok m (f : A -> outcome B) b :
  m ≫= f = Ok b <-> exists a, m = Ok a /\ f a = Ok b.
Proof.
  split; [destruct m; simpl; try discriminate; eauto|]. by intros (a & -> & Hf).
Qed.

Lemma ok_or_Ok (o : option A) e a : ok_or o e = Ok a <-> o = Some a.
Proof. destruct o; simpl; split; congruence. Qed.
End wp_rules.

(** *** [iter().map(f).collect::<Result<_, _>>()] *)
Lemma mapM_Ok {A B} (f : A -> outcome B) l k :
  mapM f l = Ok k <-> Forall2 (fun x y => f x = Ok y) l k.
Proof.
  split.
  - revert k. induction l as [|x l IH]; intros k H.
    + change (Ok (@nil B) = Ok k) in H. injection H as <-. constructor.
    + change ((y ← f x; ys ← mapM f l; Ok (y :: ys)) = Ok k) in H.
      apply bind_Ok in H as (y & Hy & H). apply bind_Ok in H as (ys & Hys & H).
      injection H as <-. constructor; auto.
  - induction 1 as [|x y l k Hx _ IH]; [done|].
    change (mapM f (x :: l)) with (y ← f x; ys ← mapM f l; Ok (y :: ys)).
    by rewrite Hx, IH.
Qed.

Lemma mapM_wp {A B} (f : A -> outcome B) (Q : B -> Prop) l :
  Forall (fun x => wp (f x) Q) l -> wp (mapM f l) (Forall Q).
Proof.
  induction 1 as [|x l Hx _ IH]; [by constructor|].
  change (mapM f (x :: l)) with (y ← f x; ys ← mapM f l; Ok (y :: ys)).
  apply wp_bind. eapply wp_mono; [|exact Hx]. intros y Hy.
  apply wp_bind. eapply wp_mono; [|exact IH]. intros ys Hys. by constructor.
Qed.

Lemma wp_idx l i Q : (i < length l)%nat ->
  (forall b, l !! i = Some b -> Q b) -> wp (idx l i) Q.
Proof.
  intros Hi HQ. unfold idx. destruct (lookup_lt_is_Some_2 l i Hi) as [b Hb].
  rewrite Hb. by apply HQ.
Qed.

Lemma wp_idx_ok l i (Q : Z -> Prop) : (i < length l)%nat -> bytes_ok l ->
  (forall b, byte_ok b -> Q b) -> wp (idx l i) Q.
Proof. intros Hi Hl HQ. apply wp_idx; [done|]. eauto using bytes_ok_lookup. Qed.

Lemma slice_ok l i j : (i <= j)%nat -> (j <= length l)%nat ->
  slice l i j = Ok (take (j - i) (drop i l)).
Proof. intros. unfold slice. by rewrite decide_True. Qed.

Lemma slice_from_ok l i : (i <= length l)%nat -> slice_from l i = Ok (drop i l).
Proof. intros. unfold slice_from. by rewrite decide_True. Qed.

Lemma slice_Ok l i j s : slice l i j = Ok s ->
  (i <= j <= length l)%nat /\ s = take (j - i) (drop i l).
Proof. unfold slice. case_decide; intros; simplify_eq; lia || auto. Qed.

Lemma wp_slice l i j (Q : bytes -> Prop) : (i <= j)%nat -> (j <= length l)%nat ->
  (length (take (j - i) (drop i l)) = (j - i)%nat -> Q (take (j - i) (drop i l))) ->
  wp (slice l i j) Q.
Proof.
  intros. rewrite slice_ok by done. simpl.
  rewrite length_take, length_drop in *. auto with lia.
Qed.

Lemma wp_slice_from l i (Q : bytes -> Prop) : (i <= length l)%nat ->
  Q (drop i l) -> wp (slice_from l i) Q.
Proof. intros. by rewrite slice_from_ok. Qed.

Lemma wp_u16be l i (Q : Z -> Prop) : (i + 1 < length l)%nat -> bytes_ok l ->
  (forall x, u16_ok x -> Q x) -> wp (u16be l i) Q.
Proof.
  intros Hi Hl HQ. apply wp_bind, wp_idx_ok; [lia|done|]. intros a Ha.
  apply wp_bind, wp_idx_ok; [lia|done|]. intros b Hb. apply HQ.
  pose proof (be_val_bound [a; b]) as Hv. unfold u16_ok.
  destruct Hv; [auto with ryke|]. simpl in *. lia.
Qed.

Lemma wp_be_uint n l i j (Q : Z -> Prop) : (i <= j)%nat -> (j <= length l)%nat ->
  (j - i = n)%nat -> bytes_ok l ->
  (forall x, 0 <= x < 256 ^ Z.of_nat n -> Q x) -> wp (be_uint n l i j) Q.
Proof.
  intros Hij Hj Hn Hl HQ. apply wp_bind, wp_slice; [done..|]. intros Hlen.
  rewrite decide_True by lia. apply HQ.
  pose proof (be_val_bound (take (j - i) (drop i l))) as Hv.
  rewrite Hlen in Hv. subst n. apply Hv. auto with ryke.
Qed.

(** ** Accesses at the head of a constructed buffer *)
Lemma slice_app_l l k i j : (i <= j)%nat -> (j <= length l)%nat ->
  slice (l ++ k) i j = slice l i j.
Proof.
  intros. rewrite !slice_ok by (rewrite ?length_app; lia).
  rewrite drop_app_le, take_app_le by (rewrite ?length_drop; lia). done.
Qed.

Lemma slice_app_r l k n i j : length l = n ->
  slice (l ++ k) (n + i) (n + j) = slice k i j.
Proof.
  intros <-. unfold slice. rewrite length_app, drop_app_add.
  replace (length l + j - (length l + i))%nat with (j - i)%nat by lia.
  do 2 case_decide; done || lia.
Qed.

Lemma slice_from_app l k n : length l = n -> slice_from (l ++ k) n = Ok k.
Proof.
  intros <-. rewrite slice_from_ok by (rewrite length_app; lia). by rewrite drop_app_length.
Qed.

Lemma slice_app_mid l k r i j : length l = i -> (i + length k)%nat = j ->
  slice (l ++ k ++ r) i j = Ok k.
Proof.
  intros <- <-. rewrite slice_ok by (rewrite ?length_app; lia).
  rewrite drop_app_length, take_app_le by lia. by rewrite firstn_all2 by lia.
Qed.

Lemma slice_app_head l r j : length l = j -> slice (l ++ r) 0 j = Ok l.
Proof. intros <-. by apply (slice_app_mid [] l r). Qed.

Lemma slice_app_end l k i j : length l = i -> (i + length k)%nat = j ->
  slice (l ++ k) i j = Ok k.
Proof. intros. rewrite <- (app_nil_r k) at 1. by apply slice_app_mid. Qed.

(** One step of the calculus: decompose a bind or an access. *)
Ltac wp_step :=
  match goal with
  | |- wp (_ ≫= _) _ => apply wp_bind
  | |- wp (_ <$> _) _ => apply wp_fmap
  | |- wp (Ok _) _ => cbn [wp]
  | |- wp (Err _) _ => exact I
  | |- wp (idx _ _) _ => apply wp_idx_ok; [try lia|try done|intros ? ?]
  | |- wp (u16be _ _) _ => apply wp_u16be; [try lia|try done|intros ? ?]
  | |- wp (be_uint _ _ _ _) _ => apply wp_be_uint; [try lia|try lia|try lia|try done|intros ? ?]
  | |- wp (slice _ _ _) _ => apply wp_slice; [try lia|try lia|intros ?]
  | |- wp (slice_from _ _) _ => apply wp_slice_from; [try lia|]
  | |- wp (ok_or _ _) _ => apply wp_ok_or; intros ? ?
  | |- wp (if decide _ then _ else _) _ => case_decide
  end.
Ltac wp_steps := repeat wp_step.

(** Invert successful runs: [H : (x ← m; k x) = Ok b]. *)
Ltac ok_inv :=
  repeat match goal with
  | H : (_ ≫= _) = Ok _ |- _ => apply bind_Ok in H; destruct H as (? & ? & H)
  | H : ok_or _ _ = Ok _ |- _ => apply ok_or_Ok in H
  | H : Ok _ = Ok _ |- _ => injection H; clear H; intros; subst
  | H : Err _ = Ok _ |- _ => discriminate H
  | H : Panic = Ok _ |- _ => discriminate H
  | H : (if decide _ then _ else _) = Ok _ |- _ => case_decide
  end.
