(* ===== verification/Wire.v ===== *)
(** * Repeated wire elements

    The parsers of payload.rs read sequences of self-delimiting elements in two
    ways: a counted loop ([for _ in 0..count]) and a loop to the end of the
    buffer ([while off < body.len()]).  Both loops are written once here, over
    the element's parser, and their laws are proved against the interface
    [Element] that each element type implements. *)
From S2P Require Import Prelude Outcome.

(** [for _ in 0..n { let (x, used) = parse(&buf[off..lim])?; out.push(x); off += used; }] *)
Fixpoint parse_count {A} (parse : bytes -> outcome (A * nat)) (buf : bytes) (lim : nat)
    (n off : nat) : outcome (list A * nat) :=
  match n with
  | O => Ok ([], off)
  | S n' =>
      b ← slice buf off lim;
      '(x, used) ← parse b;
      '(xs, off') ← parse_count parse buf lim n' (off + used)%nat;
      Ok (x :: xs, off')
  end.

(** [while off < body.len() { let (x, used) = parse(&body[off..])?; out.push(x); off += used; }]
    Running out of fuel counts as a panic, so the absence of panics includes
    the loop's termination. *)
Fixpoint parse_all {A} (parse : bytes -> outcome (A * nat)) (body : bytes)
    (fuel off : nat) : outcome (list A) :=
  match fuel with
  | O => Panic
  | S f =>
      if decide (off < length body)%nat then
        b ← slice_from body off;
        '(x, used) ← parse b;
        xs ← parse_all parse body f (off + used)%nat;
        Ok (x :: xs)
      else Ok []
  end.

(** [for (i, x) in xs.iter().enumerate() { x.write(&mut out, i + 1 == xs.len()) }] *)
Fixpoint write_all {A} (write : A -> bool -> bytes) (xs : list A) : bytes :=
  match xs with
  | [] => []
  | x :: rest => write x (match rest with [] => true | _ => false end) ++ write_all write rest
  end.

(** What an element's parser and writer promise to the loops. *)
Class Element {A} (parse : bytes -> outcome (A * nat)) (write : A -> bool -> bytes)
    (wf : A -> Prop) : Prop := {
  elem_bytes_ok x l : wf x -> bytes_ok (write x l);
  elem_nonempty x l : (0 < length (write x l))%nat;
  elem_last x l : length (write x l) = length (write x true);
  elem_roundtrip x l rest : wf x -> parse (write x l ++ rest) = Ok (x, length (write x l));
  elem_wp b : bytes_ok b ->
    wp (parse b) (fun '(x, used) =>
      wf x /\ (0 < used <= length b)%nat /\ (length (write x true) <= used)%nat) }.

Section element.
Context {A : Type} {parse : bytes -> outcome (A * nat)} {write : A -> bool -> bytes}
  {wf : A -> Prop} `{!Element parse write wf}.
Implicit Types (xs : list A) (pre rest : bytes).

Lemma write_all_ok xs : Forall wf xs -> bytes_ok (write_all write xs).
Proof.
  induction 1 as [|x xs Hx _ IH]; simpl; [auto with ryke|].
  apply bytes_ok_app; [by apply elem_bytes_ok|done].
Qed.

Lemma length_write_all_cons x xs :
  length (write_all write (x :: xs)) = (length (write x true) + length (write_all write xs))%nat.
Proof. cbn [write_all]. by rewrite length_app, elem_last. Qed.

Lemma write_all_count xs : (length xs <= length (write_all write xs))%nat.
Proof.
  induction xs as [|x xs IH]; [done|]. rewrite length_write_all_cons. cbn [length].
  pose proof (elem_nonempty x true). lia.
Qed.

(** *** The loops read back what was written *)
Lemma parse_all_write pre xs fuel : Forall wf xs -> (length xs < fuel)%nat ->
  parse_all parse (pre ++ write_all write xs) fuel (length pre) = Ok xs.
Proof.
  intros Hxs. revert pre fuel. induction Hxs as [|x xs Hx Hxs IH]; intros pre fuel Hf;
    (destruct fuel as [|fuel]; [cbn in Hf; lia|]); cbn [parse_all].
  - by rewrite decide_False by (rewrite length_app; simpl; lia).
  - cbn [write_all]. set (w := write x _).
    assert (Hw : (0 < length w)%nat) by apply elem_nonempty.
    rewrite decide_True by (rewrite !length_app; lia).
    assert (E : parse (w ++ write_all write xs) = Ok (x, length w)) by by apply elem_roundtrip.
    rewrite slice_from_app by done. cbn [mbind outcome_bind]. rewrite E. cbn [mbind outcome_bind].
    rewrite app_assoc, <- length_app, IH; [done|cbn in Hf; lia].
Qed.

Lemma parse_count_write pre xs rest lim : Forall wf xs ->
  lim = (length pre + length (write_all write xs))%nat ->
  parse_count parse (pre ++ write_all write xs ++ rest) lim (length xs) (length pre) =
    Ok (xs, lim).
Proof.
  intros Hxs. revert pre. induction Hxs as [|x xs Hx Hxs IH]; intros pre Hlim;
    cbn [parse_count length].
  - cbn in Hlim. by rewrite Hlim, Nat.add_0_r.
  - rewrite length_write_all_cons in Hlim. cbn [write_all]. set (w := write x _).
    assert (Hw : length w = length (write x true)) by apply elem_last.
    assert (E : parse (w ++ write_all write xs) = Ok (x, length w)) by by apply elem_roundtrip.
    rewrite slice_app_mid by (rewrite ?length_app; lia).
    cbn [mbind outcome_bind]. rewrite E. cbn [mbind outcome_bind].
    rewrite <- (app_assoc w), app_assoc, <- length_app.
    rewrite IH by (rewrite length_app; lia). done.
Qed.

(** *** The loops never panic on arbitrary bytes *)
Lemma parse_all_wp body fuel off : bytes_ok body -> (length body - off < fuel)%nat ->
  wp (parse_all parse body fuel off) (fun xs =>
    Forall wf xs /\ (length (write_all write xs) <= length body - off)%nat).
Proof.
  intros Hb. revert off. induction fuel as [|fuel IH]; intros off Hf; [lia|].
  cbn [parse_all]. case_decide as Hoff; [|by split; [constructor|simpl; lia]].
  wp_steps. eapply wp_mono; [|apply elem_wp; auto with ryke].
  intros [x used] (Hx & Hused & Hlen). rewrite length_drop in Hused.
  apply wp_bind. eapply wp_mono; [|apply IH; lia]. intros xs [Hxs Hl]. cbn [wp].
  split; [by constructor|]. rewrite length_write_all_cons. lia.
Qed.

Lemma parse_count_wp buf lim n off : bytes_ok buf -> (off <= lim)%nat -> (lim <= length buf)%nat ->
  wp (parse_count parse buf lim n off) (fun '(xs, off') =>
    Forall wf xs /\ length xs = n /\ (off + length (write_all write xs) <= off')%nat /\
    (off' <= lim)%nat).
Proof.
  intros Hb. revert off. induction n as [|n IH]; intros off Hoff Hlim; cbn [parse_count].
  - cbn [wp write_all length]. split_and!; [constructor|done|lia..].
  - wp_steps. eapply wp_mono; [|apply elem_wp; auto with ryke].
    intros [x used] (Hx & Hused & Hlen). rewrite length_take, length_drop in Hused.
    apply wp_bind. eapply wp_mono; [|apply IH; lia]. intros [xs off'] (Hxs & Hn & Hl & Hl').
    cbn [wp]. split_and!; [by constructor|cbn [length]; lia| |lia].
    rewrite length_write_all_cons. lia.
Qed.
End element.
