(* ===== verification/Message.v ===== *)
(** * IKEv2 message framing ([src/src/ikev2/message.rs])

    The 28-byte header, the generic payload chain with its iterator, and the
    message builder. *)
From S2P Require Import Prelude Outcome.

(** ** Code points *)
Inductive ExchangeType :=
| IkeSaInit | IkeAuth | CreateChildSa | Informational
| OtherExchange (v : Z).

#[export] Instance ExchangeType_eq_dec : EqDecision ExchangeType.
Proof. solve_decision. Defined.

Definition ExchangeType_from_u8 (value : Z) : ExchangeType :=
  match value with
  | 34 => IkeSaInit
  | 35 => IkeAuth
  | 36 => CreateChildSa
  | 37 => Informational
  | other => OtherExchange other
  end.

Definition ExchangeType_to_u8 (t : ExchangeType) : Z :=
  match t with
  | IkeSaInit => 34
  | IkeAuth => 35
  | CreateChildSa => 36
  | Informational => 37
  | OtherExchange value => value
  end.

Inductive PayloadType :=
| NoNext | PSecurityAssociation | PKeyExchange | PIdInitiator | PIdResponder
| PCertificate | PCertRequest | PAuthentication | PNonce | PNotify | PDelete
| PVendorId | PTrafficSelectorInitiator | PTrafficSelectorResponder
| PEncrypted | PConfiguration | PEap | PEncryptedFragment
| POther (v : Z).

#[export] Instance PayloadType_eq_dec : EqDecision PayloadType.
Proof. solve_decision. Defined.

Definition PayloadType_from_u8 (value : Z) : PayloadType :=
  match value with
  | 0 => NoNext
  | 33 => PSecurityAssociation
  | 34 => PKeyExchange
  | 35 => PIdInitiator
  | 36 => PIdResponder
  | 37 => PCertificate
  | 38 => PCertRequest
  | 39 => PAuthentication
  | 40 => PNonce
  | 41 => PNotify
  | 42 => PDelete
  | 43 => PVendorId
  | 44 => PTrafficSelectorInitiator
  | 45 => PTrafficSelectorResponder
  | 46 => PEncrypted
  | 47 => PConfiguration
  | 48 => PEap
  | 53 => PEncryptedFragment
  | other => POther other
  end.

Definition PayloadType_to_u8 (t : PayloadType) : Z :=
  match t with
  | NoNext => 0
  | PSecurityAssociation => 33
  | PKeyExchange => 34
  | PIdInitiator => 35
  | PIdResponder => 36
  | PCertificate => 37
  | PCertRequest => 38
  | PAuthentication => 39
  | PNonce => 40
  | PNotify => 41
  | PDelete => 42
  | PVendorId => 43
  | PTrafficSelectorInitiator => 44
  | PTrafficSelectorResponder => 45
  | PEncrypted => 46
  | PConfiguration => 47
  | PEap => 48
  | PEncryptedFragment => 53
  | POther value => value
  end.

(** A value the wire can carry and that reads back as itself: [Other] is used
    only for the octets that have no constructor. *)
Definition PayloadType_wf (t : PayloadType) : Prop :=
  u8_ok (PayloadType_to_u8 t) /\ PayloadType_from_u8 (PayloadType_to_u8 t) = t.
Definition ExchangeType_wf (t : ExchangeType) : Prop :=
  u8_ok (ExchangeType_to_u8 t) /\ ExchangeType_from_u8 (ExchangeType_to_u8 t) = t.

(** ** Flags *)
Record Flags := mkFlags { fl_initiator : bool; fl_version : bool; fl_response : bool }.

#[export] Instance Flags_eq_dec : EqDecision Flags.
Proof. solve_decision. Defined.

Definition FLAG_INITIATOR : Z := 0x08.
Definition FLAG_VERSION : Z := 0x10.
Definition FLAG_RESPONSE : Z := 0x20.

Definition Flags_from_u8 (value : Z) : Flags := {|
  fl_initiator := negb (Z.land value FLAG_INITIATOR =? 0);
  fl_version := negb (Z.land value FLAG_VERSION =? 0);
  fl_response := negb (Z.land value FLAG_RESPONSE =? 0) |}.

Definition Flags_to_u8 (f : Flags) : Z :=
  let value := 0 in
  let value := if fl_initiator f then Z.lor value FLAG_INITIATOR else value in
  let value := if fl_version f then Z.lor value FLAG_VERSION else value in
  if fl_response f then Z.lor value FLAG_RESPONSE else value.

(** ** The header *)
Record IkeHeader := mkIkeHeader {
  initiator_spi : Z;
  responder_spi : Z;
  next_payload : PayloadType;
  major_version : Z;
  minor_version : Z;
  exchange_type : ExchangeType;
  flags : Flags;
  message_id : Z;
  hdr_length : Z }.

#[export] Instance IkeHeader_eq_dec : EqDecision IkeHeader.
Proof. solve_decision. Defined.

Definition IkeHeader_LEN : nat := 28.

Definition IkeHeader_parse (input : bytes) : outcome IkeHeader :=
  if decide (length input < IkeHeader_LEN)%nat
  then Err (Truncated IkeHeader_LEN (length input))
  else
    version ← idx input 17;
    spi_i ← be_uint 8 input 0 8;
    spi_r ← be_uint 8 input 8 16;
    np ← idx input 16;
    et ← idx input 18;
    fl ← idx input 19;
    mid ← be_uint 4 input 20 24;
    len ← be_uint 4 input 24 28;
    Ok {| initiator_spi := spi_i;
          responder_spi := spi_r;
          next_payload := PayloadType_from_u8 np;
          major_version := Z.shiftr version 4;
          minor_version := Z.land version 0x0f;
          exchange_type := ExchangeType_from_u8 et;
          flags := Flags_from_u8 fl;
          message_id := mid;
          hdr_length := len |}.

Definition IkeHeader_to_bytes (h : IkeHeader) : bytes :=
  be_bytes 8 (initiator_spi h) ++
  be_bytes 8 (responder_spi h) ++
  [PayloadType_to_u8 (next_payload h);
   Z.lor (as_u8 (Z.shiftl (major_version h) 4)) (Z.land (minor_version h) 0x0f);
   ExchangeType_to_u8 (exchange_type h);
   Flags_to_u8 (flags h)] ++
  be_bytes 4 (message_id h) ++
  be_bytes 4 (hdr_length h).

(** The values an [IkeHeader] can hold, with the two version fields in the
    four bits the wire gives each of them. *)
Record IkeHeader_wf (h : IkeHeader) : Prop := {
  wf_spi_i : u64_ok (initiator_spi h);
  wf_spi_r : u64_ok (responder_spi h);
  wf_next : PayloadType_wf (next_payload h);
  wf_major : 0 <= major_version h < 16;
  wf_minor : 0 <= minor_version h < 16;
  wf_exchange : ExchangeType_wf (exchange_type h);
  wf_mid : u32_ok (message_id h);
  wf_len : u32_ok (hdr_length h) }.

(** [IkeHeader { next_payload, length, ..h }] *)
Definition with_next_len (h : IkeHeader) (np : PayloadType) (len : Z) : IkeHeader := {|
  initiator_spi := initiator_spi h;
  responder_spi := responder_spi h;
  next_payload := np;
  major_version := major_version h;
  minor_version := minor_version h;
  exchange_type := exchange_type h;
  flags := flags h;
  message_id := message_id h;
  hdr_length := len |}.

(** ** The payload chain *)
Record RawPayload := mkRawPayload {
  payload_type : PayloadType;
  critical : bool;
  data : bytes }.

#[export] Instance RawPayload_eq_dec : EqDecision RawPayload.
Proof. solve_decision. Defined.

Record PayloadIter := mkPayloadIter {
  it_next : PayloadType;
  it_rest : bytes;
  it_done : bool }.

Definition payloads (first : PayloadType) (body : bytes) : PayloadIter :=
  {| it_next := first; it_rest := body; it_done := false |}.

(** The part of [PayloadIter::next] that reads one payload. *)
Definition PayloadIter_read (it : PayloadIter) : outcome (RawPayload * PayloadIter) :=
  let rest := it_rest it in
  if decide (length rest < 4)%nat then Err (Truncated 4 (length rest)) else
  np ← idx rest 0;
  cb ← idx rest 1;
  len ← u16be rest 2;
  if decide (usize len < 4)%nat then Err (ShortPayload len) else
  if decide (length rest < usize len)%nat then Err (BadLength (usize len) (length rest)) else
  d ← slice rest 4 (usize len);
  rest' ← slice_from rest (usize len);
  Ok ({| payload_type := it_next it; critical := negb (Z.land cb 0x80 =? 0); data := d |},
      {| it_next := PayloadType_from_u8 np; it_rest := rest'; it_done := it_done it |}).

Definition iter_done (it : PayloadIter) : PayloadIter :=
  {| it_next := it_next it; it_rest := it_rest it; it_done := true |}.

(** [Iterator::next]: the item it yields, if any, and the iterator's new state;
    every error sets [done]. *)
Definition PayloadIter_next (it : PayloadIter) : option (outcome RawPayload) * PayloadIter :=
  if it_done it || bool_decide (it_next it = NoNext) then (None, it)
  else match PayloadIter_read it with
       | Ok (p, it') => (Some (Ok p), it')
       | Err e => (Some (Err e), iter_done it)
       | Panic => (Some Panic, iter_done it)
       end.

(** The items an iterator yields, in order, reading at most [fuel] of them. *)
Fixpoint drain (fuel : nat) (it : PayloadIter) : list (outcome RawPayload) :=
  match fuel with
  | O => []
  | S f => match PayloadIter_next it with
           | (None, _) => []
           | (Some r, it') => r :: drain f it'
           end
  end.

(** All the items of [payloads(first, body)]: a payload is at least four bytes
    long, so [length body + 2] calls reach the end ([drain_enough]). *)
Definition payload_items (first : PayloadType) (body : bytes) : list (outcome RawPayload) :=
  drain (length body + 2) (payloads first body).

(** [for p in payloads(..) { let p = p?; st = f(st, p)?; }] *)
Fixpoint for_each {S} (f : S -> RawPayload -> outcome S)
    (items : list (outcome RawPayload)) (st : S) : outcome S :=
  match items with
  | [] => Ok st
  | r :: rest => p ← r; st' ← f st p; for_each f rest st'
  end.

(** [payloads(..).flatten()]: errors are skipped. *)
Fixpoint flatten (items : list (outcome RawPayload)) : outcome (list RawPayload) :=
  match items with
  | [] => Ok []
  | Ok p :: rest => ps ← flatten rest; Ok (p :: ps)
  | Err _ :: rest => flatten rest
  | Panic :: _ => Panic
  end.

(** ** Building *)
Abbreviation PayloadChain := (list (PayloadType * bytes)).

Definition first_payload_type (ps : PayloadChain) : PayloadType :=
  match ps with [] => NoNext | (t, _) :: _ => t end.

Fixpoint encode_payload_chain (ps : PayloadChain) : bytes :=
  match ps with
  | [] => []
  | (_, body) :: rest =>
      let next := first_payload_type rest in
      let len := len16 (4 + length body) in
      [PayloadType_to_u8 next] ++ [0] ++ be_bytes 2 len ++ body ++ encode_payload_chain rest
  end.

Record MessageBuilder := mkBuilder { mb_header : IkeHeader; mb_payloads : PayloadChain }.

Definition MessageBuilder_new (h : IkeHeader) : MessageBuilder :=
  {| mb_header := h; mb_payloads := [] |}.

Definition MessageBuilder_push (b : MessageBuilder) (t : PayloadType) (body : bytes)
    : MessageBuilder :=
  {| mb_header := mb_header b; mb_payloads := mb_payloads b ++ [(t, body)] |}.

Definition MessageBuilder_build (b : MessageBuilder) : bytes :=
  let chain := encode_payload_chain (mb_payloads b) in
  let header := with_next_len (mb_header b) (first_payload_type (mb_payloads b))
                  (as_u32 (Z.of_nat (IkeHeader_LEN + length chain))) in
  IkeHeader_to_bytes header ++ chain.

(** ** Code points: the octet and the constructor determine each other *)
Lemma ExchangeType_to_from v : ExchangeType_to_u8 (ExchangeType_from_u8 v) = v.
Proof.
  unfold ExchangeType_from_u8.
  destruct v as [|p|p]; try done; do 7 (destruct p as [p|p|]; try done).
Qed.

Lemma PayloadType_to_from v : PayloadType_to_u8 (PayloadType_from_u8 v) = v.
Proof.
  unfold PayloadType_from_u8.
  destruct v as [|p|p]; try done; do 7 (destruct p as [p|p|]; try done).
Qed.

Lemma ExchangeType_from_u8_wf v : byte_ok v -> ExchangeType_wf (ExchangeType_from_u8 v).
Proof. intros. split; by rewrite ExchangeType_to_from. Qed.

Lemma PayloadType_from_u8_wf v : byte_ok v -> PayloadType_wf (PayloadType_from_u8 v).
Proof. intros. split; by rewrite PayloadType_to_from. Qed.

Lemma PayloadType_to_u8_byte t : PayloadType_wf t -> byte_ok (PayloadType_to_u8 t).
Proof. by intros []. Qed.

Lemma ExchangeType_to_u8_byte t : ExchangeType_wf t -> byte_ok (ExchangeType_to_u8 t).
Proof. by intros []. Qed.

Lemma Flags_from_to f : Flags_from_u8 (Flags_to_u8 f) = f.
Proof. by destruct f as [[] [] []]. Qed.

Lemma Flags_to_from v : byte_ok v -> Flags_to_u8 (Flags_from_u8 v) = Z.land v 0x38.
Proof.
  intros Hv. apply Z.eqb_eq.
  apply (byte_enum (fun v => Flags_to_u8 (Flags_from_u8 v) =? Z.land v 0x38)); done.
Qed.

Lemma Flags_to_u8_byte f : byte_ok (Flags_to_u8 f).
Proof. destruct f as [[] [] []]; by split. Qed.

#[export] Hint Resolve ExchangeType_from_u8_wf PayloadType_from_u8_wf
  PayloadType_to_u8_byte ExchangeType_to_u8_byte Flags_to_u8_byte : ryke.

(** ** The version octet *)
Lemma version_split a b : 0 <= a < 16 -> 0 <= b < 16 ->
  let v := Z.lor (as_u8 (Z.shiftl a 4)) (Z.land b 0x0f) in
  byte_ok v /\ Z.shiftr v 4 = a /\ Z.land v 0x0f = b.
Proof.
  intros Ha Hb. unfold byte_ok.
  pose (P a b := let v := Z.lor (as_u8 (Z.shiftl a 4)) (Z.land b 0x0f) in
    (0 <=? v) && (v <? 256) && (Z.shiftr v 4 =? a) && (Z.land v 0x0f =? b)).
  assert (HP : P a b = true) by (apply nibble_enum; [vm_compute|..]; done).
  unfold P in HP. lia.
Qed.

Lemma version_join v : byte_ok v ->
  0 <= Z.shiftr v 4 < 16 /\ 0 <= Z.land v 0x0f < 16 /\
  Z.lor (as_u8 (Z.shiftl (Z.shiftr v 4) 4)) (Z.land (Z.land v 0x0f) 0x0f) = v.
Proof.
  intros Hv.
  pose (P v := (0 <=? Z.shiftr v 4) && (Z.shiftr v 4 <? 16) && (0 <=? Z.land v 0x0f) &&
    (Z.land v 0x0f <? 16) &&
    (Z.lor (as_u8 (Z.shiftl (Z.shiftr v 4) 4)) (Z.land (Z.land v 0x0f) 0x0f) =? v)).
  assert (HP : P v = true) by (apply byte_enum; [vm_compute|]; done).
  unfold P in HP. lia.
Qed.

(** ** The header *)
Lemma length_IkeHeader_to_bytes h : length (IkeHeader_to_bytes h) = IkeHeader_LEN.
Proof. done. Qed.

Lemma IkeHeader_to_bytes_ok h : IkeHeader_wf h -> bytes_ok (IkeHeader_to_bytes h).
Proof.
  intros []. unfold IkeHeader_to_bytes.
  destruct (version_split (major_version h) (minor_version h)) as (? & _); [done..|].
  auto 10 with ryke.
Qed.

(** Parsing reads back a serialised header, whatever follows it. *)
Lemma IkeHeader_parse_app h rest : IkeHeader_wf h ->
  IkeHeader_parse (IkeHeader_to_bytes h ++ rest) = Ok h.
Proof.
  intros [H1 H2 [H3 H3'] H4 H5 [H6 H6'] H7 H8]. unfold IkeHeader_parse.
  rewrite decide_False by (rewrite length_app, length_IkeHeader_to_bytes; lia).
  destruct (version_split (major_version h) (minor_version h)) as (? & Hmaj & Hmin); [done..|].
  transitivity (Ok {|
    initiator_spi := be_val (be_bytes 8 (initiator_spi h));
    responder_spi := be_val (be_bytes 8 (responder_spi h));
    next_payload := PayloadType_from_u8 (PayloadType_to_u8 (next_payload h));
    major_version := Z.shiftr (Z.lor (as_u8 (Z.shiftl (major_version h) 4))
                                 (Z.land (minor_version h) 0x0f)) 4;
    minor_version := Z.land (Z.lor (as_u8 (Z.shiftl (major_version h) 4))
                                 (Z.land (minor_version h) 0x0f)) 0x0f;
    exchange_type := ExchangeType_from_u8 (ExchangeType_to_u8 (exchange_type h));
    flags := Flags_from_u8 (Flags_to_u8 (flags h));
    message_id := be_val (be_bytes 4 (message_id h));
    hdr_length := be_val (be_bytes 4 (hdr_length h)) |}); [reflexivity|].
  rewrite Hmaj, Hmin, H3', H6', Flags_from_to, !be_val_be_bytes by done.
  by destruct h.
Qed.

(** The parser never panics, and what it returns is well formed. *)
Lemma IkeHeader_parse_wp input : bytes_ok input -> wp (IkeHeader_parse input) IkeHeader_wf.
Proof.
  intros Hin. unfold IkeHeader_parse, IkeHeader_LEN. wp_steps.
  match goal with H : byte_ok ?v |- context [Z.shiftr ?v 4] =>
    destruct (version_join v H) as (? & ? & _) end.
  constructor; simpl; try done; auto with ryke.
Qed.

Lemma IkeHeader_parse_wp_len input : bytes_ok input ->
  wp (IkeHeader_parse input) (fun h => IkeHeader_wf h /\ (IkeHeader_LEN <= length input)%nat).
Proof.
  intros Hin. apply wp_conj; [by apply IkeHeader_parse_wp|].
  unfold IkeHeader_parse. case_decide; [done|].
  pose proof (IkeHeader_parse_wp input Hin) as Hw. unfold IkeHeader_parse in Hw.
  rewrite decide_False in Hw by done. eapply wp_mono; [|exact Hw]. intros _ _. lia.
Qed.

Lemma IkeHeader_parse_Ok_length input h :
  IkeHeader_parse input = Ok h -> (IkeHeader_LEN <= length input)%nat.
Proof. unfold IkeHeader_parse. case_decide; [done|lia]. Qed.

(** The wire form determines the header up to the reserved flag bits, which
    parsing drops. *)
Definition clear_reserved_flags (input : bytes) : bytes :=
  take 19 input ++ [Z.land (nth 19 input 0) 0x38] ++ take 8 (drop 20 input).

Lemma be_uint_Ok n l i j x : be_uint n l i j = Ok x ->
  x = be_val (take (j - i) (drop i l)) /\ length (take (j - i) (drop i l)) = n.
Proof.
  unfold be_uint. intros H. ok_inv. apply slice_Ok in H0 as [_ ->]. done.
Qed.

Lemma list_28_split (l : bytes) : (28 <= length l)%nat ->
  exists b0 b1 b2 b3 b4 b5 b6 b7 c0 c1 c2 c3 c4 c5 c6 c7 np v et fl
         m0 m1 m2 m3 l0 l1 l2 l3 rest,
  l = [b0; b1; b2; b3; b4; b5; b6; b7; c0; c1; c2; c3; c4; c5; c6; c7;
       np; v; et; fl; m0; m1; m2; m3; l0; l1; l2; l3] ++ rest.
Proof.
  intros Hl. do 28 (destruct l as [|? l]; [simpl in Hl; lia|]).
  do 28 eexists. exists l. reflexivity.
Qed.

Lemma IkeHeader_to_bytes_parse input h : bytes_ok input ->
  IkeHeader_parse input = Ok h -> IkeHeader_to_bytes h = clear_reserved_flags input.
Proof.
  intros Hin Hp. pose proof (IkeHeader_parse_Ok_length _ _ Hp) as Hlen.
  destruct (list_28_split input) as (b0&b1&b2&b3&b4&b5&b6&b7&c0&c1&c2&c3&c4&c5&c6&c7&np&v&et&fl&
    m0&m1&m2&m3&l0&l1&l2&l3&rest&->); [done|].
  assert (Hok := Hin). apply Forall_app in Hok as [Hok _]. rewrite !Forall_cons in Hok.
  unfold IkeHeader_parse in Hp. rewrite decide_False in Hp by lia.
  cbn -[be_val] in Hp. injection Hp as <-.
  unfold IkeHeader_to_bytes, clear_reserved_flags.
  cbn [initiator_spi responder_spi next_payload major_version minor_version
    exchange_type flags message_id hdr_length].
  rewrite PayloadType_to_from, ExchangeType_to_from, Flags_to_from by tauto.
  destruct (version_join v) as (_ & _ & ->); [tauto|].
  rewrite !be_bytes_of_val
    by (done || (repeat (apply bytes_ok_cons; [tauto|]); apply bytes_ok_nil)).
  done.
Qed.

(** ** The iterator *)
Definition RawPayload_wf (p : RawPayload) : Prop :=
  PayloadType_wf (payload_type p) /\ bytes_ok (data p) /\ Z.of_nat (4 + length (data p)) < 2 ^ 16.

(** Reading one payload: no panic, a well-formed payload, and progress by its
    length and the four octets of its generic header. *)
Lemma PayloadIter_read_wp it : PayloadType_wf (it_next it) -> bytes_ok (it_rest it) ->
  wp (PayloadIter_read it) (fun '(p, it') =>
    RawPayload_wf p /\ payload_type p = it_next it /\
    PayloadType_wf (it_next it') /\ bytes_ok (it_rest it') /\ it_done it' = it_done it /\
    length (it_rest it) = (4 + length (data p) + length (it_rest it'))%nat).
Proof.
  intros Hn Hr. unfold PayloadIter_read. wp_steps. simpl.
  unfold RawPayload_wf, u16_ok in *. simpl.
  rewrite length_drop. split_and!; auto with ryke; lia.
Qed.

Lemma PayloadIter_read_length it p it' : PayloadIter_read it = Ok (p, it') ->
  length (it_rest it) = (4 + length (data p) + length (it_rest it'))%nat.
Proof.
  unfold PayloadIter_read. intros H. ok_inv. simpl.
  match goal with H : slice _ _ _ = Ok _ |- _ => apply slice_Ok in H as [? ->] end.
  match goal with H : slice_from _ _ = Ok _ |- _ =>
    rewrite slice_from_ok in H by lia; injection H as <- end.
  rewrite length_take, !length_drop. lia.
Qed.

Lemma drain_done n it : it_done it = true -> drain n it = [].
Proof. intros H. destruct n; simpl; [done|]. unfold PayloadIter_next. by rewrite H. Qed.

Lemma drain_S n it : (length (it_rest it) + 2 <= n)%nat -> drain (S n) it = drain n it.
Proof.
  revert it. induction n as [|n IH]; intros it Hn; [lia|].
  change (drain (S (S n)) it) with
    (match PayloadIter_next it with (None, _) => [] | (Some r, it') => r :: drain (S n) it' end).
  change (drain (S n) it) with
    (match PayloadIter_next it with (None, _) => [] | (Some r, it') => r :: drain n it' end).
  unfold PayloadIter_next. destruct (it_done it || _); [done|].
  destruct (PayloadIter_read it) as [[p it']|e|] eqn:E.
  - apply PayloadIter_read_length in E. rewrite IH by lia. done.
  - by rewrite !drain_done.
  - by rewrite !drain_done.
Qed.

(** The iterator is exhausted after [length body + 2] calls: more fuel yields
    the same items. *)
Lemma drain_enough n first body : (length body + 2 <= n)%nat ->
  drain n (payloads first body) = payload_items first body.
Proof.
  unfold payload_items. induction 1 as [|n Hn IH]; [done|].
  by rewrite drain_S by (simpl; lia).
Qed.

Lemma drain_wp n it : PayloadType_wf (it_next it) -> bytes_ok (it_rest it) ->
  Forall (fun r => wp r RawPayload_wf) (drain n it).
Proof.
  revert it. induction n as [|n IH]; intros it Hn Hr; simpl; [done|].
  unfold PayloadIter_next. destruct (it_done it || _); [done|].
  pose proof (PayloadIter_read_wp it Hn Hr) as Hw.
  destruct (PayloadIter_read it) as [[p it']|e|]; simpl in Hw; [|by constructor; [|rewrite drain_done]|done].
  destruct Hw as (Hp & _ & Hn' & Hr' & _). constructor; [exact Hp|auto].
Qed.

Lemma payload_items_wp first body : PayloadType_wf first -> bytes_ok body ->
  Forall (fun r => wp r RawPayload_wf) (payload_items first body).
Proof. intros. by apply drain_wp. Qed.

(** Only the last item can be an error. *)
Lemma drain_shape n it : exists ps (e : list IkeError),
  (length e <= 1)%nat /\
  (PayloadType_wf (it_next it) -> bytes_ok (it_rest it) ->
   drain n it = (Ok <$> ps) ++ (Err <$> e)).
Proof.
  revert it. induction n as [|n IH]; intros it; simpl; [by exists [], []; split; [simpl; lia|]|].
  unfold PayloadIter_next. destruct (it_done it || _); [by exists [], []; split; [simpl; lia|]|].
  destruct (PayloadIter_read it) as [[p it']|e|] eqn:E.
  - destruct (IH it') as (ps & e & He & Heq). exists (p :: ps), e. split; [done|].
    intros Hn Hr. pose proof (PayloadIter_read_wp it Hn Hr) as Hw. rewrite E in Hw.
    destruct Hw as (_ & _ & Hn' & Hr' & _). simpl. by rewrite Heq.
  - exists [], [e]. split; [simpl; lia|]. intros. by rewrite drain_done.
  - exists [], []. split; [simpl; lia|]. intros Hn Hr.
    pose proof (PayloadIter_read_wp it Hn Hr) as Hw. by rewrite E in Hw.
Qed.

(** ** Loops over the payloads *)
Lemma for_each_wp {S} (f : S -> RawPayload -> outcome S) (I : S -> Prop) items st :
  Forall (fun r => wp r RawPayload_wf) items -> I st ->
  (forall st p, I st -> RawPayload_wf p -> wp (f st p) I) ->
  wp (for_each f items st) I.
Proof.
  intros Hitems Hst Hf. revert st Hst. induction Hitems as [|r items Hr _ IH]; intros st Hst; [done|].
  cbn [for_each]. apply wp_bind. eapply wp_mono; [|exact Hr]. intros p Hp.
  apply wp_bind. eapply wp_mono; [|by apply Hf]. auto.
Qed.

Lemma for_each_app {S} (f : S -> RawPayload -> outcome S) xs ys st :
  for_each f (xs ++ ys) st = (st' ← for_each f xs st; for_each f ys st').
Proof.
  revert st. induction xs as [|r xs IH]; intros st; [done|]. cbn [for_each app].
  destruct r as [p|e|]; [|done..]. cbn. destruct (f st p); [apply IH|done..].
Qed.

Lemma flatten_wp items : Forall (fun r => wp r RawPayload_wf) items ->
  wp (flatten items) (Forall RawPayload_wf).
Proof.
  induction 1 as [|r items Hr _ IH]; [by constructor|].
  destruct r as [p|e|]; simpl in *; [|done..].
  apply wp_bind. eapply wp_mono; [|exact IH]. intros ps Hps. by constructor.
Qed.

Lemma flatten_Ok ps : flatten (Ok <$> ps) = Ok ps.
Proof. induction ps as [|p ps IH]; [done|]. cbn. by rewrite IH. Qed.

(** ** Encoding a chain and reading it back *)
Definition chain_entry_wf (e : PayloadType * bytes) : Prop :=
  PayloadType_wf e.1 /\ e.1 <> NoNext /\ bytes_ok e.2 /\ Z.of_nat (4 + length e.2) < 2 ^ 16.
Definition PayloadChain_wf (ps : PayloadChain) : Prop := Forall chain_entry_wf ps.

(** The payload a reader gets for a chain entry. *)
Definition raw (e : PayloadType * bytes) : RawPayload :=
  {| payload_type := e.1; critical := false; data := e.2 |}.

Lemma first_payload_type_wf ps : PayloadChain_wf ps -> PayloadType_wf (first_payload_type ps).
Proof. destruct 1 as [|[t b] ps [H _]]; [by split|done]. Qed.

Lemma encode_payload_chain_ok ps : PayloadChain_wf ps -> bytes_ok (encode_payload_chain ps).
Proof.
  intros Hps. pose proof (first_payload_type_wf ps Hps). clear H.
  induction Hps as [|[t b] ps (Ht & _ & Hb & _) Hps IH]; simpl; [auto with ryke|].
  assert (byte_ok 0) by (split; lia).
  apply bytes_ok_cons; [by apply PayloadType_to_u8_byte, first_payload_type_wf|].
  auto 10 with ryke.
Qed.

Lemma encode_payload_chain_cons t b ps :
  length (encode_payload_chain ((t, b) :: ps)) = (4 + length b + length (encode_payload_chain ps))%nat.
Proof. cbn -[be_bytes]. rewrite !length_app, length_be_bytes. lia. Qed.

Lemma encode_chain_length_le ps : (4 * length ps <= length (encode_payload_chain ps))%nat.
Proof.
  induction ps as [|[t b] ps IH]; [done|].
  rewrite encode_payload_chain_cons. cbn [length]. lia.
Qed.

(** Reading the head of an encoded chain. *)
Lemma read_encoded t b ps tail : chain_entry_wf (t, b) -> PayloadChain_wf ps ->
  PayloadIter_read (payloads t (encode_payload_chain ((t, b) :: ps) ++ tail)) =
  Ok (raw (t, b), payloads (first_payload_type ps) (encode_payload_chain ps ++ tail)).
Proof.
  intros (_ & _ & Hb & Hlen) Hps. cbn [snd] in *.
  destruct (first_payload_type_wf ps Hps) as [_ Hfp].
  set (L := len16 (4 + length b)).
  assert (HL : be_val (be_bytes 2 L) = Z.of_nat (4 + length b)).
  { unfold L, as_u16. rewrite be_val_be_bytes_mod. change (256 ^ Z.of_nat 2) with (2 ^ 16).
    rewrite Z.mod_mod, Z.mod_small; lia. }
  set (hd := [PayloadType_to_u8 (first_payload_type ps); 0] ++ be_bytes 2 L).
  assert (E : encode_payload_chain ((t, b) :: ps) ++ tail =
    hd ++ b ++ encode_payload_chain ps ++ tail).
  { unfold hd. cbn -[be_bytes]. fold L. by rewrite <- !app_assoc. }
  unfold PayloadIter_read. cbn [payloads it_rest it_next it_done]. rewrite E.
  assert (Hhd : length hd = 4%nat) by done.
  rewrite decide_False by (rewrite length_app; lia).
  change (idx (hd ++ ?r) 0) with (@Ok Z (PayloadType_to_u8 (first_payload_type ps))).
  change (idx (hd ++ ?r) 1) with (@Ok Z 0).
  change (u16be (hd ++ ?r) 2) with (Ok (be_val (be_bytes 2 L))).
  cbn [mbind outcome_bind]. rewrite HL, Nat2Z.id.
  rewrite decide_False by lia. rewrite decide_False by (rewrite !length_app; lia).
  rewrite slice_app_mid by lia. cbn [mbind outcome_bind].
  rewrite app_assoc, slice_from_app by (rewrite length_app; lia).
  cbn. by rewrite Hfp.
Qed.

Lemma drain_encoded ps tail n : PayloadChain_wf ps -> (length ps < n)%nat ->
  drain n (payloads (first_payload_type ps) (encode_payload_chain ps ++ tail)) =
  Ok <$> (raw <$> ps).
Proof.
  revert n. induction ps as [|[t b] ps IH]; intros n Hps Hn.
  - destruct n; done.
  - inversion_clear Hps as [|? ? He Hps']. destruct n as [|n]; [lia|].
    cbn [drain]. unfold PayloadIter_next.
    cbn [payloads it_done it_next first_payload_type orb].
    rewrite bool_decide_eq_false_2 by apply He.
    change (mkPayloadIter t ?r false) with (payloads t r).
    rewrite read_encoded by done. cbn [fmap list_fmap]. f_equal. apply IH; [done|simpl in Hn; lia].
Qed.

(** A chain is read back exactly, whatever bytes follow it. *)
Lemma payload_items_encoded ps tail : PayloadChain_wf ps ->
  payload_items (first_payload_type ps) (encode_payload_chain ps ++ tail) = Ok <$> (raw <$> ps).
Proof.
  intros. apply drain_encoded; [done|].
  pose proof (encode_chain_length_le ps). rewrite length_app. lia.
Qed.

Lemma payload_items_encoded' ps : PayloadChain_wf ps ->
  payload_items (first_payload_type ps) (encode_payload_chain ps) = Ok <$> (raw <$> ps).
Proof. intros. rewrite <- (app_nil_r (encode_payload_chain ps)). by apply payload_items_encoded. Qed.

(** ** Whole messages *)
Definition build_wf (b : MessageBuilder) : Prop :=
  IkeHeader_wf (mb_header b) /\ PayloadChain_wf (mb_payloads b) /\
  Z.of_nat (IkeHeader_LEN + length (encode_payload_chain (mb_payloads b))) < 2 ^ 32.

(** The header a built message carries. *)
Definition built_header (b : MessageBuilder) : IkeHeader :=
  with_next_len (mb_header b) (first_payload_type (mb_payloads b))
    (Z.of_nat (length (MessageBuilder_build b))).

Lemma with_next_len_wf h np len : IkeHeader_wf h -> PayloadType_wf np -> u32_ok len ->
  IkeHeader_wf (with_next_len h np len).
Proof. intros [] ? ?. by constructor. Qed.

Lemma length_build b : length (MessageBuilder_build b) =
  (IkeHeader_LEN + length (encode_payload_chain (mb_payloads b)))%nat.
Proof. unfold MessageBuilder_build. by rewrite length_app, length_IkeHeader_to_bytes. Qed.

Lemma build_eq b : build_wf b ->
  MessageBuilder_build b =
    IkeHeader_to_bytes (built_header b) ++ encode_payload_chain (mb_payloads b).
Proof.
  intros (_ & _ & Hlen). unfold built_header. rewrite length_build.
  unfold MessageBuilder_build, as_u32. by rewrite Z.mod_small by lia.
Qed.

Lemma built_header_wf b : build_wf b -> IkeHeader_wf (built_header b).
Proof.
  intros (Hh & Hps & Hlen). apply with_next_len_wf; [done|by apply first_payload_type_wf|].
  rewrite length_build. unfold u32_ok. lia.
Qed.

Lemma build_bytes_ok b : build_wf b -> bytes_ok (MessageBuilder_build b).
Proof.
  intros Hb. rewrite build_eq by done. destruct (Hb) as (_ & ? & _).
  apply bytes_ok_app; [by apply IkeHeader_to_bytes_ok, built_header_wf|by apply encode_payload_chain_ok].
Qed.

Lemma build_parse b : build_wf b ->
  IkeHeader_parse (MessageBuilder_build b) = Ok (built_header b) /\
  slice_from (MessageBuilder_build b) IkeHeader_LEN = Ok (encode_payload_chain (mb_payloads b)) /\
  payload_items (next_payload (built_header b)) (encode_payload_chain (mb_payloads b)) =
    Ok <$> (raw <$> mb_payloads b).
Proof.
  intros Hb. rewrite build_eq by done. split_and!.
  - by apply IkeHeader_parse_app, built_header_wf.
  - by apply slice_from_app.
  - destruct Hb as (_ & Hps & _). by apply payload_items_encoded'.
Qed.

(** ** Properties *)

(** Serialising a header and parsing it back gives the same header, whatever
    bytes follow the 28 octets of the header. *)
Theorem IkeHeader_roundtrip h rest : IkeHeader_wf h ->
  IkeHeader_parse (IkeHeader_to_bytes h ++ rest) = Ok h /\
  length (IkeHeader_to_bytes h) = IkeHeader_LEN /\ bytes_ok (IkeHeader_to_bytes h).
Proof.
  intros H. split_and!; [by apply IkeHeader_parse_app|done|by apply IkeHeader_to_bytes_ok].
Qed.

Definition example_header : IkeHeader := {|
  initiator_spi := 0x1122334455667788; responder_spi := 0x99aabbccddeeff00;
  next_payload := PSecurityAssociation; major_version := 2; minor_version := 0;
  exchange_type := IkeSaInit; flags := mkFlags false false true;
  message_id := 0; hdr_length := 80 |}.

Lemma example_header_wf : IkeHeader_wf example_header.
Proof. by repeat constructor. Qed.

Lemma IkeHeader_roundtrip_witness :
  IkeHeader_parse (IkeHeader_to_bytes example_header ++ [7; 8]) = Ok example_header.
Proof. apply (IkeHeader_roundtrip example_header [7; 8] example_header_wf). Defined.

(** Header parsing is total on every byte string: fewer than 28 octets are
    reported as truncated, and any 28 octets are accepted as a well-formed
    header whose serialisation is those octets with the reserved flag bits
    cleared. *)
Theorem IkeHeader_parse_total input : bytes_ok input ->
  if decide (length input < IkeHeader_LEN)%nat
  then IkeHeader_parse input = Err (Truncated IkeHeader_LEN (length input))
  else exists h, IkeHeader_parse input = Ok h /\ IkeHeader_wf h /\
         IkeHeader_to_bytes h = clear_reserved_flags input.
Proof.
  intros Hin. case_decide as Hlen; [unfold IkeHeader_parse; by rewrite decide_True|].
  pose proof (IkeHeader_parse_wp input Hin) as Hw.
  destruct (IkeHeader_parse input) as [h|e|] eqn:E; [|exfalso|done].
  - exists h. eauto using IkeHeader_to_bytes_parse.
  - unfold IkeHeader_parse in E. rewrite decide_False in E by done.
    destruct (list_28_split input) as (b0&b1&b2&b3&b4&b5&b6&b7&c0&c1&c2&c3&c4&c5&c6&c7&np&v&et&fl&
      m0&m1&m2&m3&l0&l1&l2&l3&rest&->); [unfold IkeHeader_LEN in Hlen; lia|].
    done.
Qed.

Lemma IkeHeader_parse_total_witness :
  exists h, IkeHeader_parse (replicate 28 255) = Ok h /\ IkeHeader_wf h /\
    IkeHeader_to_bytes h = replicate 19 255 ++ [0x38] ++ replicate 8 255.
Proof.
  apply (IkeHeader_parse_total (replicate 28 255)).
  by apply Forall_replicate.
Defined.

(** A built message parses back to its parts: the header with the Next
    Payload of the first payload and the Length of the whole message, and then
    exactly the pushed payloads, in order, none of them critical. *)
Theorem MessageBuilder_roundtrip b : build_wf b ->
  exists h body,
    IkeHeader_parse (MessageBuilder_build b) = Ok h /\
    h = with_next_len (mb_header b) (first_payload_type (mb_payloads b))
          (Z.of_nat (length (MessageBuilder_build b))) /\
    slice_from (MessageBuilder_build b) IkeHeader_LEN = Ok body /\
    payload_items (next_payload h) body = Ok <$> (raw <$> mb_payloads b).
Proof. intros Hb. destruct (build_parse b Hb) as (? & ? & ?). by eexists _, _. Qed.

Definition example_builder : MessageBuilder :=
  MessageBuilder_push (MessageBuilder_push (MessageBuilder_new example_header)
    PSecurityAssociation (replicate 4 0xAA)) PNonce (replicate 32 0xCC).

Lemma MessageBuilder_roundtrip_witness : exists h body,
  IkeHeader_parse (MessageBuilder_build example_builder) = Ok h /\
  hdr_length h = 72 /\
  slice_from (MessageBuilder_build example_builder) IkeHeader_LEN = Ok body /\
  payload_items (next_payload h) body =
    [Ok (raw (PSecurityAssociation, replicate 4 0xAA)); Ok (raw (PNonce, replicate 32 0xCC))].
Proof.
  destruct (MessageBuilder_roundtrip example_builder) as (h & body & H1 & -> & H3 & H4).
  - split_and!; [apply example_header_wf| |done].
    repeat constructor; try done; by apply Forall_replicate.
  - eexists _, body. split_and!; [exact H1|vm_compute; reflexivity|exact H3|exact H4].
Defined.

(** Walking a payload chain is safe on every input: the iterator yields its
    last item within [length body + 2] calls, no access panics, every payload
    it yields is well formed, and only the last item can be an error. *)
Theorem payload_items_total first body : PayloadType_wf first -> bytes_ok body ->
  (forall n, (length body + 2 <= n)%nat ->
     drain n (payloads first body) = payload_items first body) /\
  exists ps e, payload_items first body = (Ok <$> ps) ++ (Err <$> e) /\
    (length e <= 1)%nat /\ Forall RawPayload_wf ps.
Proof.
  intros Hf Hb. split; [intros; by apply drain_enough|].
  destruct (drain_shape (length body + 2) (payloads first body)) as (ps & e & He & Heq).
  exists ps, e. split_and!; [by apply Heq|done|].
  pose proof (payload_items_wp first body Hf Hb) as Hw.
  unfold payload_items in Hw. rewrite Heq in Hw by done.
  apply Forall_app in Hw as [Hw _]. by apply Forall_fmap in Hw.
Qed.

Lemma payload_items_total_witness : exists ps e,
  payload_items PNotify [0; 64; 0; 2] = (Ok <$> ps) ++ (Err <$> e) /\ ps = [] /\ e = [ShortPayload 2].
Proof.
  destruct (payload_items_total PNotify [0; 64; 0; 2]) as [_ (ps & e & H & _)];
    [by split|by repeat constructor|].
  exists ps, e. split; [exact H|]. vm_compute in H.
  destruct ps as [|p ps]; [|done]. destruct e as [|e1 [|]]; [done| |]; by inversion H.
Defined.
