(* ===== verification/Payload.v ===== *)
(** * IKEv2 payload bodies ([src/src/ikev2/payload.rs])

    Parsers and serialisers of every typed payload body: Security Association
    (proposals and transforms), Key Exchange, Nonce, Identification,
    Authentication, Traffic Selectors, Configuration, Notify, Delete,
    Certificate and Certificate Request. *)
From S2P Require Import Prelude Outcome Wire.

(** ** Registries *)
Module transform_type.
Definition ENCR : Z := 1.
Definition PRF : Z := 2.
Definition INTEG : Z := 3.
Definition DH : Z := 4.
Definition ESN : Z := 5.
End transform_type.

Module transform_id.
Definition AES_CBC : Z := 12.
Definition AES_GCM_16 : Z := 20.
Definition PRF_HMAC_SHA2_256 : Z := 5.
Definition AUTH_HMAC_SHA2_256_128 : Z := 12.
Definition MODP_1024 : Z := 2.
Definition MODP_2048 : Z := 14.
Definition X25519 : Z := 31.
Definition ESN_NONE : Z := 0.
Definition ESN_ENABLED : Z := 1.
End transform_id.

Module protocol_id.
Definition IKE : Z := 1.
Definition AH : Z := 2.
Definition ESP : Z := 3.
End protocol_id.

Module notify_type.
Definition INVALID_KE_PAYLOAD : Z := 17.
Definition NO_PROPOSAL_CHOSEN : Z := 14.
Definition AUTHENTICATION_FAILED : Z := 24.
Definition TS_UNACCEPTABLE : Z := 38.
Definition INITIAL_CONTACT : Z := 16384.
Definition NAT_DETECTION_SOURCE_IP : Z := 16388.
Definition NAT_DETECTION_DESTINATION_IP : Z := 16389.
Definition COOKIE : Z := 16390.
Definition REKEY_SA : Z := 16393.
Definition MOBIKE_SUPPORTED : Z := 16396.
Definition ADDITIONAL_IP4_ADDRESS : Z := 16397.
Definition ADDITIONAL_IP6_ADDRESS : Z := 16398.
Definition NO_ADDITIONAL_ADDRESSES : Z := 16399.
Definition UPDATE_SA_ADDRESSES : Z := 16400.
Definition COOKIE2 : Z := 16401.
Definition NO_NATS_ALLOWED : Z := 16402.
Definition IKEV2_FRAGMENTATION_SUPPORTED : Z := 16430.
Definition SIGNATURE_HASH_ALGORITHMS : Z := 16431.
End notify_type.

Module sighash.
Definition SHA1 : Z := 1.
Definition SHA2_256 : Z := 2.
Definition SHA2_384 : Z := 3.
Definition SHA2_512 : Z := 4.
End sighash.

Module auth_method.
Definition RSA_SIG : Z := 1.
Definition SHARED_KEY : Z := 2.
Definition DSS_SIG : Z := 3.
Definition ECDSA_SHA256_P256 : Z := 9.
Definition DIGITAL_SIGNATURE : Z := 14.
End auth_method.

Definition ID_FQDN : Z := 2.
Definition IPV4_ADDR_RANGE : Z := 7.
Definition X509_SIGNATURE : Z := 4.

Module cfg_type.
Definition REQUEST : Z := 1.
Definition REPLY : Z := 2.
Definition SET : Z := 3.
Definition ACK : Z := 4.
End cfg_type.

Module config_attr.
Definition INTERNAL_IP4_ADDRESS : Z := 1.
Definition INTERNAL_IP4_NETMASK : Z := 2.
Definition INTERNAL_IP4_DNS : Z := 3.
Definition INTERNAL_IP4_SUBNET : Z := 13.
End config_attr.

Definition ATTR_KEY_LENGTH : Z := 14.
Definition ATTR_FORMAT_TV : Z := 0x8000.

(** [std::net::Ipv4Addr], by its octets. *)
Record Ipv4Addr := mkIpv4 { oct0 : Z; oct1 : Z; oct2 : Z; oct3 : Z }.
Definition octets (a : Ipv4Addr) : bytes := [oct0 a; oct1 a; oct2 a; oct3 a].
#[export] Instance Ipv4Addr_eq_dec : EqDecision Ipv4Addr.
Proof. solve_decision. Defined.

(** ** Transforms *)
Record Transform := mkTransform {
  tf_type : Z;
  tf_id : Z;
  key_length : option Z }.
#[export] Instance Transform_eq_dec : EqDecision Transform.
Proof. solve_decision. Defined.

(** The [while attrs.len() >= 4] loop; each turn drops at least four bytes. *)
Fixpoint find_key_length_loop (fuel : nat) (attrs : bytes) (kl : option Z) : outcome (option Z) :=
  match fuel with
  | O => Panic
  | S f =>
      if decide (4 <= length attrs)%nat then
        header ← u16be attrs 0;
        let attr_type := Z.land header 0x7fff in
        if decide (Z.land header ATTR_FORMAT_TV <> 0) then
          kl' ← (if decide (attr_type = ATTR_KEY_LENGTH)
                 then v ← u16be attrs 2; Ok (Some v) else Ok kl);
          rest ← slice_from attrs 4;
          find_key_length_loop f rest kl'
        else
          len ← u16be attrs 2;
          if decide (length attrs < 4 + usize len)%nat
          then Err (BadLength (4 + usize len) (length attrs))
          else
            rest ← slice_from attrs (4 + usize len);
            find_key_length_loop f rest kl
      else Ok kl
  end.

Definition find_key_length (attrs : bytes) : outcome (option Z) :=
  find_key_length_loop (S (length attrs)) attrs None.

Definition Transform_parse (buf : bytes) : outcome (Transform * nat) :=
  if decide (length buf < 8)%nat then Err (Truncated 8 (length buf)) else
  len ← u16be buf 2;
  if decide (usize len < 8)%nat then Err (ShortPayload len) else
  if decide (length buf < usize len)%nat then Err (BadLength (usize len) (length buf)) else
  tt ← idx buf 4;
  tid ← u16be buf 6;
  attrs ← slice buf 8 (usize len);
  kl ← find_key_length attrs;
  Ok ({| tf_type := tt; tf_id := tid; key_length := kl |}, usize len).

Definition Transform_write (t : Transform) (is_last : bool) : bytes :=
  let attrs := match key_length t with
               | Some kl => be_bytes 2 (Z.lor ATTR_FORMAT_TV ATTR_KEY_LENGTH) ++ be_bytes 2 kl
               | None => []
               end in
  let len := (8 + length attrs)%nat in
  [if is_last then 0 else 3] ++ [0] ++ be_bytes 2 (len16 len) ++ [tf_type t] ++ [0] ++
  be_bytes 2 (tf_id t) ++ attrs.

(** ** Proposals *)
Record Proposal := mkProposal {
  prop_num : Z;
  prop_protocol : Z;
  prop_spi : bytes;
  transforms : list Transform }.
#[export] Instance Proposal_eq_dec : EqDecision Proposal.
Proof. solve_decision. Defined.

Definition Proposal_parse (buf : bytes) : outcome (Proposal * nat) :=
  if decide (length buf < 8)%nat then Err (Truncated 8 (length buf)) else
  len ← u16be buf 2;
  if decide (usize len < 8)%nat then Err (ShortPayload len) else
  if decide (length buf < usize len)%nat then Err (BadLength (usize len) (length buf)) else
  num ← idx buf 4;
  proto ← idx buf 5;
  spi_size ← idx buf 6;
  transform_count ← idx buf 7;
  if decide (usize len < 8 + usize spi_size)%nat
  then Err (BadLength (8 + usize spi_size) (usize len)) else
  spi ← slice buf 8 (8 + usize spi_size);
  '(ts, _) ← parse_count Transform_parse buf (usize len) (usize transform_count)
               (8 + usize spi_size)%nat;
  Ok ({| prop_num := num; prop_protocol := proto; prop_spi := spi; transforms := ts |}, usize len).

Definition Proposal_write (p : Proposal) (is_last : bool) : bytes :=
  let body := write_all Transform_write (transforms p) in
  let len := (8 + length (prop_spi p) + length body)%nat in
  [if is_last then 0 else 2] ++ [0] ++ be_bytes 2 (len16 len) ++
  [prop_num p; prop_protocol p; as_u8 (Z.of_nat (length (prop_spi p)));
   as_u8 (Z.of_nat (length (transforms p)))] ++
  prop_spi p ++ body.

(** ** Security Association *)
Record SecurityAssociation := mkSA { proposals : list Proposal }.
#[export] Instance SecurityAssociation_eq_dec : EqDecision SecurityAssociation.
Proof. solve_decision. Defined.

Definition SecurityAssociation_parse (body : bytes) : outcome SecurityAssociation :=
  ps ← parse_all Proposal_parse body (S (length body)) 0;
  Ok {| proposals := ps |}.

Definition SecurityAssociation_to_bytes (sa : SecurityAssociation) : bytes :=
  write_all Proposal_write (proposals sa).

(** ** Key Exchange, Nonce, Identification, Authentication *)
Record KeyExchange := mkKE { dh_group : Z; ke_data : bytes }.
#[export] Instance KeyExchange_eq_dec : EqDecision KeyExchange.
Proof. solve_decision. Defined.

Definition KeyExchange_parse (body : bytes) : outcome KeyExchange :=
  if decide (length body < 4)%nat then Err (Truncated 4 (length body)) else
  g ← u16be body 0;
  d ← slice_from body 4;
  Ok {| dh_group := g; ke_data := d |}.

Definition KeyExchange_to_bytes (k : KeyExchange) : bytes :=
  be_bytes 2 (dh_group k) ++ be_bytes 2 0 ++ ke_data k.

Record Nonce := mkNonce { nonce_data : bytes }.
Definition Nonce_parse (body : bytes) : Nonce := {| nonce_data := body |}.
Definition Nonce_to_bytes (n : Nonce) : bytes := nonce_data n.

Record Identification := mkId { id_type : Z; id_data : bytes }.
#[export] Instance Identification_eq_dec : EqDecision Identification.
Proof. solve_decision. Defined.

Definition Identification_fqdn (name : bytes) : Identification :=
  {| id_type := ID_FQDN; id_data := name |}.

Definition Identification_parse (body : bytes) : outcome Identification :=
  if decide (length body < 4)%nat then Err (Truncated 4 (length body)) else
  t ← idx body 0;
  d ← slice_from body 4;
  Ok {| id_type := t; id_data := d |}.

Definition Identification_to_bytes (i : Identification) : bytes :=
  [id_type i] ++ [0; 0; 0] ++ id_data i.

Record Authentication := mkAuth { auth_meth : Z; auth_data : bytes }.
#[export] Instance Authentication_eq_dec : EqDecision Authentication.
Proof. solve_decision. Defined.

Definition Authentication_parse (body : bytes) : outcome Authentication :=
  if decide (length body < 4)%nat then Err (Truncated 4 (length body)) else
  m ← idx body 0;
  d ← slice_from body 4;
  Ok {| auth_meth := m; auth_data := d |}.

Definition Authentication_to_bytes (a : Authentication) : bytes :=
  [auth_meth a] ++ [0; 0; 0] ++ auth_data a.

(** ** Traffic Selectors *)
Record TrafficSelector := mkTS {
  ts_type : Z;
  ip_protocol : Z;
  start_port : Z;
  end_port : Z;
  start_addr : bytes;
  end_addr : bytes }.
#[export] Instance TrafficSelector_eq_dec : EqDecision TrafficSelector.
Proof. solve_decision. Defined.

Definition ipv4_any : TrafficSelector := {|
  ts_type := IPV4_ADDR_RANGE; ip_protocol := 0; start_port := 0; end_port := 65535;
  start_addr := [0; 0; 0; 0]; end_addr := [255; 255; 255; 255] |}.

Definition ipv4_host (addr : Ipv4Addr) : TrafficSelector := {|
  ts_type := IPV4_ADDR_RANGE; ip_protocol := 0; start_port := 0; end_port := 65535;
  start_addr := octets addr; end_addr := octets addr |}.

Definition TrafficSelector_parse (buf : bytes) : outcome (TrafficSelector * nat) :=
  if decide (length buf < 8)%nat then Err (Truncated 8 (length buf)) else
  len ← u16be buf 2;
  let length' := usize len in
  if decide (length' < 8 \/ length buf < length' \/ ((length' - 8) mod 2 <> 0))%nat
  then Err (BadLength length' (length buf)) else
  let addr_len := ((length' - 8) / 2)%nat in
  tt ← idx buf 0;
  proto ← idx buf 1;
  sp ← u16be buf 4;
  ep ← u16be buf 6;
  sa ← slice buf 8 (8 + addr_len);
  ea ← slice buf (8 + addr_len) (8 + 2 * addr_len);
  Ok ({| ts_type := tt; ip_protocol := proto; start_port := sp; end_port := ep;
         start_addr := sa; end_addr := ea |}, length').

Definition TrafficSelector_write (t : TrafficSelector) : bytes :=
  let len := (8 + length (start_addr t) + length (end_addr t))%nat in
  [ts_type t] ++ [ip_protocol t] ++ be_bytes 2 (len16 len) ++
  be_bytes 2 (start_port t) ++ be_bytes 2 (end_port t) ++ start_addr t ++ end_addr t.

Record TrafficSelectors := mkTSs { selectors : list TrafficSelector }.
#[export] Instance TrafficSelectors_eq_dec : EqDecision TrafficSelectors.
Proof. solve_decision. Defined.

Definition TrafficSelectors_parse (body : bytes) : outcome TrafficSelectors :=
  if decide (length body < 4)%nat then Err (Truncated 4 (length body)) else
  count ← idx body 0;
  '(ts, _) ← parse_count TrafficSelector_parse body (length body) (usize count) 4;
  Ok {| selectors := ts |}.

(** The selector writer takes no last-element flag. *)
Definition TrafficSelector_write_any (t : TrafficSelector) (_ : bool) : bytes :=
  TrafficSelector_write t.

Definition TrafficSelectors_to_bytes (ts : TrafficSelectors) : bytes :=
  [as_u8 (Z.of_nat (length (selectors ts)))] ++ [0; 0; 0] ++
  write_all TrafficSelector_write_any (selectors ts).

(** ** Configuration *)
Record ConfigAttr := mkCfgAttr { attr_type : Z; attr_value : bytes }.
#[export] Instance ConfigAttr_eq_dec : EqDecision ConfigAttr.
Proof. solve_decision. Defined.

Definition ConfigAttr_ipv4 (t : Z) (addr : Ipv4Addr) : ConfigAttr :=
  {| attr_type := t; attr_value := octets addr |}.

Definition ConfigAttr_write (a : ConfigAttr) : bytes :=
  be_bytes 2 (Z.land (attr_type a) 0x7fff) ++ be_bytes 2 (len16 (length (attr_value a))) ++
  attr_value a.
Definition ConfigAttr_write_any (a : ConfigAttr) (_ : bool) : bytes := ConfigAttr_write a.

Definition ConfigAttr_parse (buf : bytes) : outcome (ConfigAttr * nat) :=
  if decide (length buf < 4)%nat then Err (Truncated 4 (length buf)) else
  t ← u16be buf 0;
  len ← u16be buf 2;
  if decide (length buf < 4 + usize len)%nat
  then Err (BadLength (4 + usize len) (length buf)) else
  v ← slice buf 4 (4 + usize len);
  Ok ({| attr_type := Z.land t 0x7fff; attr_value := v |}, (4 + usize len)%nat).

Record Configuration := mkCfg { cfg_kind : Z; cfg_attrs : list ConfigAttr }.
#[export] Instance Configuration_eq_dec : EqDecision Configuration.
Proof. solve_decision. Defined.

Definition reply_ipv4 (addr : Ipv4Addr) (netmask dns : option Ipv4Addr) : Configuration := {|
  cfg_kind := cfg_type.REPLY;
  cfg_attrs :=
    [ConfigAttr_ipv4 config_attr.INTERNAL_IP4_ADDRESS addr] ++
    match netmask with
    | Some m => [ConfigAttr_ipv4 config_attr.INTERNAL_IP4_NETMASK m] | None => [] end ++
    match dns with
    | Some d => [ConfigAttr_ipv4 config_attr.INTERNAL_IP4_DNS d] | None => [] end |}.

Definition request_ipv4 : Configuration := {|
  cfg_kind := cfg_type.REQUEST;
  cfg_attrs := [{| attr_type := config_attr.INTERNAL_IP4_ADDRESS; attr_value := [] |}] |}.

Definition Configuration_to_bytes (c : Configuration) : bytes :=
  [cfg_kind c] ++ [0; 0; 0] ++ write_all ConfigAttr_write_any (cfg_attrs c).

Definition Configuration_parse (body : bytes) : outcome Configuration :=
  if decide (length body < 4)%nat then Err (Truncated 4 (length body)) else
  t ← idx body 0;
  attrs ← parse_all ConfigAttr_parse body (S (length body)) 4;
  Ok {| cfg_kind := t; cfg_attrs := attrs |}.

Definition assigned_ipv4 (c : Configuration) : outcome (option Ipv4Addr) :=
  match list_find (fun a => attr_type a = config_attr.INTERNAL_IP4_ADDRESS /\
                            length (attr_value a) = 4%nat) (cfg_attrs c) with
  | None => Ok None
  | Some (_, a) =>
      a0 ← idx (attr_value a) 0; a1 ← idx (attr_value a) 1;
      a2 ← idx (attr_value a) 2; a3 ← idx (attr_value a) 3;
      Ok (Some (mkIpv4 a0 a1 a2 a3))
  end.

(** ** Notify *)
Record Notify := mkNotify {
  n_protocol : Z;
  n_spi : bytes;
  n_type : Z;
  n_data : bytes }.
#[export] Instance Notify_eq_dec : EqDecision Notify.
Proof. solve_decision. Defined.

Definition Notify_status (t : Z) (d : bytes) : Notify :=
  {| n_protocol := 0; n_spi := []; n_type := t; n_data := d |}.

Definition Notify_is_error (n : Notify) : bool := n_type n <? 16384.

Definition Notify_parse (body : bytes) : outcome Notify :=
  if decide (length body < 4)%nat then Err (Truncated 4 (length body)) else
  spi_size ← idx body 1;
  if decide (length body < 4 + usize spi_size)%nat
  then Err (BadLength (4 + usize spi_size) (length body)) else
  proto ← idx body 0;
  spi ← slice body 4 (4 + usize spi_size);
  nt ← u16be body 2;
  d ← slice_from body (4 + usize spi_size);
  Ok {| n_protocol := proto; n_spi := spi; n_type := nt; n_data := d |}.

Definition Notify_to_bytes (n : Notify) : bytes :=
  [n_protocol n] ++ [as_u8 (Z.of_nat (length (n_spi n)))] ++ be_bytes 2 (n_type n) ++
  n_spi n ++ n_data n.

(** ** Delete *)
Record Delete := mkDelete { del_protocol : Z; del_spis : list Z }.
#[export] Instance Delete_eq_dec : EqDecision Delete.
Proof. solve_decision. Defined.

Definition Delete_ike_sa : Delete := {| del_protocol := protocol_id.IKE; del_spis := [] |}.
Definition Delete_esp (spis : list Z) : Delete :=
  {| del_protocol := protocol_id.ESP; del_spis := spis |}.

(** [for i in 0..num { spis.push(u32::from_be_bytes(body[4 + i*4..8 + i*4])) }] *)
Fixpoint delete_spis (body : bytes) (num i : nat) : outcome (list Z) :=
  match num with
  | O => Ok []
  | S n =>
      x ← be_uint 4 body (4 + i * 4) (8 + i * 4);
      xs ← delete_spis body n (S i);
      Ok (x :: xs)
  end.

Definition Delete_parse (body : bytes) : outcome Delete :=
  if decide (length body < 4)%nat then Err (Truncated 4 (length body)) else
  proto ← idx body 0;
  spi_size ← idx body 1;
  num ← u16be body 2;
  spis ← (if decide (spi_size = 0) then Ok []
          else if decide (spi_size = 4) then
            if decide (length body < 4 + usize num * 4)%nat
            then Err (BadLength (4 + usize num * 4) (length body))
            else delete_spis body (usize num) 0
          else Err (Crypto "unsupported Delete SPI size"));
  Ok {| del_protocol := proto; del_spis := spis |}.

Definition Delete_to_bytes (d : Delete) : bytes :=
  let spi_size := if decide (del_protocol d = protocol_id.IKE) then 0 else 4 in
  [del_protocol d] ++ [spi_size] ++ be_bytes 2 (len16 (length (del_spis d))) ++
  mjoin (be_bytes 4 <$> del_spis d).

(** ** Certificates *)
Record Certificate := mkCert { cert_encoding : Z; cert_data : bytes }.
#[export] Instance Certificate_eq_dec : EqDecision Certificate.
Proof. solve_decision. Defined.

Definition Certificate_x509 (der : bytes) : Certificate :=
  {| cert_encoding := X509_SIGNATURE; cert_data := der |}.

Definition Certificate_parse (body : bytes) : outcome Certificate :=
  enc ← ok_or (head body) (Truncated 1 0);
  d ← slice_from body 1;
  Ok {| cert_encoding := enc; cert_data := d |}.

Definition Certificate_to_bytes (c : Certificate) : bytes := [cert_encoding c] ++ cert_data c.

Record CertRequest := mkCertReq { req_encoding : Z; ca_hashes : list bytes }.
#[export] Instance CertRequest_eq_dec : EqDecision CertRequest.
Proof. solve_decision. Defined.

Definition CertRequest_x509 (hashes : list bytes) : CertRequest :=
  {| req_encoding := X509_SIGNATURE; ca_hashes := hashes |}.

(** [chunks_exact(n)]: the full chunks, a shorter tail dropped; [fuel] bounds
    their number. *)
Fixpoint chunks_exact_loop (fuel n : nat) (l : bytes) : list bytes :=
  match fuel with
  | O => []
  | S f => if decide (n <= length l)%nat
           then take n l :: chunks_exact_loop f n (drop n l) else []
  end.
Definition chunks_exact (n : nat) (l : bytes) : list bytes := chunks_exact_loop (length l) n l.

Definition CertRequest_parse (body : bytes) : outcome CertRequest :=
  enc ← ok_or (head body) (Truncated 1 0);
  rest ← slice_from body 1;
  if decide (length rest mod 20 <> 0)%nat
  then Err (BadLength (length rest) (length rest))
  else Ok {| req_encoding := enc; ca_hashes := chunks_exact 20 rest |}.

Definition CertRequest_to_bytes (r : CertRequest) : bytes :=
  [req_encoding r] ++ mjoin (ca_hashes r).

(** ** Well-formed values: the ranges of the fields, and sizes that fit the
    length octets of the encoding *)
Definition opt_u16_ok (o : option Z) : Prop := match o with Some x => u16_ok x | None => True end.

Record Transform_wf (t : Transform) : Prop := {
  wf_tf_type : byte_ok (tf_type t);
  wf_tf_id : u16_ok (tf_id t);
  wf_tf_kl : opt_u16_ok (key_length t) }.

Record Proposal_wf (p : Proposal) : Prop := {
  wf_prop_num : byte_ok (prop_num p);
  wf_prop_protocol : byte_ok (prop_protocol p);
  wf_prop_spi : bytes_ok (prop_spi p);
  wf_prop_spi_len : Z.of_nat (length (prop_spi p)) < 2 ^ 8;
  wf_prop_count : Z.of_nat (length (transforms p)) < 2 ^ 8;
  wf_prop_transforms : Forall Transform_wf (transforms p);
  wf_prop_len : Z.of_nat (length (Proposal_write p true)) < 2 ^ 16 }.

Definition SecurityAssociation_wf (sa : SecurityAssociation) : Prop :=
  Forall Proposal_wf (proposals sa).

Record TrafficSelector_wf (t : TrafficSelector) : Prop := {
  wf_ts_type : byte_ok (ts_type t);
  wf_ts_proto : byte_ok (ip_protocol t);
  wf_ts_sport : u16_ok (start_port t);
  wf_ts_eport : u16_ok (end_port t);
  wf_ts_start : bytes_ok (start_addr t);
  wf_ts_end : bytes_ok (end_addr t);
  wf_ts_same : length (start_addr t) = length (end_addr t);
  wf_ts_len : Z.of_nat (length (TrafficSelector_write t)) < 2 ^ 16 }.

Definition TrafficSelectors_wf (ts : TrafficSelectors) : Prop :=
  Forall TrafficSelector_wf (selectors ts) /\ Z.of_nat (length (selectors ts)) < 2 ^ 8.

Record ConfigAttr_wf (a : ConfigAttr) : Prop := {
  wf_attr_type : 0 <= attr_type a < 2 ^ 15;
  wf_attr_value : bytes_ok (attr_value a);
  wf_attr_len : Z.of_nat (length (attr_value a)) < 2 ^ 16 }.

Definition Configuration_wf (c : Configuration) : Prop :=
  byte_ok (cfg_kind c) /\ Forall ConfigAttr_wf (cfg_attrs c).

Record Notify_wf (n : Notify) : Prop := {
  wf_n_protocol : byte_ok (n_protocol n);
  wf_n_spi : bytes_ok (n_spi n);
  wf_n_spi_len : Z.of_nat (length (n_spi n)) < 2 ^ 8;
  wf_n_type : u16_ok (n_type n);
  wf_n_data : bytes_ok (n_data n) }.

(** A Delete the wire can carry: an IKE SA delete has no SPIs. *)
Definition Delete_wf (d : Delete) : Prop :=
  byte_ok (del_protocol d) /\ Forall u32_ok (del_spis d) /\
  Z.of_nat (length (del_spis d)) < 2 ^ 16 /\
  (del_protocol d = protocol_id.IKE -> del_spis d = []).

Definition KeyExchange_wf (k : KeyExchange) : Prop := u16_ok (dh_group k) /\ bytes_ok (ke_data k).
Definition Identification_wf (i : Identification) : Prop := byte_ok (id_type i) /\ bytes_ok (id_data i).
Definition Authentication_wf (a : Authentication) : Prop := byte_ok (auth_meth a) /\ bytes_ok (auth_data a).
Definition Certificate_wf (c : Certificate) : Prop := byte_ok (cert_encoding c) /\ bytes_ok (cert_data c).
Definition CertRequest_wf (r : CertRequest) : Prop :=
  byte_ok (req_encoding r) /\ Forall (fun h => length h = 20%nat /\ bytes_ok h) (ca_hashes r).

(** ** Length octets *)
Lemma as_u8_byte x : byte_ok (as_u8 x).
Proof. apply byte_ok_mod. Qed.
#[export] Hint Resolve as_u8_byte : ryke.

Ltac byte_lit := solve [split; lia].

(** ** Transforms *)
Lemma length_Transform_write t l :
  length (Transform_write t l) = (8 + match key_length t with Some _ => 4 | None => 0 end)%nat.
Proof. unfold Transform_write. destruct (key_length t), l; reflexivity. Qed.

Lemma find_key_length_wp fuel attrs kl : bytes_ok attrs -> (length attrs < fuel)%nat ->
  opt_u16_ok kl -> wp (find_key_length_loop fuel attrs kl) (fun r =>
    opt_u16_ok r /\ (r <> kl -> (4 <= length attrs)%nat)).
Proof.
  revert attrs kl. induction fuel as [|fuel IH]; intros attrs kl Ha Hf Hkl; [lia|].
  cbn [find_key_length_loop]. case_decide; [|by split; [|intros []]].
  wp_steps.
  all: eapply wp_mono; [|apply IH; rewrite ?length_drop; auto with ryke lia].
  all: intros r [Hr _]; split; [done|lia].
Qed.

Lemma Transform_parse_wp b : bytes_ok b ->
  wp (Transform_parse b) (fun '(t, used) =>
    Transform_wf t /\ (0 < used <= length b)%nat /\ (length (Transform_write t true) <= used)%nat).
Proof.
  intros Hb. unfold Transform_parse. wp_steps.
  eapply wp_mono; [|apply find_key_length_wp; [auto with ryke|lia|exact I]].
  intros kl [Hkl Hlen]. cbn [wp]. split_and!; [by constructor|lia..|].
  rewrite length_Transform_write. cbn [key_length].
  destruct kl; [|lia]. specialize (Hlen ltac:(done)). lia.
Qed.

Lemma Transform_roundtrip t l rest : Transform_wf t ->
  Transform_parse (Transform_write t l ++ rest) = Ok (t, length (Transform_write t l)).
Proof.
  intros [Ht Hid Hkl]. destruct t as [tt tid [kl|]]; cbn [tf_type tf_id key_length] in *.
  all: unfold Transform_parse.
  all: rewrite decide_False by (rewrite length_app, length_Transform_write; simpl; lia).
  - change (u16be (Transform_write _ l ++ rest) 2) with (@Ok Z 12). cbn [mbind outcome_bind].
    rewrite decide_False by lia.
    rewrite decide_False by (rewrite length_app, length_Transform_write; simpl; lia).
    change (Transform_write {| tf_type := tt; tf_id := tid; key_length := Some kl |} l)
      with ([if l then 0 else 3; 0; 0; 12; tt; 0] ++ be_bytes 2 tid ++ [128; 14] ++ be_bytes 2 kl).
    transitivity (Ok ({| tf_type := tt; tf_id := be_val (be_bytes 2 tid);
                         key_length := Some (be_val (be_bytes 2 kl)) |}, 12%nat)); [reflexivity|].
    by rewrite !u16be_val.
  - change (u16be (Transform_write _ l ++ rest) 2) with (@Ok Z 8). cbn [mbind outcome_bind].
    rewrite decide_False by lia.
    rewrite decide_False by (rewrite length_app, length_Transform_write; simpl; lia).
    change (Transform_write {| tf_type := tt; tf_id := tid; key_length := None |} l)
      with ([if l then 0 else 3; 0; 0; 8; tt; 0] ++ be_bytes 2 tid).
    transitivity (Ok ({| tf_type := tt; tf_id := be_val (be_bytes 2 tid);
                         key_length := None |}, 8%nat)); [reflexivity|].
    by rewrite !u16be_val.
Qed.

Lemma Transform_write_ok t l : Transform_wf t -> bytes_ok (Transform_write t l).
Proof.
  intros []. unfold Transform_write.
  assert (byte_ok 0) by byte_lit. assert (byte_ok (if l then 0 else 3)) by (destruct l; byte_lit).
  destruct (key_length t); auto 20 with ryke.
Qed.

#[export] Instance Transform_element : Element Transform_parse Transform_write Transform_wf.
Proof.
  split; [apply Transform_write_ok| | |apply Transform_roundtrip|apply Transform_parse_wp].
  - intros. rewrite length_Transform_write. lia.
  - intros. by rewrite !length_Transform_write.
Qed.

(** ** Proposals *)
Lemma length_Proposal_write p l : length (Proposal_write p l) =
  (8 + length (prop_spi p) + length (write_all Transform_write (transforms p)))%nat.
Proof. unfold Proposal_write. rewrite !length_app, !length_be_bytes. simpl. lia. Qed.

Lemma Proposal_write_ok p l : Proposal_wf p -> bytes_ok (Proposal_write p l).
Proof.
  intros []. unfold Proposal_write.
  assert (byte_ok 0) by byte_lit. assert (byte_ok (if l then 0 else 2)) by (destruct l; byte_lit).
  assert (bytes_ok (write_all Transform_write (transforms p))) by by apply write_all_ok.
  auto 20 with ryke.
Qed.

Lemma Proposal_parse_wp b : bytes_ok b ->
  wp (Proposal_parse b) (fun '(p, used) =>
    Proposal_wf p /\ (0 < used <= length b)%nat /\ (length (Proposal_write p true) <= used)%nat).
Proof.
  intros Hb. unfold Proposal_parse, u16_ok, byte_ok in *. wp_steps.
  eapply wp_mono; [|apply parse_count_wp; [done|unfold u16_ok, byte_ok in *; lia..]].
  intros [ts off'] (Hts & Hn & Hl & Hl'). unfold u16_ok, byte_ok in *. cbn [wp].
  set (p := {| prop_num := _ |}).
  assert (Hw : (length (Proposal_write p true) <= usize x)%nat).
  { rewrite length_Proposal_write. cbn [prop_spi transforms p]. lia. }
  split_and!; [|lia..|done].
  constructor; cbn [prop_num prop_protocol prop_spi transforms p]; try done; auto with ryke; lia.
Qed.

Lemma Proposal_roundtrip p l rest : Proposal_wf p ->
  Proposal_parse (Proposal_write p l ++ rest) = Ok (p, length (Proposal_write p l)).
Proof.
  intros [Hnum Hproto Hspi Hspil Hcount Hts Hlen]. rewrite length_Proposal_write in *.
  set (spi := prop_spi p) in *. set (W := write_all Transform_write (transforms p)) in *.
  set (L := (8 + length spi + length W)%nat) in *.
  set (hd := [if l then 0 else 2; 0] ++ be_bytes 2 (len16 L) ++
    [prop_num p; prop_protocol p; as_u8 (Z.of_nat (length spi));
     as_u8 (Z.of_nat (length (transforms p)))]).
  assert (E : Proposal_write p l ++ rest = hd ++ spi ++ W ++ rest).
  { unfold Proposal_write, hd. fold spi W L. by rewrite <- !app_assoc. }
  assert (Hhd : length hd = 8%nat) by done. unfold Proposal_parse. rewrite E.
  rewrite decide_False by (rewrite length_app; lia).
  change (u16be (hd ++ ?r) 2) with (Ok (be_val (be_bytes 2 (len16 L)))).
  rewrite len16_small by done. cbn [mbind outcome_bind]. rewrite Nat2Z.id.
  rewrite decide_False by lia. rewrite decide_False by (rewrite !length_app; lia).
  change (idx (hd ++ ?r) 4) with (Ok (prop_num p)).
  change (idx (hd ++ ?r) 5) with (Ok (prop_protocol p)).
  change (idx (hd ++ ?r) 6) with (Ok (as_u8 (Z.of_nat (length spi)))).
  change (idx (hd ++ ?r) 7) with (Ok (as_u8 (Z.of_nat (length (transforms p))))).
  cbn [mbind outcome_bind]. rewrite !as_u8_small, !Nat2Z.id by done.
  rewrite decide_False by lia. rewrite slice_app_mid by lia. cbn [mbind outcome_bind].
  rewrite app_assoc. replace (8 + length spi)%nat with (length (hd ++ spi)) by (rewrite length_app; lia).
  unfold W. rewrite parse_count_write; [|done|rewrite length_app; unfold L, W; lia].
  cbn [mbind outcome_bind]. by destruct p.
Qed.

#[export] Instance Proposal_element : Element Proposal_parse Proposal_write Proposal_wf.
Proof.
  split; [apply Proposal_write_ok| | |apply Proposal_roundtrip|apply Proposal_parse_wp].
  - intros. rewrite length_Proposal_write. lia.
  - intros. by rewrite !length_Proposal_write.
Qed.

(** ** Security Association *)
Lemma SA_roundtrip sa : SecurityAssociation_wf sa ->
  SecurityAssociation_parse (SecurityAssociation_to_bytes sa) = Ok sa.
Proof.
  intros Hsa. unfold SecurityAssociation_parse, SecurityAssociation_to_bytes.
  pose proof (parse_all_write [] (proposals sa)
    (S (length (write_all Proposal_write (proposals sa)))) Hsa) as H.
  cbn [app length] in H. rewrite H; [by destruct sa|].
  pose proof (write_all_count (wf := Proposal_wf) (proposals sa)). lia.
Qed.

Lemma SA_parse_wp body : bytes_ok body -> wp (SecurityAssociation_parse body) SecurityAssociation_wf.
Proof.
  intros Hb. unfold SecurityAssociation_parse. apply wp_bind.
  eapply wp_mono; [|apply parse_all_wp; [done|lia]]. by intros ps [Hps _].
Qed.

Lemma SA_to_bytes_ok sa : SecurityAssociation_wf sa -> bytes_ok (SecurityAssociation_to_bytes sa).
Proof. intros. by apply write_all_ok. Qed.

(** ** Fixed-layout payloads *)
Lemma KeyExchange_roundtrip k : KeyExchange_wf k -> KeyExchange_parse (KeyExchange_to_bytes k) = Ok k.
Proof.
  intros [Hg Hd]. destruct k as [g d]. cbn [dh_group ke_data] in *. unfold KeyExchange_parse.
  change (KeyExchange_to_bytes _) with ((be_bytes 2 g ++ [0; 0]) ++ d).
  rewrite decide_False by (rewrite length_app; simpl; lia). rewrite slice_from_app by done.
  change (u16be _ 0) with (Ok (be_val (be_bytes 2 g))). by rewrite u16be_val.
Qed.

Lemma KeyExchange_parse_wp b : bytes_ok b -> wp (KeyExchange_parse b) KeyExchange_wf.
Proof. intros. unfold KeyExchange_parse. wp_steps. split; simpl; auto with ryke. Qed.

Lemma KeyExchange_to_bytes_ok k : KeyExchange_wf k -> bytes_ok (KeyExchange_to_bytes k).
Proof. intros []. unfold KeyExchange_to_bytes. auto with ryke. Qed.

Lemma Identification_roundtrip i : Identification_wf i ->
  Identification_parse (Identification_to_bytes i) = Ok i.
Proof.
  intros [Ht Hd]. unfold Identification_parse.
  change (Identification_to_bytes i) with ([id_type i; 0; 0; 0] ++ id_data i). rewrite decide_False by (simpl; lia).
  rewrite slice_from_app by done. by destruct i.
Qed.

Lemma Identification_parse_wp b : bytes_ok b -> wp (Identification_parse b) Identification_wf.
Proof. intros. unfold Identification_parse. wp_steps. split; simpl; auto with ryke. Qed.

Lemma Identification_to_bytes_ok i : Identification_wf i -> bytes_ok (Identification_to_bytes i).
Proof. intros []. assert (byte_ok 0) by byte_lit. unfold Identification_to_bytes. auto 10 with ryke. Qed.

Lemma Authentication_roundtrip a : Authentication_wf a ->
  Authentication_parse (Authentication_to_bytes a) = Ok a.
Proof.
  intros [Ht Hd]. unfold Authentication_parse.
  change (Authentication_to_bytes a) with ([auth_meth a; 0; 0; 0] ++ auth_data a). rewrite decide_False by (simpl; lia).
  rewrite slice_from_app by done. by destruct a.
Qed.

Lemma Authentication_parse_wp b : bytes_ok b -> wp (Authentication_parse b) Authentication_wf.
Proof. intros. unfold Authentication_parse. wp_steps. split; simpl; auto with ryke. Qed.

Lemma Authentication_to_bytes_ok a : Authentication_wf a -> bytes_ok (Authentication_to_bytes a).
Proof. intros []. assert (byte_ok 0) by byte_lit. unfold Authentication_to_bytes. auto 10 with ryke. Qed.

Lemma Certificate_roundtrip c : Certificate_parse (Certificate_to_bytes c) = Ok c.
Proof. by destruct c. Qed.

Lemma Certificate_parse_wp b : bytes_ok b -> wp (Certificate_parse b) Certificate_wf.
Proof.
  intros Hb. unfold Certificate_parse. destruct b as [|x b]; [done|]. cbn.
  inversion_clear Hb. by split.
Qed.

Lemma Certificate_to_bytes_ok c : Certificate_wf c -> bytes_ok (Certificate_to_bytes c).
Proof. intros []. unfold Certificate_to_bytes. auto with ryke. Qed.

(** ** Traffic Selectors *)
Lemma length_TS_write t : length (TrafficSelector_write t) =
  (8 + length (start_addr t) + length (end_addr t))%nat.
Proof. unfold TrafficSelector_write. rewrite !length_app, !length_be_bytes. simpl. lia. Qed.

Lemma TS_write_ok t l : TrafficSelector_wf t -> bytes_ok (TrafficSelector_write_any t l).
Proof. intros []. unfold TrafficSelector_write_any, TrafficSelector_write. auto 20 with ryke. Qed.

Lemma TS_parse_wp b : bytes_ok b ->
  wp (TrafficSelector_parse b) (fun '(t, used) =>
    TrafficSelector_wf t /\ (0 < used <= length b)%nat /\
    (length (TrafficSelector_write_any t true) <= used)%nat).
Proof.
  intros Hb. unfold TrafficSelector_parse. do 3 wp_step.
  match goal with |- context [usize ?x] => set (L := usize x) in * end.
  unfold u16_ok in *. case_decide as Hbad; [done|].
  apply Decidable.not_or in Hbad as [H8 Hbad]. apply Decidable.not_or in Hbad as [HL Hmod].
  assert (Heven : L = (8 + 2 * ((L - 8) / 2))%nat).
  { pose proof (Nat.div_mod_eq (L - 8) 2). lia. }
  set (n := ((L - 8) / 2)%nat) in *. wp_steps.
  assert (Hlen : length (TrafficSelector_write {| ts_type := b0; ip_protocol := b1; start_port := x0;
    end_port := x1; start_addr := take (8 + n - 8) (drop 8 b);
    end_addr := take (8 + 2 * n - (8 + n)) (drop (8 + n) b) |}) = L).
  { rewrite length_TS_write. cbn [start_addr end_addr]. lia. }
  unfold TrafficSelector_write_any. rewrite Hlen. split_and!; [|lia..].
  constructor; rewrite ?Hlen; cbn [ts_type ip_protocol start_port end_port start_addr end_addr];
    try done; auto with ryke; lia.
Qed.

Lemma TS_roundtrip t l rest : TrafficSelector_wf t ->
  TrafficSelector_parse (TrafficSelector_write_any t l ++ rest) =
    Ok (t, length (TrafficSelector_write_any t l)).
Proof.
  intros [H1 H2 H3 H4 H5 H6 Hsame Hlen]. unfold TrafficSelector_write_any.
  rewrite length_TS_write in *.
  set (L := (8 + length (start_addr t) + length (end_addr t))%nat) in *.
  set (hd := [ts_type t; ip_protocol t] ++ be_bytes 2 (len16 L) ++
    be_bytes 2 (start_port t) ++ be_bytes 2 (end_port t)).
  assert (E : TrafficSelector_write t ++ rest = hd ++ start_addr t ++ end_addr t ++ rest).
  { unfold TrafficSelector_write, hd. fold L. by rewrite <- !app_assoc. }
  assert (Hhd : length hd = 8%nat) by done.
  assert (HL : ((L - 8) / 2 = length (start_addr t))%nat).
  { replace (L - 8)%nat with (length (start_addr t) * 2)%nat by lia. by apply Nat.div_mul. }
  unfold TrafficSelector_parse. rewrite E.
  rewrite decide_False by (rewrite length_app; lia).
  change (u16be (hd ++ ?r) 2) with (Ok (be_val (be_bytes 2 (len16 L)))).
  rewrite len16_small by done. cbn [mbind outcome_bind]. rewrite Nat2Z.id.
  rewrite decide_False.
  2: { rewrite !length_app. replace (L - 8)%nat with (length (start_addr t) * 2)%nat by lia.
       rewrite Nat.Div0.mod_mul. lia. }
  rewrite HL.
  change (idx (hd ++ ?r) 0) with (Ok (ts_type t)).
  change (idx (hd ++ ?r) 1) with (Ok (ip_protocol t)).
  change (u16be (hd ++ ?r) 4) with (Ok (be_val (be_bytes 2 (start_port t)))).
  change (u16be (hd ++ ?r) 6) with (Ok (be_val (be_bytes 2 (end_port t)))).
  cbn [mbind outcome_bind]. rewrite !u16be_val by done.
  rewrite (slice_app_mid hd (start_addr t) _ 8 (8 + length (start_addr t))) by lia. cbn [mbind outcome_bind].
  rewrite app_assoc, slice_app_mid by (rewrite ?length_app; lia). by destruct t.
Qed.

#[export] Instance TrafficSelector_element :
  Element TrafficSelector_parse TrafficSelector_write_any TrafficSelector_wf.
Proof.
  split; [apply TS_write_ok| |done|apply TS_roundtrip|apply TS_parse_wp].
  intros. unfold TrafficSelector_write_any. rewrite length_TS_write. lia.
Qed.

Lemma TrafficSelectors_roundtrip ts : TrafficSelectors_wf ts ->
  TrafficSelectors_parse (TrafficSelectors_to_bytes ts) = Ok ts.
Proof.
  intros [Hts Hn]. unfold TrafficSelectors_parse.
  set (W := write_all TrafficSelector_write_any (selectors ts)).
  set (hd := [as_u8 (Z.of_nat (length (selectors ts))); 0; 0; 0]).
  change (TrafficSelectors_to_bytes ts) with (hd ++ W).
  rewrite decide_False by (rewrite length_app; simpl; lia).
  change (idx (hd ++ W) 0) with (Ok (as_u8 (Z.of_nat (length (selectors ts))))).
  cbn [mbind outcome_bind]. rewrite as_u8_small, Nat2Z.id by done.
  pose proof (parse_count_write hd (selectors ts) [] (length hd + length W) Hts eq_refl) as H.
  fold W in H. rewrite app_nil_r in H. rewrite length_app.
  change 4%nat with (length hd) at 1. rewrite H. by destruct ts.
Qed.

Lemma TrafficSelectors_parse_wp b : bytes_ok b -> wp (TrafficSelectors_parse b) TrafficSelectors_wf.
Proof.
  intros Hb. unfold TrafficSelectors_parse. wp_steps.
  eapply wp_mono; [|apply parse_count_wp; [done|lia..]].
  intros [xs off'] (Hxs & Hn & _). cbn [wp]. split; simpl; [done|].
  unfold byte_ok in *. lia.
Qed.

Lemma TrafficSelectors_to_bytes_ok ts : TrafficSelectors_wf ts -> bytes_ok (TrafficSelectors_to_bytes ts).
Proof.
  intros [H _]. assert (byte_ok 0) by byte_lit.
  assert (bytes_ok (write_all TrafficSelector_write_any (selectors ts))) by by apply write_all_ok.
  unfold TrafficSelectors_to_bytes. auto 10 with ryke.
Qed.

(** ** Configuration *)
Lemma land_7fff x : 0 <= x < 2 ^ 15 -> Z.land x 0x7fff = x.
Proof. intros. change 0x7fff with (Z.ones 15). rewrite Z.land_ones by lia. by apply Z.mod_small. Qed.

Lemma land_7fff_bound x : 0 <= Z.land x 0x7fff < 2 ^ 15.
Proof. change 0x7fff with (Z.ones 15). rewrite Z.land_ones by lia. apply Z.mod_pos_bound. lia. Qed.

Lemma length_ConfigAttr_write a : length (ConfigAttr_write a) = (4 + length (attr_value a))%nat.
Proof. reflexivity. Qed.

Lemma ConfigAttr_write_ok a l : ConfigAttr_wf a -> bytes_ok (ConfigAttr_write_any a l).
Proof. intros []. unfold ConfigAttr_write_any, ConfigAttr_write. auto with ryke. Qed.

Lemma ConfigAttr_parse_wp b : bytes_ok b ->
  wp (ConfigAttr_parse b) (fun '(a, used) =>
    ConfigAttr_wf a /\ (0 < used <= length b)%nat /\ (length (ConfigAttr_write_any a true) <= used)%nat).
Proof.
  intros Hb. unfold ConfigAttr_parse. wp_steps. unfold u16_ok in *.
  unfold ConfigAttr_write_any. rewrite length_ConfigAttr_write. cbn [attr_value].
  split_and!; [|lia..]. constructor; cbn [attr_type attr_value];
    [apply land_7fff_bound|auto with ryke|lia].
Qed.

Lemma ConfigAttr_roundtrip a l rest : ConfigAttr_wf a ->
  ConfigAttr_parse (ConfigAttr_write_any a l ++ rest) = Ok (a, length (ConfigAttr_write_any a l)).
Proof.
  intros [Ht Hv Hlen]. unfold ConfigAttr_write_any, ConfigAttr_parse.
  set (hd := be_bytes 2 (Z.land (attr_type a) 0x7fff) ++ be_bytes 2 (len16 (length (attr_value a)))).
  change (ConfigAttr_write a) with (hd ++ attr_value a). rewrite <- app_assoc.
  assert (Hhd : length hd = 4%nat) by done.
  rewrite decide_False by (rewrite length_app; lia).
  change (u16be (hd ++ ?r) 0) with (Ok (be_val (be_bytes 2 (Z.land (attr_type a) 0x7fff)))).
  change (u16be (hd ++ ?r) 2) with (Ok (be_val (be_bytes 2 (len16 (length (attr_value a)))))).
  rewrite len16_small by done. cbn [mbind outcome_bind]. rewrite Nat2Z.id.
  rewrite decide_False by (rewrite !length_app; lia). rewrite slice_app_mid by lia.
  cbn [mbind outcome_bind]. rewrite (land_7fff (attr_type a)) by done.
  rewrite u16be_val, land_7fff by (done || (unfold u16_ok; lia)).
  rewrite length_app, Hhd. by destruct a.
Qed.

#[export] Instance ConfigAttr_element : Element ConfigAttr_parse ConfigAttr_write_any ConfigAttr_wf.
Proof.
  split; [apply ConfigAttr_write_ok| |done|apply ConfigAttr_roundtrip|apply ConfigAttr_parse_wp].
  intros. unfold ConfigAttr_write_any. rewrite length_ConfigAttr_write. lia.
Qed.

Lemma Configuration_roundtrip c : Configuration_wf c ->
  Configuration_parse (Configuration_to_bytes c) = Ok c.
Proof.
  intros [Hk Ha]. unfold Configuration_parse. set (hd := [cfg_kind c; 0; 0; 0]).
  change (Configuration_to_bytes c) with (hd ++ write_all ConfigAttr_write_any (cfg_attrs c)).
  rewrite decide_False by (rewrite length_app; simpl; lia).
  change (idx (hd ++ ?r) 0) with (Ok (cfg_kind c)). cbn [mbind outcome_bind].
  pose proof (write_all_count (wf := ConfigAttr_wf) (cfg_attrs c)).
  pose proof (parse_all_write hd (cfg_attrs c)
    (S (length (hd ++ write_all ConfigAttr_write_any (cfg_attrs c)))) Ha) as E.
  change (length hd) with 4%nat in E. rewrite E by (rewrite length_app; lia). by destruct c.
Qed.

Lemma Configuration_parse_wp b : bytes_ok b -> wp (Configuration_parse b) Configuration_wf.
Proof.
  intros Hb. unfold Configuration_parse. wp_steps.
  eapply wp_mono; [|apply parse_all_wp; [done|lia]]. intros xs [Hxs _]. by split.
Qed.

Lemma Configuration_to_bytes_ok c : Configuration_wf c -> bytes_ok (Configuration_to_bytes c).
Proof.
  intros [Hk Ha]. assert (byte_ok 0) by byte_lit.
  assert (bytes_ok (write_all ConfigAttr_write_any (cfg_attrs c))) by by apply write_all_ok.
  unfold Configuration_to_bytes. auto 10 with ryke.
Qed.

Lemma assigned_ipv4_safe c : safe (assigned_ipv4 c).
Proof.
  unfold assigned_ipv4. destruct (list_find _ _) as [[i a]|] eqn:E; [|done].
  apply list_find_Some in E as (_ & [_ Hlen] & _).
  destruct a as [t [|v0 [|v1 [|v2 [|v3 []]]]]]; done.
Qed.

(** ** Notify *)
Lemma Notify_roundtrip n : Notify_wf n -> Notify_parse (Notify_to_bytes n) = Ok n.
Proof.
  intros [Hp Hs Hsl Ht Hd]. unfold Notify_parse.
  set (hd := [n_protocol n; as_u8 (Z.of_nat (length (n_spi n)))] ++ be_bytes 2 (n_type n)).
  change (Notify_to_bytes n) with (hd ++ n_spi n ++ n_data n).
  assert (Hhd : length hd = 4%nat) by done.
  rewrite decide_False by (rewrite length_app; lia).
  change (idx (hd ++ ?r) 1) with (Ok (as_u8 (Z.of_nat (length (n_spi n))))).
  change (idx (hd ++ ?r) 0) with (Ok (n_protocol n)).
  change (u16be (hd ++ ?r) 2) with (Ok (be_val (be_bytes 2 (n_type n)))).
  cbn [mbind outcome_bind]. rewrite as_u8_small, Nat2Z.id, u16be_val by done.
  rewrite decide_False by (rewrite !length_app; lia). rewrite slice_app_mid by lia.
  cbn [mbind outcome_bind]. rewrite app_assoc, slice_from_app by (rewrite length_app; lia).
  by destruct n.
Qed.

Lemma Notify_parse_wp b : bytes_ok b -> wp (Notify_parse b) Notify_wf.
Proof.
  intros Hb. unfold Notify_parse. wp_steps. unfold byte_ok in *.
  constructor; cbn [n_protocol n_spi n_type n_data]; try done; auto with ryke. lia.
Qed.

Lemma Notify_to_bytes_ok n : Notify_wf n -> bytes_ok (Notify_to_bytes n).
Proof. intros []. unfold Notify_to_bytes. auto 10 with ryke. Qed.

Lemma Notify_status_wf t d : u16_ok t -> bytes_ok d -> Notify_wf (Notify_status t d).
Proof. intros. constructor; simpl; auto with ryke; byte_lit || lia. Qed.

(** ** Delete *)
Lemma delete_spis_wp body num i : bytes_ok body -> (4 + (i + num) * 4 <= length body)%nat ->
  wp (delete_spis body num i) (fun xs => Forall u32_ok xs /\ length xs = num).
Proof.
  intros Hb. revert i. induction num as [|num IH]; intros i Hlen; cbn [delete_spis]; [done|].
  wp_steps. eapply wp_mono; [|apply IH; lia]. intros xs [Hxs Hn]. cbn [wp].
  split; [by constructor|by cbn [length]; rewrite Hn].
Qed.

Lemma Delete_parse_wp b : bytes_ok b -> wp (Delete_parse b) (fun d =>
  byte_ok (del_protocol d) /\ Forall u32_ok (del_spis d) /\ Z.of_nat (length (del_spis d)) < 2 ^ 16).
Proof.
  intros Hb. unfold Delete_parse. wp_steps; [by split_and!|].
  eapply wp_mono; [|apply delete_spis_wp; [done|lia]]. intros xs [Hxs Hn]. cbn [wp].
  unfold u16_ok in *. split_and!; simpl; try done; lia.
Qed.

Lemma delete_spis_encoded pre xs i : Forall u32_ok xs -> (length pre = 4 + i * 4)%nat ->
  delete_spis (pre ++ mjoin (be_bytes 4 <$> xs)) (length xs) i = Ok xs.
Proof.
  intros Hxs. revert pre i. induction Hxs as [|x xs Hx Hxs IH]; intros pre i Hpre; [done|].
  cbn [length delete_spis]. change (mjoin (be_bytes 4 <$> x :: xs)) with
    (be_bytes 4 x ++ mjoin (be_bytes 4 <$> xs)).
  unfold be_uint. rewrite slice_app_mid by (rewrite ?length_be_bytes; lia).
  cbn [mbind outcome_bind]. rewrite decide_True by apply length_be_bytes.
  rewrite be_val_be_bytes by done.
  rewrite app_assoc, IH by (rewrite length_app, length_be_bytes; lia). done.
Qed.

Lemma Delete_roundtrip d : Delete_wf d -> Delete_parse (Delete_to_bytes d) = Ok d.
Proof.
  intros (Hp & Hs & Hn & Hike). unfold Delete_parse.
  set (sz := if decide (del_protocol d = protocol_id.IKE) then 0 else 4).
  set (hd := [del_protocol d; sz] ++ be_bytes 2 (len16 (length (del_spis d)))).
  change (Delete_to_bytes d) with (hd ++ mjoin (be_bytes 4 <$> del_spis d)).
  assert (Hhd : length hd = 4%nat) by done.
  rewrite decide_False by (rewrite length_app; lia).
  change (idx (hd ++ ?r) 0) with (Ok (del_protocol d)).
  change (idx (hd ++ ?r) 1) with (Ok sz).
  change (u16be (hd ++ ?r) 2) with (Ok (be_val (be_bytes 2 (len16 (length (del_spis d)))))).
  rewrite len16_small by done. cbn [mbind outcome_bind]. rewrite Nat2Z.id. unfold sz at 1.
  destruct (decide (del_protocol d = protocol_id.IKE)) as [E|E].
  - rewrite decide_True by done. destruct d; simpl in *. by rewrite Hike.
  - unfold sz. rewrite decide_False, decide_True by done. rewrite decide_False.
    + by rewrite delete_spis_encoded; [destruct d|..].
    + rewrite length_app, Hhd.
      assert (length (mjoin (be_bytes 4 <$> del_spis d)) = length (del_spis d) * 4)%nat as ->.
      { clear. induction (del_spis d) as [|x xs IH]; [done|].
        change (mjoin (be_bytes 4 <$> x :: xs)) with (be_bytes 4 x ++ mjoin (be_bytes 4 <$> xs)).
        rewrite length_app, IH, length_be_bytes. cbn [length]. lia. }
      lia.
Qed.

(** ** Certificate Request *)
Lemma chunks_exact_join n ls fuel : (0 < n)%nat -> Forall (fun h => length h = n) ls ->
  (length ls <= fuel)%nat -> chunks_exact_loop fuel n (mjoin ls) = ls.
Proof.
  intros Hn Hls. revert fuel. induction Hls as [|h ls Hh Hls IH]; intros fuel Hf.
  - destruct fuel; [done|]. cbn [chunks_exact_loop]. rewrite decide_False; [done|simpl; lia].
  - destruct fuel as [|fuel]; [simpl in Hf; lia|]. cbn [chunks_exact_loop].
    change (mjoin (h :: ls)) with (h ++ mjoin ls).
    rewrite decide_True by (rewrite length_app; lia).
    rewrite take_app_length', drop_app_length', IH by (done || (simpl in Hf; lia)). done.
Qed.

Lemma length_mjoin n (ls : list bytes) : Forall (fun h => length h = n) ls ->
  length (mjoin ls) = (length ls * n)%nat.
Proof.
  induction 1 as [|h ls Hh _ IH]; [done|]. change (mjoin (h :: ls)) with (h ++ mjoin ls).
  rewrite length_app, IH, Hh. cbn [length]. lia.
Qed.

Lemma CertRequest_roundtrip r : CertRequest_wf r -> CertRequest_parse (CertRequest_to_bytes r) = Ok r.
Proof.
  intros [He Hh].
  assert (H20 : Forall (fun h : bytes => length h = 20%nat) (ca_hashes r))
    by (eapply Forall_impl; [exact Hh|by intros ? []]).
  unfold CertRequest_parse. change (CertRequest_to_bytes r) with ([req_encoding r] ++ mjoin (ca_hashes r)).
  cbn [head app ok_or mbind outcome_bind].
  change (req_encoding r :: mjoin (ca_hashes r)) with ([req_encoding r] ++ mjoin (ca_hashes r)).
  rewrite slice_from_app by done. cbn [mbind outcome_bind].
  pose proof (length_mjoin _ _ H20) as Hlen.
  rewrite decide_False by (rewrite Hlen, Nat.Div0.mod_mul; auto).
  unfold chunks_exact. rewrite chunks_exact_join by (done || lia). by destruct r.
Qed.

Lemma chunks_exact_ok fuel n l : bytes_ok l ->
  Forall (fun h => length h = n /\ bytes_ok h) (chunks_exact_loop fuel n l).
Proof.
  revert l. induction fuel as [|fuel IH]; intros l Hl; cbn [chunks_exact_loop]; [done|].
  case_decide; [|done]. constructor; [|auto with ryke].
  split; [by apply length_take_le|auto with ryke].
Qed.

Lemma CertRequest_parse_wp b : bytes_ok b -> wp (CertRequest_parse b) CertRequest_wf.
Proof.
  intros Hb. unfold CertRequest_parse. destruct b as [|x b]; [done|].
  inversion_clear Hb. cbn [head ok_or mbind outcome_bind].
  wp_steps; [simpl; lia|]. split; simpl; [done|]. by apply chunks_exact_ok.
Qed.

Lemma CertRequest_to_bytes_ok r : CertRequest_wf r -> bytes_ok (CertRequest_to_bytes r).
Proof.
  intros [He Hh]. unfold CertRequest_to_bytes. apply bytes_ok_app; [auto with ryke|].
  induction Hh as [|h hs [_ Hh] _ IH]; [constructor|].
  change (mjoin (h :: hs)) with (h ++ mjoin hs). auto with ryke.
Qed.

(** ** Properties *)

(** The Security Association codec is faithful in both directions: a
    well-formed SA is read back from its encoding, and any SA the parser accepts
    is well formed, so that re-encoding what was parsed is again parsed to it. *)
Theorem SecurityAssociation_codec :
  (forall sa, SecurityAssociation_wf sa ->
     SecurityAssociation_parse (SecurityAssociation_to_bytes sa) = Ok sa) /\
  (forall body sa, bytes_ok body -> SecurityAssociation_parse body = Ok sa ->
     SecurityAssociation_wf sa /\
     SecurityAssociation_parse (SecurityAssociation_to_bytes sa) = Ok sa).
Proof.
  split; [apply SA_roundtrip|]. intros body sa Hb Hp.
  pose proof (wp_ok _ _ _ (SA_parse_wp body Hb) Hp) as Hwf.
  split; [done|by apply SA_roundtrip].
Qed.

Definition example_sa : SecurityAssociation := {| proposals :=
  [ {| prop_num := 1; prop_protocol := 1; prop_spi := [];
       transforms := [mkTransform 1 20 (Some 256); mkTransform 2 5 None; mkTransform 4 31 None] |};
    {| prop_num := 2; prop_protocol := 1; prop_spi := [1; 2; 3; 4];
       transforms := [mkTransform 1 12 (Some 128); mkTransform 3 12 None] |} ] |}.

Lemma example_sa_wf : SecurityAssociation_wf example_sa.
Proof. by repeat constructor. Qed.

Lemma SecurityAssociation_codec_witness :
  SecurityAssociation_parse (SecurityAssociation_to_bytes example_sa) = Ok example_sa.
Proof. apply SecurityAssociation_codec, example_sa_wf. Defined.

(** No payload parser panics: on any byte string each of them returns an error
    or a value whose fields are in range and whose sizes fit the encoding (a
    Delete for the IKE protocol may list SPIs, which the encoding cannot). *)
Theorem payload_parsers_total body : bytes_ok body ->
  wp (SecurityAssociation_parse body) SecurityAssociation_wf /\
  wp (KeyExchange_parse body) KeyExchange_wf /\
  wp (Identification_parse body) Identification_wf /\
  wp (Authentication_parse body) Authentication_wf /\
  wp (TrafficSelectors_parse body) TrafficSelectors_wf /\
  wp (Configuration_parse body) Configuration_wf /\
  wp (Notify_parse body) Notify_wf /\
  wp (Delete_parse body) (fun d => byte_ok (del_protocol d) /\ Forall u32_ok (del_spis d)) /\
  wp (Certificate_parse body) Certificate_wf /\
  wp (CertRequest_parse body) CertRequest_wf.
Proof.
  intros Hb. split_and!.
  - by apply SA_parse_wp.
  - by apply KeyExchange_parse_wp.
  - by apply Identification_parse_wp.
  - by apply Authentication_parse_wp.
  - by apply TrafficSelectors_parse_wp.
  - by apply Configuration_parse_wp.
  - by apply Notify_parse_wp.
  - eapply wp_mono; [|by apply Delete_parse_wp]. by intros d (? & ? & _).
  - by apply Certificate_parse_wp.
  - by apply CertRequest_parse_wp.
Qed.

Lemma payload_parsers_total_witness :
  bytes_ok [0; 31; 0] /\ wp (KeyExchange_parse [0; 31; 0]) KeyExchange_wf.
Proof.
  assert (H : bytes_ok [0; 31; 0]) by (repeat constructor; done).
  split; [exact H|]. apply (payload_parsers_total [0; 31; 0] H).
Defined.

(** Every other typed payload round-trips through its encoding. *)
Theorem payload_roundtrips :
  (forall k, KeyExchange_wf k -> KeyExchange_parse (KeyExchange_to_bytes k) = Ok k) /\
  (forall n, Nonce_parse (Nonce_to_bytes n) = n) /\
  (forall i, Identification_wf i -> Identification_parse (Identification_to_bytes i) = Ok i) /\
  (forall a, Authentication_wf a -> Authentication_parse (Authentication_to_bytes a) = Ok a) /\
  (forall ts, TrafficSelectors_wf ts -> TrafficSelectors_parse (TrafficSelectors_to_bytes ts) = Ok ts) /\
  (forall c, Configuration_wf c -> Configuration_parse (Configuration_to_bytes c) = Ok c) /\
  (forall n, Notify_wf n -> Notify_parse (Notify_to_bytes n) = Ok n) /\
  (forall d, Delete_wf d -> Delete_parse (Delete_to_bytes d) = Ok d) /\
  (forall c, Certificate_parse (Certificate_to_bytes c) = Ok c) /\
  (forall r, CertRequest_wf r -> CertRequest_parse (CertRequest_to_bytes r) = Ok r).
Proof.
  split_and!; [apply KeyExchange_roundtrip|by intros []|apply Identification_roundtrip
    |apply Authentication_roundtrip|apply TrafficSelectors_roundtrip|apply Configuration_roundtrip
    |apply Notify_roundtrip|apply Delete_roundtrip|apply Certificate_roundtrip|apply CertRequest_roundtrip].
Qed.

Lemma payload_roundtrips_witness :
  Delete_parse (Delete_to_bytes (Delete_esp [0xDEADBEEF; 1])) = Ok (Delete_esp [0xDEADBEEF; 1]).
Proof.
  apply payload_roundtrips. split_and!; simpl; [by split|by repeat constructor|lia|done].
Defined.
