(* ===== verification/Primitives.v ===== *)
(** * Third-party cryptographic primitives

    ryke takes its primitives from other crates ([aes-gcm], [hmac], [sha1],
    [sha2], [x25519-dalek], [num-bigint-dig], ...).  They are parameters of the
    model: the class [Primitives] lists the operations the source calls, and the
    classes of laws state the documented behaviour some theorems rely on.  The
    instance [toy] shows that the laws can hold together, and lets definitions be
    evaluated; it is not cryptography. *)
From S2P Require Import Prelude Outcome.

Class Primitives := {
  (** [hmac::Hmac<Sha256>]: key, data *)
  hmac_sha256 : bytes -> bytes -> bytes;
  (** [sha2::Sha256::digest], [sha1::Sha1::digest] *)
  sha256 : bytes -> bytes;
  sha1 : bytes -> bytes;
  (** [aes_gcm::Aes256Gcm]: key, nonce, associated data, message; [None] is
      the crate's opaque error *)
  gcm_encrypt : bytes -> bytes -> bytes -> bytes -> option bytes;
  gcm_decrypt : bytes -> bytes -> bytes -> bytes -> option bytes;
  (** [x25519_dalek]: public key of a scalar; shared secret *)
  x25519_base : bytes -> bytes;
  x25519_dh : bytes -> bytes -> bytes;
  (** [num_bigint_dig::BigUint], its values as integers *)
  biguint_from_bytes_be : bytes -> Z;
  biguint_modpow : Z -> Z -> Z -> Z;
  biguint_to_bytes_be : Z -> bytes }.

(** HMAC-SHA256 yields 32 octets. *)
Class HmacLaws `{!Primitives} : Prop := {
  hmac_length k d : length (hmac_sha256 k d) = 32%nat;
  hmac_bytes k d : bytes_ok (hmac_sha256 k d) }.

(** The digests yield 32 and 20 octets. *)
Class HashLaws `{!Primitives} : Prop := {
  sha256_length d : length (sha256 d) = 32%nat;
  sha256_bytes d : bytes_ok (sha256 d);
  sha1_length d : length (sha1 d) = 20%nat;
  sha1_bytes d : bytes_ok (sha1 d) }.

(** AES-256-GCM with a 32-octet key and a 12-octet nonce encrypts any message up
    to the crate's limit of 2^36 octets; the result carries a 16-octet tag, and
    decryption under the same key, nonce and associated data inverts it.  (The
    crate's types admit no other key or nonce length.) *)
Class AeadLaws `{!Primitives} : Prop := {
  gcm_encrypt_some k n a m : length k = 32%nat -> length n = 12%nat ->
    Z.of_nat (length m) <= 2 ^ 36 -> is_Some (gcm_encrypt k n a m);
  gcm_encrypt_length k n a m c : gcm_encrypt k n a m = Some c ->
    length c = (length m + 16)%nat;
  gcm_encrypt_bytes k n a m c : bytes_ok m -> gcm_encrypt k n a m = Some c -> bytes_ok c;
  gcm_decrypt_bytes k n a m c : bytes_ok c -> gcm_decrypt k n a c = Some m -> bytes_ok m;
  gcm_decrypt_encrypt k n a m c : gcm_encrypt k n a m = Some c ->
    gcm_decrypt k n a c = Some m }.

(** Decryption recomputes the tag: what it accepts is the encryption of what it
    returns (GCM is deterministic). *)
Class AeadAuthentic `{!Primitives} : Prop := {
  gcm_encrypt_decrypt k n a m c : gcm_decrypt k n a c = Some m ->
    gcm_encrypt k n a m = Some c }.

(** X25519 Diffie-Hellman: 32-octet values, and both orders of the two scalars
    give the same secret. *)
Class X25519Laws `{!Primitives} : Prop := {
  x25519_base_length a : length (x25519_base a) = 32%nat;
  x25519_base_bytes a : bytes_ok (x25519_base a);
  x25519_dh_length a p : length (x25519_dh a p) = 32%nat;
  x25519_dh_bytes a p : bytes_ok (x25519_dh a p);
  x25519_comm a b : x25519_dh a (x25519_base b) = x25519_dh b (x25519_base a) }.

(** [BigUint]: big-endian conversion, modular exponentiation, and the shortest
    big-endian encoding (one octet for zero). *)
Class BigUintLaws `{!Primitives} : Prop := {
  biguint_from_be l : bytes_ok l -> biguint_from_bytes_be l = be_val l;
  biguint_modpow_spec b e m : 0 <= b -> 0 <= e -> 1 < m ->
    biguint_modpow b e m = b ^ e mod m;
  biguint_to_be_val v : 0 <= v -> be_val (biguint_to_bytes_be v) = v;
  biguint_to_be_bytes v : 0 <= v -> bytes_ok (biguint_to_bytes_be v);
  biguint_to_be_length v n : 0 <= v < 256 ^ Z.of_nat n -> (0 < n)%nat ->
    (length (biguint_to_bytes_be v) <= n)%nat }.

(** ** A concrete instance of the laws *)
Definition toy_digest (n : nat) (l : bytes) : bytes :=
  be_bytes n (foldl (fun acc b => (acc * 257 + b + 1) mod 256 ^ Z.of_nat n) 7 l).

Definition toy_tag (k n a m : bytes) : bytes :=
  toy_digest 16 (k ++ [300] ++ n ++ [300] ++ a ++ [300] ++ m).

Definition toy_decrypt (k n a c : bytes) : option bytes :=
  let m := take (length c - 16) c in
  if decide (c = m ++ toy_tag k n a m) then Some m else None.

Definition toy_modulus : Z := 2 ^ 255 - 19.

Fixpoint toy_powmod (b : Z) (e : positive) (m : Z) : Z :=
  match e with
  | xH => b mod m
  | xO e => let r := toy_powmod b e m in (r * r) mod m
  | xI e => let r := toy_powmod b e m in (r * r * b) mod m
  end.

(** The number of octets of the shortest encoding. *)
Definition toy_octets (v : Z) : nat := Z.to_nat (Z.log2 v / 8 + 1).

#[export] Instance toy : Primitives := {|
  hmac_sha256 k d := toy_digest 32 (k ++ [300] ++ d);
  sha256 d := toy_digest 32 d;
  sha1 d := toy_digest 20 d;
  gcm_encrypt k n a m := Some (m ++ toy_tag k n a m);
  gcm_decrypt := toy_decrypt;
  x25519_base a := be_bytes 32 ((9 * be_val a) mod toy_modulus);
  x25519_dh a p := be_bytes 32 ((be_val a * be_val p) mod toy_modulus);
  biguint_from_bytes_be := be_val;
  biguint_modpow b e m := match e with Zpos p => toy_powmod b p m | _ => 1 mod m end;
  biguint_to_bytes_be v := be_bytes (toy_octets v) v |}.

Lemma length_toy_digest n l : length (toy_digest n l) = n.
Proof. apply length_be_bytes. Qed.

Lemma length_toy_tag k n a m : length (toy_tag k n a m) = 16%nat.
Proof. apply length_toy_digest. Qed.

#[export] Instance toy_hmac : HmacLaws.
Proof. split; intros; [apply length_be_bytes|apply be_bytes_ok]. Qed.

#[export] Instance toy_hash : HashLaws.
Proof. split; intros; first [apply length_be_bytes|apply be_bytes_ok]. Qed.

#[export] Instance toy_aead : AeadLaws.
Proof.
  split.
  - intros; by eexists.
  - intros k n a m c [= <-]. by rewrite length_app, length_toy_tag.
  - intros k n a m c Hm [= <-]. apply bytes_ok_app; [done|apply be_bytes_ok].
  - intros k n a m c Hc. simpl. unfold toy_decrypt. case_decide; intros [= <-]. auto with ryke.
  - intros k n a m c [= <-]. simpl. unfold toy_decrypt.
    rewrite length_app, length_toy_tag, Nat.add_sub, take_app_length. by rewrite decide_True.
Qed.

#[export] Instance toy_authentic : AeadAuthentic.
Proof. split. intros k n a m c. simpl. unfold toy_decrypt. case_decide; by intros [= <-]; f_equal. Qed.

#[export] Instance toy_x25519 : X25519Laws.
Proof.
  assert (Hm : forall x, 0 <= x mod toy_modulus < 256 ^ Z.of_nat 32).
  { intros x. pose proof (Z.mod_pos_bound x toy_modulus eq_refl) as H.
    split; [lia|]. transitivity toy_modulus; [lia|reflexivity]. }
  split; intros; try first [apply length_be_bytes|apply be_bytes_ok].
  cbn [x25519_dh x25519_base toy]. rewrite !be_val_be_bytes by apply Hm. rewrite !Z.mul_mod_idemp_r by done.
  do 2 f_equal. lia.
Qed.

Lemma toy_powmod_spec b e m : 1 < m -> toy_powmod b e m = b ^ Zpos e mod m.
Proof.
  intros Hm. induction e as [e IH|e IH|]; cbn [toy_powmod].
  - rewrite IH. rewrite Pos2Z.inj_xI, Z.pow_add_r, Z.pow_1_r, Z.pow_twice_r by lia.
    rewrite <- (Z.mul_mod_idemp_l (_ * _) b), <- Z.mul_mod, Z.mul_mod_idemp_l by lia. done.
  - rewrite IH, Pos2Z.inj_xO, Z.pow_twice_r. by rewrite <- Z.mul_mod by lia.
  - by rewrite Z.pow_1_r.
Qed.

Lemma toy_octets_bound v : 0 <= v -> v < 256 ^ Z.of_nat (toy_octets v).
Proof.
  intros Hv. unfold toy_octets.
  destruct (Z.eq_dec v 0) as [->|Hv0]; [done|].
  pose proof (Z.log2_nonneg v) as Hl. pose proof (Z.div_pos (Z.log2 v) 8 Hl eq_refl).
  rewrite Z2Nat.id by lia. replace 256 with (2 ^ 8) by done. rewrite <- Z.pow_mul_r by lia.
  apply Z.log2_lt_pow2; [lia|]. pose proof (Z.mod_pos_bound (Z.log2 v) 8 eq_refl).
  pose proof (Z.div_mod (Z.log2 v) 8). lia.
Qed.

#[export] Instance toy_biguint : BigUintLaws.
Proof.
  split.
  - done.
  - intros b e m Hb He Hm. simpl. destruct e as [|e|e]; [by rewrite Z.pow_0_r| |lia].
    by apply toy_powmod_spec.
  - intros v Hv. simpl. apply be_val_be_bytes. split; [done|by apply toy_octets_bound].
  - intros. apply be_bytes_ok.
  - intros v n [Hv Hn] Hn0. simpl. rewrite length_be_bytes. unfold toy_octets.
    destruct (Z.eq_dec v 0) as [->|Hv0]; [exact Hn0|].
    assert (Z.log2 v < 8 * Z.of_nat n).
    { apply Z.log2_lt_pow2; [lia|]. rewrite Z.pow_mul_r by lia. done. }
    assert (Z.log2 v / 8 < Z.of_nat n) by (apply Z.div_lt_upper_bound; lia).
    pose proof (Z.log2_nonneg v). pose proof (Z.div_pos (Z.log2 v) 8). lia.
Qed.
