(* ===== verification/Crypto.v ===== *)
(** * Key derivation and Diffie-Hellman ([src/src/crypto.rs])

    The PRF, [prf+], the key schedules of IKE_SA_INIT, of an IKE SA rekey and of
    CHILD SAs, and the three Diffie-Hellman groups.  HMAC, X25519 and big-integer
    arithmetic come from the class [Primitives]. *)
From S2P Require Import Prelude Outcome Primitives.

(** ** Diffie-Hellman primitives ([mod dh]) *)
Definition MODP_1024_PRIME : bytes :=
  [0xFF; 0xFF; 0xFF; 0xFF; 0xFF; 0xFF; 0xFF; 0xFF; 0xC9; 0x0F; 0xDA; 0xA2; 0x21; 0x68; 0xC2; 0x34;
   0xC4; 0xC6; 0x62; 0x8B; 0x80; 0xDC; 0x1C; 0xD1; 0x29; 0x02; 0x4E; 0x08; 0x8A; 0x67; 0xCC; 0x74;
   0x02; 0x0B; 0xBE; 0xA6; 0x3B; 0x13; 0x9B; 0x22; 0x51; 0x4A; 0x08; 0x79; 0x8E; 0x34; 0x04; 0xDD;
   0xEF; 0x95; 0x19; 0xB3; 0xCD; 0x3A; 0x43; 0x1B; 0x30; 0x2B; 0x0A; 0x6D; 0xF2; 0x5F; 0x14; 0x37;
   0x4F; 0xE1; 0x35; 0x6D; 0x6D; 0x51; 0xC2; 0x45; 0xE4; 0x85; 0xB5; 0x76; 0x62; 0x5E; 0x7E; 0xC6;
   0xF4; 0x4C; 0x42; 0xE9; 0xA6; 0x37; 0xED; 0x6B; 0x0B; 0xFF; 0x5C; 0xB6; 0xF4; 0x06; 0xB7; 0xED;
   0xEE; 0x38; 0x6B; 0xFB; 0x5A; 0x89; 0x9F; 0xA5; 0xAE; 0x9F; 0x24; 0x11; 0x7C; 0x4B; 0x1F; 0xE6;
   0x49; 0x28; 0x66; 0x51; 0xEC; 0xE6; 0x53; 0x81; 0xFF; 0xFF; 0xFF; 0xFF; 0xFF; 0xFF; 0xFF; 0xFF].

Definition MODP_2048_PRIME : bytes :=
  [0xFF; 0xFF; 0xFF; 0xFF; 0xFF; 0xFF; 0xFF; 0xFF; 0xC9; 0x0F; 0xDA; 0xA2; 0x21; 0x68; 0xC2; 0x34;
   0xC4; 0xC6; 0x62; 0x8B; 0x80; 0xDC; 0x1C; 0xD1; 0x29; 0x02; 0x4E; 0x08; 0x8A; 0x67; 0xCC; 0x74;
   0x02; 0x0B; 0xBE; 0xA6; 0x3B; 0x13; 0x9B; 0x22; 0x51; 0x4A; 0x08; 0x79; 0x8E; 0x34; 0x04; 0xDD;
   0xEF; 0x95; 0x19; 0xB3; 0xCD; 0x3A; 0x43; 0x1B; 0x30; 0x2B; 0x0A; 0x6D; 0xF2; 0x5F; 0x14; 0x37;
   0x4F; 0xE1; 0x35; 0x6D; 0x6D; 0x51; 0xC2; 0x45; 0xE4; 0x85; 0xB5; 0x76; 0x62; 0x5E; 0x7E; 0xC6;
   0xF4; 0x4C; 0x42; 0xE9; 0xA6; 0x37; 0xED; 0x6B; 0x0B; 0xFF; 0x5C; 0xB6; 0xF4; 0x06; 0xB7; 0xED;
   0xEE; 0x38; 0x6B; 0xFB; 0x5A; 0x89; 0x9F; 0xA5; 0xAE; 0x9F; 0x24; 0x11; 0x7C; 0x4B; 0x1F; 0xE6;
   0x49; 0x28; 0x66; 0x51; 0xEC; 0xE4; 0x5B; 0x3D; 0xC2; 0x00; 0x7C; 0xB8; 0xA1; 0x63; 0xBF; 0x05;
   0x98; 0xDA; 0x48; 0x36; 0x1C; 0x55; 0xD3; 0x9A; 0x69; 0x16; 0x3F; 0xA8; 0xFD; 0x24; 0xCF; 0x5F;
   0x83; 0x65; 0x5D; 0x23; 0xDC; 0xA3; 0xAD; 0x96; 0x1C; 0x62; 0xF3; 0x56; 0x20; 0x85; 0x52; 0xBB;
   0x9E; 0xD5; 0x29; 0x07; 0x70; 0x96; 0x96; 0x6D; 0x67; 0x0C; 0x35; 0x4E; 0x4A; 0xBC; 0x98; 0x04;
   0xF1; 0x74; 0x6C; 0x08; 0xCA; 0x18; 0x21; 0x7C; 0x32; 0x90; 0x5E; 0x46; 0x2E; 0x36; 0xCE; 0x3B;
   0xE3; 0x9E; 0x77; 0x2C; 0x18; 0x0E; 0x86; 0x03; 0x9B; 0x27; 0x83; 0xA2; 0xEC; 0x07; 0xA2; 0x8F;
   0xB5; 0xC5; 0x5D; 0xF0; 0x6F; 0x4C; 0x52; 0xC9; 0xDE; 0x2B; 0xCB; 0xF6; 0x95; 0x58; 0x17; 0x18;
   0x39; 0x95; 0x49; 0x7C; 0xEA; 0x95; 0x6A; 0xE5; 0x15; 0xD2; 0x26; 0x18; 0x98; 0xFA; 0x05; 0x10;
   0x15; 0x72; 0x8E; 0x5A; 0x8A; 0xAC; 0xAA; 0x68; 0xFF; 0xFF; 0xFF; 0xFF; 0xFF; 0xFF; 0xFF; 0xFF].

Section crypto.
Context `{!Primitives}.

Definition x25519_public (private : bytes) : bytes := x25519_base private.
Definition x25519_shared (private peer_public : bytes) : bytes := x25519_dh private peer_public.

(** [prime.len() - v.len()] underflows, and the copy panics, when the result is
    longer than the prime. *)
Definition modexp (base exp prime : bytes) : outcome bytes :=
  let v := biguint_to_bytes_be
             (biguint_modpow (biguint_from_bytes_be base) (biguint_from_bytes_be exp)
                (biguint_from_bytes_be prime)) in
  if decide (length prime < length v)%nat then Panic
  else Ok (replicate (length prime - length v) 0 ++ v).

Definition modp_public (exp prime : bytes) : outcome bytes := modexp [2] exp prime.

Definition modp_shared (exp peer_public prime : bytes) : outcome bytes :=
  modexp peer_public exp prime.

Definition modp_valid (peer prime : bytes) : bool :=
  let p := biguint_from_bytes_be prime in
  let y := biguint_from_bytes_be peer in
  bool_decide (1 < y) && bool_decide (y < p - 1).

(** ** Groups *)
Inductive DhGroup := X25519 | Modp1024 | Modp2048.

#[export] Instance DhGroup_eq_dec : EqDecision DhGroup.
Proof. solve_decision. Defined.

Definition DhGroup_from_transform_id (id : Z) : option DhGroup :=
  match id with
  | 31 => Some X25519
  | 2 => Some Modp1024
  | 14 => Some Modp2048
  | _ => None
  end.

Definition DhGroup_transform_id (g : DhGroup) : Z :=
  match g with X25519 => 31 | Modp1024 => 2 | Modp2048 => 14 end.

Definition public_len (g : DhGroup) : nat :=
  match g with X25519 => 32 | Modp1024 => 128 | Modp2048 => 256 end.

(** [private[..32]] panics on fewer than 32 octets. *)
Definition DhGroup_public (g : DhGroup) (private : bytes) : outcome bytes :=
  match g with
  | X25519 => s ← slice private 0 32; Ok (x25519_public s)
  | Modp1024 => modp_public private MODP_1024_PRIME
  | Modp2048 => modp_public private MODP_2048_PRIME
  end.

Definition DhGroup_shared (g : DhGroup) (private peer : bytes) : outcome bytes :=
  if decide (length peer <> public_len g)
  then Err (BadKeyExchange (DhGroup_transform_id g) (length peer)) else
  match g with
  | X25519 => s ← slice private 0 32; Ok (x25519_shared s peer)
  | Modp1024 =>
      if negb (modp_valid peer MODP_1024_PRIME) then Err (BadKeyExchange 2 (length peer))
      else modp_shared private peer MODP_1024_PRIME
  | Modp2048 =>
      if negb (modp_valid peer MODP_2048_PRIME) then Err (BadKeyExchange 14 (length peer))
      else modp_shared private peer MODP_2048_PRIME
  end.

(** ** PRF and [prf+] *)
Definition prf (key data : bytes) : bytes := hmac_sha256 key data.

(** [u8::saturating_add(1)] *)
Definition saturating_succ_u8 (c : Z) : Z := Z.min 255 (c + 1).

(** The [while out.len() < out_len] loop.  Each turn adds a 32-octet block, so
    [out_len] turns are enough ([length_prf_plus]). *)
Fixpoint prf_plus_loop (key seed : bytes) (out_len fuel : nat) (out prev : bytes) (counter : Z)
    : bytes :=
  match fuel with
  | O => out
  | S f =>
      if decide (length out < out_len)%nat then
        let input := prev ++ seed ++ [counter] in
        let block := prf key input in
        prf_plus_loop key seed out_len f (out ++ block) block (saturating_succ_u8 counter)
      else out
  end.

Definition prf_plus (key seed : bytes) (out_len : nat) : bytes :=
  take out_len (prf_plus_loop key seed out_len out_len [] [] 1).

(** ** Key schedules *)
Record KeyLengths := mkKeyLengths { kl_prf : nat; kl_integ : nat; kl_encr : nat }.

Record SessionKeys := mkSessionKeys {
  sk_d : bytes;
  sk_ai : bytes;
  sk_ar : bytes;
  sk_ei : bytes;
  sk_er : bytes;
  sk_pi : bytes;
  sk_pr : bytes }.

#[export] Instance SessionKeys_eq_dec : EqDecision SessionKeys.
Proof. solve_decision. Defined.

(** [let mut take = |n| { let slice = km[off..off + n].to_vec(); off += n; slice }] *)
Definition take_at (km : bytes) (off n : nat) : outcome (bytes * nat) :=
  s ← slice km off (off + n); Ok (s, (off + n)%nat).

Definition split_session_keys (km : bytes) (lengths : KeyLengths) : outcome SessionKeys :=
  '(d, off) ← take_at km 0 (kl_prf lengths);
  '(ai, off) ← take_at km off (kl_integ lengths);
  '(ar, off) ← take_at km off (kl_integ lengths);
  '(ei, off) ← take_at km off (kl_encr lengths);
  '(er, off) ← take_at km off (kl_encr lengths);
  '(pi, off) ← take_at km off (kl_prf lengths);
  '(pr, _) ← take_at km off (kl_prf lengths);
  Ok {| sk_d := d; sk_ai := ai; sk_ar := ar; sk_ei := ei; sk_er := er; sk_pi := pi; sk_pr := pr |}.

Definition session_keys_total (lengths : KeyLengths) : nat :=
  3 * kl_prf lengths + 2 * kl_integ lengths + 2 * kl_encr lengths.

Definition derive_session_keys (shared_secret ni nr : bytes) (spi_i spi_r : Z)
    (lengths : KeyLengths) : outcome SessionKeys :=
  let nonces := ni ++ nr in
  let skeyseed := prf nonces shared_secret in
  let seed := nonces ++ be_bytes 8 spi_i ++ be_bytes 8 spi_r in
  let km := prf_plus skeyseed seed (session_keys_total lengths) in
  split_session_keys km lengths.

Definition derive_rekey_session_keys (sk_d_old shared_secret ni nr : bytes) (spi_i spi_r : Z)
    (lengths : KeyLengths) : outcome SessionKeys :=
  let data := shared_secret ++ ni ++ nr in
  let skeyseed := prf sk_d_old data in
  let seed := ni ++ nr ++ be_bytes 8 spi_i ++ be_bytes 8 spi_r in
  let km := prf_plus skeyseed seed (session_keys_total lengths) in
  split_session_keys km lengths.

Record ChildKeys := mkChildKeys {
  encr_i : bytes;
  integ_i : bytes;
  encr_r : bytes;
  integ_r : bytes }.

#[export] Instance ChildKeys_eq_dec : EqDecision ChildKeys.
Proof. solve_decision. Defined.

Definition derive_child_keys (skd ni nr : bytes) (encr_len integ_len : nat) : outcome ChildKeys :=
  let seed := ni ++ nr in
  let km := prf_plus skd seed (2 * (encr_len + integ_len)) in
  '(ei, off) ← take_at km 0 encr_len;
  '(ii, off) ← take_at km off integ_len;
  '(er, off) ← take_at km off encr_len;
  '(ir, _) ← take_at km off integ_len;
  Ok {| encr_i := ei; integ_i := ii; encr_r := er; integ_r := ir |}.
End crypto.

(** ** Specification of [prf+] (RFC 7296, section 2.13) *)
Section spec.
Context `{!Primitives}.

(** [T 1 = prf (K, S | 0x01)] and [T n = prf (K, T (n-1) | S | n)]. *)
Fixpoint prf_T (key seed : bytes) (n : nat) : bytes :=
  match n with
  | O => []
  | S m => prf key (prf_T key seed m ++ seed ++ [Z.of_nat n])
  end.

(** [T 1 | T 2 | ... | T n] *)
Fixpoint prf_stream (key seed : bytes) (n : nat) : bytes :=
  match n with
  | O => []
  | S m => prf_stream key seed m ++ prf_T key seed n
  end.
End spec.

Section prf_plus.
Context `{!Primitives, !HmacLaws}.

(** The blocks the loop computes: the counter stops at 255. *)
Fixpoint loop_T (key seed : bytes) (n : nat) : bytes :=
  match n with
  | O => []
  | S m => prf key (loop_T key seed m ++ seed ++ [Z.min 255 (Z.of_nat n)])
  end.
Fixpoint loop_stream (key seed : bytes) (n : nat) : bytes :=
  match n with
  | O => []
  | S m => loop_stream key seed m ++ loop_T key seed n
  end.

Lemma length_loop_stream key seed n : length (loop_stream key seed n) = (32 * n)%nat.
Proof.
  induction n as [|n IH]; [done|]. cbn [loop_stream loop_T].
  rewrite length_app, IH. unfold prf. rewrite hmac_length. lia.
Qed.

Lemma loop_T_rfc key seed n : (n <= 255)%nat -> loop_T key seed n = prf_T key seed n.
Proof.
  induction n as [|n IH]; intros Hn; [done|]. cbn [loop_T prf_T]. rewrite IH by lia.
  by rewrite Z.min_r by lia.
Qed.

Lemma loop_stream_rfc key seed n : (n <= 255)%nat ->
  loop_stream key seed n = prf_stream key seed n.
Proof.
  induction n as [|n IH]; intros Hn; [done|]. cbn [loop_stream prf_stream].
  by rewrite IH, loop_T_rfc by lia.
Qed.

Lemma loop_stream_prefix key seed n m : (n <= m)%nat ->
  loop_stream key seed n `prefix_of` loop_stream key seed m.
Proof.
  induction 1 as [|m _ IH]; [done|]. cbn [loop_stream]. by apply prefix_app_r.
Qed.

Lemma take_loop_stream key seed k n m : (k <= 32 * n)%nat -> (k <= 32 * m)%nat ->
  take k (loop_stream key seed n) = take k (loop_stream key seed m).
Proof.
  assert (Hw : forall n m, (n <= m)%nat -> (k <= 32 * n)%nat ->
    take k (loop_stream key seed n) = take k (loop_stream key seed m)).
  { intros n' m' Hnm Hk. destruct (loop_stream_prefix key seed n' m' Hnm) as [r ->].
    by rewrite take_app_le by (rewrite length_loop_stream; lia). }
  intros. destruct (decide (n <= m)%nat); [by apply Hw|]. symmetry. apply Hw; lia.
Qed.

Lemma prf_plus_loop_stream key seed out_len fuel i : (out_len <= i + fuel)%nat ->
  exists j, prf_plus_loop key seed out_len fuel (loop_stream key seed i) (loop_T key seed i)
              (Z.min 255 (Z.of_nat i + 1)) = loop_stream key seed j /\ (out_len <= 32 * j)%nat.
Proof.
  revert i. induction fuel as [|fuel IH]; intros i Hf; [exists i; simpl; split; [done|lia]|].
  cbn [prf_plus_loop]. rewrite length_loop_stream. case_decide; [|exists i; split; [done|lia]].
  unfold saturating_succ_u8.
  replace (Z.min 255 (Z.min 255 (Z.of_nat i + 1) + 1)) with (Z.min 255 (Z.of_nat (S i) + 1)) by lia.
  replace (Z.of_nat i + 1) with (Z.of_nat (S i)) by lia.
  apply (IH (S i)). lia.
Qed.

Lemma prf_plus_stream key seed out_len n : (out_len <= 32 * n)%nat ->
  prf_plus key seed out_len = take out_len (loop_stream key seed n).
Proof.
  intros Hn. unfold prf_plus.
  destruct (prf_plus_loop_stream key seed out_len out_len 0) as (j & E & Hj); [lia|].
  etransitivity; [exact (f_equal (take out_len) E)|]. by apply take_loop_stream.
Qed.

Lemma length_prf_plus key seed out_len : length (prf_plus key seed out_len) = out_len.
Proof.
  rewrite (prf_plus_stream key seed out_len out_len) by lia.
  rewrite length_take, length_loop_stream. lia.
Qed.

Lemma prf_plus_prefix key seed n m : (n <= m)%nat ->
  prf_plus key seed n = take n (prf_plus key seed m).
Proof.
  intros. rewrite (prf_plus_stream _ _ n m), (prf_plus_stream _ _ m m) by lia.
  by rewrite take_take, Nat.min_l by done.
Qed.

Lemma loop_T_ok key seed n : bytes_ok (loop_T key seed n).
Proof. destruct n; [constructor|apply hmac_bytes]. Qed.

Lemma prf_plus_ok key seed n : bytes_ok (prf_plus key seed n).
Proof.
  rewrite (prf_plus_stream key seed n n) by lia. apply bytes_ok_take.
  generalize n. intros k. induction k as [|k IH]; [constructor|].
  cbn [loop_stream]. apply bytes_ok_app; [done|apply loop_T_ok].
Qed.
End prf_plus.

(** ** Splitting key material *)
Lemma take_at_ok km off n : (off + n <= length km)%nat ->
  take_at km off n = Ok (take n (drop off km), (off + n)%nat).
Proof.
  intros. unfold take_at. rewrite slice_ok by lia. cbn [mbind outcome_bind].
  by replace (off + n - off)%nat with n by lia.
Qed.

Lemma pieces_join (km : bytes) off n :
  take n (drop off km) ++ drop (off + n) km = drop off km.
Proof. rewrite <- drop_drop. apply take_drop. Qed.

Lemma pieces_last (km : bytes) off n : (length km <= off + n)%nat ->
  take n (drop off km) = drop off km.
Proof. intros. apply firstn_all2. rewrite length_drop. lia. Qed.

(** The seven keys are consecutive, non-overlapping parts of the key stream. *)
Definition session_keys_bytes (k : SessionKeys) : bytes :=
  sk_d k ++ sk_ai k ++ sk_ar k ++ sk_ei k ++ sk_er k ++ sk_pi k ++ sk_pr k.

Definition session_keys_lengths (k : SessionKeys) (ls : KeyLengths) : Prop :=
  length (sk_d k) = kl_prf ls /\ length (sk_ai k) = kl_integ ls /\
  length (sk_ar k) = kl_integ ls /\ length (sk_ei k) = kl_encr ls /\
  length (sk_er k) = kl_encr ls /\ length (sk_pi k) = kl_prf ls /\ length (sk_pr k) = kl_prf ls.

Ltac split_piece :=
  rewrite take_at_ok by lia; cbn [mbind outcome_bind].
Ltac piece_last := match goal with
  | |- context [take ?n (drop ?off ?km)] => rewrite (pieces_last km off n) by lia end.
Ltac piece_length := rewrite length_take, length_drop; lia.

Lemma split_session_keys_ok km ls : length km = session_keys_total ls -> bytes_ok km ->
  exists k, split_session_keys km ls = Ok k /\ session_keys_bytes k = km /\
    session_keys_lengths k ls /\ bytes_ok (session_keys_bytes k).
Proof.
  unfold session_keys_total. intros Hlen Hok. unfold split_session_keys.
  do 7 split_piece. eexists. split; [reflexivity|].
  match goal with |- ?A /\ ?B /\ ?C =>
    cut (A /\ B); [intros [E ?]; split_and!; [exact E|done|by rewrite E]|] end.
  unfold session_keys_bytes, session_keys_lengths.
  cbn [sk_d sk_ai sk_ar sk_ei sk_er sk_pi sk_pr].
  split; [|split_and!; piece_length].
  piece_last. by rewrite !pieces_join.
Qed.

Section schedules.
Context `{!Primitives, !HmacLaws}.

Lemma derive_session_keys_ok ss ni nr spi_i spi_r ls :
  exists k, derive_session_keys ss ni nr spi_i spi_r ls = Ok k /\
    session_keys_bytes k = prf_plus (prf (ni ++ nr) ss)
      ((ni ++ nr) ++ be_bytes 8 spi_i ++ be_bytes 8 spi_r) (session_keys_total ls) /\
    session_keys_lengths k ls /\ bytes_ok (session_keys_bytes k).
Proof. apply split_session_keys_ok; [apply length_prf_plus|apply prf_plus_ok]. Qed.

Lemma derive_rekey_session_keys_ok d ss ni nr spi_i spi_r ls :
  exists k, derive_rekey_session_keys d ss ni nr spi_i spi_r ls = Ok k /\
    session_keys_bytes k = prf_plus (prf d (ss ++ ni ++ nr))
      (ni ++ nr ++ be_bytes 8 spi_i ++ be_bytes 8 spi_r) (session_keys_total ls) /\
    session_keys_lengths k ls /\ bytes_ok (session_keys_bytes k).
Proof. apply split_session_keys_ok; [apply length_prf_plus|apply prf_plus_ok]. Qed.

Definition child_keys_bytes (k : ChildKeys) : bytes :=
  encr_i k ++ integ_i k ++ encr_r k ++ integ_r k.

Lemma derive_child_keys_ok d ni nr el il :
  exists k, derive_child_keys d ni nr el il = Ok k /\
    child_keys_bytes k = prf_plus d (ni ++ nr) (2 * (el + il)) /\
    length (encr_i k) = el /\ length (integ_i k) = il /\
    length (encr_r k) = el /\ length (integ_r k) = il.
Proof.
  unfold derive_child_keys. set (km := prf_plus _ _ _).
  assert (Hlen : length km = (2 * (el + il))%nat) by apply length_prf_plus.
  do 4 split_piece. eexists. split; [reflexivity|].
  unfold child_keys_bytes. cbn [encr_i integ_i encr_r integ_r].
  split; [|split_and!; piece_length].
  piece_last. by rewrite !pieces_join.
Qed.
End schedules.

(** ** Diffie-Hellman *)
Definition modp_prime (g : DhGroup) : bytes :=
  match g with X25519 => [] | Modp1024 => MODP_1024_PRIME | Modp2048 => MODP_2048_PRIME end.

Lemma modp_prime_ok g : bytes_ok (modp_prime g).
Proof.
  apply Forall_forall. intros b Hb. unfold byte_ok.
  assert (H : forallb (fun b => (0 <=? b) && (b <? 256)) (modp_prime g) = true)
    by (destruct g; vm_compute; done).
  rewrite forallb_forall in H. specialize (H b (proj1 (list_elem_of_In _ _) Hb)). lia.
Qed.

Lemma modp_prime_large g : g <> X25519 -> 1 < be_val (modp_prime g).
Proof. by destruct g. Qed.

Section dh.
Context `{!Primitives, !BigUintLaws}.

Lemma modexp_ok base exp prime : bytes_ok base -> bytes_ok exp -> bytes_ok prime ->
  1 < be_val prime ->
  exists v, modexp base exp prime = Ok v /\ length v = length prime /\ bytes_ok v /\
    be_val v = be_val base ^ be_val exp mod be_val prime.
Proof.
  intros Hb He Hp H1.
  pose proof (be_val_bound base Hb). pose proof (be_val_bound exp He).
  pose proof (be_val_bound prime Hp).
  unfold modexp. rewrite !biguint_from_be, biguint_modpow_spec by lia || done.
  set (r := be_val base ^ be_val exp mod be_val prime).
  assert (Hr : 0 <= r < be_val prime) by (apply Z.mod_pos_bound; lia).
  assert (Hl : (length (biguint_to_bytes_be r) <= length prime)%nat).
  { apply biguint_to_be_length; [lia|]. destruct prime; [done|simpl; lia]. }
  rewrite decide_False by lia. eexists. split; [reflexivity|]. split_and!.
  - rewrite length_app, length_replicate. lia.
  - apply bytes_ok_app; [|apply biguint_to_be_bytes; lia]. by apply Forall_replicate.
  - rewrite be_val_app, biguint_to_be_val by lia.
    assert (Hz : forall n, be_val (replicate n 0) = 0).
    { intros n. induction n as [|n IH]; [done|]. cbn [replicate]. by rewrite be_val_cons, IH. }
    rewrite Hz. lia.
Qed.

Lemma modexp_Ok base exp prime v : modexp base exp prime = Ok v ->
  bytes_ok base -> bytes_ok exp -> bytes_ok prime -> 1 < be_val prime ->
  length v = length prime /\ bytes_ok v /\
  be_val v = be_val base ^ be_val exp mod be_val prime.
Proof.
  intros E ? ? ? ?. destruct (modexp_ok base exp prime) as (v' & E' & Hv); [done..|].
  rewrite E in E'. by injection E' as <-.
Qed.

(** Two byte strings of one length with one value are equal; both sides of the
    exchange compute [g^(ab) mod p]. *)
Lemma modp_agree g a b pa pb s1 s2 : g <> X25519 -> bytes_ok a -> bytes_ok b ->
  modp_public a (modp_prime g) = Ok pa -> modp_public b (modp_prime g) = Ok pb ->
  modp_shared a pb (modp_prime g) = Ok s1 -> modp_shared b pa (modp_prime g) = Ok s2 -> s1 = s2.
Proof.
  intros Hg Ha Hb Epa Epb E1 E2. unfold modp_public, modp_shared in *.
  pose proof (modp_prime_ok g) as Hp. pose proof (modp_prime_large g Hg) as H1.
  assert (H2 : bytes_ok [2]) by (by repeat constructor).
  apply modexp_Ok in Epa as (_ & Hpa & Va); [|done..].
  apply modexp_Ok in Epb as (_ & Hpb & Vb); [|done..].
  apply modexp_Ok in E1 as (L1 & Hs1 & V1); [|done..].
  apply modexp_Ok in E2 as (L2 & Hs2 & V2); [|done..].
  apply be_val_inj; [done..|congruence|]. rewrite V1, V2, Va, Vb.
  pose proof (be_val_bound a Ha). pose proof (be_val_bound b Hb).
  change (be_val [2]) with 2. rewrite !Z.mod_pow_l, <- !Z.pow_mul_r by lia. do 2 f_equal. lia.
Qed.

Context `{!X25519Laws}.

Lemma DhGroup_public_ok g private : bytes_ok private -> (32 <= length private)%nat ->
  exists p, DhGroup_public g private = Ok p /\ length p = public_len g /\ bytes_ok p.
Proof.
  intros Hp Hl. assert (H2 : bytes_ok [2]) by (by repeat constructor).
  assert (Hm : g <> X25519 -> exists p, modp_public private (modp_prime g) = Ok p /\
    length p = public_len g /\ bytes_ok p).
  { intros Hg. destruct (modexp_ok [2] private (modp_prime g)) as (v & E & Hv & Hok & _);
      [done|done|apply modp_prime_ok|by apply modp_prime_large|].
    exists v. split_and!; [done|by rewrite Hv; destruct g|done]. }
  destruct g; [|by apply Hm..]. unfold DhGroup_public. rewrite slice_ok by lia.
  eexists. split_and!; [reflexivity|apply x25519_base_length|apply x25519_base_bytes].
Qed.

(** The peer values a group accepts. *)
Definition peer_acceptable (g : DhGroup) (peer : bytes) : Prop :=
  length peer = public_len g /\
  match g with
  | X25519 => True
  | _ => 1 < be_val peer < be_val (modp_prime g) - 1
  end.

Lemma modp_valid_spec peer prime : bytes_ok peer -> bytes_ok prime ->
  modp_valid peer prime = true <-> 1 < be_val peer < be_val prime - 1.
Proof.
  intros. unfold modp_valid. rewrite !biguint_from_be by done.
  rewrite andb_true_iff, !bool_decide_eq_true. lia.
Qed.

Lemma DhGroup_shared_ok g private peer :
  bytes_ok private -> (32 <= length private)%nat -> bytes_ok peer -> peer_acceptable g peer ->
  exists s, DhGroup_shared g private peer = Ok s /\ length s = public_len g /\ bytes_ok s.
Proof.
  intros Hp Hl Hpeer [Hlen Hacc]. unfold DhGroup_shared. rewrite decide_False by auto.
  assert (Hm : g <> X25519 -> exists s, modp_shared private peer (modp_prime g) = Ok s /\
    length s = public_len g /\ bytes_ok s).
  { intros Hg. destruct (modexp_ok peer private (modp_prime g)) as (v & E & Hv & Hok & _);
      [done|done|apply modp_prime_ok|by apply modp_prime_large|].
    exists v. split_and!; [done|by rewrite Hv; destruct g|done]. }
  destruct g.
  - rewrite slice_ok by lia. eexists.
    split_and!; [reflexivity|apply x25519_dh_length|apply x25519_dh_bytes].
  - apply (modp_valid_spec peer (modp_prime Modp1024)) in Hacc; [|done|apply (modp_prime_ok Modp1024)].
    simpl in Hacc. rewrite Hacc. by apply Hm.
  - apply (modp_valid_spec peer (modp_prime Modp2048)) in Hacc; [|done|apply (modp_prime_ok Modp2048)].
    simpl in Hacc. rewrite Hacc. by apply Hm.
Qed.

Lemma DhGroup_shared_err g private peer : bytes_ok peer -> ~ peer_acceptable g peer ->
  DhGroup_shared g private peer = Err (BadKeyExchange (DhGroup_transform_id g) (length peer)).
Proof.
  intros Hpeer Hacc. unfold DhGroup_shared. case_decide as Hlen; [done|].
  assert (length peer = public_len g) as Hlen'
    by (destruct (decide (length peer = public_len g)); [done|by destruct Hlen]).
  assert (Hv : forall g', bytes_ok (modp_prime g')) by apply modp_prime_ok.
  destruct g; [by destruct Hacc|specialize (Hv Modp1024)|specialize (Hv Modp2048)];
    (destruct (modp_valid _ _) eqn:E; [|done]); exfalso; apply Hacc; split; try done;
    by apply modp_valid_spec in E.
Qed.

#[export] Instance peer_acceptable_dec (g : DhGroup) (peer : bytes) : Decision (peer_acceptable g peer).
Proof. unfold peer_acceptable. destruct g; apply _. Defined.

Lemma DhGroup_agree g a b pa pb s1 s2 : bytes_ok a -> bytes_ok b ->
  DhGroup_public g a = Ok pa -> DhGroup_public g b = Ok pb ->
  DhGroup_shared g a pb = Ok s1 -> DhGroup_shared g b pa = Ok s2 -> s1 = s2.
Proof.
  intros Ha Hb Ea Eb E1 E2. unfold DhGroup_shared in E1, E2.
  case_decide; [done|]. case_decide; [done|]. destruct g.
  - unfold DhGroup_public in Ea, Eb.
    destruct (slice a 0 32) as [sa| |], (slice b 0 32) as [sb| |]; try done.
    simpl in *. simplify_eq. apply x25519_comm.
  - destruct (negb _) in E1; [done|]. destruct (negb _) in E2; [done|].
    by eapply (modp_agree Modp1024 a b).
  - destruct (negb _) in E1; [done|]. destruct (negb _) in E2; [done|].
    by eapply (modp_agree Modp2048 a b).
Qed.

Lemma DhGroup_shared_wp g private peer :
  bytes_ok private -> (32 <= length private)%nat -> bytes_ok peer ->
  wp (DhGroup_shared g private peer) (fun s => bytes_ok s /\ length s = public_len g).
Proof.
  intros. destruct (decide (peer_acceptable g peer)).
  - destruct (DhGroup_shared_ok g private peer) as (s & -> & ? & ?); done.
  - by rewrite DhGroup_shared_err.
Qed.
End dh.

Lemma DhGroup_from_to g : DhGroup_from_transform_id (DhGroup_transform_id g) = Some g.
Proof. by destruct g. Qed.

Lemma DhGroup_to_from id g : DhGroup_from_transform_id id = Some g -> DhGroup_transform_id g = id.
Proof.
  unfold DhGroup_from_transform_id. destruct id as [|p|p]; [done| |done].
  do 5 (destruct p as [p|p|]; simpl; try (intros; simplify_eq; done)).
Qed.

(** ** Properties *)
Section properties.
Context `{!Primitives}.

(** [prf_plus] implements the RFC's [prf+]: the loop always ends with exactly
    the requested number of octets, asking for less gives a prefix of asking for
    more, and up to the RFC's cap of 255 blocks (8160 octets) the output is the
    beginning of [T1 | T2 | ... | T255]. *)
Theorem prf_plus_correct `{!HmacLaws} key seed n :
  length (prf_plus key seed n) = n /\
  (forall m, (n <= m)%nat -> prf_plus key seed n = take n (prf_plus key seed m)) /\
  ((n <= 255 * 32)%nat -> prf_plus key seed n = take n (prf_stream key seed 255)).
Proof.
  split_and!; [apply length_prf_plus|intros; by apply prf_plus_prefix|].
  intros. rewrite <- loop_stream_rfc by lia. apply prf_plus_stream. lia.
Qed.

(** The IKE key schedules cannot fail, and partition the [prf+] key stream: the
    seven keys of an IKE SA (new or rekeyed) and the four of a CHILD SA have the
    negotiated lengths and are, in the RFC's order, consecutive parts of the
    stream that use all of it. *)
Theorem key_schedules_partition `{!HmacLaws} sk ss ni nr spi_i spi_r ls el il :
  (exists k, derive_session_keys ss ni nr spi_i spi_r ls = Ok k /\ session_keys_lengths k ls /\
    session_keys_bytes k = prf_plus (prf (ni ++ nr) ss)
      ((ni ++ nr) ++ be_bytes 8 spi_i ++ be_bytes 8 spi_r) (session_keys_total ls)) /\
  (exists k, derive_rekey_session_keys sk ss ni nr spi_i spi_r ls = Ok k /\
    session_keys_lengths k ls /\
    session_keys_bytes k = prf_plus (prf sk (ss ++ ni ++ nr))
      (ni ++ nr ++ be_bytes 8 spi_i ++ be_bytes 8 spi_r) (session_keys_total ls)) /\
  (exists k, derive_child_keys sk ni nr el il = Ok k /\
    child_keys_bytes k = prf_plus sk (ni ++ nr) (2 * (el + il)) /\
    length (encr_i k) = el /\ length (integ_i k) = il /\
    length (encr_r k) = el /\ length (integ_r k) = il).
Proof.
  split_and!.
  - destruct (derive_session_keys_ok ss ni nr spi_i spi_r ls) as (k & ? & ? & ? & _). eauto.
  - destruct (derive_rekey_session_keys_ok sk ss ni nr spi_i spi_r ls) as (k & ? & ? & ? & _). eauto.
  - apply derive_child_keys_ok.
Qed.

(** Diffie-Hellman is total and agrees, for X25519 and both MODP groups, on
    private values of at least 32 octets: a public value has the group's length;
    a peer value is rejected exactly when its length is wrong or (MODP) it is
    outside [2, p-2], and otherwise a secret of the group's length is computed
    without panic; and when both sides accept each other's public value they
    compute the same secret. *)
Theorem dh_agreement `{!BigUintLaws, !X25519Laws} g a b :
  bytes_ok a -> bytes_ok b -> (32 <= length a)%nat -> (32 <= length b)%nat ->
  exists pa pb, DhGroup_public g a = Ok pa /\ DhGroup_public g b = Ok pb /\
    length pa = public_len g /\ length pb = public_len g /\
    (forall peer, bytes_ok peer ->
       if decide (peer_acceptable g peer)
       then exists s, DhGroup_shared g a peer = Ok s /\ length s = public_len g
       else DhGroup_shared g a peer =
              Err (BadKeyExchange (DhGroup_transform_id g) (length peer))) /\
    (peer_acceptable g pa -> peer_acceptable g pb ->
       exists s, DhGroup_shared g a pb = Ok s /\ DhGroup_shared g b pa = Ok s).
Proof.
  intros Ha Hb La Lb.
  destruct (DhGroup_public_ok g a) as (pa & Ea & Hpa & Oa); [done..|].
  destruct (DhGroup_public_ok g b) as (pb & Eb & Hpb & Ob); [done..|].
  exists pa, pb. split_and!; [done..| |].
  - intros peer Hpeer. case_decide; [|by apply DhGroup_shared_err].
    destruct (DhGroup_shared_ok g a peer) as (s & ? & ? & _); eauto.
  - intros Aa Ab.
    destruct (DhGroup_shared_ok g a pb) as (s1 & E1 & _); [done..|].
    destruct (DhGroup_shared_ok g b pa) as (s2 & E2 & _); [done..|].
    exists s1. split; [done|]. by rewrite (DhGroup_agree g a b pa pb s1 s2).
Qed.
End properties.

Lemma prf_plus_correct_witness :
  prf_plus [1] [2] 40 = take 40 (prf_stream [1] [2] 255).
Proof. apply (prf_plus_correct [1] [2] 40). lia. Defined.

Lemma key_schedules_partition_witness :
  exists k, derive_session_keys [5] [1] [2] 7 8 (mkKeyLengths 32 0 36) = Ok k /\
    session_keys_lengths k (mkKeyLengths 32 0 36).
Proof.
  destruct (key_schedules_partition [] [5] [1] [2] 7 8 (mkKeyLengths 32 0 36) 0 0)
    as ((k & H1 & H2 & _) & _).
  exists k. split; [exact H1|exact H2].
Defined.

Definition accepted_public (g : DhGroup) (private : bytes) : bool :=
  match DhGroup_public g private with
  | Ok p => bool_decide (peer_acceptable g p)
  | _ => false
  end.

Lemma accepted_public_acceptable g private p : accepted_public g private = true ->
  DhGroup_public g private = Ok p -> peer_acceptable g p.
Proof. unfold accepted_public. intros H E. rewrite E in H. by apply bool_decide_eq_true in H. Qed.

Definition example_private_a : bytes := replicate 30 0 ++ [4; 21].
Definition example_private_b : bytes := replicate 30 0 ++ [5; 3].

Lemma example_public_a : accepted_public Modp1024 example_private_a = true.
Proof. vm_compute. reflexivity. Qed.

Lemma example_public_b : accepted_public Modp1024 example_private_b = true.
Proof. vm_compute. reflexivity. Qed.

Lemma dh_agreement_witness : exists pa pb s,
  DhGroup_public Modp1024 example_private_a = Ok pa /\
  DhGroup_public Modp1024 example_private_b = Ok pb /\
  DhGroup_shared Modp1024 example_private_a pb = Ok s /\
  DhGroup_shared Modp1024 example_private_b pa = Ok s.
Proof.
  destruct (dh_agreement Modp1024 example_private_a example_private_b)
    as (pa & pb & Ha & Hb & _ & _ & _ & H);
    [by repeat constructor|by repeat constructor|simpl; lia|simpl; lia|].
  destruct H as (s & H1 & H2).
  - exact (accepted_public_acceptable _ _ _ example_public_a Ha).
  - exact (accepted_public_acceptable _ _ _ example_public_b Hb).
  - exists pa, pb, s. split_and!; assumption.
Defined.
