(* ===== verification/Sk.v ===== *)
(** * The Encrypted payload ([src/src/ikev2/sk.rs])

    AES-256-GCM protection of a whole IKEv2 message: [SK_e] is a 32-octet key and
    a 4-octet salt, the nonce is the salt and the 8-octet IV, and everything
    before the IV is authenticated. *)
From S2P Require Import Prelude Outcome Primitives Message.

Definition IV_LEN : nat := 8.
Definition ICV_LEN : nat := 16.
Definition SALT_LEN : nat := 4.
Definition AES256_KEY_LEN : nat := 32.

Definition sk_e_error : IkeError :=
  Crypto "SK_e must be 36 bytes (32-byte AES-256 key + 4-byte GCM salt)".

Definition split_key (sk_e : bytes) : outcome (bytes * bytes) :=
  if decide (length sk_e <> AES256_KEY_LEN + SALT_LEN)%nat then Err sk_e_error
  else
    key ← slice sk_e 0 AES256_KEY_LEN;
    salt ← slice_from sk_e AES256_KEY_LEN;
    Ok (key, salt).

(** [copy_from_slice] panics when the lengths differ. *)
Definition gcm_nonce (salt iv : bytes) : outcome bytes :=
  if decide (length salt = SALT_LEN /\ length iv = IV_LEN) then Ok (salt ++ iv) else Panic.

(** [Aes256Gcm::new_from_slice(key)] *)
Definition gcm_new (key : bytes) : outcome bytes :=
  if decide (length key = AES256_KEY_LEN) then Ok key else Err (Crypto "bad AES-256 key length").

Section sk.
Context `{!Primitives}.

Definition gcm_seal (sk_e iv aad plaintext : bytes) : outcome bytes :=
  '(key, salt) ← split_key sk_e;
  cipher ← gcm_new key;
  nonce ← gcm_nonce salt iv;
  ok_or (gcm_encrypt cipher nonce aad plaintext) (Crypto "GCM encryption failed").

Definition gcm_open (sk_e iv aad ct_and_tag : bytes) : outcome bytes :=
  '(key, salt) ← split_key sk_e;
  cipher ← gcm_new key;
  nonce ← gcm_nonce salt iv;
  ok_or (gcm_decrypt cipher nonce aad ct_and_tag) BadIntegrity.

Definition build_encrypted_gcm (header : IkeHeader) (first_inner : PayloadType)
    (inner sk_e iv : bytes) : outcome bytes :=
  '(key, salt) ← split_key sk_e;
  let plaintext := inner ++ [0] in
  let sk_body_len := (IV_LEN + length plaintext + ICV_LEN)%nat in
  let sk_payload_len := (4 + sk_body_len)%nat in
  let total_len := (IkeHeader_LEN + sk_payload_len)%nat in
  let header := with_next_len header PEncrypted (as_u32 (Z.of_nat total_len)) in
  let header_bytes := IkeHeader_to_bytes header in
  let sk_gen := [PayloadType_to_u8 first_inner; 0] ++ be_bytes 2 (len16 sk_payload_len) in
  let aad := header_bytes ++ sk_gen in
  nonce ← gcm_nonce salt iv;
  cipher ← gcm_new key;
  ct_and_tag ← ok_or (gcm_encrypt cipher nonce aad plaintext) (Crypto "GCM encryption failed");
  Ok (header_bytes ++ sk_gen ++ iv ++ ct_and_tag).

(** [plaintext[..plaintext.len() - 1 - pad_len]] after the two checks; the
    messages of the errors differ between the SK and SKF payloads. *)
Definition strip_padding (empty_msg pad_msg : string) (plaintext : bytes) : outcome bytes :=
  last_byte ← ok_or (last plaintext) (Crypto empty_msg);
  let pad_len := usize last_byte in
  if decide (length plaintext < pad_len + 1)%nat then Err (Crypto pad_msg)
  else slice plaintext 0 (length plaintext - 1 - pad_len).

Definition open_encrypted_gcm (message sk_e : bytes) : outcome (PayloadType * bytes) :=
  '(key, salt) ← split_key sk_e;
  header ← IkeHeader_parse message;
  if decide (next_payload header <> PEncrypted) then Err (MissingPayload "SK") else
  body ← slice_from message IkeHeader_LEN;
  if decide (length body < 4)%nat then Err (Truncated 4 (length body)) else
  np ← idx body 0;
  let first_inner := PayloadType_from_u8 np in
  len ← u16be body 2;
  let sk_payload_len := usize len in
  if decide (sk_payload_len < 4 + IV_LEN + ICV_LEN \/ length body < sk_payload_len)%nat
  then Err (BadLength sk_payload_len (length body)) else
  sk_body ← slice body 4 sk_payload_len;
  iv ← slice sk_body 0 IV_LEN;
  ct_and_tag ← slice_from sk_body IV_LEN;
  aad ← slice message 0 (IkeHeader_LEN + 4);
  nonce ← gcm_nonce salt iv;
  cipher ← gcm_new key;
  plaintext ← ok_or (gcm_decrypt cipher nonce aad ct_and_tag) BadIntegrity;
  inner ← strip_padding "empty plaintext" "pad length exceeds plaintext" plaintext;
  Ok (first_inner, inner).
End sk.

(** ** Lemmas *)
Lemma split_key_ok sk_e : length sk_e = 36%nat ->
  split_key sk_e = Ok (take 32 sk_e, drop 32 sk_e).
Proof.
  intros Hl. unfold split_key, AES256_KEY_LEN, SALT_LEN. rewrite decide_False by lia.
  rewrite slice_ok, slice_from_ok by lia. done.
Qed.

Lemma split_key_err sk_e : length sk_e <> 36%nat -> split_key sk_e = Err sk_e_error.
Proof. intros. unfold split_key. by rewrite decide_True. Qed.

Lemma gcm_nonce_ok salt iv : length salt = 4%nat -> length iv = 8%nat ->
  gcm_nonce salt iv = Ok (salt ++ iv).
Proof. intros. unfold gcm_nonce. by rewrite decide_True. Qed.

Lemma gcm_new_ok key : length key = 32%nat -> gcm_new key = Ok key.
Proof. intros. unfold gcm_new. by rewrite decide_True. Qed.

Lemma strip_padding_zero e p inner : strip_padding e p (inner ++ [0]) = Ok inner.
Proof.
  unfold strip_padding. rewrite last_snoc. cbn [ok_or mbind outcome_bind].
  rewrite length_app. cbn [length Z.to_nat]. rewrite decide_False by lia.
  replace (length inner + 1 - 1 - 0)%nat with (length inner) by lia.
  apply (slice_app_mid [] inner [0]); simpl; lia.
Qed.

Lemma strip_padding_wp e p l : bytes_ok l ->
  wp (strip_padding e p l) (fun inner => bytes_ok inner /\ (length inner <= length l)%nat).
Proof.
  intros Hl. unfold strip_padding. wp_steps. split; [auto with ryke|lia].
Qed.

(** What padding removal accepts: the content, that many padding octets, and
    their count. *)
Lemma strip_padding_Ok e p l inner : bytes_ok l -> strip_padding e p l = Ok inner ->
  exists pad, l = inner ++ pad ++ [Z.of_nat (length pad)].
Proof.
  intros Hl H. unfold strip_padding in H. ok_inv.
  match goal with E : last l = Some ?b |- _ =>
    apply last_Some in E as [l' ->]; rename b into b0 end.
  assert (Hb : byte_ok b0) by (apply bytes_ok_app_inv in Hl as [_ Hl]; by inversion Hl).
  apply slice_Ok in H as [_ ->]. rewrite length_app in *. cbn [length] in *.
  unfold byte_ok in Hb. exists (drop (length l' - usize b0) l').
  rewrite drop_0, take_app_le by lia. rewrite app_assoc. f_equal.
  - replace (length l' + 1 - 1 - usize b0 - 0)%nat with (length l' - usize b0)%nat by lia.
    by rewrite take_drop.
  - rewrite length_drop. f_equal. lia.
Qed.

Section lemmas.
Context `{!Primitives, !AeadLaws}.

Lemma gcm_seal_ok sk_e iv aad m : length sk_e = 36%nat -> length iv = 8%nat ->
  Z.of_nat (length m) <= 2 ^ 36 ->
  exists ct, gcm_seal sk_e iv aad m = Ok ct /\ length ct = (length m + 16)%nat /\
    gcm_encrypt (take 32 sk_e) (drop 32 sk_e ++ iv) aad m = Some ct /\
    gcm_open sk_e iv aad ct = Ok m /\ (bytes_ok m -> bytes_ok ct).
Proof.
  intros Hk Hiv Hm. unfold gcm_seal, gcm_open. rewrite split_key_ok by done. cbn [mbind outcome_bind].
  assert (Hkey : length (take 32 sk_e) = 32%nat) by (rewrite length_take; lia).
  assert (Hsalt : length (drop 32 sk_e) = 4%nat) by (rewrite length_drop; lia).
  rewrite gcm_new_ok, gcm_nonce_ok by done. cbn [mbind outcome_bind].
  destruct (gcm_encrypt_some (take 32 sk_e) (drop 32 sk_e ++ iv) aad m) as [ct E];
    [done|rewrite length_app; lia|done|].
  exists ct. rewrite E, (gcm_decrypt_encrypt _ _ _ _ _ E).
  split_and!; [done|by apply gcm_encrypt_length in E|done|done|eauto using gcm_encrypt_bytes].
Qed.

Lemma gcm_open_wp sk_e iv aad ct : length iv = 8%nat -> bytes_ok ct ->
  wp (gcm_open sk_e iv aad ct) (fun m => bytes_ok m).
Proof.
  intros Hiv Hct. unfold gcm_open. destruct (decide (length sk_e = 36%nat)) as [Hk|Hk].
  - rewrite split_key_ok by done. cbn [mbind outcome_bind].
    rewrite gcm_new_ok, gcm_nonce_ok by (rewrite ?length_take, ?length_drop; lia).
    cbn [mbind outcome_bind]. apply wp_ok_or. eauto using gcm_decrypt_bytes.
  - by rewrite split_key_err.
Qed.
End lemmas.

(** ** Whole messages *)

(** The length field and SK length of a message with [n] inner octets. *)
Definition sk_len (n : nat) : nat := (4 + (IV_LEN + (n + 1) + ICV_LEN))%nat.
Definition sk_fits (inner : bytes) : Prop := Z.of_nat (sk_len (length inner)) < 2 ^ 16.

Definition sk_header (h : IkeHeader) (inner : bytes) : IkeHeader :=
  with_next_len h PEncrypted (Z.of_nat (IkeHeader_LEN + sk_len (length inner))).

Definition sk_aad (h : IkeHeader) (first_inner : PayloadType) (inner : bytes) : bytes :=
  IkeHeader_to_bytes (sk_header h inner) ++
  [PayloadType_to_u8 first_inner; 0] ++ be_bytes 2 (len16 (sk_len (length inner))).

Lemma sk_header_wf h inner : IkeHeader_wf h -> sk_fits inner -> IkeHeader_wf (sk_header h inner).
Proof.
  intros Hh Hf. apply with_next_len_wf; [done|by split|].
  unfold u32_ok, sk_fits, IkeHeader_LEN in *. lia.
Qed.

Lemma sk_header_u32 h inner : sk_fits inner ->
  with_next_len h PEncrypted
    (as_u32 (Z.of_nat (IkeHeader_LEN + (4 + (IV_LEN + length (inner ++ [0]) + ICV_LEN))))) =
  sk_header h inner.
Proof.
  intros Hf. rewrite length_app. cbn [length]. unfold as_u32.
  rewrite Z.mod_small; [done|]. unfold sk_fits, sk_len, IkeHeader_LEN in *. lia.
Qed.

Section messages.
Context `{!Primitives, !AeadLaws}.

Lemma build_encrypted_err h first inner sk_e iv : length sk_e <> 36%nat ->
  build_encrypted_gcm h first inner sk_e iv = Err sk_e_error.
Proof. intros. unfold build_encrypted_gcm. by rewrite split_key_err. Qed.

Lemma open_encrypted_err m sk_e : length sk_e <> 36%nat ->
  open_encrypted_gcm m sk_e = Err sk_e_error.
Proof. intros. unfold open_encrypted_gcm. by rewrite split_key_err. Qed.

Lemma build_encrypted_ok h first inner sk_e iv :
  length sk_e = 36%nat -> length iv = 8%nat -> sk_fits inner ->
  exists ct, build_encrypted_gcm h first inner sk_e iv = Ok (sk_aad h first inner ++ iv ++ ct) /\
    length ct = (length inner + 17)%nat /\
    gcm_encrypt (take 32 sk_e) (drop 32 sk_e ++ iv) (sk_aad h first inner) (inner ++ [0]) = Some ct.
Proof.
  intros Hk Hiv Hf. unfold build_encrypted_gcm. rewrite split_key_ok by done.
  cbn [mbind outcome_bind]. rewrite sk_header_u32 by done.
  rewrite gcm_nonce_ok, gcm_new_ok by (rewrite ?length_take, ?length_drop; lia).
  cbn [mbind outcome_bind]. rewrite length_app. cbn [length].
  fold (sk_len (length inner)). fold (sk_aad h first inner).
  destruct (gcm_encrypt_some (take 32 sk_e) (drop 32 sk_e ++ iv) (sk_aad h first inner) (inner ++ [0]))
    as [ct E]; [rewrite length_take; lia|rewrite length_app, length_drop; lia| |].
  { rewrite length_app. unfold sk_fits, sk_len in Hf. simpl. lia. }
  exists ct. rewrite E. split_and!; [|apply gcm_encrypt_length in E; rewrite length_app in E; simpl in E; lia|done].
  cbn [ok_or mbind outcome_bind]. unfold sk_aad. by rewrite <- app_assoc.
Qed.

(** Opening a message of the right shape comes down to one decryption. *)
Lemma open_encrypted_shape h first inner sk_e iv ct tail :
  IkeHeader_wf h -> PayloadType_wf first -> length sk_e = 36%nat -> length iv = 8%nat ->
  sk_fits inner -> length ct = (length inner + 17)%nat ->
  open_encrypted_gcm (sk_aad h first inner ++ iv ++ ct ++ tail) sk_e =
  (plaintext ← ok_or (gcm_decrypt (take 32 sk_e) (drop 32 sk_e ++ iv) (sk_aad h first inner) ct)
                 BadIntegrity;
   inner' ← strip_padding "empty plaintext" "pad length exceeds plaintext" plaintext;
   Ok (first, inner')).
Proof.
  intros Hh [_ Hfi] Hk Hiv Hf Hct. unfold open_encrypted_gcm. rewrite split_key_ok by done.
  cbn [mbind outcome_bind].
  set (gen := [PayloadType_to_u8 first; 0] ++ be_bytes 2 (len16 (sk_len (length inner)))).
  set (hb := IkeHeader_to_bytes (sk_header h inner)).
  change (sk_aad h first inner) with (hb ++ gen).
  assert (Hgen : length gen = 4%nat) by done. assert (Hhb : length hb = 28%nat) by done.
  assert (Hlen : length (gen ++ iv ++ ct ++ tail) = (sk_len (length inner) + length tail)%nat).
  { rewrite !length_app. unfold sk_len, IV_LEN, ICV_LEN. lia. }
  assert (Hparse : forall r, IkeHeader_parse (hb ++ r) = Ok (sk_header h inner)).
  { intros r. by apply IkeHeader_parse_app, sk_header_wf. }
  rewrite <- (app_assoc hb gen), Hparse.
  cbn [mbind outcome_bind]. rewrite decide_False by (intros []; done).
  rewrite slice_from_app by done. cbn [mbind outcome_bind].
  rewrite decide_False by (rewrite Hlen; unfold sk_len; lia).
  change (idx (gen ++ ?r) 0) with (Ok (PayloadType_to_u8 first)).
  change (u16be (gen ++ ?r) 2) with (Ok (be_val (be_bytes 2 (len16 (sk_len (length inner)))))).
  rewrite len16_small by done. cbn [mbind outcome_bind]. rewrite Nat2Z.id, Hfi.
  rewrite decide_False by (rewrite Hlen; unfold sk_len, IV_LEN, ICV_LEN; lia).
  rewrite (app_assoc iv ct tail), (slice_app_mid gen (iv ++ ct) tail)
    by (rewrite ?length_app; unfold sk_len, IV_LEN, ICV_LEN; lia).
  cbn [mbind outcome_bind]. unfold IV_LEN.
  rewrite (slice_app_head iv ct) by done. cbn [mbind outcome_bind].
  rewrite slice_from_app by done. cbn [mbind outcome_bind].
  rewrite (app_assoc hb gen), (slice_app_head (hb ++ gen)) by done. cbn [mbind outcome_bind].
  rewrite gcm_nonce_ok, gcm_new_ok by (rewrite ?length_take, ?length_drop; lia).
  done.
Qed.

Lemma build_open h first inner sk_e iv :
  IkeHeader_wf h -> PayloadType_wf first -> bytes_ok inner -> bytes_ok iv ->
  length sk_e = 36%nat -> length iv = 8%nat -> sk_fits inner ->
  exists m, build_encrypted_gcm h first inner sk_e iv = Ok m /\
    bytes_ok m /\ length m = (IkeHeader_LEN + sk_len (length inner))%nat /\
    IkeHeader_parse m = Ok (sk_header h inner) /\
    forall tail, open_encrypted_gcm (m ++ tail) sk_e = Ok (first, inner).
Proof.
  intros Hh Hfi Hin Hivb Hk Hiv Hf.
  destruct (build_encrypted_ok h first inner sk_e iv) as (ct & E & Hct & Henc); [done..|].
  exists (sk_aad h first inner ++ iv ++ ct). split_and!; [done|..].
  - assert (byte_ok 0) by (split; lia). unfold sk_aad.
    pose proof (IkeHeader_to_bytes_ok _ (sk_header_wf h inner Hh Hf)).
    assert (bytes_ok ct) by (eapply gcm_encrypt_bytes; [|done]; auto with ryke).
    auto 10 with ryke.
  - rewrite !length_app. unfold sk_aad. rewrite length_app, length_IkeHeader_to_bytes.
    unfold sk_len, IV_LEN, ICV_LEN, IkeHeader_LEN. simpl. lia.
  - unfold sk_aad. rewrite <- app_assoc. by apply IkeHeader_parse_app, sk_header_wf.
  - intros tail. rewrite <- !app_assoc, open_encrypted_shape by done.
    rewrite (gcm_decrypt_encrypt _ _ _ _ _ Henc). cbn [ok_or mbind outcome_bind].
    by rewrite strip_padding_zero.
Qed.

Lemma build_open' h first inner sk_e iv :
  IkeHeader_wf h -> PayloadType_wf first -> bytes_ok inner -> bytes_ok iv ->
  length sk_e = 36%nat -> length iv = 8%nat -> sk_fits inner ->
  exists m, build_encrypted_gcm h first inner sk_e iv = Ok m /\ bytes_ok m /\
    IkeHeader_parse m = Ok (sk_header h inner) /\ open_encrypted_gcm m sk_e = Ok (first, inner).
Proof.
  intros. destruct (build_open h first inner sk_e iv) as (m & ? & ? & _ & ? & Ho); [done..|].
  exists m. rewrite <- (Ho []), app_nil_r. done.
Qed.

Lemma open_encrypted_wp message sk_e : bytes_ok message ->
  wp (open_encrypted_gcm message sk_e) (fun '(t, inner) =>
    PayloadType_wf t /\ bytes_ok inner).
Proof.
  intros Hm. destruct (decide (length sk_e = 36%nat)) as [Hk|Hk];
    [|by rewrite open_encrypted_err].
  unfold open_encrypted_gcm. rewrite split_key_ok by done. cbn [mbind outcome_bind].
  apply wp_bind. eapply wp_mono; [|by apply IkeHeader_parse_wp_len]. intros h [Hh H28].
  unfold IkeHeader_LEN in *. wp_steps; rewrite ?length_take, ?length_drop in *;
    unfold IV_LEN, ICV_LEN in *; try lia; auto with ryke.
  rewrite gcm_nonce_ok, gcm_new_ok by (rewrite ?length_take, ?length_drop; lia).
  cbn [mbind outcome_bind]. wp_steps. eapply wp_mono; [|apply strip_padding_wp].
  - intros inner [Hi _]. split; [auto with ryke|done].
  - eapply gcm_decrypt_bytes; [|done]. auto with ryke.
Qed.
End messages.

Section authenticity.
Context `{!Primitives, !AeadLaws, !AeadAuthentic}.

(** What [open_encrypted_gcm] accepts: the sealing of the padded inner octets,
    over the first 32 octets of the message. *)
Definition genuine_sk (message sk_e inner : bytes) : Prop :=
  exists iv ct pad tail,
    message = take 32 message ++ iv ++ ct ++ tail /\ length iv = 8%nat /\
    gcm_encrypt (take 32 sk_e) (drop 32 sk_e ++ iv) (take 32 message)
      (inner ++ pad ++ [Z.of_nat (length pad)]) = Some ct.

Lemma open_encrypted_genuine message sk_e t inner : bytes_ok message ->
  open_encrypted_gcm message sk_e = Ok (t, inner) ->
  length sk_e = 36%nat /\ genuine_sk message sk_e inner /\
  (exists b, message !! 28%nat = Some b /\ t = PayloadType_from_u8 b).
Proof.
  intros Hm Ho. destruct (decide (length sk_e = 36%nat)) as [Hk|Hk];
    [split; [done|]|by rewrite open_encrypted_err in Ho].
  unfold open_encrypted_gcm in Ho. rewrite split_key_ok in Ho by done. cbn [mbind outcome_bind] in Ho.
  apply bind_Ok in Ho as (h & Hp & Ho). apply IkeHeader_parse_Ok_length in Hp.
  unfold IkeHeader_LEN in *. case_decide; [done|]. rewrite slice_from_ok in Ho by done.
  cbn [mbind outcome_bind] in Ho. case_decide; [done|].
  apply bind_Ok in Ho as (np & Hnp & Ho). apply bind_Ok in Ho as (len & _ & Ho).
  case_decide; [done|]. rewrite length_drop in *. unfold IV_LEN, ICV_LEN in *.
  set (n := usize len) in *.
  rewrite (slice_ok (drop 28 message)) in Ho by (rewrite ?length_drop; lia). cbn [mbind outcome_bind] in Ho.
  set (skb := take (n - 4) (drop 4 (drop 28 message))) in *.
  assert (Hskb : length skb = (n - 4)%nat)
    by (unfold skb; rewrite length_take, !length_drop; lia).
  rewrite (slice_ok skb), slice_from_ok in Ho by lia. cbn [mbind outcome_bind] in Ho.
  rewrite (slice_ok message) in Ho by lia. cbn [mbind outcome_bind] in Ho.
  rewrite gcm_nonce_ok, gcm_new_ok in Ho by (rewrite ?length_take, ?length_drop; lia).
  cbn [mbind outcome_bind] in Ho. ok_inv.
  assert (Hct : bytes_ok (drop 8 skb)) by (unfold skb; auto with ryke).
  match goal with D : gcm_decrypt _ _ _ _ = Some ?x, S : strip_padding _ _ ?x = Ok _ |- _ =>
    pose proof (gcm_decrypt_bytes _ _ _ _ _ Hct D) as Hpb;
    apply strip_padding_Ok in S as [pad ->]; [|exact Hpb]; apply gcm_encrypt_decrypt in D end.
  split.
  - exists (take 8 skb), (drop 8 skb), pad, (drop (n - 4) (drop 4 (drop 28 message))).
    split_and!; [|rewrite length_take; lia|done].
    rewrite (app_assoc (take 8 skb)), take_drop. unfold skb.
    by rewrite take_drop, drop_drop, take_drop.
  - exists np. split; [|done]. unfold idx in Hnp. rewrite lookup_drop in Hnp.
    by destruct (message !! _); simplify_eq.
Qed.
End authenticity.

(** ** Properties *)
Section properties.
Context `{!Primitives, !AeadLaws}.

(** C20: Sealing and opening an encrypted message are inverse: for any header,
    inner payload chain that fits the 16-bit payload length, 36-octet [SK_e] and
    8-octet IV, building succeeds with a message of the announced length whose
    header says so, and opening it under the same key returns the first payload
    type and the inner chain, whatever octets follow the message. *)
Theorem sk_roundtrip h first inner sk_e iv tail :
  IkeHeader_wf h -> PayloadType_wf first -> bytes_ok inner -> bytes_ok iv ->
  length sk_e = 36%nat -> length iv = 8%nat -> Z.of_nat (length inner) <= 65506 ->
  exists m, build_encrypted_gcm h first inner sk_e iv = Ok m /\
    bytes_ok m /\ length m = (57 + length inner)%nat /\
    IkeHeader_parse m = Ok (with_next_len h PEncrypted (Z.of_nat (length m))) /\
    open_encrypted_gcm (m ++ tail) sk_e = Ok (first, inner).
Proof.
  intros ? ? ? ? ? ? Hlen.
  destruct (build_open h first inner sk_e iv) as (m & Hb & Hok & Hl & Hp & Ho); try done.
  { unfold sk_fits, sk_len, IV_LEN, ICV_LEN. lia. }
  exists m. split_and!; [done|done| |by rewrite Hl|done].
  rewrite Hl. unfold sk_len, IkeHeader_LEN, IV_LEN, ICV_LEN. lia.
Qed.

(** Opening an encrypted message never panics, whatever the message and the
    key: a key that is not 36 octets is refused by both directions, and any other
    outcome is an error or a well-formed payload type with inner octets. *)
Theorem sk_open_total message sk_e : bytes_ok message ->
  wp (open_encrypted_gcm message sk_e) (fun '(t, inner) => PayloadType_wf t /\ bytes_ok inner) /\
  (length sk_e <> 36%nat ->
     open_encrypted_gcm message sk_e = Err sk_e_error /\
     forall h first inner iv, build_encrypted_gcm h first inner sk_e iv = Err sk_e_error).
Proof.
  intros Hm. split; [by apply open_encrypted_wp|].
  intros Hk. split; [by apply open_encrypted_err|]. intros. by apply build_encrypted_err.
Qed.

(** C21: Authenticity of the encrypted payload: a message is accepted only if what
    follows its first 32 octets (IKE header and SK header) is an IV and the
    AES-256-GCM sealing, under the key and salt of [SK_e] and with those 32 octets
    as associated data, of the returned inner octets with their padding; and the
    returned payload type is the octet of the authenticated SK header. *)
Theorem sk_open_authentic `{!AeadAuthentic} message sk_e t inner : bytes_ok message ->
  open_encrypted_gcm message sk_e = Ok (t, inner) ->
  length sk_e = 36%nat /\ genuine_sk message sk_e inner /\
  (exists b, message !! 28%nat = Some b /\ t = PayloadType_from_u8 b).
Proof. apply open_encrypted_genuine. Qed.
End properties.

Definition example_sk_e : bytes := replicate 32 0xA1 ++ [1; 2; 3; 4].
Definition example_iv : bytes := [9; 8; 7; 6; 5; 4; 3; 2].

Lemma sk_roundtrip_witness : exists m,
  build_encrypted_gcm example_header PNonce [1; 2; 3] example_sk_e example_iv = Ok m /\
  length m = 60%nat /\
  open_encrypted_gcm (m ++ [0]) example_sk_e = Ok (PNonce, [1; 2; 3]).
Proof.
  destruct (sk_roundtrip example_header PNonce [1; 2; 3] example_sk_e example_iv [0])
    as (m & Hb & _ & Hl & _ & Ho);
    [exact example_header_wf|by split|by repeat constructor|by repeat constructor
    |reflexivity|reflexivity|simpl; lia|].
  exists m. split_and!; [exact Hb|exact Hl|exact Ho].
Defined.

Lemma sk_open_total_witness :
  open_encrypted_gcm (replicate 40 46) [1; 2] = Err sk_e_error.
Proof.
  apply (sk_open_total (replicate 40 46) [1; 2]); [by apply Forall_replicate|simpl; lia].
Defined.

(** A sealed message, computed. *)
Definition example_sealed : bytes :=
  match build_encrypted_gcm example_header PNonce [1; 2; 3] example_sk_e example_iv with
  | Ok m => m | _ => [] end.

Lemma example_sealed_ok : bytes_ok example_sealed.
Proof. apply (bool_decide_unpack _). vm_compute. done. Qed.

Lemma sk_open_authentic_witness :
  open_encrypted_gcm example_sealed example_sk_e = Ok (PNonce, [1; 2; 3]) /\
  genuine_sk example_sealed example_sk_e [1; 2; 3].
Proof.
  assert (H : open_encrypted_gcm example_sealed example_sk_e = Ok (PNonce, [1; 2; 3]))
    by (vm_compute; reflexivity).
  split; [exact H|]. apply (sk_open_authentic _ _ PNonce _ example_sealed_ok H).
Defined.
