(* ===== verification/Fragment.v ===== *)
(** * IKE message fragmentation ([src/src/ikev2/fragment.rs])

    A large inner payload chain travels as several messages, each with one SKF
    payload sealed on its own; the receiver takes them in any order. *)
From S2P Require Import Prelude Outcome Primitives Message Sk.

Definition SKF_EXTRA : nat := 4.
Definition SKF_MIN_BODY : nat := SKF_EXTRA + IV_LEN + ICV_LEN.

(** [inner.chunks(n)] for [n > 0]: every chunk but the last has [n] octets. *)
Fixpoint chunks_loop (fuel n : nat) (l : bytes) : list bytes :=
  match fuel, l with
  | O, _ => []
  | _, [] => []
  | S f, _ => take n l :: chunks_loop f n (drop n l)
  end.
Definition chunks (n : nat) (l : bytes) : list bytes := chunks_loop (length l) n l.

Record Fragment := mkFragment {
  frag_num : Z;
  frag_total : Z;
  frag_next_payload : Z;
  frag_content : bytes }.

Section fragment.
Context `{!Primitives}.

(** The body of the loop, for chunk number [i]. *)
Definition build_fragment (header : IkeHeader) (first_inner : PayloadType) (sk_e : bytes)
    (iv_base : Z) (total : Z) (i : nat) (chunk : bytes) : outcome bytes :=
  let frag_num := as_u16 (Z.of_nat (i + 1)) in
  let iv := be_bytes 8 (as_u64 (iv_base + frag_num)) in
  let plaintext := chunk ++ [0] in
  let skf_payload_len := (4 + SKF_EXTRA + IV_LEN + length plaintext + ICV_LEN)%nat in
  let total_len := (IkeHeader_LEN + skf_payload_len)%nat in
  let hdr := with_next_len header PEncryptedFragment (as_u32 (Z.of_nat total_len)) in
  let hdr_bytes := IkeHeader_to_bytes hdr in
  let skf_gen := [if decide (frag_num = 1) then PayloadType_to_u8 first_inner else 0; 0] ++
                 be_bytes 2 (len16 skf_payload_len) in
  let aad := hdr_bytes ++ skf_gen ++ be_bytes 2 frag_num ++ be_bytes 2 total in
  ct_and_tag ← gcm_seal sk_e iv aad plaintext;
  Ok (hdr_bytes ++ skf_gen ++ be_bytes 2 frag_num ++ be_bytes 2 total ++ iv ++ ct_and_tag).

(** [for (i, chunk) in chunks.iter().enumerate()] *)
Fixpoint build_fragments_from (header : IkeHeader) (first_inner : PayloadType) (sk_e : bytes)
    (iv_base : Z) (total : Z) (i : nat) (cs : list bytes) : outcome (list bytes) :=
  match cs with
  | [] => Ok []
  | c :: rest =>
      msg ← build_fragment header first_inner sk_e iv_base total i c;
      msgs ← build_fragments_from header first_inner sk_e iv_base total (S i) rest;
      Ok (msg :: msgs)
  end.

Definition build_fragments (header : IkeHeader) (first_inner : PayloadType) (inner sk_e : bytes)
    (iv_base : Z) (content_per_fragment : nat) : outcome (list bytes) :=
  if decide (content_per_fragment = 0%nat)
  then Err (Crypto "fragment content size must be > 0") else
  let cs := match inner with [] => [[]] | _ => chunks content_per_fragment inner end in
  let total := len16 (length cs) in
  build_fragments_from header first_inner sk_e iv_base total 0 cs.

Definition open_fragment (message sk_e : bytes) : outcome Fragment :=
  header ← IkeHeader_parse message;
  if decide (next_payload header <> PEncryptedFragment) then Err (MissingPayload "SKF") else
  body ← slice_from message IkeHeader_LEN;
  if decide (length body < 4 + SKF_MIN_BODY)%nat
  then Err (Truncated (4 + SKF_MIN_BODY) (length body)) else
  np ← idx body 0;
  len ← u16be body 2;
  let skf_payload_len := usize len in
  if decide (skf_payload_len < 4 + SKF_MIN_BODY \/ length body < skf_payload_len)%nat
  then Err (BadLength skf_payload_len (length body)) else
  fnum ← u16be body 4;
  total ← u16be body 6;
  iv ← slice body 8 16;
  ct_and_tag ← slice body 16 skf_payload_len;
  aad ← slice message 0 (IkeHeader_LEN + 4 + SKF_EXTRA);
  plaintext ← gcm_open sk_e iv aad ct_and_tag;
  content ← strip_padding "empty fragment" "pad length exceeds fragment" plaintext;
  Ok {| frag_num := fnum; frag_total := total; frag_next_payload := np;
        frag_content := content |}.
End fragment.

(** [frags.sort_by_key(|f| f.frag_num)]: a stable sort. *)
Fixpoint insert_frag (f : Fragment) (fs : list Fragment) : list Fragment :=
  match fs with
  | [] => [f]
  | g :: gs => if decide (frag_num f <= frag_num g) then f :: fs else g :: insert_frag f gs
  end.
Definition sort_frags (fs : list Fragment) : list Fragment := foldr insert_frag [] fs.

(** [for (i, f) in frags.iter().enumerate() { if f.frag_num != (i + 1) as u16 ... }] *)
Fixpoint numbered_from (i : nat) (fs : list Fragment) : bool :=
  match fs with
  | [] => true
  | f :: rest => bool_decide (frag_num f = as_u16 (Z.of_nat (i + 1))) && numbered_from (S i) rest
  end.

Definition reassemble `{!Primitives} (messages : list bytes) (sk_e : bytes)
    : outcome (PayloadType * bytes) :=
  frags ← mapM (fun m => open_fragment m sk_e) messages;
  match frags with
  | [] => Err (Crypto "no fragments")
  | f0 :: _ =>
      let total := frag_total f0 in
      if decide (total = 0) then Err (Crypto "inconsistent Total Fragments") else
      if existsb (fun f => negb (frag_total f =? total)) frags
      then Err (Crypto "inconsistent Total Fragments") else
      if decide (length frags <> usize total) then Err (Crypto "wrong number of fragments") else
      let frags := sort_frags frags in
      if negb (numbered_from 0 frags) then Err (Crypto "duplicate or missing fragment number") else
      match frags with
      | [] => Panic
      | f0 :: _ => Ok (PayloadType_from_u8 (frag_next_payload f0), mjoin (frag_content <$> frags))
      end
  end.

(** ** Chunks *)
Lemma chunks_loop_join fuel n l : (0 < n)%nat -> (length l <= fuel)%nat ->
  mjoin (chunks_loop fuel n l) = l.
Proof.
  intros Hn. revert l. induction fuel as [|fuel IH]; intros l Hl.
  - by destruct l; [|simpl in Hl; lia].
  - destruct l as [|x l]; [done|]. cbn [chunks_loop].
    change (mjoin (?a :: ?b)) with (a ++ mjoin b).
    rewrite IH; [apply take_drop|]. rewrite length_drop. simpl in *. lia.
Qed.

Lemma chunks_loop_forall fuel n l : bytes_ok l ->
  Forall (fun c => bytes_ok c /\ (length c <= n)%nat) (chunks_loop fuel n l).
Proof.
  revert l. induction fuel as [|fuel IH]; intros l Hl; [constructor|].
  destruct l as [|x l]; [constructor|]. cbn [chunks_loop]. constructor; [|auto with ryke].
  split; [auto with ryke|]. rewrite length_take. lia.
Qed.

(** The pieces [build_fragments] seals. *)
Definition pieces (n : nat) (inner : bytes) : list bytes :=
  match inner with [] => [[]] | _ => chunks n inner end.

Lemma frag_pieces_join n inner : (0 < n)%nat -> mjoin (pieces n inner) = inner.
Proof.
  intros. unfold pieces. destruct inner; [done|]. by apply chunks_loop_join.
Qed.

Lemma frag_pieces_forall n inner : bytes_ok inner ->
  Forall (fun c => bytes_ok c /\ (length c <= n)%nat) (pieces n inner).
Proof.
  intros. unfold pieces. destruct inner; [|by apply chunks_loop_forall].
  repeat constructor. simpl. lia.
Qed.

Lemma frag_pieces_nonempty n inner : pieces n inner <> [].
Proof. by destruct inner. Qed.

(** ** One fragment *)
Section one.
Context `{!Primitives, !AeadLaws}.

(** The fragment a receiver gets for piece [i]. *)
Definition the_fragment (first_inner : PayloadType) (total : Z) (i : nat) (c : bytes) : Fragment := {|
  frag_num := Z.of_nat (i + 1);
  frag_total := total;
  frag_next_payload := if decide (i = 0%nat) then PayloadType_to_u8 first_inner else 0;
  frag_content := c |}.

Definition frag_iv (iv_base : Z) (i : nat) : bytes := be_bytes 8 (as_u64 (iv_base + Z.of_nat (i + 1))).

Definition piece_fits (c : bytes) : Prop := bytes_ok c /\ Z.of_nat (33 + length c) < 2 ^ 16.

(** The octets before the IV. *)
Definition frag_aad (h : IkeHeader) (first : PayloadType) (total : Z) (i : nat) (c : bytes) : bytes :=
  IkeHeader_to_bytes (with_next_len h PEncryptedFragment (Z.of_nat (61 + length c))) ++
  ([if decide (i = 0%nat) then PayloadType_to_u8 first else 0; 0] ++
   be_bytes 2 (len16 (33 + length c))) ++
  be_bytes 2 (Z.of_nat (i + 1)) ++ be_bytes 2 total.

Lemma frag_header_wf h c : IkeHeader_wf h -> piece_fits c ->
  IkeHeader_wf (with_next_len h PEncryptedFragment (Z.of_nat (61 + length c))).
Proof. intros Hh [_ Hc]. apply with_next_len_wf; [done|by split|]. unfold u32_ok. lia. Qed.

Lemma build_fragment_eq h first sk_e iv_base total i c :
  length sk_e = 36%nat -> piece_fits c -> Z.of_nat (i + 1) < 2 ^ 16 ->
  exists ct, build_fragment h first sk_e iv_base total i c =
      Ok (frag_aad h first total i c ++ frag_iv iv_base i ++ ct) /\
    length ct = (length c + 17)%nat /\ bytes_ok ct /\
    gcm_open sk_e (frag_iv iv_base i) (frag_aad h first total i c) ct = Ok (c ++ [0]).
Proof.
  intros Hk [Hc Hfit] Hi. unfold build_fragment.
  assert (as_u16 (Z.of_nat (i + 1)) = Z.of_nat (i + 1)) as -> by (apply Z.mod_small; lia).
  fold (frag_iv iv_base i). rewrite length_app. cbn [length].
  unfold SKF_EXTRA, IV_LEN, ICV_LEN, IkeHeader_LEN.
  replace (4 + 4 + 8 + (length c + 1) + 16)%nat with (33 + length c)%nat by lia.
  assert (as_u32 (Z.of_nat (28 + (33 + length c))) = Z.of_nat (61 + length c)) as ->
    by (unfold as_u32; rewrite Z.mod_small; lia).
  assert ((if decide (Z.of_nat (i + 1) = 1) then PayloadType_to_u8 first else 0) =
    (if decide (i = 0%nat) then PayloadType_to_u8 first else 0)) as ->
    by (repeat case_decide; done || lia).
  fold (frag_aad h first total i c).
  destruct (gcm_seal_ok sk_e (frag_iv iv_base i) (frag_aad h first total i c) (c ++ [0]))
    as (ct & E & Hl & _ & Ho & Hok); [done|apply length_be_bytes|rewrite length_app; simpl; lia|].
  exists ct. rewrite E. cbn [mbind outcome_bind]. split_and!.
  - unfold frag_aad. by rewrite <- !app_assoc.
  - rewrite length_app in Hl. simpl in Hl. lia.
  - apply Hok. apply bytes_ok_app; [done|by repeat constructor].
  - done.
Qed.

Lemma open_built_fragment h first sk_e iv_base total i c ct :
  IkeHeader_wf h -> piece_fits c -> Z.of_nat (i + 1) < 2 ^ 16 -> u16_ok total ->
  length ct = (length c + 17)%nat ->
  gcm_open sk_e (frag_iv iv_base i) (frag_aad h first total i c) ct = Ok (c ++ [0]) ->
  open_fragment (frag_aad h first total i c ++ frag_iv iv_base i ++ ct) sk_e =
    Ok (the_fragment first total i c).
Proof.
  intros Hh Hc Hi Ht Hct Ho. unfold open_fragment.
  set (iv := frag_iv iv_base i) in *. assert (Hiv : length iv = 8%nat) by apply length_be_bytes.
  set (b0 := if decide (i = 0%nat) then PayloadType_to_u8 first else 0).
  set (hb := IkeHeader_to_bytes (with_next_len h PEncryptedFragment (Z.of_nat (61 + length c)))).
  set (gen := [b0; 0] ++ be_bytes 2 (len16 (33 + length c))).
  set (nums := be_bytes 2 (Z.of_nat (i + 1)) ++ be_bytes 2 total).
  set (aad := frag_aad h first total i c) in *.
  assert (Eaad : aad = hb ++ gen ++ nums) by done.
  assert (Hhb : length hb = 28%nat) by done. assert (Hgen : length gen = 4%nat) by done.
  assert (Hnums : length nums = 4%nat) by done.
  assert (Hparse : forall r, IkeHeader_parse (hb ++ r) =
    Ok (with_next_len h PEncryptedFragment (Z.of_nat (61 + length c)))).
  { intros r. by apply IkeHeader_parse_app, frag_header_wf. }
  assert (Em : aad ++ iv ++ ct = hb ++ ((gen ++ nums) ++ iv ++ ct)) by
    (rewrite Eaad, <- !app_assoc; done).
  rewrite (slice_app_head aad) by (rewrite Eaad, !length_app; unfold IkeHeader_LEN, SKF_EXTRA; lia).
  rewrite Em, Hparse. cbn [mbind outcome_bind]. rewrite decide_False by (intros []; done).
  rewrite slice_from_app by done. cbn [mbind outcome_bind].
  assert (Hl : length ((gen ++ nums) ++ iv ++ ct) = (33 + length c)%nat) by (rewrite !length_app; lia).
  rewrite decide_False by (rewrite Hl; unfold SKF_MIN_BODY, SKF_EXTRA, IV_LEN, ICV_LEN; lia).
  change (idx ((gen ++ nums) ++ ?r) 0) with (Ok b0).
  change (u16be ((gen ++ nums) ++ ?r) 2) with (Ok (be_val (be_bytes 2 (len16 (33 + length c))))).
  change (u16be ((gen ++ nums) ++ ?r) 4) with (Ok (be_val (be_bytes 2 (Z.of_nat (i + 1))))).
  change (u16be ((gen ++ nums) ++ ?r) 6) with (Ok (be_val (be_bytes 2 total))).
  rewrite len16_small by apply Hc. cbn [mbind outcome_bind]. rewrite Nat2Z.id.
  rewrite decide_False by (rewrite Hl; unfold SKF_MIN_BODY, SKF_EXTRA, IV_LEN, ICV_LEN; lia).
  rewrite (slice_app_mid (gen ++ nums) iv ct 8 16) by (rewrite ?length_app; lia). cbn [mbind outcome_bind].
  rewrite (app_assoc (gen ++ nums) iv ct), slice_app_end by (rewrite ?length_app; lia). cbn [mbind outcome_bind].
  rewrite Ho. cbn [mbind outcome_bind]. rewrite strip_padding_zero. cbn [mbind outcome_bind].
  rewrite !be_val_be_bytes by (done || (change (256 ^ Z.of_nat 2) with (2 ^ 16); lia)). done.
Qed.
End one.

(** ** Sorting *)
Lemma insert_frag_perm f fs : insert_frag f fs ≡ₚ f :: fs.
Proof.
  induction fs as [|g fs IH]; [done|]. cbn [insert_frag]. case_decide; [done|].
  rewrite IH. constructor.
Qed.

Lemma sort_frags_perm fs : sort_frags fs ≡ₚ fs.
Proof. induction fs as [|f fs IH]; [done|]. simpl. by rewrite insert_frag_perm, IH. Qed.

Definition frag_le (f g : Fragment) : Prop := frag_num f <= frag_num g.

Lemma insert_frag_sorted f fs : StronglySorted frag_le fs -> StronglySorted frag_le (insert_frag f fs).
Proof.
  induction 1 as [|g fs Hs IH Hg]; [repeat constructor|]. cbn [insert_frag]. case_decide as Hd.
  - constructor; [by constructor|]. constructor; [done|].
    eapply Forall_impl; [exact Hg|]. unfold frag_le. intros. lia.
  - constructor; [done|]. rewrite insert_frag_perm. constructor; [unfold frag_le; lia|done].
Qed.

Lemma sort_frags_sorted fs : StronglySorted frag_le (sort_frags fs).
Proof. induction fs; [constructor|by apply insert_frag_sorted]. Qed.

Lemma numbered_from_spec i fs :
  numbered_from i fs = true <-> frag_num <$> fs = (fun j => as_u16 (Z.of_nat (j + 1))) <$> seq i (length fs).
Proof.
  revert i. induction fs as [|f fs IH]; intros i; [done|].
  cbn [numbered_from length seq fmap list_fmap]. rewrite andb_true_iff, bool_decide_eq_true, IH.
  split; [intros [-> ->]; done|]. by intros [= -> ->].
Qed.

Lemma seq_u16 i n : Z.of_nat (i + n) < 2 ^ 16 ->
  (fun j => as_u16 (Z.of_nat (j + 1))) <$> seq i n = (fun j => Z.of_nat (j + 1)) <$> seq i n.
Proof.
  intros H. apply list_fmap_ext. intros k j Hj. apply lookup_seq in Hj as [-> Hk].
  unfold as_u16. rewrite Z.mod_small; lia.
Qed.

(** ** The list of fragments *)
Fixpoint the_fragments (first : PayloadType) (total : Z) (i : nat) (cs : list bytes) : list Fragment :=
  match cs with
  | [] => []
  | c :: rest => the_fragment first total i c :: the_fragments first total (S i) rest
  end.

Lemma the_fragments_nums first total i cs :
  frag_num <$> the_fragments first total i cs = (fun j => Z.of_nat (j + 1)) <$> seq i (length cs).
Proof. revert i. induction cs as [|c cs IH]; intros i; [done|]. cbn. by rewrite IH. Qed.

Lemma the_fragments_content first total i cs :
  frag_content <$> the_fragments first total i cs = cs.
Proof. revert i. induction cs as [|c cs IH]; intros i; [done|]. cbn. by rewrite IH. Qed.

Lemma the_fragments_total first total i cs :
  Forall (fun f => frag_total f = total) (the_fragments first total i cs).
Proof. revert i. induction cs as [|c cs IH]; intros i; by constructor. Qed.

Lemma length_the_fragments first total i cs : length (the_fragments first total i cs) = length cs.
Proof. revert i. induction cs as [|c cs IH]; intros i; [done|]. cbn. by rewrite IH. Qed.

Lemma the_fragments_sorted first total i cs : StronglySorted frag_le (the_fragments first total i cs).
Proof.
  revert i. induction cs as [|c cs IH]; intros i; constructor; [done|].
  apply Forall_forall. intros f Hf. unfold frag_le. simpl.
  assert (H : frag_num f ∈ frag_num <$> the_fragments first total (S i) cs) by by apply list_elem_of_fmap_2.
  rewrite the_fragments_nums in H. apply list_elem_of_fmap_1 in H as (j & -> & Hj).
  apply elem_of_seq in Hj. lia.
Qed.

Lemma the_fragments_inj first total i cs f g :
  f ∈ the_fragments first total i cs -> g ∈ the_fragments first total i cs ->
  frag_num f = frag_num g -> f = g.
Proof.
  intros [a Ha]%list_elem_of_lookup [b Hb]%list_elem_of_lookup E.
  assert (Hn : forall k x, the_fragments first total i cs !! k = Some x -> frag_num x = Z.of_nat (i + k + 1)).
  { intros k x Hx. apply (f_equal (fmap frag_num)) in Hx. rewrite <- list_lookup_fmap in Hx.
    rewrite the_fragments_nums, list_lookup_fmap in Hx.
    destruct (seq i (length cs) !! k) as [j|] eqn:Ej; [|done]. apply lookup_seq in Ej as [-> _].
    injection Hx as <-. done. }
  pose proof (Hn _ _ Ha). pose proof (Hn _ _ Hb). assert (a = b) as -> by lia. congruence.
Qed.

Lemma sort_the_fragments first total cs fs : fs ≡ₚ the_fragments first total 0 cs ->
  sort_frags fs = the_fragments first total 0 cs.
Proof.
  intros Hp. apply (StronglySorted_unique_strong frag_le);
    [|apply sort_frags_sorted|apply the_fragments_sorted|by rewrite sort_frags_perm].
  intros f g Hf Hg H1 H2. rewrite sort_frags_perm, Hp in Hf.
  eapply the_fragments_inj; [done..|]. unfold frag_le in *. lia.
Qed.

(** ** Building and reassembling *)
Section roundtrip.
Context `{!Primitives, !AeadLaws}.

(** The IV field of an SKF message. *)
Definition iv_field (m : bytes) : bytes := take 8 (drop 36 m).

Lemma iv_field_built h first total i c iv_base ct :
  iv_field (frag_aad h first total i c ++ frag_iv iv_base i ++ ct) = frag_iv iv_base i.
Proof.
  unfold iv_field. rewrite drop_app_length' by done. by rewrite take_app_length' by done.
Qed.

Lemma build_fragments_from_ok h first sk_e iv_base total i cs :
  IkeHeader_wf h -> length sk_e = 36%nat -> u16_ok total -> Forall piece_fits cs ->
  Z.of_nat (i + length cs) < 2 ^ 16 ->
  exists msgs, build_fragments_from h first sk_e iv_base total i cs = Ok msgs /\
    Forall2 (fun m f => open_fragment m sk_e = Ok f) msgs (the_fragments first total i cs) /\
    iv_field <$> msgs = frag_iv iv_base <$> seq i (length cs).
Proof.
  intros Hh Hk Ht Hcs. revert i. induction Hcs as [|c cs Hc Hcs IH]; intros i Hi;
    [exists []; split_and!; [done|constructor|done]|].
  cbn [length] in Hi. cbn [build_fragments_from].
  destruct (build_fragment_eq h first sk_e iv_base total i c) as (ct & -> & Hct & _ & Ho); [done|done|lia|].
  cbn [mbind outcome_bind]. destruct (IH (S i)) as (msgs & -> & Hopen & Hiv); [lia|].
  eexists. split_and!; [reflexivity| |].
  - cbn [the_fragments]. constructor; [|done]. apply open_built_fragment; [done|done|lia|done..].
  - rewrite fmap_cons, Hiv, iv_field_built. done.
Qed.

Lemma reassemble_perm first cs fs msgs sk_e : cs <> [] -> Z.of_nat (length cs) < 2 ^ 16 ->
  PayloadType_wf first ->
  mapM (fun m => open_fragment m sk_e) msgs = Ok fs ->
  fs ≡ₚ the_fragments first (Z.of_nat (length cs)) 0 cs ->
  reassemble msgs sk_e = Ok (first, mjoin cs).
Proof.
  intros Hne Hlen [_ Hfirst] Hm Hp. unfold reassemble. rewrite Hm. cbn [mbind outcome_bind].
  set (total := Z.of_nat (length cs)) in *.
  assert (Ht : Forall (fun f => frag_total f = total) fs)
    by (rewrite Hp; apply the_fragments_total).
  assert (Hl : length fs = length cs) by (rewrite Hp; apply length_the_fragments).
  destruct fs as [|f0 fs']; [by destruct cs|].
  assert (frag_total f0 = total) as -> by by inversion Ht.
  rewrite decide_False by (destruct cs; [done|unfold total; simpl; lia]).
  assert (existsb (fun f => negb (frag_total f =? total)) (f0 :: fs') = false) as ->.
  { apply not_true_is_false. intros (f & Hf & Hn)%existsb_exists.
    apply list_elem_of_In in Hf. rewrite Forall_forall in Ht. rewrite (Ht f Hf), Z.eqb_refl in Hn. done. }
  rewrite (decide_False (P := length (f0 :: fs') <> _)) by (unfold total; lia).
  rewrite (sort_the_fragments first total cs) by done.
  assert (numbered_from 0 (the_fragments first total 0 cs) = true) as ->.
  { apply numbered_from_spec. rewrite the_fragments_nums, length_the_fragments.
    by rewrite seq_u16 by (simpl; lia). }
  cbn [negb]. destruct cs as [|c cs]; [done|]. cbn [the_fragments].
  simpl. by rewrite the_fragments_content, Hfirst.
Qed.

Lemma build_reassemble h first inner sk_e iv_base n :
  IkeHeader_wf h -> PayloadType_wf first -> bytes_ok inner -> length sk_e = 36%nat ->
  (0 < n)%nat -> Z.of_nat (33 + n) < 2 ^ 16 -> Z.of_nat (length (pieces n inner)) < 2 ^ 16 ->
  exists msgs, build_fragments h first inner sk_e iv_base n = Ok msgs /\
    length msgs = length (pieces n inner) /\
    (forall msgs', msgs' ≡ₚ msgs -> reassemble msgs' sk_e = Ok (first, inner)) /\
    iv_field <$> msgs = frag_iv iv_base <$> seq 0 (length (pieces n inner)).
Proof.
  intros Hh Hf Hin Hk Hn Hfit Hcount. unfold build_fragments. rewrite decide_False by lia.
  fold (pieces n inner). set (cs := pieces n inner) in *.
  assert (len16 (length cs) = Z.of_nat (length cs)) as -> by (apply Z.mod_small; lia).
  destruct (build_fragments_from_ok h first sk_e iv_base (Z.of_nat (length cs)) 0 cs)
    as (msgs & E & Hopen & Hiv); try done.
  { unfold u16_ok. lia. }
  { eapply Forall_impl; [by apply frag_pieces_forall|]. intros c [? ?]. split; [done|lia]. }
  exists msgs. split_and!; [done| | |done].
  - apply Forall2_length in Hopen. by rewrite length_the_fragments in Hopen.
  - intros msgs' Hp. symmetry in Hp. destruct (Forall2_perm _ _ _ _ Hopen Hp) as (fs & Hfs & Hpf).
    apply mapM_Ok in Hfs. rewrite (reassemble_perm first cs fs); try done.
    + unfold cs. by rewrite frag_pieces_join.
    + apply frag_pieces_nonempty.
Qed.

Lemma frag_iv_nodup iv_base n : Z.of_nat n < 2 ^ 16 -> NoDup (frag_iv iv_base <$> seq 0 n).
Proof.
  intros Hn. apply NoDup_fmap_2_strong; [|apply NoDup_seq].
  intros i j Hi Hj E. apply elem_of_seq in Hi, Hj. unfold frag_iv in E.
  apply be_bytes_inj in E; [|apply Z.mod_pos_bound; done..]. unfold as_u64 in E.
  pose proof (Z.div_mod (iv_base + Z.of_nat (i + 1)) (2 ^ 64)).
  pose proof (Z.div_mod (iv_base + Z.of_nat (j + 1)) (2 ^ 64)).
  assert (Z.of_nat (i + 1) - Z.of_nat (j + 1) =
    2 ^ 64 * ((iv_base + Z.of_nat (i + 1)) / 2 ^ 64 - (iv_base + Z.of_nat (j + 1)) / 2 ^ 64)) by lia.
  nia.
Qed.

Lemma open_fragment_wp message sk_e : bytes_ok message ->
  wp (open_fragment message sk_e) (fun f =>
    u16_ok (frag_num f) /\ u16_ok (frag_total f) /\ byte_ok (frag_next_payload f) /\
    bytes_ok (frag_content f)).
Proof.
  intros Hm. unfold open_fragment.
  apply wp_bind. eapply wp_mono; [|by apply IkeHeader_parse_wp_len]. intros h [Hh H28].
  unfold IkeHeader_LEN, SKF_MIN_BODY, SKF_EXTRA, IV_LEN, ICV_LEN in *.
  wp_steps; rewrite ?length_take, ?length_drop in *; try lia; auto with ryke.
  eapply wp_mono; [|apply gcm_open_wp; [rewrite ?length_take, ?length_drop; lia|auto with ryke]].
  intros pt Hpt. wp_steps. eapply wp_mono; [|by apply strip_padding_wp].
  intros content [Hc _]. done.
Qed.
End roundtrip.

(** ** Properties *)
Section properties.
Context `{!Primitives, !AeadLaws}.

(** C22: Fragmentation is lossless under reordering: an inner payload chain cut into
    at most 65535 pieces that fit the 16-bit payload length is sealed into that
    many messages, and reassembling them in any order gives back the first
    payload type and exactly the inner octets; the 8-octet IVs the messages carry
    are pairwise distinct, also when the counter wraps around 2^64. *)
Theorem fragments_roundtrip h first inner sk_e iv_base n :
  IkeHeader_wf h -> PayloadType_wf first -> bytes_ok inner -> length sk_e = 36%nat ->
  (0 < n)%nat -> Z.of_nat n <= 65502 -> Z.of_nat (length (pieces n inner)) <= 65535 ->
  exists msgs, build_fragments h first inner sk_e iv_base n = Ok msgs /\
    length msgs = length (pieces n inner) /\
    (forall msgs', msgs' ≡ₚ msgs -> reassemble msgs' sk_e = Ok (first, inner)) /\
    NoDup (iv_field <$> msgs).
Proof.
  intros ? ? ? ? ? ? ?.
  destruct (build_reassemble h first inner sk_e iv_base n) as (msgs & ? & ? & ? & Hiv); try done; try lia.
  exists msgs. split_and!; try done. rewrite Hiv. apply frag_iv_nodup. lia.
Qed.

(** Reassembly is sound and total: on any messages it does not panic, and when
    it succeeds every message opened under the key, all of them announce their
    number as the total, the fragment numbers are 1, 2, ..., total with none
    missing or repeated, and the result is the concatenation of the contents in
    that order with the payload type of fragment 1. *)
Theorem reassemble_sound msgs sk_e : Forall bytes_ok msgs ->
  wp (reassemble msgs sk_e) (fun '(t, inner) =>
    exists opened f0 fs, Forall2 (fun m f => open_fragment m sk_e = Ok f) msgs opened /\
      f0 :: fs ≡ₚ opened /\
      Forall (fun f => frag_total f = Z.of_nat (length msgs)) opened /\
      frag_num <$> (f0 :: fs) = (fun j => Z.of_nat (j + 1)) <$> seq 0 (length msgs) /\
      t = PayloadType_from_u8 (frag_next_payload f0) /\
      inner = mjoin (frag_content <$> (f0 :: fs))).
Proof.
  intros Hb. unfold reassemble.
  assert (Hw : wp (mapM (fun m => open_fragment m sk_e) msgs)
    (Forall (fun f => u16_ok (frag_total f)))).
  { apply mapM_wp. eapply Forall_impl; [exact Hb|]. intros m Hm.
    eapply wp_mono; [|by apply open_fragment_wp]. by intros f (_ & ? & _). }
  destruct (mapM _ msgs) as [frags| |] eqn:E; [|done..]. cbn [mbind outcome_bind wp] in *.
  apply mapM_Ok in E. pose proof (Forall2_length _ _ _ E) as Hlen.
  destruct frags as [|g0 frags]; [done|]. inversion_clear Hw as [|? ? Hg0 _].
  case_decide; [done|]. destruct (existsb _ _) eqn:Ex; [done|]. case_decide as Hn; [done|].
  destruct (negb _) eqn:Hnum; [done|]. apply negb_false_iff, numbered_from_spec in Hnum.
  set (fs := g0 :: frags) in *. pose proof (sort_frags_perm fs) as Hp.
  assert (Ht : Z.of_nat (length msgs) = frag_total g0).
  { unfold u16_ok in Hg0. lia. }
  destruct (sort_frags fs) as [|f0 fs'] eqn:Es; [by apply Permutation_nil_l in Hp|]. cbn [wp].
  exists fs, f0, fs'. split_and!; [done|done| | |done|done].
  - apply Forall_forall. intros f Hf. rewrite Ht. apply Z.eqb_eq.
    destruct (frag_total f =? frag_total g0) eqn:Ef; [done|]. exfalso.
    apply not_true_iff_false in Ex. apply Ex, existsb_exists. exists f.
    split; [by apply list_elem_of_In|by rewrite Ef].
  - assert (length (f0 :: fs') = length msgs) as Hl by (rewrite Hp; auto).
    rewrite Hnum, Hl. apply seq_u16. unfold u16_ok in Hg0. simpl. lia.
Qed.
End properties.

Lemma fragments_roundtrip_witness : exists msgs,
  build_fragments example_header PNonce [1; 2; 3; 4; 5] example_sk_e (2 ^ 64 - 2) 2 = Ok msgs /\
  length msgs = 3%nat /\ reassemble (rev msgs) example_sk_e = Ok (PNonce, [1; 2; 3; 4; 5]).
Proof.
  destruct (fragments_roundtrip example_header PNonce [1; 2; 3; 4; 5] example_sk_e (2 ^ 64 - 2) 2)
    as (msgs & Hb & Hl & Hr & _);
    [exact example_header_wf|by split|by repeat constructor|reflexivity|lia|lia|vm_compute; done|].
  exists msgs. split_and!; [exact Hb|exact Hl|]. apply Hr. symmetry. apply Permutation_rev.
Defined.

Definition example_fragments : list bytes :=
  match build_fragments example_header PNonce [1; 2; 3; 4; 5] example_sk_e 77 2 with
  | Ok ms => rev ms | _ => [] end.

Lemma example_fragments_ok : Forall bytes_ok example_fragments.
Proof. apply (bool_decide_unpack _). vm_compute. done. Qed.

Lemma reassemble_sound_witness :
  reassemble example_fragments example_sk_e = Ok (PNonce, [1; 2; 3; 4; 5]) /\
  exists opened, Forall2 (fun m f => open_fragment m example_sk_e = Ok f) example_fragments opened /\
    Forall (fun f => frag_total f = 3) opened.
Proof.
  assert (E : reassemble example_fragments example_sk_e = Ok (PNonce, [1; 2; 3; 4; 5]))
    by (vm_compute; reflexivity).
  split; [exact E|].
  pose proof (reassemble_sound example_fragments example_sk_e example_fragments_ok) as H.
  rewrite E in H. destruct H as (opened & f0 & fs & H1 & _ & H3 & _).
  exists opened. split; [exact H1|].
  replace 3 with (Z.of_nat (length example_fragments)) by (vm_compute; reflexivity). exact H3.
Defined.
