(* ===== verification/Negotiate.v ===== *)
(** * Suite negotiation ([src/src/ikev2/negotiate.rs])

    The responder's choice of an IKE suite from the initiator's proposals. *)
From S2P Require Import Prelude Outcome Wire Payload Primitives Message Crypto Sk.

Record ChosenSuite := mkSuite {
  proposal_num : Z;
  encr_id : Z;
  encr_key_bits : Z;
  prf_id : Z;
  integ_id : option Z;
  dh_id : Z }.

#[export] Instance ChosenSuite_eq_dec : EqDecision ChosenSuite.
Proof. solve_decision. Defined.

Definition key_lengths (s : ChosenSuite) : KeyLengths :=
  let salt := if decide (encr_id s = transform_id.AES_GCM_16) then 4%nat else 0%nat in
  {| kl_prf := 32;
     kl_integ := match integ_id s with Some _ => 32%nat | None => 0%nat end;
     kl_encr := (usize (encr_key_bits s / 8) + salt)%nat |}.

Definition to_proposal (s : ChosenSuite) : Proposal :=
  let ts :=
    [mkTransform transform_type.ENCR (encr_id s) (Some (encr_key_bits s));
     mkTransform transform_type.PRF (prf_id s) None] ++
    match integ_id s with
    | Some integ => [mkTransform transform_type.INTEG integ None]
    | None => []
    end ++
    [mkTransform transform_type.DH (dh_id s) None] in
  {| prop_num := proposal_num s; prop_protocol := protocol_id.IKE; prop_spi := [];
     transforms := ts |}.

Definition has (p : Proposal) (ttype tid : Z) (key_bits : option Z) : bool :=
  existsb (fun t =>
    (tf_type t =? ttype) && (tf_id t =? tid) &&
    match key_bits with
    | Some bits => bool_decide (key_length t = Some bits)
    | None => true
    end) (transforms p).

Definition select_from_proposal (p : Proposal) : option ChosenSuite :=
  if negb (prop_protocol p =? protocol_id.IKE) then None else
  if negb (has p transform_type.PRF transform_id.PRF_HMAC_SHA2_256 None) then None else
  dh ← find (fun g => has p transform_type.DH g None)
         [transform_id.X25519; transform_id.MODP_2048; transform_id.MODP_1024];
  if has p transform_type.ENCR transform_id.AES_GCM_16 (Some 256) then
    Some {| proposal_num := prop_num p; encr_id := transform_id.AES_GCM_16; encr_key_bits := 256;
            prf_id := transform_id.PRF_HMAC_SHA2_256; integ_id := None; dh_id := dh |}
  else if has p transform_type.ENCR transform_id.AES_CBC (Some 256) &&
          has p transform_type.INTEG transform_id.AUTH_HMAC_SHA2_256_128 None then
    Some {| proposal_num := prop_num p; encr_id := transform_id.AES_CBC; encr_key_bits := 256;
            prf_id := transform_id.PRF_HMAC_SHA2_256;
            integ_id := Some transform_id.AUTH_HMAC_SHA2_256_128; dh_id := dh |}
  else None.

(** [iter().find_map(f)] *)
Fixpoint find_map {A B} (f : A -> option B) (l : list A) : option B :=
  match l with
  | [] => None
  | x :: rest => match f x with Some y => Some y | None => find_map f rest end
  end.

Definition select (sa : SecurityAssociation) : option ChosenSuite :=
  find_map select_from_proposal (proposals sa).

(** ** Specification *)

(** The proposal offers a transform. *)
Definition offers (p : Proposal) (ttype tid : Z) (key_bits : option Z) : Prop :=
  exists t, t ∈ transforms p /\ tf_type t = ttype /\ tf_id t = tid /\
    match key_bits with Some bits => key_length t = Some bits | None => True end.

Definition offers_encr (p : Proposal) (e : Z) (i : option Z) : Prop :=
  match i with
  | None => e = transform_id.AES_GCM_16 /\ offers p transform_type.ENCR e (Some 256)
  | Some i => e = transform_id.AES_CBC /\ i = transform_id.AUTH_HMAC_SHA2_256_128 /\
      offers p transform_type.ENCR e (Some 256) /\ offers p transform_type.INTEG i None
  end.

(** A suite the implementation supports and the proposal offers. *)
Definition acceptable (p : Proposal) (s : ChosenSuite) : Prop :=
  prop_protocol p = protocol_id.IKE /\ proposal_num s = prop_num p /\
  prf_id s = transform_id.PRF_HMAC_SHA2_256 /\ offers p transform_type.PRF (prf_id s) None /\
  is_Some (DhGroup_from_transform_id (dh_id s)) /\ offers p transform_type.DH (dh_id s) None /\
  encr_key_bits s = 256 /\ offers_encr p (encr_id s) (integ_id s).

(** The order of preference: X25519, then MODP-2048, then MODP-1024; and the AEAD
    before CBC with HMAC. *)
Definition dh_rank (g : Z) : Z :=
  if g =? transform_id.X25519 then 0 else if g =? transform_id.MODP_2048 then 1 else 2.
Definition encr_rank (i : option Z) : Z := match i with None => 0 | Some _ => 1 end.

Lemma has_offers p ty id k : has p ty id k = true <-> offers p ty id k.
Proof.
  unfold has, offers. rewrite existsb_exists. split.
  - intros (t & Hin & H). exists t. apply list_elem_of_In in Hin.
    apply andb_true_iff in H as [[H1 H2]%andb_true_iff H3].
    split_and!; [done|lia|lia|]. destruct k; [by apply bool_decide_eq_true in H3|done].
  - intros (t & Hin & <- & <- & H3). exists t. apply list_elem_of_In in Hin. split; [done|].
    rewrite !Z.eqb_refl. destruct k; [|done]. simpl. by apply bool_decide_eq_true.
Qed.

Lemma has_offers_false p ty id k : has p ty id k = false <-> ~ offers p ty id k.
Proof. rewrite <- has_offers. by destruct (has p ty id k). Qed.

#[export] Instance offers_dec p ty id k : Decision (offers p ty id k).
Proof.
  refine (cast_if (decide (has p ty id k = true))); by rewrite <- has_offers.
Defined.

(** The supported groups are the three of [DhGroup]. *)
Lemma supported_group g : is_Some (DhGroup_from_transform_id g) ->
  g ∈ [transform_id.X25519; transform_id.MODP_2048; transform_id.MODP_1024].
Proof.
  intros [d Hd]. apply DhGroup_to_from in Hd. subst. destruct d; set_solver.
Qed.

(** Choosing from one proposal: the best acceptable suite, if there is any. *)
Lemma select_from_proposal_spec p :
  match select_from_proposal p with
  | Some s => acceptable p s /\
      forall s', acceptable p s' ->
        dh_rank (dh_id s) <= dh_rank (dh_id s') /\ encr_rank (integ_id s) <= encr_rank (integ_id s')
  | None => forall s, ~ acceptable p s
  end.
Proof.
  unfold select_from_proposal.
  destruct (Z.eqb_spec (prop_protocol p) protocol_id.IKE) as [Hike|Hike]; cbn [negb];
    [|intros s (? & _); done].
  destruct (has p transform_type.PRF _ None) eqn:Hprf; cbn [negb];
    [apply has_offers in Hprf|intros s (_ & _ & Hid & Ho & _); rewrite Hid in Ho;
      apply has_offers in Ho; congruence].
  set (gs := [transform_id.X25519; transform_id.MODP_2048; transform_id.MODP_1024]).
  assert (Hdh : match find (fun g => has p transform_type.DH g None) gs with
    | Some g => is_Some (DhGroup_from_transform_id g) /\ offers p transform_type.DH g None /\
        forall g', is_Some (DhGroup_from_transform_id g') -> offers p transform_type.DH g' None ->
          dh_rank g <= dh_rank g'
    | None => forall g', is_Some (DhGroup_from_transform_id g') -> ~ offers p transform_type.DH g' None
    end).
  { unfold gs. cbn [find].
    destruct (has p _ transform_id.X25519 _) eqn:H1; [|destruct (has p _ transform_id.MODP_2048 _) eqn:H2;
      [|destruct (has p _ transform_id.MODP_1024 _) eqn:H3]];
      rewrite ?has_offers, ?has_offers_false in *.
    1-3: split_and!; [by eexists|done|]; intros g' Hg' Ho;
      apply supported_group in Hg'; rewrite !elem_of_cons in Hg';
      destruct Hg' as [->|[->|[->|Hg']]]; try done; by apply not_elem_of_nil in Hg'.
    intros g' Hg' Ho. apply supported_group in Hg'; rewrite !elem_of_cons in Hg';
      destruct Hg' as [->|[->|[->|Hg']]]; try done. by apply not_elem_of_nil in Hg'. }
  destruct (find _ gs) as [dh|]; cbn [mbind option_bind];
    [destruct Hdh as (Hs & Ho & Hbest)|intros s (_ & _ & _ & _ & ? & ? & _); by eapply Hdh].
  destruct (has p transform_type.ENCR transform_id.AES_GCM_16 (Some 256)) eqn:Hg.
  { apply has_offers in Hg. split; [by split_and!|].
    intros s' (_ & _ & _ & _ & ? & ? & _ & _). split; [auto|]. simpl. destruct (integ_id s'); simpl; lia. }
  apply has_offers_false in Hg.
  destruct (has p _ transform_id.AES_CBC _ && has p _ _ _) eqn:Hc.
  - apply andb_true_iff in Hc as [Hc1 Hc2]. apply has_offers in Hc1, Hc2. split; [by split_and!|].
    intros s' (_ & _ & _ & _ & ? & ? & _ & He). split; [auto|]. simpl.
    destruct (integ_id s'); [simpl; lia|]. destruct He as [-> ?]. done.
  - intros s (_ & _ & _ & _ & _ & _ & _ & He). unfold offers_encr in He.
    destruct (integ_id s); [destruct He as (-> & -> & He1 & He2)|destruct He as [-> ?]; done].
    apply has_offers in He1, He2. by rewrite He1, He2 in Hc.
Qed.

Lemma select_spec sa :
  match select sa with
  | Some s => exists ps p rest, proposals sa = ps ++ p :: rest /\
      (forall q s', q ∈ ps -> ~ acceptable q s') /\ acceptable p s /\
      forall s', acceptable p s' ->
        dh_rank (dh_id s) <= dh_rank (dh_id s') /\ encr_rank (integ_id s) <= encr_rank (integ_id s')
  | None => forall p s, p ∈ proposals sa -> ~ acceptable p s
  end.
Proof.
  unfold select. induction (proposals sa) as [|p ps IH]; cbn [find_map];
    [intros p s Hp; by apply not_elem_of_nil in Hp|].
  pose proof (select_from_proposal_spec p) as Hp.
  destruct (select_from_proposal p) as [s|].
  - exists [], p, ps. split; [done|]. split; [|done]. intros q s' Hq. by apply not_elem_of_nil in Hq.
  - destruct (find_map _ ps) as [s|].
    + destruct IH as (l & q & rest & -> & Hl & Hq). exists (p :: l), q, rest.
      split; [done|]. split; [|done]. intros q' s' [->|Hq']%elem_of_cons; auto.
    + intros q s [->|Hq]%elem_of_cons; auto.
Qed.

(** A suite [select] can return: determined by its proposal number, its group,
    and whether it is the AEAD. *)
Inductive supported_suite : ChosenSuite -> Prop :=
| supported_gcm n g : byte_ok n ->
    supported_suite (mkSuite n transform_id.AES_GCM_16 256 transform_id.PRF_HMAC_SHA2_256 None
                       (DhGroup_transform_id g))
| supported_cbc n g : byte_ok n ->
    supported_suite (mkSuite n transform_id.AES_CBC 256 transform_id.PRF_HMAC_SHA2_256
                       (Some transform_id.AUTH_HMAC_SHA2_256_128) (DhGroup_transform_id g)).

Lemma acceptable_supported p s : byte_ok (prop_num p) -> acceptable p s -> supported_suite s.
Proof.
  intros Hn (_ & Hnum & Hprf & _ & [g Hg] & _ & Hb & He). apply DhGroup_to_from in Hg.
  destruct s as [n e b pr i d]; simpl in *. subst. unfold offers_encr in He.
  destruct i; [destruct He as (-> & -> & _)|destruct He as [-> _]]; by constructor.
Qed.

Lemma select_supported sa s : SecurityAssociation_wf sa -> select sa = Some s -> supported_suite s.
Proof.
  intros Hwf Hs. pose proof (select_spec sa) as H. rewrite Hs in H.
  destruct H as (ps & p & rest & E & _ & Ha & _). eapply acceptable_supported; [|done].
  unfold SecurityAssociation_wf in Hwf. rewrite E, Forall_app, Forall_cons in Hwf.
  apply Hwf.
Qed.

Lemma to_proposal_wf s : supported_suite s -> Proposal_wf (to_proposal s).
Proof.
  intros [n g Hn|n g Hn]; constructor; simpl; try done; try lia; destruct g; by repeat constructor.
Qed.

Lemma echo_sa_wf s : supported_suite s -> SecurityAssociation_wf (mkSA [to_proposal s]).
Proof. intros. constructor; [by apply to_proposal_wf|constructor]. Qed.

Lemma select_echo s : supported_suite s -> select (mkSA [to_proposal s]) = Some s.
Proof. intros [n g Hn|n g Hn]; by destruct g. Qed.

Lemma supported_group_some s : supported_suite s -> is_Some (DhGroup_from_transform_id (dh_id s)).
Proof. intros [n g|n g]; simpl; rewrite DhGroup_from_to; eauto. Qed.

Lemma supported_key_lengths s : supported_suite s ->
  key_lengths s = match integ_id s with
                  | None => mkKeyLengths 32 0 36
                  | Some _ => mkKeyLengths 32 32 32
                  end.
Proof. by intros [n g|n g]. Qed.

(** ** Properties *)

(** Suite selection is sound, complete and respects both orders: the chosen
    suite is offered by the first proposal that offers any supported suite, and
    is that proposal's best one (X25519 before MODP-2048 before MODP-1024, AES-GCM
    before AES-CBC with HMAC); when nothing is chosen, no proposal offers a
    supported suite. *)
Theorem select_correct sa :
  match select sa with
  | Some s => exists ps p rest, proposals sa = ps ++ p :: rest /\
      (forall q s', q ∈ ps -> ~ acceptable q s') /\ acceptable p s /\
      forall s', acceptable p s' ->
        dh_rank (dh_id s) <= dh_rank (dh_id s') /\ encr_rank (integ_id s) <= encr_rank (integ_id s')
  | None => forall p s, p ∈ proposals sa -> ~ acceptable p s
  end.
Proof. apply select_spec. Qed.

(** The responder's answer is understood: the single proposal that echoes a
    chosen suite survives the wire and makes the other side select that very
    suite, with the same key lengths. *)
Theorem select_echo_agrees sa s : SecurityAssociation_wf sa -> select sa = Some s ->
  exists sa', SecurityAssociation_parse (SecurityAssociation_to_bytes (mkSA [to_proposal s])) = Ok sa' /\
    select sa' = Some s.
Proof.
  intros Hwf Hs. pose proof (select_supported sa s Hwf Hs) as Hsup.
  exists (mkSA [to_proposal s]). split; [by apply SA_roundtrip, echo_sa_wf|by apply select_echo].
Qed.

Lemma select_echo_agrees_witness : exists sa',
  SecurityAssociation_parse (SecurityAssociation_to_bytes
    (mkSA [to_proposal (mkSuite 1 20 256 5 None 31)])) = Ok sa' /\
  select sa' = Some (mkSuite 1 20 256 5 None 31).
Proof. apply (select_echo_agrees example_sa _ example_sa_wf). reflexivity. Defined.

(** C34: Which chosen suites the encrypted payload can carry: the keys derived for
    an AES-GCM suite have in both directions the 36-octet [SK_e] it needs, while those of
    the AES-CBC suite, which negotiation accepts too, have 32 octets in both directions, so
    that sealing any message and opening any message fails, with either key and hence for
    both roles. *)
Theorem chosen_suite_protection `{!Primitives, !HmacLaws} sa s ss ni nr spi_i spi_r k :
  SecurityAssociation_wf sa -> select sa = Some s ->
  derive_session_keys ss ni nr spi_i spi_r (key_lengths s) = Ok k ->
  match integ_id s with
  | None => length (sk_ei k) = 36%nat /\ length (sk_er k) = 36%nat
  | Some _ => length (sk_ei k) = 32%nat /\ length (sk_er k) = 32%nat /\
      forall sk_e h first inner iv msg, sk_e = sk_ei k \/ sk_e = sk_er k ->
        build_encrypted_gcm h first inner sk_e iv = Err sk_e_error /\
        open_encrypted_gcm msg sk_e = Err sk_e_error
  end.
Proof.
  intros Hwf Hs Hk. pose proof (select_supported sa s Hwf Hs) as Hsup.
  destruct (derive_session_keys_ok ss ni nr spi_i spi_r (key_lengths s)) as (k' & E & _ & Hl & _).
  rewrite Hk in E. injection E as <-.
  rewrite supported_key_lengths in Hl by done. destruct Hl as (_ & _ & _ & He & Hr & _).
  destruct (integ_id s); simpl in *; [|done].
  split_and!; [done|done|].
  intros sk_e h first inner iv msg [-> | ->]; split; first [apply build_encrypted_err|apply open_encrypted_err]; lia.
Qed.

Definition example_cbc_sa : SecurityAssociation :=
  mkSA [mkProposal 3 1 [] [mkTransform 1 12 (Some 256); mkTransform 2 5 None;
                            mkTransform 3 12 None; mkTransform 4 14 None]].

Lemma chosen_suite_protection_witness : exists s k,
  select example_cbc_sa = Some s /\ derive_session_keys [1] [2] [3] 4 5 (key_lengths s) = Ok k /\
  length (sk_ei k) = 32%nat /\
  build_encrypted_gcm example_header PNonce [] (sk_er k) example_iv = Err sk_e_error /\
  open_encrypted_gcm [] (sk_ei k) = Err sk_e_error.
Proof.
  destruct (derive_session_keys_ok [1] [2] [3] 4 5 (mkKeyLengths 32 32 32)) as (k & E & _).
  destruct (chosen_suite_protection example_cbc_sa (mkSuite 3 12 256 5 (Some 12) 14)
    [1] [2] [3] 4 5 k) as (L & _ & Hk); [by repeat constructor|reflexivity|exact E|].
  exists (mkSuite 3 12 256 5 (Some 12) 14), k. split; [reflexivity|]. split; [exact E|]. split; [exact L|]. split.
  - exact (proj1 (Hk (sk_er k) example_header PNonce [] example_iv [] (or_intror eq_refl))).
  - exact (proj2 (Hk (sk_ei k) example_header PNonce [] example_iv [] (or_introl eq_refl))).
Defined.
