(* ===== verification/Entropy.v ===== *)
(** * Roles and randomness ([src/src/role.rs], [src/src/entropy.rs])

    The trait [Entropy] is a class over the generator's state; the deterministic
    generator [SeedEntropy] (SplitMix64) is an instance. *)
From S2P Require Import Prelude Outcome.

(** ** [enum Role] *)
Inductive Role := Initiator | Responder.

#[export] Instance Role_eq_dec : EqDecision Role.
Proof. solve_decision. Defined.

Definition is_initiator (r : Role) : bool := match r with Initiator => true | _ => false end.
Definition is_responder (r : Role) : bool := match r with Responder => true | _ => false end.
Definition peer (r : Role) : Role :=
  match r with Initiator => Responder | Responder => Initiator end.
Definition header_initiator_flag (r : Role) : bool := is_initiator r.

(** ** [trait Entropy] *)
Class Entropy (G : Type) := fill : nat -> G -> bytes * G.

(** A [&mut [u8]] of [n] octets is filled with octets. *)
Class EntropyLaws (G : Type) `{!Entropy G} : Prop := {
  fill_length n g : length (fill n g).1 = n;
  fill_bytes n g : bytes_ok (fill n g).1 }.

Lemma fill_ok `{EntropyLaws G} n (g : G) : exists b g', fill n g = (b, g') /\ length b = n /\ bytes_ok b.
Proof.
  pose proof (fill_length n g) as Hl. pose proof (fill_bytes n g) as Hb.
  destruct (fill n g) as [b g']. by exists b, g'.
Qed.

Definition next_u64 `{Entropy G} (g : G) : Z * G :=
  let '(b, g') := fill 8 g in (be_val b, g').

Definition next_array32 `{Entropy G} (g : G) : bytes * G := fill 32 g.

Lemma next_u64_ok `{EntropyLaws G} (g : G) : u64_ok (next_u64 g).1.
Proof.
  unfold next_u64. pose proof (fill_length 8 g) as Hl. pose proof (fill_bytes 8 g) as Hb.
  destruct (fill 8 g) as [b g']. simpl in *. apply be_val_bound in Hb. by rewrite Hl in Hb.
Qed.

(** ** [SeedEntropy]: the state is a [u64] *)
Record SeedEntropy := mkSeed { seed_state : Z }.

Definition SeedEntropy_new (seed : Z) : SeedEntropy := {| seed_state := seed |}.

Definition SeedEntropy_next (g : SeedEntropy) : Z * SeedEntropy :=
  let state := as_u64 (seed_state g + 0x9E3779B97F4A7C15) in
  let z := state in
  let z := as_u64 (Z.lxor z (Z.shiftr z 30) * 0xBF58476D1CE4E5B9) in
  let z := as_u64 (Z.lxor z (Z.shiftr z 27) * 0x94D049BB133111EB) in
  (Z.lxor z (Z.shiftr z 31), {| seed_state := state |}).

(** [for chunk in out.chunks_mut(8)]: [n] octets remain. *)
Fixpoint SeedEntropy_fill_loop (fuel n : nat) (g : SeedEntropy) : bytes * SeedEntropy :=
  match fuel with
  | O => ([], g)
  | S f =>
      if decide (n = 0%nat) then ([], g) else
      let '(x, g1) := SeedEntropy_next g in
      let chunk := take (Nat.min 8 n) (be_bytes 8 x) in
      let '(rest, g2) := SeedEntropy_fill_loop f (n - 8) g1 in
      (chunk ++ rest, g2)
  end.

#[export] Instance SeedEntropy_fill : Entropy SeedEntropy := fun n g => SeedEntropy_fill_loop n n g.

Lemma SeedEntropy_fill_loop_ok fuel n g : (n <= fuel)%nat ->
  length (SeedEntropy_fill_loop fuel n g).1 = n /\ bytes_ok (SeedEntropy_fill_loop fuel n g).1.
Proof.
  revert n g. induction fuel as [|fuel IH]; intros n g Hn.
  - simpl. split; [lia|constructor].
  - cbn [SeedEntropy_fill_loop]. case_decide; [simpl; split; [done|constructor]|].
    destruct (SeedEntropy_next g) as [x g1]. specialize (IH (n - 8)%nat g1).
    destruct (SeedEntropy_fill_loop fuel (n - 8) g1) as [rest g2]. cbn [fst] in *.
    destruct IH as [IHl IHb]; [lia|]. split; [|auto with ryke].
    rewrite length_app, length_take, length_be_bytes, IHl. lia.
Qed.

#[export] Instance SeedEntropy_laws : EntropyLaws SeedEntropy.
Proof. split; intros; by apply SeedEntropy_fill_loop_ok. Qed.
