(* ===== verification/Esp.v ===== *)
(** * ESP ([src/src/esp.rs], and the packet path of [src/src/tunnel.rs])

    One direction of an ESP security association ([EspSa]) and the pair of a
    CHILD SA ([ChildSa]). [seal] takes [&mut self]: its model returns the new
    state together with the outcome. *)
From S2P Require Import Prelude Outcome Primitives Entropy Crypto.

Definition ESP_KEY_LEN : nat := 32.
Definition ESP_SALT_LEN : nat := 4.
Definition ESP_IV_LEN : nat := 8.
Definition ESP_ICV_LEN : nat := 16.
Definition ESP_HEADER_LEN : nat := 8.

Module next_header.
Definition IPV4 : Z := 4.
Definition IPV6 : Z := 41.
End next_header.

Record EspSa := mkEspSa { esp_spi : Z; esp_key : bytes; esp_salt : bytes; esp_seq : Z }.

#[export] Instance EspSa_eq_dec : EqDecision EspSa.
Proof. solve_decision. Defined.

Definition EspSa_new (spi : Z) (key_material : bytes) : outcome EspSa :=
  if decide (length key_material <> ESP_KEY_LEN + ESP_SALT_LEN)%nat
  then Err (Crypto "ESP key material must be 36 bytes (32-byte key + 4-byte salt)") else
  key ← slice key_material 0 ESP_KEY_LEN;
  salt ← slice_from key_material ESP_KEY_LEN;
  Ok {| esp_spi := spi; esp_key := key; esp_salt := salt; esp_seq := 0 |}.

Definition EspSa_nonce (sa : EspSa) (iv : bytes) : bytes := esp_salt sa ++ iv.

(** [u32::checked_add(1)] *)
Definition checked_succ_u32 (x : Z) : option Z :=
  if decide (x + 1 < 2 ^ 32) then Some (x + 1) else None.

(** [inner | padding | pad_len | next_header] with padding 1, 2, 3, ... *)
Definition esp_plaintext (inner : bytes) (nh : Z) : bytes :=
  let unpadded := (length inner + 2)%nat in
  let pad := ((4 - unpadded mod 4) mod 4)%nat in
  inner ++ ((fun i => as_u8 (Z.of_nat (i + 1))) <$> seq 0 pad) ++ [as_u8 (Z.of_nat pad); nh].

Definition esp_exhausted : IkeError := Crypto "ESP sequence number exhausted; rekey required".

(** The part of [open] after decryption. *)
Definition esp_strip (plaintext : bytes) : outcome (bytes * Z) :=
  if decide (length plaintext < 2)%nat
  then Err (Crypto "ESP plaintext shorter than its trailer") else
  nh ← idx plaintext (length plaintext - 1);
  pl ← idx plaintext (length plaintext - 2);
  let pad_len := usize pl in
  if decide (length plaintext < 2 + pad_len)%nat
  then Err (Crypto "ESP pad length exceeds plaintext") else
  inner ← slice plaintext 0 (length plaintext - 2 - pad_len);
  Ok (inner, nh).

Section esp.
Context `{!Primitives}.

Definition EspSa_seal (sa : EspSa) (inner : bytes) (nh : Z) : outcome bytes * EspSa :=
  match checked_succ_u32 (esp_seq sa) with
  | None => (Err esp_exhausted, sa)
  | Some seq =>
      let sa' := {| esp_spi := esp_spi sa; esp_key := esp_key sa; esp_salt := esp_salt sa;
                    esp_seq := seq |} in
      let iv := be_bytes 8 seq in
      let plaintext := esp_plaintext inner nh in
      let aad := be_bytes 4 (esp_spi sa) ++ be_bytes 4 seq in
      ((ct_and_tag ← ok_or (gcm_encrypt (esp_key sa) (EspSa_nonce sa iv) aad plaintext)
                       (Crypto "ESP encryption failed");
        Ok (be_bytes 4 (esp_spi sa) ++ be_bytes 4 seq ++ iv ++ ct_and_tag)), sa')
  end.

Definition EspSa_open (sa : EspSa) (packet : bytes) : outcome (bytes * Z) :=
  let min := (ESP_HEADER_LEN + ESP_IV_LEN + ESP_ICV_LEN)%nat in
  if decide (length packet < min)%nat then Err (Truncated min (length packet)) else
  spi ← be_uint 4 packet 0 4;
  if decide (spi <> esp_spi sa) then Err (Crypto "ESP SPI does not match this SA") else
  iv ← slice packet 8 16;
  ct_and_tag ← slice_from packet 16;
  aad ← slice packet 0 ESP_HEADER_LEN;
  plaintext ← ok_or (gcm_decrypt (esp_key sa) (EspSa_nonce sa iv) aad ct_and_tag) BadIntegrity;
  esp_strip plaintext.

Record ChildSa := mkChildSa { outbound : EspSa; inbound : EspSa }.

(** [EspSa::new(..).expect(..)]: an error panics. *)
Definition expect {A} (m : outcome A) : outcome A :=
  match m with Err _ => Panic | _ => m end.

Definition ChildSa_derive (skd ni nr : bytes) (role : Role) (local_spi peer_spi : Z)
    : outcome ChildSa :=
  keys ← derive_child_keys skd ni nr (ESP_KEY_LEN + ESP_SALT_LEN) 0;
  let esp spi material := expect (EspSa_new spi material) in
  match role with
  | Initiator =>
      o ← esp peer_spi (encr_i keys); i ← esp local_spi (encr_r keys);
      Ok {| outbound := o; inbound := i |}
  | Responder =>
      o ← esp peer_spi (encr_r keys); i ← esp local_spi (encr_i keys);
      Ok {| outbound := o; inbound := i |}
  end.
End esp.

(** ** Invariant *)
Record EspSa_wf (sa : EspSa) : Prop := {
  wf_esp_spi : u32_ok (esp_spi sa);
  wf_esp_key : length (esp_key sa) = 32%nat;
  wf_esp_salt : length (esp_salt sa) = 4%nat;
  wf_esp_seq : u32_ok (esp_seq sa) }.

Lemma EspSa_new_ok spi km : length km = 36%nat ->
  EspSa_new spi km = Ok (mkEspSa spi (take 32 km) (drop 32 km) 0).
Proof.
  intros Hl. unfold EspSa_new, ESP_KEY_LEN, ESP_SALT_LEN. rewrite decide_False by lia.
  rewrite slice_ok, slice_from_ok by lia. done.
Qed.

Lemma EspSa_new_wf spi km sa : u32_ok spi -> EspSa_new spi km = Ok sa ->
  EspSa_wf sa /\ esp_spi sa = spi /\ esp_seq sa = 0.
Proof.
  intros Hspi H. destruct (decide (length km = 36%nat)) as [Hl|Hl].
  - rewrite EspSa_new_ok in H by done. injection H as <-. split; [|done].
    constructor; simpl; rewrite ?length_take, ?length_drop; try lia; done.
  - unfold EspSa_new in H. by rewrite decide_True in H.
Qed.

(** ** Padding *)
Definition esp_pad_len (n : nat) : nat := ((4 - (n + 2) mod 4) mod 4)%nat.

Lemma esp_pad_len_bound n : (esp_pad_len n < 4)%nat.
Proof. apply Nat.mod_upper_bound. lia. Qed.

Lemma length_esp_plaintext inner nh :
  length (esp_plaintext inner nh) = (length inner + esp_pad_len (length inner) + 2)%nat.
Proof.
  unfold esp_plaintext. rewrite !length_app, length_fmap, length_seq.
  fold (esp_pad_len (length inner)). cbn [length]. lia.
Qed.

Lemma esp_plaintext_aligned inner nh : (length (esp_plaintext inner nh) mod 4 = 0)%nat.
Proof.
  rewrite length_esp_plaintext. unfold esp_pad_len. set (n := length inner).
  pose proof (Nat.div_mod_eq (n + 2) 4). pose proof (Nat.mod_upper_bound (n + 2) 4).
  set (r := ((n + 2) mod 4)%nat) in *. set (q := ((n + 2) / 4)%nat) in *.
  destruct (decide (r = 0%nat)) as [->|].
  - replace (n + (4 - 0) mod 4 + 2)%nat with (q * 4)%nat by (simpl; lia). apply Nat.Div0.mod_mul.
  - rewrite (Nat.mod_small (4 - r) 4) by lia.
    replace (n + (4 - r) + 2)%nat with ((q + 1) * 4)%nat by lia. apply Nat.Div0.mod_mul.
Qed.

Lemma esp_plaintext_ok inner nh : bytes_ok inner -> byte_ok nh -> bytes_ok (esp_plaintext inner nh).
Proof.
  intros. assert (H8 : forall x, byte_ok (as_u8 x)) by (intros; apply byte_ok_mod).
  apply bytes_ok_app; [done|]. apply bytes_ok_app; [|auto with ryke].
  apply Forall_fmap, Forall_forall. intros. apply H8.
Qed.

Lemma esp_strip_plaintext inner nh : esp_strip (esp_plaintext inner nh) = Ok (inner, nh).
Proof.
  unfold esp_strip. rewrite length_esp_plaintext. unfold esp_plaintext.
  change ((4 - (length inner + 2) mod 4) mod 4)%nat with (esp_pad_len (length inner)).
  set (pad := esp_pad_len (length inner)). pose proof (esp_pad_len_bound (length inner)) as Hp.
  fold pad in Hp. set (padding := (fun i => as_u8 (Z.of_nat (i + 1))) <$> seq 0 pad).
  assert (Hpl : length padding = pad) by (unfold padding; by rewrite length_fmap, length_seq).
  rewrite decide_False by lia. unfold idx.
  rewrite !app_assoc, !lookup_app_r by (rewrite length_app; lia). rewrite length_app, Hpl.
  replace (length inner + pad + 2 - 1 - (length inner + pad))%nat with 1%nat by lia.
  replace (length inner + pad + 2 - 2 - (length inner + pad))%nat with 0%nat by lia.
  cbn [lookup list_lookup mbind outcome_bind].
  rewrite as_u8_small, Nat2Z.id by lia. rewrite decide_False by lia.
  replace (length inner + pad + 2 - 2 - pad)%nat with (length inner) by lia.
  rewrite <- app_assoc, slice_app_head by done. done.
Qed.

Lemma esp_strip_wp pt : bytes_ok pt -> wp (esp_strip pt) (fun '(inner, nh) => bytes_ok inner /\ byte_ok nh).
Proof. intros. unfold esp_strip. wp_steps. auto with ryke. Qed.

Lemma esp_strip_Ok pt inner nh : bytes_ok pt -> esp_strip pt = Ok (inner, nh) ->
  exists pad, pt = inner ++ pad ++ [Z.of_nat (length pad); nh].
Proof.
  intros Hpt H. unfold esp_strip in H. case_decide as Hl; [done|].
  destruct (exists_last (l := pt)) as (l1 & a & ->); [by destruct pt; [simpl in Hl; lia|]|].
  rewrite length_app in *. cbn [length] in *.
  destruct (exists_last (l := l1)) as (l2 & b & ->); [by destruct l1; [simpl in Hl; lia|]|].
  rewrite length_app in *. cbn [length] in *.
  apply bytes_ok_app_inv in Hpt as [Hpt _]. apply bytes_ok_app_inv in Hpt as [_ Hb].
  inversion_clear Hb as [|? ? Hb' _]. unfold byte_ok in Hb'.
  unfold idx in H. rewrite <- !app_assoc in *. cbn [app] in *.
  rewrite !lookup_app_r in H by lia.
  replace (length l2 + 1 + 1 - 1 - length l2)%nat with 1%nat in H by lia.
  replace (length l2 + 1 + 1 - 2 - length l2)%nat with 0%nat in H by lia.
  cbn [lookup list_lookup mbind outcome_bind] in H. case_decide; [done|].
  rewrite slice_app_l, slice_ok in H by lia. cbn [mbind outcome_bind] in H. injection H as <- <-.
  rewrite drop_0. exists (drop (length l2 - usize b) l2).
  replace (length l2 + 1 + 1 - 2 - usize b - 0)%nat with (length l2 - usize b)%nat by lia.
  rewrite app_assoc, take_drop, length_drop. do 2 f_equal. lia.
Qed.

(** ** Sealing and opening *)
Section sealing.
Context `{!Primitives, !AeadLaws}.
Implicit Types (sa : EspSa) (inner packet : bytes).

Definition esp_next (sa : EspSa) : EspSa :=
  {| esp_spi := esp_spi sa; esp_key := esp_key sa; esp_salt := esp_salt sa; esp_seq := esp_seq sa + 1 |}.

(** The octets of a packet before the ciphertext. *)
Definition esp_prefix (spi seq : Z) : bytes := be_bytes 4 spi ++ be_bytes 4 seq ++ be_bytes 8 seq.

Lemma esp_next_wf sa : EspSa_wf sa -> esp_seq sa + 1 < 2 ^ 32 -> EspSa_wf (esp_next sa).
Proof. intros [] ?. constructor; simpl; try done. unfold u32_ok in *. lia. Qed.

Lemma seal_exhausted sa inner nh : 2 ^ 32 <= esp_seq sa + 1 ->
  EspSa_seal sa inner nh = (Err esp_exhausted, sa).
Proof. intros. unfold EspSa_seal, checked_succ_u32. by rewrite decide_False by lia. Qed.

Lemma seal_state sa inner nh : esp_seq sa + 1 < 2 ^ 32 -> (EspSa_seal sa inner nh).2 = esp_next sa.
Proof. intros. unfold EspSa_seal, checked_succ_u32. by rewrite decide_True by lia. Qed.

Lemma seal_ok sa inner nh : EspSa_wf sa -> esp_seq sa + 1 < 2 ^ 32 ->
  Z.of_nat (length inner) + 5 <= 2 ^ 36 ->
  exists ct, (EspSa_seal sa inner nh).1 = Ok (esp_prefix (esp_spi sa) (esp_seq sa + 1) ++ ct) /\
    gcm_encrypt (esp_key sa) (esp_salt sa ++ be_bytes 8 (esp_seq sa + 1))
      (be_bytes 4 (esp_spi sa) ++ be_bytes 4 (esp_seq sa + 1)) (esp_plaintext inner nh) = Some ct /\
    length ct = (length (esp_plaintext inner nh) + 16)%nat.
Proof.
  intros [] Hs Hl. unfold EspSa_seal, checked_succ_u32. rewrite decide_True by lia.
  destruct (gcm_encrypt_some (esp_key sa) (EspSa_nonce sa (be_bytes 8 (esp_seq sa + 1)))
    (be_bytes 4 (esp_spi sa) ++ be_bytes 4 (esp_seq sa + 1)) (esp_plaintext inner nh)) as [ct E].
  - done.
  - unfold EspSa_nonce. rewrite length_app, length_be_bytes. lia.
  - rewrite length_esp_plaintext. pose proof (esp_pad_len_bound (length inner)). lia.
  - exists ct. cbn [fst]. rewrite E. split_and!; [|done|by apply gcm_encrypt_length in E].
    unfold esp_prefix. by rewrite <- !app_assoc.
Qed.

Lemma open_shape sa seq ct : u32_ok (esp_spi sa) -> (16 <= length ct)%nat ->
  EspSa_open sa (esp_prefix (esp_spi sa) seq ++ ct) =
  (pt ← ok_or (gcm_decrypt (esp_key sa) (esp_salt sa ++ be_bytes 8 seq)
                (be_bytes 4 (esp_spi sa) ++ be_bytes 4 seq) ct) BadIntegrity; esp_strip pt).
Proof.
  intros Hspi Hct. unfold EspSa_open, ESP_HEADER_LEN, ESP_IV_LEN, ESP_ICV_LEN.
  set (hd := be_bytes 4 (esp_spi sa) ++ be_bytes 4 seq).
  assert (E : esp_prefix (esp_spi sa) seq ++ ct = hd ++ be_bytes 8 seq ++ ct)
    by (unfold esp_prefix, hd; by rewrite <- !app_assoc).
  rewrite E. assert (Hhd : length hd = 8%nat) by done.
  rewrite decide_False by (rewrite !length_app, length_be_bytes; lia).
  change (be_uint 4 (hd ++ ?r) 0 4) with (Ok (be_val (be_bytes 4 (esp_spi sa)))).
  cbn [mbind outcome_bind]. rewrite be_val_be_bytes by done. rewrite decide_False by (intros []; done).
  rewrite (slice_app_mid hd (be_bytes 8 seq) ct 8 16) by (rewrite ?length_be_bytes; lia).
  cbn [mbind outcome_bind].
  rewrite (slice_app_head hd) by done.
  rewrite (app_assoc hd), slice_from_app by (rewrite length_app, length_be_bytes; lia). done.
Qed.

Lemma seal_open sa sa' inner nh : EspSa_wf sa -> esp_seq sa + 1 < 2 ^ 32 ->
  Z.of_nat (length inner) + 5 <= 2 ^ 36 ->
  esp_spi sa' = esp_spi sa -> esp_key sa' = esp_key sa -> esp_salt sa' = esp_salt sa ->
  exists p, (EspSa_seal sa inner nh).1 = Ok p /\ EspSa_open sa' p = Ok (inner, nh) /\
    (length p mod 4 = 0)%nat.
Proof.
  intros Hwf Hs Hl E1 E2 E3. destruct (seal_ok sa inner nh Hwf Hs Hl) as (ct & Hp & Henc & Hct).
  eexists. split_and!; [exact Hp| |].
  - rewrite <- E1, open_shape by (first [rewrite E1; apply Hwf | lia]).
    rewrite E1, E2, E3, (gcm_decrypt_encrypt _ _ _ _ _ Henc). cbn [ok_or mbind outcome_bind].
    apply esp_strip_plaintext.
  - pose proof (esp_plaintext_aligned inner nh) as Ha.
    unfold esp_prefix. rewrite !length_app, !length_be_bytes, Hct.
    set (m := length (esp_plaintext inner nh)) in *.
    replace (4 + (4 + 8) + (m + 16))%nat with (m + 8 * 4)%nat by lia.
    by rewrite Nat.Div0.mod_add.
Qed.

Lemma esp_open_wp sa packet : bytes_ok packet ->
  wp (EspSa_open sa packet) (fun '(inner, nh) => bytes_ok inner /\ byte_ok nh).
Proof.
  intros Hp. unfold EspSa_open, ESP_HEADER_LEN, ESP_IV_LEN, ESP_ICV_LEN. wp_steps.
  apply esp_strip_wp. eapply gcm_decrypt_bytes; [|done]. auto with ryke.
Qed.
End sealing.

(** ** Runs of [seal]: what [Tunnel::send] does over the life of an SA *)
Section runs.
Context `{!Primitives, !AeadLaws}.

Fixpoint seal_all (sa : EspSa) (msgs : list (bytes * Z)) : list (outcome bytes) * EspSa :=
  match msgs with
  | [] => ([], sa)
  | (inner, nh) :: rest =>
      let '(r, sa1) := EspSa_seal sa inner nh in
      let '(rs, sa2) := seal_all sa1 rest in
      (r :: rs, sa2)
  end.

Definition sealable (msgs : list (bytes * Z)) : Prop :=
  Forall (fun m => Z.of_nat (length m.1) + 5 <= 2 ^ 36) msgs.

Lemma seal_all_exhausted sa msgs : 2 ^ 32 <= esp_seq sa + 1 ->
  seal_all sa msgs = (replicate (length msgs) (Err esp_exhausted), sa).
Proof.
  intros Hs. induction msgs as [|[inner nh] msgs IH]; [done|].
  cbn [seal_all]. by rewrite seal_exhausted, IH.
Qed.

(** The packet for [inner] with the sequence number [n]: SPI, sequence number and IV in the clear,
    then the GCM encryption under the salt and that IV, which authenticates SPI and sequence
    number. *)
Definition sealed_as (sa : EspSa) (n : Z) (inner : bytes) (nh : Z) (p : bytes) : Prop :=
  exists ct, p = be_bytes 4 (esp_spi sa) ++ be_bytes 4 n ++ be_bytes 8 n ++ ct /\
    gcm_encrypt (esp_key sa) (esp_salt sa ++ be_bytes 8 n) (be_bytes 4 (esp_spi sa) ++ be_bytes 4 n)
      (esp_plaintext inner nh) = Some ct.

Lemma seal_sealed_as sa inner nh : EspSa_wf sa -> esp_seq sa + 1 < 2 ^ 32 ->
  Z.of_nat (length inner) + 5 <= 2 ^ 36 ->
  exists p, (EspSa_seal sa inner nh).1 = Ok p /\ sealed_as sa (esp_seq sa + 1) inner nh p.
Proof.
  intros Hwf Hs Hl. destruct (seal_ok sa inner nh Hwf Hs Hl) as (ct & E & Henc & _).
  eexists. split; [exact E|]. exists ct. split; [|exact Henc]. unfold esp_prefix. by rewrite <- !app_assoc.
Qed.

(** The outcome of the [i]-th call, counted from zero. *)
Lemma seal_all_nth sa msgs i inner nh : EspSa_wf sa -> sealable msgs -> msgs !! i = Some (inner, nh) ->
  if decide (esp_seq sa + Z.of_nat i + 1 < 2 ^ 32)
  then exists p, (seal_all sa msgs).1 !! i = Some (Ok p) /\
         sealed_as sa (esp_seq sa + Z.of_nat i + 1) inner nh p
  else (seal_all sa msgs).1 !! i = Some (Err esp_exhausted).
Proof.
  intros Hwf Hm Hi. revert sa i Hwf Hi. induction Hm as [|[inner' nh'] msgs Hl Hm IH]; intros sa i Hwf Hi; [done|].
  destruct (decide (esp_seq sa + 1 < 2 ^ 32)) as [Hs|Hs].
  - cbn [seal_all]. destruct (seal_sealed_as sa inner' nh' Hwf Hs Hl) as (p & E & Hp).
    pose proof (seal_state sa inner' nh' Hs) as E2.
    destruct (EspSa_seal sa inner' nh') as [r sa1]. cbn [fst snd] in E, E2. subst r sa1.
    specialize (IH (esp_next sa)). destruct (seal_all (esp_next sa) msgs) as [rs sa2].
    destruct i as [|i].
    + injection Hi as -> ->. rewrite decide_True by lia. exists p. cbn [fst lookup list_lookup]. by rewrite Z.add_0_r.
    + specialize (IH i (esp_next_wf sa Hwf Hs) Hi). cbn [fst] in *. cbn [esp_next esp_seq] in IH.
      by replace (esp_seq sa + Z.of_nat (S i) + 1) with (esp_seq sa + 1 + Z.of_nat i + 1) by lia.
  - rewrite decide_False by lia. rewrite seal_all_exhausted by lia. apply lookup_replicate_2.
    by apply lookup_lt_Some in Hi.
Qed.

(** The IV field of an ESP packet. *)
Definition esp_iv (p : bytes) : bytes := take 8 (drop 8 p).

Lemma sealed_iv sa n inner nh p : sealed_as sa n inner nh p -> esp_iv p = be_bytes 8 n.
Proof.
  intros (ct & -> & _). unfold esp_iv. rewrite app_assoc.
  rewrite drop_app_length' by done. by rewrite take_app_length' by done.
Qed.

Lemma length_seal_all sa msgs : length (seal_all sa msgs).1 = length msgs.
Proof.
  revert sa. induction msgs as [|[inner nh] msgs IH]; intros sa; [done|]. cbn [seal_all].
  destruct (EspSa_seal sa inner nh) as [r sa1]. specialize (IH sa1).
  destruct (seal_all sa1 msgs). cbn in *. by rewrite IH.
Qed.
End runs.

(** ** The two directions of a CHILD SA *)
Section child.
Context `{!Primitives, !HmacLaws}.

Lemma ChildSa_derive_ok skd ni nr local_i local_r : exists keys,
  derive_child_keys skd ni nr 36 0 = Ok keys /\
  length (encr_i keys) = 36%nat /\ length (encr_r keys) = 36%nat /\
  ChildSa_derive skd ni nr Initiator local_i local_r = Ok {|
    outbound := mkEspSa local_r (take 32 (encr_i keys)) (drop 32 (encr_i keys)) 0;
    inbound := mkEspSa local_i (take 32 (encr_r keys)) (drop 32 (encr_r keys)) 0 |} /\
  ChildSa_derive skd ni nr Responder local_r local_i = Ok {|
    outbound := mkEspSa local_i (take 32 (encr_r keys)) (drop 32 (encr_r keys)) 0;
    inbound := mkEspSa local_r (take 32 (encr_i keys)) (drop 32 (encr_i keys)) 0 |}.
Proof.
  destruct (derive_child_keys_ok skd ni nr 36 0) as (keys & E & _ & Hi & _ & Hr & _).
  exists keys. unfold ChildSa_derive, ESP_KEY_LEN, ESP_SALT_LEN. simpl Nat.add. rewrite E.
  cbn [mbind outcome_bind]. rewrite !EspSa_new_ok by done. by split_and!.
Qed.
End child.

(** ** Properties *)
Section properties.
Context `{!Primitives, !AeadLaws}.

(** C23: The two ends of a CHILD SA understand each other: both derivations succeed
    from the same [SK_d], nonces and SPIs, and what either side seals on its
    outbound SA, at any later point of its life, the other side's inbound SA opens
    to the same inner packet and next header; packets are 4-octet aligned. *)
Theorem child_sa_interoperate `{!HmacLaws} skd ni nr spi_i spi_r :
  u32_ok spi_i -> u32_ok spi_r ->
  exists ci cr,
    ChildSa_derive skd ni nr Initiator spi_i spi_r = Ok ci /\
    ChildSa_derive skd ni nr Responder spi_r spi_i = Ok cr /\
    forall seq inner nh, 0 <= seq < 2 ^ 32 - 1 -> Z.of_nat (length inner) + 5 <= 2 ^ 36 ->
      let at_seq sa := mkEspSa (esp_spi sa) (esp_key sa) (esp_salt sa) seq in
      (exists p, (EspSa_seal (at_seq (outbound ci)) inner nh).1 = Ok p /\
         EspSa_open (inbound cr) p = Ok (inner, nh) /\ (length p mod 4 = 0)%nat) /\
      (exists p, (EspSa_seal (at_seq (outbound cr)) inner nh).1 = Ok p /\
         EspSa_open (inbound ci) p = Ok (inner, nh) /\ (length p mod 4 = 0)%nat).
Proof.
  intros Hi Hr. destruct (ChildSa_derive_ok skd ni nr spi_i spi_r) as (keys & _ & Li & Lr & -> & ->).
  eexists _, _. split_and!; [reflexivity..|]. intros seq inner nh Hseq Hl at_seq. unfold at_seq. simpl.
  assert (Hs : forall spi km, u32_ok spi -> length km = 36%nat ->
    EspSa_wf (mkEspSa spi (take 32 km) (drop 32 km) seq)).
  { intros spi km Hspi Hkm. constructor; simpl; rewrite ?length_take, ?length_drop; try lia; [done|].
    unfold u32_ok. lia. }
  split; apply seal_open; simpl; try done; auto; lia.
Qed.

(** C24: Over any run of [seal] calls on one direction of an ESP SA no GCM nonce is used twice and
    the sequence number never wraps: the [i]-th call (from zero) yields a packet that carries the
    SA's SPI, the sequence number [seq + i + 1] and the same number as its IV, followed by the
    encryption of its own plaintext under the nonce of salt and IV, with SPI and sequence number
    authenticated; the IVs of two packets of the run differ; and from the number 2^32 on every
    call reports that a rekey is required and leaves the SA unchanged.  (An SA that is
    replaced by a fresh one with the same key starts a new run.) *)
Theorem esp_nonce_unique sa msgs : EspSa_wf sa -> sealable msgs ->
  (forall i inner nh, msgs !! i = Some (inner, nh) -> esp_seq sa + Z.of_nat i + 1 < 2 ^ 32 ->
     exists p, (seal_all sa msgs).1 !! i = Some (Ok p) /\ sealed_as sa (esp_seq sa + Z.of_nat i + 1) inner nh p) /\
  (forall i j p q, (seal_all sa msgs).1 !! i = Some (Ok p) -> (seal_all sa msgs).1 !! j = Some (Ok q) ->
     i <> j -> esp_iv p <> esp_iv q) /\
  (forall i, (i < length msgs)%nat -> 2 ^ 32 <= esp_seq sa + Z.of_nat i + 1 ->
     (seal_all sa msgs).1 !! i = Some (Err esp_exhausted)) /\
  (forall inner nh, 2 ^ 32 <= esp_seq sa + 1 -> (EspSa_seal sa inner nh).2 = sa).
Proof.
  intros Hwf Hm.
  assert (Hiv : forall i p, (seal_all sa msgs).1 !! i = Some (Ok p) ->
    esp_iv p = be_bytes 8 (esp_seq sa + Z.of_nat i + 1) /\ esp_seq sa + Z.of_nat i + 1 < 2 ^ 32).
  { intros i p Hp. pose proof (lookup_lt_Some _ _ _ Hp) as Hi. rewrite length_seal_all in Hi.
    apply lookup_lt_is_Some in Hi as [[inner nh] Hi].
    pose proof (seal_all_nth sa msgs i inner nh Hwf Hm Hi) as Hn. case_decide; [|congruence].
    destruct Hn as (p' & Hn & Hp'). rewrite Hp in Hn. injection Hn as <-. by apply sealed_iv in Hp'. }
  pose proof (wf_esp_seq sa Hwf) as Hs. unfold u32_ok in Hs. split_and!.
  - intros i inner nh Hi Hx. pose proof (seal_all_nth sa msgs i inner nh Hwf Hm Hi) as Hn.
    by rewrite decide_True in Hn.
  - intros i j p q Hp Hq Hij E. destruct (Hiv i p Hp) as [Ep ?], (Hiv j q Hq) as [Eq ?].
    rewrite Ep, Eq in E. apply be_bytes_inj in E; simpl; lia.
  - intros i Hi Hx. apply lookup_lt_is_Some in Hi as [[inner nh] Hi].
    pose proof (seal_all_nth sa msgs i inner nh Hwf Hm Hi) as Hn. by rewrite decide_False in Hn by lia.
  - intros. by rewrite seal_exhausted.
Qed.

(** Opening an ESP packet never panics, refuses a packet of another SPI, and
    with GCM's authenticity accepts only the sealing, under the SA's key and salt
    and the packet's SPI and sequence number, of a plaintext that ends in the
    returned trailer. *)
Theorem esp_open_sound `{!AeadAuthentic} sa packet : bytes_ok packet ->
  wp (EspSa_open sa packet) (fun '(inner, nh) =>
    be_val (take 4 packet) = esp_spi sa /\
    exists pad, gcm_encrypt (esp_key sa) (esp_salt sa ++ take 8 (drop 8 packet)) (take 8 packet)
        (inner ++ pad ++ [Z.of_nat (length pad); nh]) = Some (drop 16 packet)).
Proof.
  intros Hp. unfold EspSa_open, ESP_HEADER_LEN, ESP_IV_LEN, ESP_ICV_LEN. unfold be_uint.
  case_decide; [done|].
  rewrite !slice_ok, slice_from_ok by lia. cbn [mbind outcome_bind].
  rewrite decide_True by (rewrite length_take, length_drop; lia). cbn [mbind outcome_bind].
  case_decide as Hspi; [done|]. wp_steps.
  match goal with H : gcm_decrypt _ _ _ _ = Some ?x |- _ => rename x into pt; rename H into Hd end.
  assert (Hpt : bytes_ok pt) by (eapply gcm_decrypt_bytes; [|exact Hd]; auto with ryke).
  apply gcm_encrypt_decrypt in Hd.
  destruct (esp_strip pt) as [[inner nh]|e|] eqn:E; [|done|].
  - apply esp_strip_Ok in E as [pad ->]; [|done]. split; [done|]. exists pad. exact Hd.
  - by pose proof (esp_strip_wp pt Hpt) as Hw; rewrite E in Hw.
Qed.
End properties.

Lemma child_sa_interoperate_witness : exists ci cr p,
  ChildSa_derive [1; 2] [3] [4] Initiator 100 200 = Ok ci /\
  ChildSa_derive [1; 2] [3] [4] Responder 200 100 = Ok cr /\
  (EspSa_seal (outbound ci) [0x45; 0; 0] next_header.IPV4).1 = Ok p /\
  EspSa_open (inbound cr) p = Ok ([0x45; 0; 0], next_header.IPV4).
Proof.
  destruct (child_sa_interoperate [1; 2] [3] [4] 100 200) as (ci & cr & Hi & Hr & H);
    [split; lia|split; lia|].
  destruct (H 0 [0x45; 0; 0] next_header.IPV4) as [(p & H1 & H2 & _) _]; [lia|simpl; lia|].
  exists ci, cr, p. split_and!; [exact Hi|exact Hr| |exact H2].
  vm_compute in Hi. injection Hi as <-. exact H1.
Defined.

Definition example_esp : EspSa := mkEspSa 7 (replicate 32 1) [9; 9; 9; 9] (2 ^ 32 - 3).

Lemma example_esp_wf : EspSa_wf example_esp.
Proof. constructor; simpl; unfold u32_ok; lia. Qed.

Lemma esp_nonce_unique_witness :
  let run := (seal_all example_esp [([1], 4); ([2], 4); ([3], 4)]).1 in
  (exists p, run !! 1%nat = Some (Ok p) /\ sealed_as example_esp (2 ^ 32 - 1) [2] 4 p) /\
  run !! 2%nat = Some (Err esp_exhausted).
Proof.
  destruct (esp_nonce_unique example_esp [([1], 4); ([2], 4); ([3], 4)] example_esp_wf) as (H1 & _ & H2 & _);
    [repeat constructor; simpl; lia|].
  split; [|apply H2; simpl; lia].
  destruct (H1 1%nat [2] 4 eq_refl) as (p & Hp & Hs); [simpl; lia|]. exists p. split; [exact Hp|exact Hs].
Defined.

Definition example_packet : bytes :=
  match (EspSa_seal example_esp [1; 2] 4).1 with Ok p => p | _ => [] end.

Lemma example_packet_ok : bytes_ok example_packet.
Proof. apply (bool_decide_unpack _). vm_compute. done. Qed.

Lemma esp_open_sound_witness :
  EspSa_open example_esp example_packet = Ok ([1; 2], 4) /\
  be_val (take 4 example_packet) = 7.
Proof.
  assert (E : EspSa_open example_esp example_packet = Ok ([1; 2], 4)) by (vm_compute; reflexivity).
  split; [exact E|].
  pose proof (esp_open_sound example_esp example_packet example_packet_ok) as H.
  rewrite E in H. exact (proj1 H).
Defined.
