(* ===== verification/Natt.v ===== *)
(** * NAT traversal ([src/src/ikev2/natt.rs]) *)
From S2P Require Import Prelude Outcome Primitives Payload.

(** [std::net::IpAddr] and [SocketAddr]; an IPv6 address by its 16 octets. *)
Inductive IpAddr := V4 (a : Ipv4Addr) | V6 (o : bytes).

#[export] Instance IpAddr_eq_dec : EqDecision IpAddr.
Proof. solve_decision. Defined.

Record SocketAddr := mkSocketAddr { sa_ip : IpAddr; sa_port : Z }.

#[export] Instance SocketAddr_eq_dec : EqDecision SocketAddr.
Proof. solve_decision. Defined.

Definition NON_ESP_MARKER : bytes := [0; 0; 0; 0].

Section natt.
Context `{!Primitives}.

Definition nat_detection_hash (spi_i spi_r : Z) (ip : IpAddr) (port : Z) : bytes :=
  sha1 (be_bytes 8 spi_i ++ be_bytes 8 spi_r ++
        match ip with V4 a => octets a | V6 o => o end ++ be_bytes 2 port).

Definition source_ip_notify (spi_i spi_r : Z) (our_ip : IpAddr) (our_port : Z) : Notify :=
  Notify_status notify_type.NAT_DETECTION_SOURCE_IP
    (nat_detection_hash spi_i spi_r our_ip our_port).

Definition destination_ip_notify (spi_i spi_r : Z) (peer_ip : IpAddr) (peer_port : Z) : Notify :=
  Notify_status notify_type.NAT_DETECTION_DESTINATION_IP
    (nat_detection_hash spi_i spi_r peer_ip peer_port).

Definition peer_is_behind_nat (source_notify_data : bytes) (spi_i spi_r : Z)
    (observed_peer_ip : IpAddr) (observed_peer_port : Z) : bool :=
  negb (bool_decide (source_notify_data =
    nat_detection_hash spi_i spi_r observed_peer_ip observed_peer_port)).

Definition we_are_behind_nat (dest_notify_data : bytes) (spi_i spi_r : Z)
    (our_ip : IpAddr) (our_port : Z) : bool :=
  negb (bool_decide (dest_notify_data = nat_detection_hash spi_i spi_r our_ip our_port)).
End natt.

(** [datagram.len() >= 4 && datagram[..4] == NON_ESP_MARKER]; the slice is in
    range when it is evaluated. *)
Definition is_ike_on_4500 (datagram : bytes) : bool :=
  bool_decide (4 <= length datagram)%nat && bool_decide (take 4 datagram = NON_ESP_MARKER).

Definition wrap_ike_4500 (message : bytes) : bytes := NON_ESP_MARKER ++ message.

Definition unwrap_ike_4500 (datagram : bytes) : option bytes :=
  if is_ike_on_4500 datagram then Some (drop 4 datagram) else None.

(** ** Properties *)
Section properties.
Context `{!Primitives}.

(** On UDP port 4500 IKE and ESP cannot be confused: a wrapped IKE message is
    unwrapped to itself, whatever is unwrapped had been wrapped, and no datagram
    that starts with a non-zero 32-bit SPI is taken for IKE.  When neither address
    is translated, neither end reports a NAT. *)
Theorem natt_port_4500 :
  (forall m, unwrap_ike_4500 (wrap_ike_4500 m) = Some m) /\
  (forall d m, unwrap_ike_4500 d = Some m -> d = wrap_ike_4500 m) /\
  (forall spi rest, 0 < spi < 2 ^ 32 -> unwrap_ike_4500 (be_bytes 4 spi ++ rest) = None) /\
  (forall spi_i spi_r src dst sport dport,
     peer_is_behind_nat (n_data (source_ip_notify spi_i spi_r src sport)) spi_i spi_r src sport = false /\
     we_are_behind_nat (n_data (destination_ip_notify spi_i spi_r dst dport)) spi_i spi_r dst dport = false).
Proof.
  split_and!.
  - done.
  - intros d m. unfold unwrap_ike_4500, is_ike_on_4500.
    destruct (bool_decide_reflect (4 <= length d)%nat); [|done].
    case_bool_decide as E; [|done]. intros [= <-]. unfold wrap_ike_4500. by rewrite <- E, take_drop.
  - intros spi rest Hspi. unfold unwrap_ike_4500, is_ike_on_4500.
    rewrite (take_app_length' (be_bytes 4 spi)) by done.
    rewrite (bool_decide_eq_false_2 (be_bytes 4 spi = _)); [by rewrite andb_false_r|].
    intros E. change NON_ESP_MARKER with (be_bytes 4 0) in E. apply be_bytes_inj in E; simpl; lia.
  - intros. unfold peer_is_behind_nat, we_are_behind_nat. simpl. by rewrite !bool_decide_eq_true_2.
Qed.
End properties.
