(* ===== verification/Exchange.v ===== *)
(** * The IKE_SA_INIT exchange ([src/src/ikev2/exchange.rs])

    Both roles of the first exchange: the initiator's request, the responder's
    answer (with suite selection, cookie challenge, DH-group renegotiation and NAT
    detection), and the initiator's completion. *)
From S2P Require Import Prelude Outcome Wire Primitives Entropy Message Payload Crypto Sk Negotiate Natt.

Definition SUPPORTED_SIGNATURE_HASHES : list Z := [sighash.SHA2_256].

Record LocalSecret := mkLocalSecret { dh_private : bytes; ls_nonce : bytes; ls_spi : Z }.

Record CompletedSaInit := mkCompleted {
  c_role : Role;
  spi_i : Z;
  spi_r : Z;
  suite : ChosenSuite;
  keys : SessionKeys;
  ni : bytes;
  nr : bytes;
  init_message : bytes;
  resp_message : bytes;
  peer_signature_hashes : list Z }.

#[export] Instance CompletedSaInit_eq_dec : EqDecision CompletedSaInit.
Proof. solve_decision. Defined.

Definition LocalSecret_generate `{Entropy G} (entropy : G) (nonce_len : nat) : LocalSecret * G :=
  let '(priv, g1) := next_array32 entropy in
  let '(nonce, g2) := fill nonce_len g1 in
  let '(spi, g3) := next_u64 g2 in
  let spi := if decide (spi = 0) then 1 else spi in
  ({| dh_private := priv; ls_nonce := nonce; ls_spi := spi |}, g3).

Definition default_offer : SecurityAssociation := {| proposals :=
  [ {| prop_num := 1; prop_protocol := protocol_id.IKE; prop_spi := [];
       transforms :=
         [mkTransform transform_type.ENCR transform_id.AES_GCM_16 (Some 256);
          mkTransform transform_type.PRF transform_id.PRF_HMAC_SHA2_256 None;
          mkTransform transform_type.DH transform_id.X25519 None] |} ] |}.

(** ** Parsing *)
Record SaInitPayloads := mkSaInitPayloads {
  p_sa : SecurityAssociation;
  p_ke : KeyExchange;
  p_nonce : Nonce;
  p_signature_hashes : list Z;
  p_cookie : option bytes }.

Definition parse_signature_hashes (d : bytes) : list Z := be_val <$> chunks_exact 2 d.

(** The mutable variables of the loop. *)
Record SaInitAcc := mkAcc {
  a_sa : option SecurityAssociation;
  a_ke : option KeyExchange;
  a_nonce : option Nonce;
  a_hashes : list Z;
  a_cookie : option bytes }.

Definition parse_sa_init_step (st : SaInitAcc) (p : RawPayload) : outcome SaInitAcc :=
  let 'mkAcc sa ke nonce hashes cookie := st in
  match payload_type p with
  | PSecurityAssociation =>
      s ← SecurityAssociation_parse (data p); Ok (mkAcc (Some s) ke nonce hashes cookie)
  | PKeyExchange => k ← KeyExchange_parse (data p); Ok (mkAcc sa (Some k) nonce hashes cookie)
  | PNonce => Ok (mkAcc sa ke (Some (Nonce_parse (data p))) hashes cookie)
  | PNotify =>
      r ← ok (Notify_parse (data p));
      match r with
      | Some n =>
          if decide (n_type n = notify_type.SIGNATURE_HASH_ALGORITHMS)
          then Ok (mkAcc sa ke nonce (parse_signature_hashes (n_data n)) cookie)
          else if decide (n_type n = notify_type.COOKIE)
          then Ok (mkAcc sa ke nonce hashes (Some (n_data n)))
          else Ok st
      | None => Ok st
      end
  | _ => Ok st
  end.

Definition parse_sa_init (header : IkeHeader) (body : bytes) : outcome SaInitPayloads :=
  st ← for_each parse_sa_init_step (payload_items (next_payload header) body)
         (mkAcc None None None [] None);
  sa ← ok_or (a_sa st) (MissingPayload "SA");
  ke ← ok_or (a_ke st) (MissingPayload "KE");
  nonce ← ok_or (a_nonce st) (MissingPayload "Nonce");
  Ok {| p_sa := sa; p_ke := ke; p_nonce := nonce;
        p_signature_hashes := a_hashes st; p_cookie := a_cookie st |}.

(** ** Building *)
Definition sighash_notify : Notify :=
  Notify_status notify_type.SIGNATURE_HASH_ALGORITHMS
    (mjoin (be_bytes 2 <$> SUPPORTED_SIGNATURE_HASHES)).

Definition base_header (spi_i spi_r : Z) (fl : Flags) : IkeHeader := {|
  initiator_spi := spi_i;
  responder_spi := spi_r;
  next_payload := NoNext;
  major_version := 2;
  minor_version := 0;
  exchange_type := IkeSaInit;
  flags := fl;
  message_id := 0;
  hdr_length := 0 |}.

Definition build_sa_init (header : IkeHeader) (sa : SecurityAssociation) (dh_group : Z)
    (dh_public nonce : bytes) (extra_notifies : list Notify) : bytes :=
  let ke := {| dh_group := dh_group; ke_data := dh_public |} in
  let b := MessageBuilder_new header in
  let b := MessageBuilder_push b PSecurityAssociation (SecurityAssociation_to_bytes sa) in
  let b := MessageBuilder_push b PKeyExchange (KeyExchange_to_bytes ke) in
  let b := MessageBuilder_push b PNonce (Nonce_to_bytes {| nonce_data := nonce |}) in
  let b := MessageBuilder_push b PNotify (Notify_to_bytes sighash_notify) in
  let b := foldl (fun b n => MessageBuilder_push b PNotify (Notify_to_bytes n)) b extra_notifies in
  MessageBuilder_build b.

Definition dh_peer (ke : KeyExchange) (group : DhGroup) : outcome bytes :=
  if decide (dh_group ke <> DhGroup_transform_id group)
  then Err (DhGroupMismatch (DhGroup_transform_id group) (dh_group ke)) else
  if decide (length (ke_data ke) <> public_len group)
  then Err (BadKeyExchange (dh_group ke) (length (ke_data ke))) else
  Ok (ke_data ke).

Definition offer_dh_group (offer : SecurityAssociation) : DhGroup :=
  default X25519 (
    p ← head (proposals offer);
    t ← find (fun t => tf_type t =? transform_type.DH) (transforms p);
    DhGroup_from_transform_id (tf_id t)).

Record CookiePolicy := mkCookiePolicy { secret : bytes; pol_peer : bytes; required : bool }.

Inductive SaInitResult :=
| Established (response : bytes) (sa : CompletedSaInit)
| InvalidKe (response : bytes) (group : Z)
| CookieRequired (response : bytes).

Section exchange.
Context `{!Primitives}.

Definition initiator_request (local : LocalSecret) (offer : SecurityAssociation) : outcome bytes :=
  let group := offer_dh_group offer in
  public ← DhGroup_public group (dh_private local);
  let header := base_header (ls_spi local) 0 (mkFlags true false false) in
  Ok (build_sa_init header offer (DhGroup_transform_id group) public (ls_nonce local) []).

Definition ike_cookie (secret : bytes) (spi_i : Z) (ni peer : bytes) : bytes :=
  sha256 (secret ++ be_bytes 8 spi_i ++ ni ++ peer).

Definition build_cookie_challenge (spi_i : Z) (cookie : bytes) : bytes :=
  let header := base_header spi_i 0 (mkFlags false false true) in
  let notify := Notify_status notify_type.COOKIE cookie in
  MessageBuilder_build (MessageBuilder_push (MessageBuilder_new header) PNotify (Notify_to_bytes notify)).

Definition build_invalid_ke (spi_i group : Z) : bytes :=
  let header := base_header spi_i 0 (mkFlags false false true) in
  let notify := Notify_status notify_type.INVALID_KE_PAYLOAD (be_bytes 2 group) in
  MessageBuilder_build (MessageBuilder_push (MessageBuilder_new header) PNotify (Notify_to_bytes notify)).

(** The cookie check: the challenge to send, if the request lacks the cookie. *)
Definition cookie_challenge (cookie : option CookiePolicy) (header : IkeHeader)
    (ps : SaInitPayloads) : option bytes :=
  match cookie with
  | Some pol =>
      if required pol then
        let expected := ike_cookie (secret pol) (initiator_spi header) (nonce_data (p_nonce ps))
                          (pol_peer pol) in
        if decide (p_cookie ps <> Some expected)
        then Some (build_cookie_challenge (initiator_spi header) expected)
        else None
      else None
  | None => None
  end.

(** Everything after the cookie check. *)
Definition responder_accept (request : bytes) (header : IkeHeader) (ps : SaInitPayloads)
    (local : LocalSecret) (natt : option (SocketAddr * SocketAddr)) : outcome SaInitResult :=
  suite ← ok_or (select (p_sa ps)) NoProposalChosen;
  group ← ok_or (DhGroup_from_transform_id (dh_id suite)) NoProposalChosen;
  if decide (dh_group (p_ke ps) <> DhGroup_transform_id group) then
    match natt with
    | Some _ =>
        let response := build_invalid_ke (initiator_spi header) (DhGroup_transform_id group) in
        Ok (InvalidKe response (DhGroup_transform_id group))
    | None => Err (DhGroupMismatch (DhGroup_transform_id group) (dh_group (p_ke ps)))
    end
  else
  peer_public ← dh_peer (p_ke ps) group;
  our_public ← DhGroup_public group (dh_private local);
  shared ← DhGroup_shared group (dh_private local) peer_public;
  let spi_i := initiator_spi header in
  let spi_r := ls_spi local in
  keys ← derive_session_keys shared (nonce_data (p_nonce ps)) (ls_nonce local) spi_i spi_r
           (key_lengths suite);
  let extra_notifies :=
    match natt with
    | Some (our_addr, peer_addr) =>
        [source_ip_notify spi_i spi_r (sa_ip our_addr) (sa_port our_addr);
         destination_ip_notify spi_i spi_r (sa_ip peer_addr) (sa_port peer_addr)]
    | None => []
    end in
  let response_header := base_header spi_i spi_r (mkFlags false false true) in
  let sar1 := {| proposals := [to_proposal suite] |} in
  let response := build_sa_init response_header sar1 (dh_id suite) our_public (ls_nonce local)
                    extra_notifies in
  Ok (Established response {|
    c_role := Responder; spi_i := spi_i; spi_r := spi_r; suite := suite; keys := keys;
    ni := nonce_data (p_nonce ps); nr := ls_nonce local;
    init_message := request; resp_message := response;
    peer_signature_hashes := p_signature_hashes ps |}).

Definition responder_respond_inner (request : bytes) (local : LocalSecret)
    (natt : option (SocketAddr * SocketAddr)) (cookie : option CookiePolicy) : outcome SaInitResult :=
  header ← IkeHeader_parse request;
  body ← slice_from request IkeHeader_LEN;
  ps ← parse_sa_init header body;
  match cookie_challenge cookie header ps with
  | Some response => Ok (CookieRequired response)
  | None => responder_accept request header ps local natt
  end.

Definition responder_respond (request : bytes) (local : LocalSecret)
    : outcome (bytes * CompletedSaInit) :=
  r ← responder_respond_inner request local None None;
  match r with
  | Established response sa => Ok (response, sa)
  | InvalidKe _ group => Err (DhGroupMismatch group group)
  | CookieRequired _ => Err NoProposalChosen
  end.

Definition responder_respond_natt (request : bytes) (local : LocalSecret)
    (our_addr peer_addr : SocketAddr) (cookie : option CookiePolicy) : outcome SaInitResult :=
  responder_respond_inner request local (Some (our_addr, peer_addr)) cookie.

Definition initiator_complete (local : LocalSecret) (request response : bytes)
    : outcome CompletedSaInit :=
  header ← IkeHeader_parse response;
  body ← slice_from response IkeHeader_LEN;
  ps ← parse_sa_init header body;
  suite ← ok_or (select (p_sa ps)) NoProposalChosen;
  group ← ok_or (DhGroup_from_transform_id (dh_id suite)) NoProposalChosen;
  peer_public ← dh_peer (p_ke ps) group;
  shared ← DhGroup_shared group (dh_private local) peer_public;
  let spi_i := ls_spi local in
  let spi_r := responder_spi header in
  keys ← derive_session_keys shared (ls_nonce local) (nonce_data (p_nonce ps)) spi_i spi_r
           (key_lengths suite);
  Ok {| c_role := Initiator; spi_i := spi_i; spi_r := spi_r; suite := suite; keys := keys;
        ni := ls_nonce local; nr := nonce_data (p_nonce ps);
        init_message := request; resp_message := response;
        peer_signature_hashes := p_signature_hashes ps |}.
End exchange.

(** ** Reading back a built message *)
Definition sa_init_chain (sa : SecurityAssociation) (g : Z) (public nonce : bytes)
    (extra : list Notify) : PayloadChain :=
  [(PSecurityAssociation, SecurityAssociation_to_bytes sa);
   (PKeyExchange, KeyExchange_to_bytes (mkKE g public));
   (PNonce, nonce);
   (PNotify, Notify_to_bytes sighash_notify)] ++
  ((fun n => (PNotify, Notify_to_bytes n)) <$> extra).

Lemma push_notifies b ns :
  foldl (fun b n => MessageBuilder_push b PNotify (Notify_to_bytes n)) b ns =
  {| mb_header := mb_header b;
     mb_payloads := mb_payloads b ++ ((fun n => (PNotify, Notify_to_bytes n)) <$> ns) |}.
Proof.
  revert b. induction ns as [|n ns IH]; intros b; cbn [foldl fmap list_fmap].
  - rewrite app_nil_r. by destruct b.
  - rewrite IH. simpl. by rewrite <- app_assoc.
Qed.

Lemma build_sa_init_eq h sa g public nonce extra :
  build_sa_init h sa g public nonce extra =
  MessageBuilder_build (mkBuilder h (sa_init_chain sa g public nonce extra)).
Proof. unfold build_sa_init. by rewrite push_notifies. Qed.

(** An extra notify: small, and of a type the parser does not act on. *)
Definition extra_notify_wf (n : Notify) : Prop :=
  Notify_wf n /\ n_spi n = [] /\ (length (n_data n) <= 64)%nat /\
  n_type n <> notify_type.SIGNATURE_HASH_ALGORITHMS /\ n_type n <> notify_type.COOKIE.

Record sa_init_wf (h : IkeHeader) (sa : SecurityAssociation) (g : Z) (public nonce : bytes)
    (extra : list Notify) : Prop := {
  si_header : IkeHeader_wf h;
  si_sa : SecurityAssociation_wf sa;
  si_sa_fits : Z.of_nat (4 + length (SecurityAssociation_to_bytes sa)) < 2 ^ 16;
  si_group : u16_ok g;
  si_public : bytes_ok public;
  si_public_fits : Z.of_nat (8 + length public) < 2 ^ 16;
  si_nonce : bytes_ok nonce;
  si_nonce_fits : Z.of_nat (4 + length nonce) < 2 ^ 16;
  si_extra : Forall extra_notify_wf extra;
  si_extra_count : (length extra <= 2)%nat }.

Lemma length_Notify_to_bytes n :
  length (Notify_to_bytes n) = (4 + length (n_spi n) + length (n_data n))%nat.
Proof. unfold Notify_to_bytes. rewrite !length_app, length_be_bytes. simpl. lia. Qed.

Lemma PNotify_wf : PayloadType_wf PNotify.
Proof. by split. Qed.

Lemma notify_entry_wf n : Notify_wf n -> Z.of_nat (length (n_spi n) + length (n_data n)) <= 60000 ->
  chain_entry_wf (PNotify, Notify_to_bytes n).
Proof.
  intros Hn Hl. split_and!; [apply PNotify_wf|done|by apply Notify_to_bytes_ok|].
  simpl snd. rewrite length_Notify_to_bytes. lia.
Qed.

Lemma length_encode_chain ps :
  length (encode_payload_chain ps) = sum_list ((fun e => (4 + length e.2)%nat) <$> ps).
Proof.
  induction ps as [|[t b] ps IH]; [done|]. rewrite encode_payload_chain_cons, IH. done.
Qed.

(** A chain of at most [k] entries takes at most [k] times 2^16 octets. *)
Lemma length_encode_chain_bound ps : PayloadChain_wf ps ->
  Z.of_nat (length (encode_payload_chain ps)) <= Z.of_nat (length ps) * 2 ^ 16.
Proof.
  induction 1 as [|[t b] ps (_ & _ & _ & Hb) _ IH]; [done|].
  rewrite encode_payload_chain_cons. cbn [length snd] in *. lia.
Qed.

Lemma sa_init_chain_wf h sa g public nonce extra : sa_init_wf h sa g public nonce extra ->
  build_wf (mkBuilder h (sa_init_chain sa g public nonce extra)).
Proof.
  intros []. assert (Hc : PayloadChain_wf (sa_init_chain sa g public nonce extra)).
  { apply Forall_app. split; [|apply Forall_fmap; eapply Forall_impl; [exact si_extra0|];
      intros n (Hn & Hs & Hl & _); apply notify_entry_wf; [done|rewrite Hs; simpl; lia]].
    apply Forall_cons_2; [|apply Forall_cons_2; [|apply Forall_cons_2; [|apply Forall_cons_2; [|constructor]]]].
    - split_and!; [by split|done|by apply SA_to_bytes_ok|done].
    - split_and!; [by split|done|by apply KeyExchange_to_bytes_ok|].
      cbn [snd]. unfold KeyExchange_to_bytes. rewrite !length_app, !length_be_bytes. simpl. lia.
    - split_and!; [by split|done|done|done].
    - apply notify_entry_wf; [|simpl; lia]. apply Notify_status_wf; [by split|by repeat constructor]. }
  split_and!; [done|done|]. cbn [mb_payloads].
  pose proof (length_encode_chain_bound _ Hc) as Hl.
  assert (length (sa_init_chain sa g public nonce extra) <= 6)%nat.
  { unfold sa_init_chain. rewrite length_app, length_fmap. simpl. lia. }
  unfold IkeHeader_LEN. lia.
Qed.

Lemma extra_notifies_ignored st extra : Forall extra_notify_wf extra ->
  for_each parse_sa_init_step
    (Ok <$> (raw <$> ((fun n => (PNotify, Notify_to_bytes n)) <$> extra))) st = Ok st.
Proof.
  induction 1 as [|n ns (Hn & _ & _ & H1 & H2) _ IH]; [done|].
  cbn [fmap list_fmap for_each mbind outcome_bind].
  assert (parse_sa_init_step st (raw (PNotify, Notify_to_bytes n)) = Ok st) as ->; [|done].
  unfold parse_sa_init_step. destruct st. cbn [raw payload_type data fst snd].
  rewrite Notify_roundtrip by done. cbn [ok mbind outcome_bind].
  by rewrite !decide_False by done.
Qed.

Ltac loop_cbn := cbn [for_each raw ok mbind outcome_bind parse_sa_init_step payload_type data fst snd].

Lemma parse_sa_init_built h sa g public nonce extra : sa_init_wf h sa g public nonce extra ->
  let m := build_sa_init h sa g public nonce extra in
  exists h' body, IkeHeader_parse m = Ok h' /\ slice_from m IkeHeader_LEN = Ok body /\
    initiator_spi h' = initiator_spi h /\ responder_spi h' = responder_spi h /\ bytes_ok m /\
    parse_sa_init h' body = Ok {| p_sa := sa; p_ke := mkKE g public; p_nonce := mkNonce nonce;
      p_signature_hashes := SUPPORTED_SIGNATURE_HASHES; p_cookie := None |}.
Proof.
  intros Hwf m. unfold m. rewrite build_sa_init_eq.
  pose proof (sa_init_chain_wf _ _ _ _ _ _ Hwf) as Hb.
  destruct (build_parse _ Hb) as (H1 & H2 & H3).
  eexists _, _. split_and!; [exact H1|exact H2|done|done|by apply build_bytes_ok|].
  unfold parse_sa_init. rewrite H3. cbn [mb_payloads]. unfold sa_init_chain.
  rewrite !fmap_app, for_each_app. destruct Hwf.
  cbn [fmap list_fmap]. loop_cbn. rewrite SA_roundtrip by done. loop_cbn.
  rewrite KeyExchange_roundtrip by done. loop_cbn.
  change (Notify_parse (Notify_to_bytes sighash_notify)) with (Ok sighash_notify).
  loop_cbn. rewrite decide_True by done. loop_cbn.
  rewrite extra_notifies_ignored by done. done.
Qed.

(** ** Invariants of the exchange's values *)
Record LocalSecret_wf (l : LocalSecret) : Prop := {
  wf_private_len : length (dh_private l) = 32%nat;
  wf_private : bytes_ok (dh_private l);
  wf_nonce : bytes_ok (ls_nonce l);
  wf_nonce_fits : Z.of_nat (4 + length (ls_nonce l)) < 2 ^ 16;
  wf_spi : u64_ok (ls_spi l) }.

Lemma LocalSecret_generate_wf `{EntropyLaws G} (g : G) n : Z.of_nat (4 + n) < 2 ^ 16 ->
  LocalSecret_wf (LocalSecret_generate g n).1 /\ ls_spi (LocalSecret_generate g n).1 <> 0 /\
  length (ls_nonce (LocalSecret_generate g n).1) = n.
Proof.
  intros Hn. unfold LocalSecret_generate, next_array32.
  pose proof (fill_length 32 g) as H1. pose proof (fill_bytes 32 g) as H2.
  destruct (fill 32 g) as [priv g1]. simpl in H1, H2.
  pose proof (fill_length n g1) as H3. pose proof (fill_bytes n g1) as H4.
  destruct (fill n g1) as [nonce g2]. simpl in H3, H4.
  pose proof (next_u64_ok g2) as H5. destruct (next_u64 g2) as [spi g3]. simpl in *.
  split_and!; [constructor; simpl; try done; [by rewrite H3|]|by case_decide|done].
  case_decide; [by split|done].
Qed.

Record CompletedSaInit_wf (c : CompletedSaInit) : Prop := {
  wf_c_spi_i : u64_ok (spi_i c);
  wf_c_spi_r : u64_ok (spi_r c);
  wf_c_suite : supported_suite (suite c);
  wf_c_lengths : session_keys_lengths (keys c) (key_lengths (suite c));
  wf_c_keys : bytes_ok (session_keys_bytes (keys c));
  wf_c_ni : bytes_ok (ni c);
  wf_c_nr : bytes_ok (nr c);
  wf_c_init : bytes_ok (init_message c);
  wf_c_resp : bytes_ok (resp_message c) }.

Record SaInitPayloads_wf (ps : SaInitPayloads) : Prop := {
  wf_p_sa : SecurityAssociation_wf (p_sa ps);
  wf_p_ke : KeyExchange_wf (p_ke ps);
  wf_p_nonce : bytes_ok (nonce_data (p_nonce ps)) }.

Definition SaInitAcc_wf (st : SaInitAcc) : Prop :=
  (forall sa, a_sa st = Some sa -> SecurityAssociation_wf sa) /\
  (forall ke, a_ke st = Some ke -> KeyExchange_wf ke) /\
  (forall n, a_nonce st = Some n -> bytes_ok (nonce_data n)).

Lemma parse_sa_init_step_wp st p : SaInitAcc_wf st -> RawPayload_wf p ->
  wp (parse_sa_init_step st p) SaInitAcc_wf.
Proof.
  intros Hst (_ & Hd & _). destruct st as [sa ke nonce hashes cookie]. unfold SaInitAcc_wf in *.
  simpl in Hst. destruct Hst as (H1 & H2 & H3).
  unfold parse_sa_init_step. destruct (payload_type p); try (by simpl).
  - apply wp_bind. eapply wp_mono; [|by apply SA_parse_wp]. intros s Hs. simpl.
    split_and!; [by intros ? [= <-]|done|done].
  - apply wp_bind. eapply wp_mono; [|by apply KeyExchange_parse_wp]. intros k Hk. simpl.
    split_and!; [done|by intros ? [= <-]|done].
  - simpl. split_and!; [done|done|]. by intros ? [= <-].
  - apply wp_bind, wp_opt; [|by simpl]. eapply wp_mono; [|by apply Notify_parse_wp].
    intros n Hn. repeat case_decide; by simpl.
Qed.

Lemma parse_sa_init_wp h body : IkeHeader_wf h -> bytes_ok body ->
  wp (parse_sa_init h body) SaInitPayloads_wf.
Proof.
  intros Hh Hb. unfold parse_sa_init. apply wp_bind.
  eapply wp_mono; [|apply (for_each_wp _ SaInitAcc_wf)];
    [|by apply payload_items_wp; [destruct Hh|]|by split_and!
     |intros; by apply parse_sa_init_step_wp].
  intros st (H1 & H2 & H3). wp_steps. constructor; simpl; auto.
Qed.

Lemma base_header_wf i r fl : u64_ok i -> u64_ok r -> IkeHeader_wf (base_header i r fl).
Proof. intros. constructor; simpl; try done; by split. Qed.

Lemma natt_notifies_wf `{!Primitives, !HashLaws} i r a b c d :
  Forall extra_notify_wf [source_ip_notify i r a b; destination_ip_notify i r c d].
Proof.
  assert (Hx : forall t x, u16_ok t -> t <> notify_type.SIGNATURE_HASH_ALGORITHMS ->
    t <> notify_type.COOKIE -> extra_notify_wf (Notify_status t (sha1 x))).
  { intros t x Ht H1 H2. split_and!; [|done|simpl; rewrite sha1_length; lia|done|done].
    apply Notify_status_wf; [done|apply sha1_bytes]. }
  constructor; [by apply Hx|]. constructor; [by apply Hx|constructor].
Qed.

Lemma length_to_proposal_sa s : supported_suite s ->
  (length (SecurityAssociation_to_bytes (mkSA [to_proposal s])) <= 64)%nat.
Proof. intros [n g|n g]; vm_compute; lia. Qed.

Section agreement.
Context `{!Primitives, !HmacLaws, !HashLaws, !BigUintLaws, !X25519Laws}.

(** The notifies the responder adds. *)
Definition natt_notifies (natt : option (SocketAddr * SocketAddr)) (i r : Z) : list Notify :=
  match natt with
  | Some (our_addr, peer_addr) =>
      [source_ip_notify i r (sa_ip our_addr) (sa_port our_addr);
       destination_ip_notify i r (sa_ip peer_addr) (sa_port peer_addr)]
  | None => []
  end.

Lemma natt_notifies_extra natt i r :
  Forall extra_notify_wf (natt_notifies natt i r) /\ (length (natt_notifies natt i r) <= 2)%nat.
Proof.
  destruct natt as [[a b]|]; [|split; [constructor|simpl; lia]].
  split; [apply natt_notifies_wf|simpl; lia].
Qed.

(** The responder's message is well formed. *)
Lemma response_wf l s i g public natt : LocalSecret_wf l -> supported_suite s -> u64_ok i ->
  DhGroup_from_transform_id (dh_id s) = Some g -> bytes_ok public -> length public = public_len g ->
  sa_init_wf (base_header i (ls_spi l) (mkFlags false false true)) (mkSA [to_proposal s]) (dh_id s)
    public (ls_nonce l) (natt_notifies natt i (ls_spi l)).
Proof.
  intros [] Hs Hi Hg Hp Hpl. destruct (natt_notifies_extra natt i (ls_spi l)).
  apply DhGroup_to_from in Hg.
  constructor; [by apply base_header_wf|by apply echo_sa_wf|..]; try done.
  - pose proof (length_to_proposal_sa s Hs). lia.
  - rewrite <- Hg. destruct g; by split.
  - rewrite Hpl. destruct g; simpl; lia.
Qed.

Lemma dh_peer_ok ke g : dh_group ke = DhGroup_transform_id g -> length (ke_data ke) = public_len g ->
  dh_peer ke g = Ok (ke_data ke).
Proof. intros E1 E2. unfold dh_peer. by rewrite !decide_False by auto. Qed.

Lemma dh_peer_wp ke g : KeyExchange_wf ke -> wp (dh_peer ke g) bytes_ok.
Proof. intros [_ Hk]. unfold dh_peer. by repeat case_decide. Qed.

(** What the responder commits to when it accepts. *)
Lemma responder_accept_Ok request h ps l natt resp c :
  SaInitPayloads_wf ps -> LocalSecret_wf l -> IkeHeader_wf h ->
  responder_accept request h ps l natt = Ok (Established resp c) ->
  exists g public shared,
    select (p_sa ps) = Some (suite c) /\ supported_suite (suite c) /\
    DhGroup_from_transform_id (dh_id (suite c)) = Some g /\
    dh_group (p_ke ps) = dh_id (suite c) /\ length (ke_data (p_ke ps)) = public_len g /\
    DhGroup_public g (dh_private l) = Ok public /\ bytes_ok public /\ length public = public_len g /\
    DhGroup_shared g (dh_private l) (ke_data (p_ke ps)) = Ok shared /\
    derive_session_keys shared (nonce_data (p_nonce ps)) (ls_nonce l) (initiator_spi h) (ls_spi l)
      (key_lengths (suite c)) = Ok (keys c) /\
    resp = build_sa_init (base_header (initiator_spi h) (ls_spi l) (mkFlags false false true))
             (mkSA [to_proposal (suite c)]) (dh_id (suite c)) public (ls_nonce l)
             (natt_notifies natt (initiator_spi h) (ls_spi l)) /\
    c = {| c_role := Responder; spi_i := initiator_spi h; spi_r := ls_spi l; suite := suite c;
           keys := keys c; ni := nonce_data (p_nonce ps); nr := ls_nonce l;
           init_message := request; resp_message := resp;
           peer_signature_hashes := p_signature_hashes ps |}.
Proof.
  intros Hps Hl Hh Ha. unfold responder_accept in Ha.
  apply bind_Ok in Ha as (s & Hs & Ha). apply ok_or_Ok in Hs.
  apply bind_Ok in Ha as (g & Hg & Ha). apply ok_or_Ok in Hg.
  case_decide as Hd; [by destruct natt|].
  apply bind_Ok in Ha as (pp & Hpp & Ha). unfold dh_peer in Hpp.
  case_decide; [done|]. case_decide as Hlen; [done|]. injection Hpp as <-.
  apply bind_Ok in Ha as (public & Hpub & Ha). apply bind_Ok in Ha as (shared & Hsh & Ha).
  apply bind_Ok in Ha as (ks & Hks & Ha). fold (natt_notifies natt (initiator_spi h) (ls_spi l)) in Ha.
  injection Ha as <- <-. cbn [suite keys].
  destruct (DhGroup_public_ok g (dh_private l)) as (public' & E & Hl1 & Hl2);
    [apply Hl|by rewrite (wf_private_len l Hl)|]. rewrite Hpub in E. injection E as <-.
  exists g, public, shared. split_and!; try done.
  - eapply select_supported; [apply Hps|done].
  - by apply DhGroup_to_from in Hg as <-.
Qed.

(** The initiator's side, from a response that carries the given payloads. *)
Lemma initiator_complete_eq l request response h body ps s g shared ks :
  IkeHeader_parse response = Ok h -> slice_from response IkeHeader_LEN = Ok body ->
  parse_sa_init h body = Ok ps -> select (p_sa ps) = Some s ->
  DhGroup_from_transform_id (dh_id s) = Some g ->
  dh_group (p_ke ps) = DhGroup_transform_id g -> length (ke_data (p_ke ps)) = public_len g ->
  DhGroup_shared g (dh_private l) (ke_data (p_ke ps)) = Ok shared ->
  derive_session_keys shared (ls_nonce l) (nonce_data (p_nonce ps)) (ls_spi l) (responder_spi h)
    (key_lengths s) = Ok ks ->
  initiator_complete l request response = Ok {|
    c_role := Initiator; spi_i := ls_spi l; spi_r := responder_spi h; suite := s; keys := ks;
    ni := ls_nonce l; nr := nonce_data (p_nonce ps); init_message := request;
    resp_message := response; peer_signature_hashes := p_signature_hashes ps |}.
Proof.
  intros E1 E2 E3 E4 E5 E6 E7 E8 E9. unfold initiator_complete.
  rewrite E1. cbn [mbind outcome_bind]. rewrite E2. cbn [mbind outcome_bind].
  rewrite E3. cbn [mbind outcome_bind]. rewrite E4. cbn [ok_or mbind outcome_bind].
  rewrite E5. cbn [ok_or mbind outcome_bind]. rewrite dh_peer_ok by done. cbn [mbind outcome_bind].
  rewrite E8. cbn [mbind outcome_bind]. rewrite E9. done.
Qed.

(** The two ends hold the same SA. *)
Definition same_sa (a b : CompletedSaInit) : Prop :=
  c_role a = peer (c_role b) /\ spi_i a = spi_i b /\ spi_r a = spi_r b /\ suite a = suite b /\
  keys a = keys b /\ ni a = ni b /\ nr a = nr b /\ init_message a = init_message b /\
  resp_message a = resp_message b.

(** An offer the initiator can send: well formed and within the payload length. *)
Definition offer_wf (offer : SecurityAssociation) : Prop :=
  SecurityAssociation_wf offer /\ Z.of_nat (4 + length (SecurityAssociation_to_bytes offer)) < 2 ^ 16.

(** The initiator's message is well formed. *)
Lemma request_wf l offer g public : LocalSecret_wf l -> offer_wf offer -> bytes_ok public ->
  length public = public_len g ->
  sa_init_wf (base_header (ls_spi l) 0 (mkFlags true false false)) offer (DhGroup_transform_id g) public
    (ls_nonce l) [].
Proof.
  intros [] [Ho Hf] Hp Hl. constructor; [by apply base_header_wf|done|done|by destruct g|done| |done|done
      |constructor|simpl; lia]. rewrite Hl. destruct g; simpl; lia.
Qed.

Lemma initiator_request_ok l offer : LocalSecret_wf l -> offer_wf offer ->
  exists public h body,
    DhGroup_public (offer_dh_group offer) (dh_private l) = Ok public /\ bytes_ok public /\
    length public = public_len (offer_dh_group offer) /\
    let m := build_sa_init (base_header (ls_spi l) 0 (mkFlags true false false)) offer
               (DhGroup_transform_id (offer_dh_group offer)) public (ls_nonce l) [] in
    initiator_request l offer = Ok m /\ bytes_ok m /\ IkeHeader_parse m = Ok h /\
    slice_from m IkeHeader_LEN = Ok body /\ initiator_spi h = ls_spi l /\ IkeHeader_wf h /\
    parse_sa_init h body = Ok {| p_sa := offer;
      p_ke := mkKE (DhGroup_transform_id (offer_dh_group offer)) public;
      p_nonce := mkNonce (ls_nonce l); p_signature_hashes := SUPPORTED_SIGNATURE_HASHES;
      p_cookie := None |}.
Proof.
  intros Hl [Ho Hf]. set (g := offer_dh_group offer).
  destruct (DhGroup_public_ok g (dh_private l)) as (public & Epub & Lpub & Opub);
    [apply Hl|by rewrite (wf_private_len l Hl)|].
  destruct (parse_sa_init_built _ _ _ _ _ _ (request_wf l offer g public Hl (conj Ho Hf) Opub Lpub))
    as (h & body & P1 & P2 & P3 & _ & P4 & P5).
  exists public, h, body. cbv zeta.
  split_and!; [exact Epub|exact Opub|exact Lpub| |exact P4|exact P1|exact P2|exact P3| |exact P5].
  - unfold initiator_request. fold g. rewrite Epub. reflexivity.
  - by apply (wp_ok _ _ _ (IkeHeader_parse_wp _ P4)).
Qed.

Lemma initiator_request_parse l offer request : LocalSecret_wf l -> offer_wf offer ->
  initiator_request l offer = Ok request ->
  exists h body ps, IkeHeader_parse request = Ok h /\ slice_from request IkeHeader_LEN = Ok body /\
    parse_sa_init h body = Ok ps /\ bytes_ok request /\ p_cookie ps = None /\ p_sa ps = offer.
Proof.
  intros Hl Ho Hr. destruct (initiator_request_ok l offer Hl Ho)
    as (pi & h & body & _ & _ & _ & Em & Om & P1 & P2 & _ & _ & P4).
  rewrite Hr in Em. injection Em as ->. eexists h, body, _. by split_and!.
Qed.

Lemma initiator_request_type l offer request h : LocalSecret_wf l -> offer_wf offer ->
  initiator_request l offer = Ok request -> IkeHeader_parse request = Ok h -> exchange_type h = IkeSaInit.
Proof.
  intros Hl Ho Hr Hh. destruct (DhGroup_public_ok (offer_dh_group offer) (dh_private l)) as (p & Ep & Lp & Op);
    [apply Hl|by rewrite (wf_private_len l Hl)|].
  unfold initiator_request in Hr. rewrite Ep in Hr. cbn [mbind outcome_bind] in Hr. injection Hr as <-.
  rewrite build_sa_init_eq in Hh.
  pose proof (sa_init_chain_wf _ _ _ _ _ _ (request_wf l offer _ p Hl Ho Op Lp)) as Hb.
  destruct (build_parse _ Hb) as (E & _). rewrite E in Hh. by injection Hh as <-.
Qed.

(** Completing the exchange from the initiator's own request and the responder's
    answer to it. *)
Lemma sa_init_agree li lr offer natt cookie request resp cr :
  LocalSecret_wf li -> LocalSecret_wf lr -> offer_wf offer ->
  initiator_request li offer = Ok request ->
  responder_respond_inner request lr natt cookie = Ok (Established resp cr) ->
  exists g public,
    DhGroup_from_transform_id (dh_id (suite cr)) = Some g /\
    DhGroup_public g (dh_private lr) = Ok public /\
    (peer_acceptable g public ->
     exists ci, initiator_complete li request resp = Ok ci /\ same_sa ci cr).
Proof.
  intros Hli Hlr Ho Hreq Hresp.
  destruct (initiator_request_ok li offer Hli Ho)
    as (pi & h & body & Epi & Opi & Lpi & Em & Om & P1 & P2 & P3 & Wh & P4).
  rewrite Hreq in Em. injection Em as ->.
  unfold responder_respond_inner in Hresp. rewrite P1 in Hresp. cbn [mbind outcome_bind] in Hresp.
  rewrite P2 in Hresp. cbn [mbind outcome_bind] in Hresp. rewrite P4 in Hresp.
  cbn [mbind outcome_bind] in Hresp. destruct (cookie_challenge _ _ _); [done|].
  apply responder_accept_Ok in Hresp as (g & pr & shared & Hsel & Hsup & Hg & Hgrp & Hlen & Epr & Opr &
    Lpr & Esh & Eks & -> & Hc); [|constructor; simpl; try apply Hli; try apply Ho|done|done].
  2: { split; simpl; [by destruct (offer_dh_group offer)|done]. }
  simpl in Hgrp, Hlen, Esh, Eks, Hsel. rewrite P3 in *.
  exists g, pr. split_and!; [done|done|]. intros Hacc.
  assert (Hgg : offer_dh_group offer = g).
  { pose proof (DhGroup_from_to (offer_dh_group offer)) as E. rewrite Hgrp in E. congruence. }
  destruct (parse_sa_init_built _ _ _ _ _ _ (response_wf lr (suite cr) (ls_spi li) g pr natt Hlr Hsup
    (wf_spi li Hli) Hg Opr Lpr)) as (h' & body' & Q1 & Q2 & _ & Q3 & _ & Q4).
  destruct (DhGroup_shared_ok g (dh_private li) pr) as (shared' & Esh' & _);
    [apply Hli|by rewrite (wf_private_len li Hli)|done|done|].
  assert (shared' = shared) as ->.
  { rewrite Hgg in Epi. eapply (DhGroup_agree g); [apply Hli|apply Hlr|done..]. }
  eexists. split; [eapply initiator_complete_eq; try done|].
  - cbn [p_sa]. by apply select_echo.
  - cbn [p_ke dh_group]. symmetry. by apply DhGroup_to_from.
  - cbn [p_nonce nonce_data]. rewrite Q3. exact Eks.
  - rewrite Hc. by split_and!.
Qed.
(** The default offer, for any secrets. *)
Lemma sa_init_default li lr natt :
  LocalSecret_wf li -> LocalSecret_wf lr ->
  exists request resp ci cr,
    initiator_request li default_offer = Ok request /\
    responder_respond_inner request lr natt None = Ok (Established resp cr) /\
    initiator_complete li request resp = Ok ci /\ same_sa ci cr /\
    suite cr = mkSuite 1 20 256 5 None 31 /\ length (sk_ei (keys cr)) = 36%nat.
Proof.
  intros Hli Hlr. assert (Ho : offer_wf default_offer) by (split; [by repeat constructor|vm_compute; done]).
  destruct (initiator_request_ok li default_offer Hli Ho)
    as (pi & h & body & Epi & Opi & Lpi & Em & Om & P1 & P2 & P3 & Wh & P4).
  change (offer_dh_group default_offer) with X25519 in *.
  destruct (DhGroup_public_ok X25519 (dh_private lr)) as (pr & Epr & Lpr & Opr);
    [apply Hlr|by rewrite (wf_private_len lr Hlr)|].
  destruct (DhGroup_shared_ok X25519 (dh_private lr) pi) as (sh & Esh & _);
    [apply Hlr|by rewrite (wf_private_len lr Hlr)|done|by split|].
  destruct (derive_session_keys_ok sh (ls_nonce li) (ls_nonce lr) (initiator_spi h) (ls_spi lr)
    (mkKeyLengths 32 0 36)) as (k & Ek & _ & Hk & _).
  assert (Er : exists resp cr, responder_respond_inner (build_sa_init
      (base_header (ls_spi li) 0 (mkFlags true false false)) default_offer
      (DhGroup_transform_id X25519) pi (ls_nonce li) []) lr natt None = Ok (Established resp cr) /\
    suite cr = mkSuite 1 20 256 5 None 31 /\ keys cr = k).
  { unfold responder_respond_inner. rewrite P1. cbn [mbind outcome_bind]. rewrite P2.
    cbn [mbind outcome_bind]. rewrite P4. cbn [mbind outcome_bind cookie_challenge].
    unfold responder_accept. change (select _) with (Some (mkSuite 1 20 256 5 None 31)).
    cbn [ok_or mbind outcome_bind p_ke p_nonce nonce_data dh_id dh_group DhGroup_from_transform_id].
    rewrite decide_False by (intros []; done). rewrite dh_peer_ok by done. cbn [mbind outcome_bind ke_data].
    rewrite Epr. cbn [mbind outcome_bind]. rewrite Esh. cbn [mbind outcome_bind].
    change (key_lengths _) with (mkKeyLengths 32 0 36). rewrite Ek. cbn [mbind outcome_bind].
    eexists _, _. split_and!; [reflexivity|done|done]. }
  destruct Er as (resp & cr & Er & Es & Ekeys).
  destruct (sa_init_agree li lr default_offer natt None _ resp cr Hli Hlr Ho Em Er)
    as (g & public & Eg & Epub & Hci). rewrite Es in Eg. injection Eg as <-.
  rewrite Epr in Epub. injection Epub as <-.
  destruct Hci as (ci & Eci & Hsame); [by split|].
  eexists _, resp, ci, cr. split_and!; [exact Em|done|done|done|done|].
  rewrite Ekeys. apply Hk.
Qed.
End agreement.

Section safety.
Context `{!Primitives, !HmacLaws, !HashLaws, !BigUintLaws, !X25519Laws}.

Lemma derive_session_keys_wp ss n1 n2 i r ls :
  wp (derive_session_keys ss n1 n2 i r ls) (fun k =>
    session_keys_lengths k ls /\ bytes_ok (session_keys_bytes k)).
Proof. destruct (derive_session_keys_ok ss n1 n2 i r ls) as (k & -> & _ & ? & ?). done. Qed.

Lemma DhGroup_public_wp l g : LocalSecret_wf l ->
  wp (DhGroup_public g (dh_private l)) (fun p => bytes_ok p /\ length p = public_len g).
Proof.
  intros Hl. destruct (DhGroup_public_ok g (dh_private l)) as (p & -> & ? & ?);
    [apply Hl|by rewrite (wf_private_len l Hl)|]. done.
Qed.

Lemma select_wp sa (Q : ChosenSuite -> Prop) : SecurityAssociation_wf sa ->
  (forall s, supported_suite s -> Q s) -> wp (ok_or (select sa) NoProposalChosen) Q.
Proof. intros Hsa HQ. apply wp_ok_or. intros s Hs. apply HQ. by eapply select_supported. Qed.

Definition SaInitResult_wf (r : SaInitResult) : Prop :=
  match r with
  | Established resp c => CompletedSaInit_wf c /\ c_role c = Responder /\ resp = resp_message c
  | _ => True
  end.

Lemma responder_accept_wp request h ps l natt : bytes_ok request -> IkeHeader_wf h ->
  SaInitPayloads_wf ps -> LocalSecret_wf l -> wp (responder_accept request h ps l natt) SaInitResult_wf.
Proof.
  intros Hreq Hh Hps Hl. unfold responder_accept.
  apply wp_bind, select_wp; [apply Hps|]. intros s Hs.
  apply wp_bind, wp_ok_or. intros g Hg. case_decide; [by destruct natt|].
  apply wp_bind. eapply wp_mono; [|apply dh_peer_wp, Hps]. intros pp Hpp.
  apply wp_bind. eapply wp_mono; [|by apply DhGroup_public_wp]. intros pub [Opub Lpub].
  apply wp_bind. eapply wp_mono;
    [|apply DhGroup_shared_wp; [apply Hl|by rewrite (wf_private_len l Hl)|done]]. intros sh _.
  apply wp_bind. eapply wp_mono; [|apply derive_session_keys_wp]. intros k [Hk1 Hk2].
  fold (natt_notifies natt (initiator_spi h) (ls_spi l)).
  destruct (parse_sa_init_built _ _ _ _ _ _ (response_wf l s (initiator_spi h) g pub natt Hl Hs
    (wf_spi_i h Hh) Hg Opub Lpub)) as (_ & _ & _ & _ & _ & _ & Hok & _).
  cbn [wp SaInitResult_wf]. split_and!; [|done|done].
  constructor; cbn [spi_i spi_r suite keys ni nr init_message resp_message];
    [apply Hh|apply Hl|done|done|done|apply Hps|apply Hl|done|done].
Qed.

Lemma responder_respond_inner_wp request l natt cookie : bytes_ok request -> LocalSecret_wf l ->
  wp (responder_respond_inner request l natt cookie) SaInitResult_wf.
Proof.
  intros Hreq Hl. unfold responder_respond_inner.
  apply wp_bind. eapply wp_mono; [|by apply IkeHeader_parse_wp_len]. intros h [Hh Hlen].
  apply wp_bind, wp_slice_from; [done|].
  apply wp_bind. eapply wp_mono; [|apply parse_sa_init_wp; auto with ryke]. intros ps Hps.
  destruct (cookie_challenge cookie h ps); [done|]. by apply responder_accept_wp.
Qed.

Lemma initiator_complete_wp request response l : bytes_ok request -> bytes_ok response ->
  LocalSecret_wf l ->
  wp (initiator_complete l request response) (fun c => CompletedSaInit_wf c /\ c_role c = Initiator).
Proof.
  intros Hreq Hresp Hl. unfold initiator_complete.
  apply wp_bind. eapply wp_mono; [|by apply IkeHeader_parse_wp_len]. intros h [Hh Hlen].
  apply wp_bind, wp_slice_from; [done|].
  apply wp_bind. eapply wp_mono; [|apply parse_sa_init_wp; auto with ryke]. intros ps Hps.
  apply wp_bind, select_wp; [apply Hps|]. intros s Hs.
  apply wp_bind, wp_ok_or. intros g Hg.
  apply wp_bind. eapply wp_mono; [|apply dh_peer_wp, Hps]. intros pp Hpp.
  apply wp_bind. eapply wp_mono;
    [|apply DhGroup_shared_wp; [apply Hl|by rewrite (wf_private_len l Hl)|done]]. intros sh _.
  apply wp_bind. eapply wp_mono; [|apply derive_session_keys_wp]. intros k [Hk1 Hk2].
  cbn [wp]. split; [|done].
  constructor; cbn [spi_i spi_r suite keys ni nr init_message resp_message];
    [apply Hl|apply Hh|done|done|done|apply Hl|apply Hps|done|done].
Qed.

Lemma responder_respond_wp request l : bytes_ok request -> LocalSecret_wf l ->
  wp (responder_respond request l) (fun '(resp, c) => CompletedSaInit_wf c /\ c_role c = Responder /\
    resp = resp_message c /\ init_message c = request /\ spi_r c = ls_spi l).
Proof.
  intros Hr Hl. unfold responder_respond. apply wp_bind. eapply wp_mono; [|by apply wp_eq, responder_respond_inner_wp].
  intros [resp c|resp g|resp] [Hw He]; try done. destruct Hw as (? & ? & ?).
  assert (Hc : init_message c = request /\ spi_r c = ls_spi l); [|by destruct Hc].
  unfold responder_respond_inner in He. apply bind_Ok in He as (h & Eh & He).
  apply bind_Ok in He as (body & Eb & He). apply bind_Ok in He as (ps & Ep & He).
  cbn [cookie_challenge] in He.
  apply responder_accept_Ok in He as (g & pub & sh & _ & _ & _ & _ & _ & _ & _ & _ & _ & _ & _ & ->); [done|..|done|].
  - eapply wp_ok; [|exact Ep]. apply parse_sa_init_wp; [by apply (wp_ok _ _ _ (IkeHeader_parse_wp _ Hr))|].
    unfold slice_from in Eb. case_decide; [|done]. injection Eb as <-. by apply Forall_drop.
  - by apply (wp_ok _ _ _ (IkeHeader_parse_wp _ Hr)).
Qed.

(** A single-notify message, read back. *)
Lemma notify_message_parse h n : IkeHeader_wf h -> Notify_wf n ->
  Z.of_nat (length (n_spi n) + length (n_data n)) <= 60000 ->
  let m := MessageBuilder_build (MessageBuilder_push (MessageBuilder_new h) PNotify (Notify_to_bytes n)) in
  exists h' body, IkeHeader_parse m = Ok h' /\ initiator_spi h' = initiator_spi h /\
    slice_from m IkeHeader_LEN = Ok body /\
    payload_items (next_payload h') body = [Ok (raw (PNotify, Notify_to_bytes n))] /\
    Notify_parse (Notify_to_bytes n) = Ok n.
Proof.
  intros Hh Hn Hl m.
  assert (Hb : build_wf (mkBuilder h [(PNotify, Notify_to_bytes n)])).
  { pose proof (notify_entry_wf n Hn Hl) as He. split_and!; [done|by apply Forall_singleton|].
    cbn [mb_payloads]. rewrite encode_payload_chain_cons, length_Notify_to_bytes.
    unfold IkeHeader_LEN. cbn [encode_payload_chain length]. lia. }
  destruct (build_parse _ Hb) as (P1 & P2 & P3).
  eexists _, _. split_and!; [exact P1|done|exact P2|exact P3|by apply Notify_roundtrip].
Qed.
End safety.

(** ** Properties *)
Section properties.
Context `{!Primitives, !HmacLaws, !HashLaws, !BigUintLaws, !X25519Laws}.

(** C4: Agreement of IKE_SA_INIT: when a responder, with or without NAT traversal
    and cookies, accepts the request an initiator built from its offer, then the
    initiator, on receiving the response, completes too (for the MODP groups:
    provided the responder's public value is in the range the group accepts), and
    both ends hold the same SPIs, suite, nonces, transcript and all seven keys,
    in opposite roles. *)
Theorem sa_init_agreement li lr offer natt cookie request resp cr :
  LocalSecret_wf li -> LocalSecret_wf lr -> offer_wf offer ->
  initiator_request li offer = Ok request ->
  responder_respond_inner request lr natt cookie = Ok (Established resp cr) ->
  exists g public,
    DhGroup_from_transform_id (dh_id (suite cr)) = Some g /\
    DhGroup_public g (dh_private lr) = Ok public /\
    (peer_acceptable g public ->
     exists ci, initiator_complete li request resp = Ok ci /\ same_sa ci cr).
Proof. apply sa_init_agree. Qed.

(** The exchange with the default offer always completes: for any well-formed
    secrets of both sides (in particular generated ones) the request is built, the
    responder establishes the SA with AES-GCM-256, HMAC-SHA256 and X25519, the
    initiator completes, and the two ends agree. *)
Theorem sa_init_default_completes li lr natt :
  LocalSecret_wf li -> LocalSecret_wf lr ->
  exists request resp ci cr,
    initiator_request li default_offer = Ok request /\
    responder_respond_inner request lr natt None = Ok (Established resp cr) /\
    initiator_complete li request resp = Ok ci /\ same_sa ci cr /\
    suite cr = mkSuite 1 20 256 5 None 31 /\ length (sk_ei (keys cr)) = 36%nat.
Proof. apply sa_init_default. Qed.

(** Both roles of IKE_SA_INIT are total on hostile input: on any request and any
    response they return an error or a result, never a panic, and a completed SA is
    well formed: its suite is one the negotiation supports and its keys have the
    lengths the suite demands. *)
Theorem sa_init_total request response l natt cookie :
  bytes_ok request -> bytes_ok response -> LocalSecret_wf l ->
  wp (responder_respond_inner request l natt cookie) SaInitResult_wf /\
  wp (initiator_complete l request response)
    (fun c => CompletedSaInit_wf c /\ c_role c = Initiator).
Proof.
  intros. split; [by apply responder_respond_inner_wp|by apply initiator_complete_wp].
Qed.

(** C33: The cookie challenge is stateless and comes before any Diffie-Hellman: when
    a cookie is required, a request without the cookie for its SPI, nonce and
    source address gets a response that carries exactly that cookie, whatever the
    responder's secrets (they are not consulted); and a request that carries it is
    treated as if no cookie were required. *)
Theorem cookie_challenge_correct request l natt pol h body ps :
  IkeHeader_parse request = Ok h -> slice_from request IkeHeader_LEN = Ok body ->
  parse_sa_init h body = Ok ps -> bytes_ok request -> required pol = true ->
  let expected := ike_cookie (secret pol) (initiator_spi h) (nonce_data (p_nonce ps)) (pol_peer pol) in
  if decide (p_cookie ps = Some expected)
  then responder_respond_inner request l natt (Some pol) = responder_respond_inner request l natt None
  else exists response h' body',
    responder_respond_inner request l natt (Some pol) = Ok (CookieRequired response) /\
    IkeHeader_parse response = Ok h' /\ initiator_spi h' = initiator_spi h /\
    slice_from response IkeHeader_LEN = Ok body' /\
    payload_items (next_payload h') body' =
      [Ok (raw (PNotify, Notify_to_bytes (Notify_status notify_type.COOKIE expected)))] /\
    Notify_parse (Notify_to_bytes (Notify_status notify_type.COOKIE expected)) =
      Ok (Notify_status notify_type.COOKIE expected).
Proof.
  intros E1 E2 E3 Hreq Hpol expected. unfold responder_respond_inner. rewrite E1.
  cbn [mbind outcome_bind]. rewrite E2. cbn [mbind outcome_bind]. rewrite E3.
  cbn [mbind outcome_bind cookie_challenge]. rewrite Hpol. fold expected.
  case_decide as Hc; [by rewrite decide_False by auto|]. rewrite decide_True by done.
  pose proof (wp_ok _ _ _ (IkeHeader_parse_wp request Hreq) E1) as Hh.
  destruct (notify_message_parse (base_header (initiator_spi h) 0 (mkFlags false false true))
    (Notify_status notify_type.COOKIE expected)) as (h' & body' & Q1 & Q2 & Q3 & Q4 & Q5).
  { apply base_header_wf; [apply Hh|by split]. }
  { apply Notify_status_wf; [by split|apply sha256_bytes]. }
  { simpl. unfold expected, ike_cookie. rewrite sha256_length. lia. }
  exists (build_cookie_challenge (initiator_spi h) expected), h', body'. by split_and!.
Qed.

(** DH-group renegotiation: when the initiator's key share is for another group
    than the one selected, the NAT-aware responder keeps no SA and answers with an
    INVALID_KE_PAYLOAD notify that names the selected group; the plain responder
    reports the mismatch. *)
Theorem invalid_ke_names_group request h ps l our theirs s g :
  select (p_sa ps) = Some s -> DhGroup_from_transform_id (dh_id s) = Some g ->
  dh_group (p_ke ps) <> dh_id s -> IkeHeader_wf h ->
  responder_accept request h ps l None = Err (DhGroupMismatch (dh_id s) (dh_group (p_ke ps))) /\
  exists response h' body' n,
    responder_accept request h ps l (Some (our, theirs)) = Ok (InvalidKe response (dh_id s)) /\
    IkeHeader_parse response = Ok h' /\ initiator_spi h' = initiator_spi h /\
    slice_from response IkeHeader_LEN = Ok body' /\
    payload_items (next_payload h') body' = [Ok (raw (PNotify, Notify_to_bytes n))] /\
    Notify_parse (Notify_to_bytes n) = Ok n /\
    n_type n = notify_type.INVALID_KE_PAYLOAD /\ be_val (n_data n) = dh_id s.
Proof.
  intros Hs Hg Hne Hh. unfold responder_accept. rewrite Hs. cbn [ok_or mbind outcome_bind].
  rewrite Hg. cbn [ok_or mbind outcome_bind]. pose proof (DhGroup_to_from _ _ Hg) as Hid.
  rewrite Hid, !decide_True by done. split; [done|].
  assert (Hu : u16_ok (dh_id s)) by (rewrite <- Hid; destruct g; by split).
  destruct (notify_message_parse (base_header (initiator_spi h) 0 (mkFlags false false true))
    (Notify_status notify_type.INVALID_KE_PAYLOAD (be_bytes 2 (dh_id s))))
    as (h' & body' & Q1 & Q2 & Q3 & Q4 & Q5).
  { apply base_header_wf; [apply Hh|by split]. }
  { apply Notify_status_wf; [by split|apply be_bytes_ok]. }
  { simpl. lia. }
  eexists _, h', body', _. split_and!; [reflexivity|exact Q1|exact Q2|exact Q3|exact Q4|exact Q5|done|].
  cbn [n_data Notify_status]. by apply be_val_be_bytes.
Qed.
End properties.

Definition example_li : LocalSecret := (LocalSecret_generate (SeedEntropy_new 1) 32).1.
Definition example_lr : LocalSecret := (LocalSecret_generate (SeedEntropy_new 2) 32).1.

Lemma example_li_wf : LocalSecret_wf example_li.
Proof. by apply (LocalSecret_generate_wf (SeedEntropy_new 1) 32). Qed.

Lemma example_lr_wf : LocalSecret_wf example_lr.
Proof. by apply (LocalSecret_generate_wf (SeedEntropy_new 2) 32). Qed.

Lemma default_offer_wf : offer_wf default_offer.
Proof. split; [by repeat constructor|vm_compute; done]. Qed.

Definition unwrap_or {A} (d : A) (m : outcome A) : A := match m with Ok a => a | _ => d end.

Definition example_request : bytes := unwrap_or [] (initiator_request example_li default_offer).

Lemma example_request_eq : initiator_request example_li default_offer = Ok example_request.
Proof. vm_compute. reflexivity. Qed.

Lemma example_request_ok : bytes_ok example_request.
Proof. apply (bool_decide_unpack _). vm_compute. done. Qed.

Definition established (r : outcome SaInitResult) : option (bytes * CompletedSaInit) :=
  match r with Ok (Established m c) => Some (m, c) | _ => None end.

Lemma established_Some r m c : established r = Some (m, c) -> r = Ok (Established m c).
Proof. by destruct r as [[]| |]; simpl; intros; simplify_eq. Qed.

Lemma example_responder : exists m c,
  responder_respond_inner example_request example_lr None None = Ok (Established m c) /\
  dh_id (suite c) = 31.
Proof.
  destruct (established (responder_respond_inner example_request example_lr None None))
    as [[m c]|] eqn:E.
  - exists m, c. split; [by apply established_Some|].
    assert (Ed : (fun x => dh_id (suite x.2)) <$>
      established (responder_respond_inner example_request example_lr None None) = Some 31)
      by (vm_compute; reflexivity). rewrite E in Ed. by injection Ed.
  - exfalso. assert (En : is_Some (established (responder_respond_inner example_request example_lr None None)))
      by (eexists; vm_compute; reflexivity). rewrite E in En. by destruct En.
Qed.

Lemma sa_init_agreement_witness : exists resp cr ci,
  responder_respond_inner example_request example_lr None None = Ok (Established resp cr) /\
  initiator_complete example_li example_request resp = Ok ci /\ same_sa ci cr.
Proof.
  destruct example_responder as (resp & cr & E & Ed).
  destruct (sa_init_agreement example_li example_lr default_offer None None example_request resp cr
    example_li_wf example_lr_wf default_offer_wf example_request_eq E) as (g & pub & Eg & Ep & H).
  rewrite Ed in Eg. injection Eg as <-.
  destruct (DhGroup_public_ok X25519 (dh_private example_lr)) as (p & Ep' & Hlen & _);
    [apply example_lr_wf|by rewrite (wf_private_len _ example_lr_wf)|].
  rewrite Ep in Ep'. injection Ep' as <-.
  destruct H as (ci & Eci & Hs); [split; [exact Hlen|exact I]|].
  exists resp, cr, ci. split_and!; [exact E|exact Eci|exact Hs].
Defined.

Lemma sa_init_default_completes_witness : exists request resp ci cr,
  initiator_request example_li default_offer = Ok request /\
  responder_respond_inner request example_lr None None = Ok (Established resp cr) /\
  initiator_complete example_li request resp = Ok ci /\ same_sa ci cr.
Proof.
  destruct (sa_init_default_completes example_li example_lr None example_li_wf example_lr_wf)
    as (request & resp & ci & cr & H1 & H2 & H3 & H4 & _).
  exists request, resp, ci, cr. split_and!; [exact H1|exact H2|exact H3|exact H4].
Defined.

Lemma sa_init_total_witness :
  wp (responder_respond_inner example_request example_lr None None) SaInitResult_wf.
Proof.
  exact (proj1 (sa_init_total example_request example_request example_lr None None
    example_request_ok example_request_ok example_lr_wf)).
Defined.

Definition example_policy : CookiePolicy := mkCookiePolicy [1; 2; 3] [10; 0; 0; 1] true.

Lemma cookie_challenge_correct_witness : exists response,
  responder_respond_inner example_request example_lr None (Some example_policy) =
    Ok (CookieRequired response).
Proof.
  destruct (initiator_request_parse example_li default_offer example_request example_li_wf
    default_offer_wf example_request_eq) as (h & body & ps & P1 & P2 & P3 & _ & P4 & _).
  pose proof (cookie_challenge_correct example_request example_lr None example_policy h body ps
    P1 P2 P3 example_request_ok eq_refl) as H. cbv zeta in H.
  rewrite decide_False in H by (rewrite P4; discriminate). destruct H as (response & _ & _ & H & _).
  exists response. exact H.
Defined.

Lemma invalid_ke_names_group_witness : exists response,
  responder_accept [] example_header
    (mkSaInitPayloads default_offer (mkKE 14 []) (mkNonce [1]) [] None) example_lr
    (Some (mkSocketAddr (V4 (mkIpv4 10 0 0 1)) 500, mkSocketAddr (V4 (mkIpv4 10 0 0 2)) 500)) =
    Ok (InvalidKe response 31).
Proof.
  destruct (invalid_ke_names_group [] example_header
    (mkSaInitPayloads default_offer (mkKE 14 []) (mkNonce [1]) [] None) example_lr
    (mkSocketAddr (V4 (mkIpv4 10 0 0 1)) 500) (mkSocketAddr (V4 (mkIpv4 10 0 0 2)) 500)
    (mkSuite 1 20 256 5 None 31) X25519 eq_refl eq_refl) as [_ (response & _ & _ & _ & H & _)];
    [done|exact example_header_wf|].
  exists response. exact H.
Defined.
