(* ===== verification/Informational.v ===== *)
(** * INFORMATIONAL exchange and MOBIKE
    ([src/src/ikev2/informational.rs], [src/src/ikev2/mobike.rs])

    Encrypted control messages under a completed SA.  The lemmas on sealed payload
    chains are shared by the later exchanges. *)
From S2P Require Import Prelude Outcome Wire Primitives Entropy Message Payload Crypto Sk Negotiate Exchange.

Definition our_sk_e (sa : CompletedSaInit) : bytes :=
  match c_role sa with Initiator => sk_ei (keys sa) | Responder => sk_er (keys sa) end.

Definition peer_sk_e (sa : CompletedSaInit) : bytes :=
  match c_role sa with Initiator => sk_er (keys sa) | Responder => sk_ei (keys sa) end.

Definition informational_header (sa : CompletedSaInit) (mid : Z) (is_response : bool) : IkeHeader := {|
  initiator_spi := spi_i sa;
  responder_spi := spi_r sa;
  next_payload := NoNext;
  major_version := 2;
  minor_version := 0;
  exchange_type := Informational;
  flags := mkFlags (bool_decide (c_role sa = Initiator)) false is_response;
  message_id := mid;
  hdr_length := 0 |}.

Section informational.
Context `{!Primitives}.

Definition build_informational (sa : CompletedSaInit) (mid : Z) (is_response : bool)
    (inner_payloads : PayloadChain) (iv : bytes) : outcome bytes :=
  let header := informational_header sa mid is_response in
  let first := first_payload_type inner_payloads in
  let inner := encode_payload_chain inner_payloads in
  build_encrypted_gcm header first inner (our_sk_e sa) iv.

Definition dpd_request (sa : CompletedSaInit) (mid : Z) (iv : bytes) : outcome bytes :=
  build_informational sa mid false [] iv.

(** [out.push((payload.payload_type, payload.data.to_vec()))] *)
Definition push_payload (out : PayloadChain) (p : RawPayload) : outcome PayloadChain :=
  Ok (out ++ [(payload_type p, data p)]).

Definition open_informational (sa : CompletedSaInit) (message : bytes) : outcome PayloadChain :=
  '(first, inner) ← open_encrypted_gcm message (peer_sk_e sa);
  for_each push_payload (payload_items first inner) [].
End informational.

(** ** MOBIKE *)
Definition mobike_supported : Notify := Notify_status notify_type.MOBIKE_SUPPORTED [].

Definition build_update_sa_addresses `{!Primitives} (sa : CompletedSaInit) (mid : Z) (iv : bytes)
    : outcome bytes :=
  let notify := Notify_status notify_type.UPDATE_SA_ADDRESSES [] in
  build_informational sa mid false [(PNotify, Notify_to_bytes notify)] iv.

(** [Notify::parse(body).map(|n| n.notify_type == want).unwrap_or(false)]; the
    parser does not panic ([Notify_parse_wp]). *)
Definition has_notify (inner : PayloadChain) (want : Z) : bool :=
  existsb (fun '(t, body) =>
    bool_decide (t = PNotify) &&
    match Notify_parse body with Ok n => n_type n =? want | _ => false end) inner.

Definition contains_update_sa_addresses (inner : PayloadChain) : bool :=
  has_notify inner notify_type.UPDATE_SA_ADDRESSES.

Definition peer_supports_mobike (inner : PayloadChain) : bool :=
  has_notify inner notify_type.MOBIKE_SUPPORTED.

(** ** Sealed payload chains *)

(** A chain whose encoding fits one encrypted payload. *)
Definition chain_fits (ps : PayloadChain) : Prop :=
  PayloadChain_wf ps /\ sk_fits (encode_payload_chain ps).

Lemma chain_fits_intro ps : PayloadChain_wf ps ->
  Z.of_nat (sum_list ((fun e => (4 + length e.2)%nat) <$> ps)) <= 65000 -> chain_fits ps.
Proof.
  intros Hps Hl. split; [done|]. unfold sk_fits, sk_len, IV_LEN, ICV_LEN.
  rewrite length_encode_chain. lia.
Qed.

Section sealed.
Context `{!Primitives, !AeadLaws}.

Lemma seal_chain_open h ps sk_e iv : IkeHeader_wf h -> chain_fits ps -> bytes_ok iv ->
  length sk_e = 36%nat -> length iv = 8%nat ->
  exists m, build_encrypted_gcm h (first_payload_type ps) (encode_payload_chain ps) sk_e iv = Ok m /\
    bytes_ok m /\ IkeHeader_parse m = Ok (sk_header h (encode_payload_chain ps)) /\
    open_encrypted_gcm m sk_e = Ok (first_payload_type ps, encode_payload_chain ps) /\
    payload_items (first_payload_type ps) (encode_payload_chain ps) = Ok <$> (raw <$> ps).
Proof.
  intros Hh [Hps Hf] Hiv Hk Hl.
  destruct (build_open' h (first_payload_type ps) (encode_payload_chain ps) sk_e iv)
    as (m & E1 & E2 & E3 & E4); try done; [by apply first_payload_type_wf|by apply encode_payload_chain_ok|].
  exists m. split_and!; try done. by apply payload_items_encoded'.
Qed.

Lemma push_all acc ps :
  for_each push_payload (Ok <$> (raw <$> ps)) acc = Ok (acc ++ ps).
Proof.
  revert acc. induction ps as [|[t b] ps IH]; intros acc; [by rewrite app_nil_r|].
  cbn [fmap list_fmap for_each mbind outcome_bind push_payload raw payload_type data fst snd].
  by rewrite IH, <- app_assoc.
Qed.
End sealed.

(** The suites whose keys the encrypted payload can use. *)
Definition gcm_sa (c : CompletedSaInit) : Prop :=
  CompletedSaInit_wf c /\ integ_id (suite c) = None.

Lemma gcm_sa_keys c : gcm_sa c ->
  length (sk_d (keys c)) = 32%nat /\ length (sk_ei (keys c)) = 36%nat /\
  length (sk_er (keys c)) = 36%nat.
Proof.
  intros [Hwf Hi]. pose proof (wf_c_lengths c Hwf) as Hl.
  rewrite supported_key_lengths, Hi in Hl by apply Hwf. destruct Hl as (? & _ & _ & ? & ? & _). done.
Qed.

Lemma our_sk_e_length c : gcm_sa c -> length (our_sk_e c) = 36%nat.
Proof. intros (_ & ? & ?)%gcm_sa_keys. unfold our_sk_e. by destruct (c_role c). Qed.

(** Each end opens with the key the other end seals with. *)
Lemma same_sa_keys a b : same_sa a b -> peer_sk_e b = our_sk_e a.
Proof.
  intros (Hr & _ & _ & _ & Hk & _). unfold peer_sk_e, our_sk_e. rewrite Hr, Hk. by destruct (c_role b).
Qed.

Lemma same_sa_sym a b : same_sa a b -> same_sa b a.
Proof.
  intros (Hr & Hrest). split_and!; [rewrite Hr; by destruct (c_role b)|..]; symmetry; apply Hrest.
Qed.

Lemma informational_header_wf c mid r : CompletedSaInit_wf c -> u32_ok mid ->
  IkeHeader_wf (informational_header c mid r).
Proof. intros [] ?. constructor; simpl; try done; by split. Qed.

Section roundtrip.
Context `{!Primitives, !AeadLaws}.

Lemma informational_sent a b mid r ps iv : gcm_sa a -> same_sa a b -> u32_ok mid -> chain_fits ps ->
  bytes_ok iv -> length iv = 8%nat ->
  exists m h, build_informational a mid r ps iv = Ok m /\ bytes_ok m /\
    IkeHeader_parse m = Ok h /\ message_id h = mid /\ exchange_type h = Informational /\
    initiator_spi h = spi_i b /\ responder_spi h = spi_r b /\
    flags h = mkFlags (bool_decide (c_role a = Initiator)) false r /\
    open_informational b m = Ok ps.
Proof.
  intros Ha Hab Hmid Hps Hiv Hl. unfold build_informational.
  destruct (seal_chain_open (informational_header a mid r) ps (our_sk_e a) iv)
    as (m & E1 & E2 & E3 & E4 & E5); try done;
    [by apply informational_header_wf; [apply Ha|]|by apply our_sk_e_length|].
  destruct Hab as (Hr & Hi & Hr' & Hrest). eexists m, _. split_and!; [done|done|exact E3|done..|].
  unfold open_informational. rewrite (same_sa_keys a b) by done. rewrite E4. cbn [mbind outcome_bind].
  by rewrite E5, push_all.
Qed.
End roundtrip.

(** ** Properties *)
Section properties.
Context `{!Primitives, !AeadLaws}.

(** A control message reaches the other end: whatever payloads one end of an
    AES-GCM SA seals into an INFORMATIONAL request or response, the other end opens
    to exactly those payloads, and the header carries the SA's SPIs, the message
    id, the original-initiator flag and the response flag.  A dead-peer probe opens
    to no payload at all, and a MOBIKE address update is recognised as such. *)
Theorem informational_delivered a b mid r ps iv :
  gcm_sa a -> same_sa a b -> u32_ok mid -> chain_fits ps -> bytes_ok iv -> length iv = 8%nat ->
  (exists m h, build_informational a mid r ps iv = Ok m /\
     IkeHeader_parse m = Ok h /\ message_id h = mid /\
     initiator_spi h = spi_i b /\ responder_spi h = spi_r b /\
     flags h = mkFlags (bool_decide (c_role a = Initiator)) false r /\
     open_informational b m = Ok ps) /\
  (exists m, dpd_request a mid iv = Ok m /\ open_informational b m = Ok []) /\
  (exists m inner, build_update_sa_addresses a mid iv = Ok m /\ open_informational b m = Ok inner /\
     contains_update_sa_addresses inner = true /\ peer_supports_mobike inner = false).
Proof.
  intros Ha Hab Hmid Hps Hiv Hl. split_and!.
  - destruct (informational_sent a b mid r ps iv) as (m & h & ? & _ & ? & ? & _ & ? & ? & ? & ?); try done.
    exists m, h. by split_and!.
  - destruct (informational_sent a b mid false [] iv) as (m & h & ? & _ & _ & _ & _ & _ & _ & _ & ?); try done.
    { apply chain_fits_intro; [constructor|simpl; lia]. }
    by exists m.
  - set (n := Notify_status notify_type.UPDATE_SA_ADDRESSES []).
    destruct (informational_sent a b mid false [(PNotify, Notify_to_bytes n)] iv)
      as (m & h & ? & _ & _ & _ & _ & _ & _ & _ & ?); try done.
    { apply chain_fits_intro; [|simpl; lia]. apply Forall_singleton, notify_entry_wf; [|simpl; lia].
      apply Notify_status_wf; [by split|constructor]. }
    by exists m, [(PNotify, Notify_to_bytes n)].
Qed.

(** Opening a control message never panics, whatever the bytes, and what it
    returns are well-formed payloads. *)
Theorem informational_open_total c message : bytes_ok message ->
  wp (open_informational c message) (Forall (fun e => PayloadType_wf e.1 /\ bytes_ok e.2)).
Proof.
  intros Hm. unfold open_informational. apply wp_bind.
  eapply wp_mono; [|by apply open_encrypted_wp]. intros [t inner] [Ht Hi].
  apply for_each_wp; [by apply payload_items_wp|constructor|].
  intros out p Hout (Hp & Hd & _). cbn. apply Forall_app. split; [done|].
  by apply Forall_singleton.
Qed.
End properties.

Definition example_keys : SessionKeys :=
  mkSessionKeys (replicate 32 1) [] [] (replicate 36 2) (replicate 36 3) (replicate 32 4) (replicate 32 5).

Definition example_completed (r : Role) : CompletedSaInit := {|
  c_role := r; spi_i := 17; spi_r := 34; suite := mkSuite 1 20 256 5 None 31; keys := example_keys;
  ni := replicate 16 6; nr := replicate 16 7; init_message := [8; 8]; resp_message := [9; 9];
  peer_signature_hashes := [2] |}.

Lemma example_gcm_sa r : gcm_sa (example_completed r).
Proof.
  split; [|done]. constructor; simpl; try (by split); try (by apply Forall_replicate); try (by repeat constructor).
  - apply (supported_gcm 1 X25519). by split.
Qed.

Lemma example_same_sa : same_sa (example_completed Initiator) (example_completed Responder).
Proof. by split_and!. Qed.

Lemma example_iv_ok : bytes_ok example_iv.
Proof. by repeat constructor. Qed.

Lemma informational_delivered_witness : exists m,
  dpd_request (example_completed Initiator) 5 example_iv = Ok m /\
  open_informational (example_completed Responder) m = Ok [].
Proof.
  refine (proj1 (proj2 (informational_delivered (example_completed Initiator)
    (example_completed Responder) 5 false [] example_iv (example_gcm_sa _) example_same_sa _ _
    example_iv_ok eq_refl))).
  - by split.
  - apply chain_fits_intro; [constructor|simpl; lia].
Defined.

Lemma informational_open_total_witness :
  wp (open_informational (example_completed Responder) example_sealed)
    (Forall (fun e => PayloadType_wf e.1 /\ bytes_ok e.2)).
Proof. apply informational_open_total, example_sealed_ok. Defined.
