(* ===== verification/Sign.v ===== *)
(** * Digital signatures and certificates ([src/src/ikev2/sign.rs])

    RFC 7427 AUTH data, and the validation of the peer's X.509 certificate.  The
    crates [x509_cert], [rsa] and [p256] are parameters: the class [Pki] lists the
    operations the source calls. *)
From S2P Require Import Prelude Outcome Primitives.

(** [x509_cert::ext::pkix::name::GeneralName], as far as the source looks. *)
Inductive GeneralName := DnsName (name : bytes) | OtherName.

Class Pki := {
  (** [x509_cert::Certificate] and its fields *)
  X509 : Type;
  x509_from_der : bytes -> option X509;
  x509_spki_der : X509 -> option bytes;
  x509_spki_oid : X509 -> string;
  x509_tbs_der : X509 -> option bytes;
  x509_signature : X509 -> option bytes;
  x509_signature_oid : X509 -> string;
  x509_subject_der : X509 -> option bytes;
  x509_issuer_der : X509 -> option bytes;
  x509_not_before : X509 -> Z;
  x509_not_after : X509 -> Z;
  x509_extensions : X509 -> option (list (string * bytes));
  san_from_der : bytes -> option (list GeneralName);
  basic_constraints_ca : bytes -> option bool;
  (** [rsa] *)
  RsaPrivateKey : Type;
  RsaPublicKey : Type;
  rsa_public_from_der : bytes -> option RsaPublicKey;
  rsa_sign_pkcs1 : RsaPrivateKey -> bytes -> option bytes;
  rsa_verify_pkcs1 : RsaPublicKey -> bytes -> bytes -> bool;
  rsa_verify_pss : RsaPublicKey -> bytes -> bytes -> bool;
  (** [p256::ecdsa] *)
  EcSigningKey : Type;
  EcVerifyingKey : Type;
  EcSignature : Type;
  ec_signing_from_pkcs8 : bytes -> option EcSigningKey;
  ec_verifying_from_der : bytes -> option EcVerifyingKey;
  ec_sign_prehash : EcSigningKey -> bytes -> option EcSignature;
  ec_verify_prehash : EcVerifyingKey -> bytes -> EcSignature -> bool;
  ec_signature_to_der : EcSignature -> bytes;
  ec_signature_to_bytes : EcSignature -> bytes;
  ec_signature_from_der : bytes -> option EcSignature }.

(** ** Algorithm identifiers ([mod sig_alg]) *)
Module sig_alg.
Definition RSA_SHA256 : bytes :=
  [0x30; 0x0d; 0x06; 0x09; 0x2a; 0x86; 0x48; 0x86; 0xf7; 0x0d; 0x01; 0x01; 0x0b; 0x05; 0x00].
Definition ECDSA_P256_SHA256 : bytes :=
  [0x30; 0x0a; 0x06; 0x08; 0x2a; 0x86; 0x48; 0xce; 0x3d; 0x04; 0x03; 0x02].
Definition RSA_PSS_SHA256 : bytes :=
  [0x30; 0x41; 0x06; 0x09; 0x2a; 0x86; 0x48; 0x86; 0xf7; 0x0d; 0x01; 0x01; 0x0a;
   0x30; 0x34;
   0xa0; 0x0f; 0x30; 0x0d; 0x06; 0x09; 0x60; 0x86; 0x48; 0x01; 0x65; 0x03; 0x04; 0x02; 0x01;
   0x05; 0x00;
   0xa1; 0x1c; 0x30; 0x1a; 0x06; 0x09; 0x2a; 0x86; 0x48; 0x86; 0xf7; 0x0d; 0x01; 0x01;
   0x08;
   0x30; 0x0d; 0x06; 0x09; 0x60; 0x86; 0x48; 0x01; 0x65; 0x03; 0x04; 0x02; 0x01; 0x05;
   0x00;
   0xa2; 0x03; 0x02; 0x01; 0x20].
End sig_alg.

Definition OID_RSA_ENCRYPTION : string := "1.2.840.113549.1.1.1".
Definition OID_EC_PUBLIC_KEY : string := "1.2.840.10045.2.1".
Definition OID_SHA256_WITH_RSA : string := "1.2.840.113549.1.1.11".
Definition OID_ECDSA_WITH_SHA256 : string := "1.2.840.10045.4.3.2".

Inductive Scheme := RsaPkcs1Sha256 | RsaPssSha256 | EcdsaP256Sha256.

Definition scheme_of (alg : bytes) : option Scheme :=
  if decide (alg = sig_alg.RSA_SHA256) then Some RsaPkcs1Sha256
  else if decide (alg = sig_alg.RSA_PSS_SHA256) then Some RsaPssSha256
  else if decide (alg = sig_alg.ECDSA_P256_SHA256) then Some EcdsaP256Sha256
  else None.

(** ** AUTH data *)
Definition wrap_auth_data (alg sig : bytes) : bytes :=
  [as_u8 (Z.of_nat (length alg))] ++ alg ++ sig.

Definition parse_auth_data (d : bytes) : outcome (bytes * bytes) :=
  l ← ok_or (head d) (Truncated 1 0);
  let fin := (1 + usize l)%nat in
  if decide (length d < fin)%nat then Err (Truncated fin (length d)) else
  alg ← slice d 1 fin;
  sig ← slice_from d fin;
  Ok (alg, sig).

Section sign.
Context `{!Primitives, !Pki}.

Inductive SigningKey := SkRsaSha256 (key : RsaPrivateKey) | SkEcdsaP256 (key : EcSigningKey).

Definition ecdsa_p256_from_pkcs8_der (der : bytes) : outcome SigningKey :=
  key ← ok_or (ec_signing_from_pkcs8 der) (Crypto "bad EC PKCS#8 DER private key");
  Ok (SkEcdsaP256 key).

Definition algorithm_id (k : SigningKey) : bytes :=
  match k with SkRsaSha256 _ => sig_alg.RSA_SHA256 | SkEcdsaP256 _ => sig_alg.ECDSA_P256_SHA256 end.

Definition sign_auth_data (k : SigningKey) (signed_octets : bytes) : outcome bytes :=
  let digest := sha256 signed_octets in
  sig ← match k with
        | SkRsaSha256 key => ok_or (rsa_sign_pkcs1 key digest) (Crypto "RSA signing failed")
        | SkEcdsaP256 key =>
            s ← ok_or (ec_sign_prehash key digest) (Crypto "ECDSA signing failed");
            Ok (ec_signature_to_der s)
        end;
  Ok (wrap_auth_data (algorithm_id k) sig).

Definition sign_ecdsa_p256_raw (k : SigningKey) (signed_octets : bytes) : outcome bytes :=
  match k with
  | SkEcdsaP256 key =>
      let digest := sha256 signed_octets in
      s ← ok_or (ec_sign_prehash key digest) (Crypto "ECDSA signing failed");
      Ok (ec_signature_to_bytes s)
  | SkRsaSha256 _ => Err (Crypto "method 9 needs an ECDSA P-256 key")
  end.

Inductive VerifyingKey := VkRsa (pk : RsaPublicKey) | VkEcdsaP256 (vk : EcVerifyingKey).

Definition from_spki_der (spki_der : bytes) (alg_oid : string) : outcome VerifyingKey :=
  if decide (alg_oid = OID_RSA_ENCRYPTION) then
    pk ← ok_or (rsa_public_from_der spki_der) (Crypto "malformed RSA public key"); Ok (VkRsa pk)
  else if decide (alg_oid = OID_EC_PUBLIC_KEY) then
    vk ← ok_or (ec_verifying_from_der spki_der) (Crypto "unsupported EC curve (need P-256)");
    Ok (VkEcdsaP256 vk)
  else Err (Crypto "unsupported certificate key algorithm").

Definition from_cert_der (cert_der : bytes) : outcome VerifyingKey :=
  cert ← ok_or (x509_from_der cert_der) (Crypto "malformed certificate DER");
  spki_der ← ok_or (x509_spki_der cert) (Crypto "malformed SPKI");
  from_spki_der spki_der (x509_spki_oid cert).

(** [.map_err(|_| IkeError::AuthFailed)] on a verification *)
Definition verified (b : bool) : outcome unit := if b then Ok tt else Err AuthFailed.

Definition verify_auth_data (k : VerifyingKey) (auth_data signed_octets : bytes) : outcome unit :=
  '(alg, sig) ← parse_auth_data auth_data;
  scheme ← ok_or (scheme_of alg) (Crypto "unsupported signature algorithm");
  let digest := sha256 signed_octets in
  match k, scheme with
  | VkRsa pk, RsaPkcs1Sha256 => verified (rsa_verify_pkcs1 pk digest sig)
  | VkRsa pk, RsaPssSha256 => verified (rsa_verify_pss pk digest sig)
  | VkEcdsaP256 vk, EcdsaP256Sha256 =>
      s ← ok_or (ec_signature_from_der sig) AuthFailed;
      verified (ec_verify_prehash vk digest s)
  | _, _ => Err (Crypto "signature algorithm does not match certificate key")
  end.

(** ** Certificates *)
Definition verify_cert_signed_by (leaf_der issuer_der : bytes) : outcome unit :=
  leaf ← ok_or (x509_from_der leaf_der) (Crypto "malformed leaf certificate");
  issuer_key ← from_cert_der issuer_der;
  tbs ← ok_or (x509_tbs_der leaf) (Crypto "malformed TBS");
  sig ← ok_or (x509_signature leaf) (Crypto "unaligned cert signature");
  let alg_oid := x509_signature_oid leaf in
  let digest := sha256 tbs in
  match issuer_key with
  | VkRsa pk =>
      if decide (alg_oid = OID_SHA256_WITH_RSA) then verified (rsa_verify_pkcs1 pk digest sig)
      else Err (Crypto "unsupported certificate signature algorithm")
  | VkEcdsaP256 vk =>
      if decide (alg_oid = OID_ECDSA_WITH_SHA256) then
        s ← ok_or (ec_signature_from_der sig) AuthFailed; verified (ec_verify_prehash vk digest s)
      else Err (Crypto "unsupported certificate signature algorithm")
  end.

(** [str::eq_ignore_ascii_case] *)
Definition ascii_lower (b : Z) : Z := if decide (65 <= b <= 90) then b + 32 else b.
Definition eq_ignore_ascii_case (a b : bytes) : bool :=
  bool_decide (ascii_lower <$> a = ascii_lower <$> b).

Definition is_dns_name (name : bytes) (gn : GeneralName) : bool :=
  match gn with DnsName dns => eq_ignore_ascii_case dns name | OtherName => false end.

(** The loop over the extensions. *)
Fixpoint san_has_dns_name (exts : list (string * bytes)) (name : bytes) : outcome bool :=
  match exts with
  | [] => Ok false
  | (oid, value) :: rest =>
      if decide (oid <> "2.5.29.17"%string) then san_has_dns_name rest name else
      san ← ok_or (san_from_der value) (Crypto "malformed SubjectAltName");
      if existsb (is_dns_name name) san then Ok true else san_has_dns_name rest name
  end.

Definition cert_has_dns_name (cert_der name : bytes) : outcome bool :=
  cert ← ok_or (x509_from_der cert_der) (Crypto "malformed certificate DER");
  match x509_extensions cert with
  | None => Ok false
  | Some exts => san_has_dns_name exts name
  end.

Definition cert_validity (cert_der : bytes) : outcome (Z * Z) :=
  cert ← ok_or (x509_from_der cert_der) (Crypto "malformed certificate DER");
  Ok (x509_not_before cert, x509_not_after cert).

Fixpoint find_basic_constraints (exts : list (string * bytes)) : outcome bool :=
  match exts with
  | [] => Ok false
  | (oid, value) :: rest =>
      if decide (oid = "2.5.29.19"%string)
      then ok_or (basic_constraints_ca value) (Crypto "malformed BasicConstraints")
      else find_basic_constraints rest
  end.

Definition cert_is_ca (cert_der : bytes) : outcome bool :=
  cert ← ok_or (x509_from_der cert_der) (Crypto "malformed certificate DER");
  match x509_extensions cert with
  | None => Ok false
  | Some exts => find_basic_constraints exts
  end.

Definition subject_dn (cert_der : bytes) : outcome bytes :=
  cert ← ok_or (x509_from_der cert_der) (Crypto "malformed certificate DER");
  ok_or (x509_subject_der cert) (Crypto "bad subject DN").

Definition issuer_dn (cert_der : bytes) : outcome bytes :=
  cert ← ok_or (x509_from_der cert_der) (Crypto "malformed certificate DER");
  ok_or (x509_issuer_der cert) (Crypto "bad issuer DN").

Definition within_validity (cert_der : bytes) (now_unix : Z) : outcome unit :=
  '(not_before, not_after) ← cert_validity cert_der;
  if decide (now_unix < not_before \/ not_after < now_unix) then Err AuthFailed else Ok tt.

(** [for anchor in anchors]: whether one of them issued [current]. *)
Fixpoint issued_by_anchor (current want_issuer : bytes) (anchors : list bytes) : outcome bool :=
  match anchors with
  | [] => Ok false
  | anchor :: rest =>
      s ← subject_dn anchor;
      if decide (s = want_issuer) then
        if is_ok (verify_cert_signed_by current anchor) then Ok true
        else issued_by_anchor current want_issuer rest
      else issued_by_anchor current want_issuer rest
  end.

(** The condition an intermediate must meet. *)
Definition issued_by_intermediate (current want_issuer inter : bytes) : bool :=
  match subject_dn inter with Ok s => bool_decide (s = want_issuer) | _ => false end &&
  match cert_is_ca inter with Ok true => true | _ => false end &&
  is_ok (verify_cert_signed_by current inter).

Fixpoint validate_chain_loop (n : nat) (current : bytes) (intermediates anchors : list bytes)
    (now_unix : Z) : outcome unit :=
  match n with
  | O => Err AuthFailed
  | S n' =>
      _ ← within_validity current now_unix;
      want_issuer ← issuer_dn current;
      reached ← issued_by_anchor current want_issuer anchors;
      if (reached : bool) then Ok tt else
      match find (issued_by_intermediate current want_issuer) intermediates with
      | Some inter => validate_chain_loop n' inter intermediates anchors now_unix
      | None => Err AuthFailed
      end
  end.

Definition validate_chain (leaf_der : bytes) (intermediates anchors : list bytes) (now_unix : Z)
    : outcome unit :=
  validate_chain_loop (S (length intermediates)) leaf_der intermediates anchors now_unix.

Definition verify_cert_auth (leaf_der : bytes) (intermediates trusted : list bytes)
    (expected_dns : option bytes) (now_unix : Z) (auth_data signed_octets : bytes) : outcome unit :=
  _ ← (if existsb (fun t => bool_decide (t = leaf_der)) trusted
       then within_validity leaf_der now_unix
       else validate_chain leaf_der intermediates trusted now_unix);
  _ ← match expected_dns with
      | Some name =>
          match cert_has_dns_name leaf_der name with Ok true => Ok tt | _ => Err AuthFailed end
      | None => Ok tt
      end;
  vk ← from_cert_der leaf_der;
  verify_auth_data vk auth_data signed_octets.

Definition ca_key_hash (cert_der : bytes) : outcome bytes :=
  cert ← ok_or (x509_from_der cert_der) (Crypto "malformed certificate DER");
  spki_der ← ok_or (x509_spki_der cert) (Crypto "malformed SPKI");
  Ok (sha1 spki_der).
End sign.

(** ** Laws of the signature crates *)
Class SignatureLaws `{!Pki} := {
  rsa_pair : RsaPrivateKey -> RsaPublicKey -> Prop;
  ec_pair : EcSigningKey -> EcVerifyingKey -> Prop;
  rsa_sign_verify sk pk d s : rsa_pair sk pk -> rsa_sign_pkcs1 sk d = Some s ->
    rsa_verify_pkcs1 pk d s = true;
  ec_sign_verify sk vk d s : ec_pair sk vk -> ec_sign_prehash sk d = Some s ->
    ec_verify_prehash vk d s = true;
  ec_signature_der s : ec_signature_from_der (ec_signature_to_der s) = Some s }.

(** The public key of a signing key. *)
Definition key_pair `{SignatureLaws} (k : SigningKey) (v : VerifyingKey) : Prop :=
  match k, v with
  | SkRsaSha256 sk, VkRsa pk => rsa_pair sk pk
  | SkEcdsaP256 sk, VkEcdsaP256 vk => ec_pair sk vk
  | _, _ => False
  end.

Lemma parse_wrap_auth_data alg sig : (length alg < 256)%nat ->
  parse_auth_data (wrap_auth_data alg sig) = Ok (alg, sig).
Proof.
  intros Hl. unfold parse_auth_data, wrap_auth_data. cbn [app head ok_or mbind outcome_bind].
  rewrite as_u8_small, Nat2Z.id by lia. cbn [length]. rewrite length_app, decide_False by lia.
  change (Z.of_nat (length alg) :: alg ++ sig) with ([Z.of_nat (length alg)] ++ alg ++ sig).
  rewrite slice_app_mid by done. cbn [mbind outcome_bind].
  rewrite app_assoc, slice_from_app by (rewrite length_app; simpl; lia). done.
Qed.

Lemma parse_auth_data_safe d : safe (parse_auth_data d).
Proof.
  unfold parse_auth_data. destruct d as [|b d]; [done|]. cbn [head ok_or mbind outcome_bind].
  case_decide; [done|]. rewrite slice_ok, slice_from_ok by lia. done.
Qed.

Section paths.
Context `{!Primitives, !Pki}.
Implicit Types (current inter : bytes) (inters anchors : list bytes).

(** Specification: a certification path from a certificate to a trust anchor. *)
Inductive chain_path inters anchors (now : Z) : bytes -> nat -> Prop :=
| path_anchor c a dn :
    within_validity c now = Ok tt -> a ∈ anchors ->
    issuer_dn c = Ok dn -> subject_dn a = Ok dn -> verify_cert_signed_by c a = Ok tt ->
    chain_path inters anchors now c 0
| path_step c i dn n :
    within_validity c now = Ok tt -> i ∈ inters ->
    issuer_dn c = Ok dn -> subject_dn i = Ok dn -> cert_is_ca i = Ok true ->
    verify_cert_signed_by c i = Ok tt -> chain_path inters anchors now i n ->
    chain_path inters anchors now c (S n).

Lemma is_ok_tt (m : outcome unit) : is_ok m = true -> m = Ok tt.
Proof. by destruct m as [[]| |]. Qed.

Lemma issued_by_anchor_true current want anchors : issued_by_anchor current want anchors = Ok true ->
  exists a, a ∈ anchors /\ subject_dn a = Ok want /\ verify_cert_signed_by current a = Ok tt.
Proof.
  induction anchors as [|a anchors IH]; [done|]. cbn [issued_by_anchor]. intros Hx.
  apply bind_Ok in Hx as (s & Hs & Hx).
  assert (Hrec : issued_by_anchor current want anchors = Ok true -> exists a0, a0 ∈ a :: anchors /\
    subject_dn a0 = Ok want /\ verify_cert_signed_by current a0 = Ok tt).
  { intros E. destruct (IH E) as (b & ? & ? & ?). exists b. split_and!; [by right|done..]. }
  case_decide; [|by apply Hrec]. subst.
  destruct (is_ok _) eqn:Ev; [|by apply Hrec].
  exists a. split_and!; [by left|done|by apply is_ok_tt].
Qed.

Lemma issued_by_intermediate_true current want inter :
  issued_by_intermediate current want inter = true ->
  subject_dn inter = Ok want /\ cert_is_ca inter = Ok true /\
  verify_cert_signed_by current inter = Ok tt.
Proof.
  unfold issued_by_intermediate. intros [[Hs Hc]%andb_true_iff Hv]%andb_true_iff. split_and!.
  - destruct (subject_dn inter); [|done..]. by apply bool_decide_eq_true in Hs as ->.
  - by destruct (cert_is_ca inter) as [[]| |].
  - by apply is_ok_tt.
Qed.

Lemma validate_chain_loop_sound n current inters anchors now :
  validate_chain_loop n current inters anchors now = Ok tt ->
  exists k, (k < n)%nat /\ chain_path inters anchors now current k.
Proof.
  revert current. induction n as [|n IH]; intros current Hx; [done|]. cbn [validate_chain_loop] in Hx.
  apply bind_Ok in Hx as ([] & Hv & Hx). apply bind_Ok in Hx as (dn & Hdn & Hx).
  apply bind_Ok in Hx as (b & Hb & Hx). destruct b.
  - apply issued_by_anchor_true in Hb as (a & ? & ? & ?). exists 0%nat. split; [lia|]. by eapply path_anchor.
  - destruct (find _ inters) as [i|] eqn:Ef; [|done]. apply find_some in Ef as [Hin Hi].
    apply issued_by_intermediate_true in Hi as (? & ? & ?).
    destruct (IH _ Hx) as (k & Hk & Hp). exists (S k). split; [lia|].
    eapply path_step; try done. by apply list_elem_of_In.
Qed.

Lemma within_validity_safe c now : safe (within_validity c now).
Proof.
  unfold within_validity, cert_validity. destruct (x509_from_der c); [|done]. cbn. by case_decide.
Qed.

Lemma ok_or_safe {A} (o : option A) e : safe (ok_or o e).
Proof. by destruct o. Qed.

Lemma subject_dn_safe c : safe (subject_dn c).
Proof. unfold subject_dn. destruct (x509_from_der c); [apply ok_or_safe|done]. Qed.

Lemma issued_by_anchor_safe current want anchors : safe (issued_by_anchor current want anchors).
Proof.
  induction anchors as [|a anchors IH]; [done|]. cbn [issued_by_anchor].
  pose proof (subject_dn_safe a). destruct (subject_dn a); [|done..]. cbn.
  case_decide; [|done]. by destruct (is_ok _).
Qed.

Lemma validate_chain_loop_safe n current inters anchors now :
  safe (validate_chain_loop n current inters anchors now).
Proof.
  revert current. induction n as [|n IH]; intros current; [done|]. cbn [validate_chain_loop].
  pose proof (within_validity_safe current now). destruct (within_validity current now); [|done..]. cbn.
  unfold issuer_dn. destruct (x509_from_der current) as [c|]; [|done]. cbn.
  destruct (x509_issuer_der c) as [dn|]; [|done]. cbn.
  pose proof (issued_by_anchor_safe current dn anchors).
  destruct (issued_by_anchor current dn anchors) as [[]| |]; [done| |done..]. cbn.
  destruct (find _ inters); [apply IH|done].
Qed.

Lemma from_cert_der_safe c : safe (from_cert_der c).
Proof.
  unfold from_cert_der, from_spki_der. destruct (x509_from_der c) as [x|]; [|done]. cbn.
  destruct (x509_spki_der x); [|done]. cbn.
  repeat case_decide; [|..|done]; apply wp_safe with (Q := fun _ => True); wp_steps; done.
Qed.

Lemma verify_auth_data_safe k d o : safe (verify_auth_data k d o).
Proof.
  unfold verify_auth_data. pose proof (parse_auth_data_safe d).
  destruct (parse_auth_data d) as [[alg sig]| |]; [|done..]. cbn.
  destruct (scheme_of alg) as [s|]; [|done]. cbn.
  assert (Hv : forall b, safe (verified b)) by by intros [].
  destruct k, s; try done; try apply Hv. destruct (ec_signature_from_der sig); [apply Hv|done].
Qed.
End paths.

(** ** Properties *)
Section properties.
Context `{!Primitives, !Pki}.

(** A signed AUTH verifies: the RFC 7427 data a signing key produces over some
    octets (RSA or ECDSA, with its algorithm identifier) is accepted by the
    matching public key over the same octets. *)
Theorem signature_roundtrip `{!SignatureLaws} k v octets d : key_pair k v ->
  sign_auth_data k octets = Ok d -> verify_auth_data v d octets = Ok tt.
Proof.
  intros Hp Hs. unfold sign_auth_data in Hs. apply bind_Ok in Hs as (sig & Hsig & Hs).
  injection Hs as <-. unfold verify_auth_data.
  rewrite parse_wrap_auth_data by (destruct k; simpl; lia). cbn [mbind outcome_bind].
  destruct k as [sk|sk], v as [pk|vk]; try done; cbn [algorithm_id].
  - change (scheme_of _) with (Some RsaPkcs1Sha256). cbn [ok_or mbind outcome_bind].
    apply ok_or_Ok in Hsig. by rewrite (rsa_sign_verify sk pk).
  - change (scheme_of _) with (Some EcdsaP256Sha256). cbn [ok_or mbind outcome_bind].
    apply bind_Ok in Hsig as (s & Hs & [= <-]). apply ok_or_Ok in Hs.
    rewrite ec_signature_der. cbn [ok_or mbind outcome_bind]. by rewrite (ec_sign_verify sk vk).
Qed.

(** C27: Certificate authentication is sound: [verify_cert_auth] never panics, and
    when it accepts, the leaf is pinned and within its validity, or a path leads
    from it, through at most as many intermediates as were sent, each a CA that is
    within its validity, to a trust anchor, every certificate of the path being
    signed by the next one whose subject is its issuer; the leaf names the expected
    host, if one is expected; and the AUTH data verifies under the leaf's key. *)
Theorem verify_cert_auth_sound leaf inters trusted dns now auth_data octets :
  wp (verify_cert_auth leaf inters trusted dns now auth_data octets) (fun _ =>
    ((leaf ∈ trusted /\ within_validity leaf now = Ok tt) \/
     (exists n, (n <= length inters)%nat /\ chain_path inters trusted now leaf n)) /\
    (forall name, dns = Some name -> cert_has_dns_name leaf name = Ok true) /\
    exists vk, from_cert_der leaf = Ok vk /\ verify_auth_data vk auth_data octets = Ok tt).
Proof.
  unfold verify_cert_auth. apply wp_bind.
  assert (Ht : wp (if existsb (fun t => bool_decide (t = leaf)) trusted
    then within_validity leaf now else validate_chain leaf inters trusted now) (fun _ =>
    (leaf ∈ trusted /\ within_validity leaf now = Ok tt) \/
    (exists n, (n <= length inters)%nat /\ chain_path inters trusted now leaf n))).
  { destruct (existsb _ trusted) eqn:Ex.
    - apply existsb_exists in Ex as (t & Hin & Et). apply bool_decide_eq_true in Et as ->.
      eapply wp_mono; [|apply safe_wp, within_validity_safe]. intros [] E. left.
      split; [by apply list_elem_of_In|done].
    - eapply wp_mono; [|apply safe_wp, validate_chain_loop_safe]. intros [] E. right.
      apply validate_chain_loop_sound in E as (k & Hk & Hp). exists k. split; [lia|done]. }
  eapply wp_mono; [|exact Ht]. intros [] Htrust. apply wp_bind.
  assert (Hd : wp (match dns with
    | Some name => match cert_has_dns_name leaf name with Ok true => Ok tt | _ => Err AuthFailed end
    | None => Ok tt end) (fun _ => forall name, dns = Some name -> cert_has_dns_name leaf name = Ok true)).
  { destruct dns as [name|]; [|by intros]. destruct (cert_has_dns_name leaf name) as [[]| |] eqn:E; try done.
    by intros ? [= <-]. }
  eapply wp_mono; [|exact Hd]. intros [] Hdns. apply wp_bind.
  eapply wp_mono; [|apply safe_wp, from_cert_der_safe]. intros vk Hvk.
  eapply wp_mono; [|apply safe_wp, verify_auth_data_safe]. intros [] Hver.
  split_and!; [done|done|]. by exists vk.
Qed.
End properties.

(** ** A concrete instance: a certificate is
    [subject; issuer; not_before; not_after; is_ca; key | signature] *)
Definition toy_ext (l : bytes) : option (list (string * bytes)) :=
  Some [("2.5.29.19"%string, take 1 (drop 4 l)); ("2.5.29.17"%string, take 1 l)].

Definition toy_byte (l : bytes) (i : nat) : Z := default 0 (l !! i).

#[export] Instance toy_pki : Pki := {|
  X509 := bytes;
  x509_from_der l := if decide (6 <= length l)%nat then Some l else None;
  x509_spki_der l := Some (take 1 (drop 5 l));
  x509_spki_oid _ := OID_EC_PUBLIC_KEY;
  x509_tbs_der l := Some (take 6 l);
  x509_signature l := Some (drop 6 l);
  x509_signature_oid _ := OID_ECDSA_WITH_SHA256;
  x509_subject_der l := Some (take 1 l);
  x509_issuer_der l := Some (take 1 (drop 1 l));
  x509_not_before l := toy_byte l 2;
  x509_not_after l := toy_byte l 3;
  x509_extensions := toy_ext;
  san_from_der l := Some [DnsName l];
  basic_constraints_ca l := Some (bool_decide (l = [1]));
  RsaPrivateKey := bytes; RsaPublicKey := bytes;
  rsa_public_from_der l := Some l;
  rsa_sign_pkcs1 k d := Some (k ++ d);
  rsa_verify_pkcs1 k d s := bool_decide (s = k ++ d);
  rsa_verify_pss k d s := bool_decide (s = k ++ d);
  EcSigningKey := bytes; EcVerifyingKey := bytes; EcSignature := bytes;
  ec_signing_from_pkcs8 l := Some l;
  ec_verifying_from_der l := Some l;
  ec_sign_prehash k d := Some (k ++ d);
  ec_verify_prehash k d s := bool_decide (s = k ++ d);
  ec_signature_to_der s := s;
  ec_signature_to_bytes s := s;
  ec_signature_from_der s := Some s |}.

#[export] Instance toy_signatures : SignatureLaws.
Proof.
  refine (@Build_SignatureLaws toy_pki (@eq bytes) (@eq bytes) _ _ _).
  - intros sk pk d s <- [= <-]. by apply bool_decide_eq_true.
  - intros sk pk d s <- [= <-]. by apply bool_decide_eq_true.
  - done.
Defined.

Lemma signature_roundtrip_witness : exists d,
  sign_auth_data (SkEcdsaP256 [7]) [1; 2] = Ok d /\
  verify_auth_data (VkEcdsaP256 [7]) d [1; 2] = Ok tt.
Proof.
  eexists. split; [reflexivity|].
  apply (signature_roundtrip (SkEcdsaP256 ([7] : EcSigningKey (Pki := toy_pki)))); reflexivity.
Defined.

(** A leaf issued by an intermediate, issued by the anchor. *)
Definition toy_cert (hd : bytes) (issuer_key : Z) : bytes := hd ++ [issuer_key] ++ sha256 hd.
Definition toy_anchor : bytes := toy_cert [1; 1; 0; 99; 1; 11] 11.
Definition toy_inter : bytes := toy_cert [2; 1; 0; 99; 1; 12] 11.
Definition toy_leaf : bytes := toy_cert [3; 2; 0; 99; 0; 13] 12.

Example toy_path_accepted :
  validate_chain toy_leaf [toy_inter] [toy_anchor] 50 = Ok tt /\
  validate_chain toy_leaf [toy_inter] [toy_anchor] 100 = Err AuthFailed /\
  validate_chain toy_leaf [] [toy_anchor] 50 = Err AuthFailed.
Proof. split_and!; vm_compute; reflexivity. Qed.
