(* ===== verification/IkeAuth.v ===== *)
(** * The IKE_AUTH exchange ([src/src/ikev2/auth.rs], [src/src/ikev2/ike_auth.rs])

    The AUTH value over the signed octets, and both roles of IKE_AUTH with
    pre-shared keys or certificates. *)
From S2P Require Import Prelude Outcome Wire Primitives Entropy Message Payload Crypto Sk Negotiate Natt Exchange Informational Sign.

(** ** AUTH computation *)

(** [b"Key Pad for IKEv2"] *)
Definition KEY_PAD : bytes :=
  [75; 101; 121; 32; 80; 97; 100; 32; 102; 111; 114; 32; 73; 75; 69; 118; 50].

Section auth.
Context `{!Primitives}.

Definition signed_octets (real_message peer_nonce sk_p id_body : bytes) : bytes :=
  let maced_id := prf sk_p id_body in
  real_message ++ peer_nonce ++ maced_id.

Definition initiator_signed_octets (real_message_i nr sk_pi idi_body : bytes) : bytes :=
  signed_octets real_message_i nr sk_pi idi_body.

Definition responder_signed_octets (real_message_r ni sk_pr idr_body : bytes) : bytes :=
  signed_octets real_message_r ni sk_pr idr_body.

Definition psk_auth (psk octets : bytes) : bytes :=
  let inner := prf psk KEY_PAD in
  prf inner octets.
End auth.

(** ** Configuration of one side *)
Section config.
Context `{!Pki}.

Inductive LocalAuth :=
| LocalPsk (psk : bytes)
| LocalCert (key : SigningKey) (chain : list bytes).

Inductive PeerAuth :=
| PeerPsk (psk : bytes)
| PeerCert (cas : list bytes) (expected_dns : option bytes) (now_unix : Z).

Record AuthConfig := mkAuthConfig { cfg_id : Identification; cfg_local : LocalAuth; cfg_peer : PeerAuth }.

Definition AuthConfig_psk (id : Identification) (psk : bytes) : AuthConfig :=
  {| cfg_id := id; cfg_local := LocalPsk psk; cfg_peer := PeerPsk psk |}.
End config.

Record AssignedConfig := mkAssigned { as_ip : Ipv4Addr; as_dns : list Ipv4Addr }.

Definition esp_offer (spi : Z) : SecurityAssociation := {| proposals :=
  [ {| prop_num := 1; prop_protocol := protocol_id.ESP; prop_spi := be_bytes 4 spi;
       transforms :=
         [mkTransform transform_type.ENCR transform_id.AES_GCM_16 (Some 256);
          mkTransform transform_type.ESN transform_id.ESN_NONE None] |} ] |}.

Definition full_tunnel_ts : bytes := TrafficSelectors_to_bytes {| selectors := [ipv4_any] |}.

Definition ike_auth_header (sa : CompletedSaInit) (is_response : bool) : IkeHeader := {|
  initiator_spi := spi_i sa;
  responder_spi := spi_r sa;
  next_payload := NoNext;
  major_version := 2;
  minor_version := 0;
  exchange_type := IkeAuth;
  flags := mkFlags (negb is_response) false is_response;
  message_id := 1;
  hdr_length := 0 |}.

(** ** Reading an IKE_AUTH message *)
Record AuthPayloads := mkAuthPayloads {
  id_body : bytes;
  ap_auth : Authentication;
  ap_certs : list bytes;
  child_spi : option Z;
  assigned_ip4 : option Ipv4Addr }.

Definition auth_esp_spi_from_sa (sa : bytes) : outcome (option Z) :=
  if decide (12 <= length sa)%nat then
    sz ← idx sa 6;
    if decide (sz = 4) then
      a ← idx sa 8; b ← idx sa 9; c ← idx sa 10; d ← idx sa 11;
      Ok (Some (be_val [a; b; c; d]))
    else Ok None
  else Ok None.

Record AuthAcc := mkAuthAcc {
  aa_id : option bytes;
  aa_auth : option Authentication;
  aa_certs : list bytes;
  aa_spi : option Z;
  aa_ip : option Ipv4Addr }.

Definition parse_auth_step (st : AuthAcc) (p : RawPayload) : outcome AuthAcc :=
  let 'mkAuthAcc id auth certs spi ip := st in
  match payload_type p with
  | PIdInitiator | PIdResponder => Ok (mkAuthAcc (Some (data p)) auth certs spi ip)
  | PAuthentication => a ← Authentication_parse (data p); Ok (mkAuthAcc id (Some a) certs spi ip)
  | PCertificate =>
      r ← ok (Certificate_parse (data p));
      match r with
      | Some c => Ok (mkAuthAcc id auth (certs ++ [cert_data c]) spi ip)
      | None => Ok st
      end
  | PSecurityAssociation => s ← auth_esp_spi_from_sa (data p); Ok (mkAuthAcc id auth certs s ip)
  | PConfiguration =>
      r ← ok (Configuration_parse (data p));
      match r with
      | Some cp => a ← assigned_ipv4 cp; Ok (mkAuthAcc id auth certs spi a)
      | None => Ok st
      end
  | _ => Ok st
  end.

Definition parse_auth_inner (first : PayloadType) (inner : bytes) : outcome AuthPayloads :=
  st ← for_each parse_auth_step (payload_items first inner) (mkAuthAcc None None [] None None);
  id ← ok_or (aa_id st) (MissingPayload "ID");
  auth ← ok_or (aa_auth st) (MissingPayload "AUTH");
  Ok {| id_body := id; ap_auth := auth; ap_certs := aa_certs st; child_spi := aa_spi st;
        assigned_ip4 := aa_ip st |}.

(** [diff |= x ^ y] over the zipped octets *)
Definition ct_eq (a b : bytes) : bool :=
  if negb (length a =? length b)%nat then false
  else foldl (fun diff '(x, y) => Z.lor diff (Z.lxor x y)) 0 (zip a b) =? 0.

Section ike_auth.
Context `{!Primitives, !Pki}.

Definition psk_auth_payload (psk octets : bytes) : Authentication :=
  {| auth_meth := auth_method.SHARED_KEY; auth_data := psk_auth psk octets |}.

Definition verify_psk (auth : Authentication) (psk expected_octets : bytes) : outcome unit :=
  let expected := psk_auth psk expected_octets in
  if bool_decide (auth_meth auth = auth_method.SHARED_KEY) && ct_eq (auth_data auth) expected
  then Ok tt else Err AuthFailed.

Definition cert_auth_payload (key : SigningKey) (hashes : list Z) (octets : bytes)
    : outcome Authentication :=
  if existsb (Z.eqb sighash.SHA2_256) hashes then
    d ← sign_auth_data key octets;
    Ok {| auth_meth := auth_method.DIGITAL_SIGNATURE; auth_data := d |}
  else
    d ← sign_ecdsa_p256_raw key octets;
    Ok {| auth_meth := auth_method.ECDSA_SHA256_P256; auth_data := d |}.

Definition build_local_auth (cfg : AuthConfig) (sa : CompletedSaInit) (octets : bytes)
    : outcome (Authentication * PayloadChain) :=
  match cfg_local cfg with
  | LocalPsk psk => Ok (psk_auth_payload psk octets, [])
  | LocalCert key chain =>
      auth ← cert_auth_payload key (peer_signature_hashes sa) octets;
      let certs := (fun c => (PCertificate, Certificate_to_bytes (Certificate_x509 c))) <$> chain in
      Ok (auth, certs)
  end.

Definition verify_peer_auth (cfg : AuthConfig) (got : AuthPayloads) (expected_octets : bytes)
    : outcome unit :=
  match cfg_peer cfg with
  | PeerPsk psk => verify_psk (ap_auth got) psk expected_octets
  | PeerCert cas expected_dns now_unix =>
      if decide (auth_meth (ap_auth got) <> auth_method.DIGITAL_SIGNATURE) then Err AuthFailed else
      match ap_certs got with
      | [] => Err (MissingPayload "CERT")
      | leaf :: rest =>
          verify_cert_auth leaf rest cas expected_dns now_unix (auth_data (ap_auth got))
            expected_octets
      end
  end.

(** [filter_map(|ca| ca_key_hash(ca).ok())] *)
Definition ca_hashes_of (cas : list bytes) : list bytes :=
  omap (fun ca => match ca_key_hash ca with Ok h => Some h | _ => None end) cas.

Definition initiator_auth_request (sa : CompletedSaInit) (cfg : AuthConfig) (spi : Z) (iv : bytes)
    : outcome bytes :=
  let idi_body := Identification_to_bytes (cfg_id cfg) in
  let octets := initiator_signed_octets (init_message sa) (nr sa) (sk_pi (keys sa)) idi_body in
  '(auth, cert_payloads) ← build_local_auth cfg sa octets;
  let inner := [(PIdInitiator, idi_body)] ++ cert_payloads ++
    match cfg_peer cfg with
    | PeerCert cas _ _ =>
        [(PCertRequest, CertRequest_to_bytes (CertRequest_x509 (ca_hashes_of cas)))]
    | PeerPsk _ => []
    end ++
    [(PAuthentication, Authentication_to_bytes auth);
     (PSecurityAssociation, SecurityAssociation_to_bytes (esp_offer spi));
     (PTrafficSelectorInitiator, full_tunnel_ts);
     (PTrafficSelectorResponder, full_tunnel_ts)] in
  build_encrypted_gcm (ike_auth_header sa false) (first_payload_type inner)
    (encode_payload_chain inner) (sk_ei (keys sa)) iv.

Definition initiator_eap_request (sa : CompletedSaInit) (id : Identification) (spi : Z) (iv : bytes)
    : outcome bytes :=
  let inner :=
    [(PIdInitiator, Identification_to_bytes id);
     (PSecurityAssociation, SecurityAssociation_to_bytes (esp_offer spi));
     (PTrafficSelectorInitiator, full_tunnel_ts);
     (PTrafficSelectorResponder, full_tunnel_ts)] in
  build_encrypted_gcm (ike_auth_header sa false) (first_payload_type inner)
    (encode_payload_chain inner) (sk_ei (keys sa)) iv.

Definition initiator_eap_request_with_certreq (sa : CompletedSaInit) (id : Identification) (spi : Z)
    (hashes : list bytes) (iv : bytes) : outcome bytes :=
  let inner :=
    [(PIdInitiator, Identification_to_bytes id);
     (PSecurityAssociation, SecurityAssociation_to_bytes (esp_offer spi));
     (PTrafficSelectorInitiator, full_tunnel_ts);
     (PTrafficSelectorResponder, full_tunnel_ts);
     (PCertRequest, CertRequest_to_bytes (CertRequest_x509 hashes))] in
  build_encrypted_gcm (ike_auth_header sa false) (first_payload_type inner)
    (encode_payload_chain inner) (sk_ei (keys sa)) iv.

(** The payloads of the response; an assigned address adds a configuration reply
    (with the first DNS server, if any) and narrows the initiator's selector. *)
Definition auth_response_chain (cfg : AuthConfig) (auth : Authentication)
    (cert_payloads : PayloadChain) (spi : Z) (assigned : option AssignedConfig) : PayloadChain :=
  [(PIdResponder, Identification_to_bytes (cfg_id cfg))] ++ cert_payloads ++
  [(PAuthentication, Authentication_to_bytes auth)] ++
  match assigned with
  | Some a => [(PConfiguration, Configuration_to_bytes (reply_ipv4 (as_ip a) None (head (as_dns a))))]
  | None => []
  end ++
  [(PSecurityAssociation, SecurityAssociation_to_bytes (esp_offer spi));
   (PTrafficSelectorInitiator,
      match assigned with
      | Some a => TrafficSelectors_to_bytes {| selectors := [ipv4_host (as_ip a)] |}
      | None => full_tunnel_ts
      end);
   (PTrafficSelectorResponder, full_tunnel_ts);
   (PNotify, Notify_to_bytes mobike_supported)].

Definition responder_process_auth (sa : CompletedSaInit) (request : bytes) (cfg : AuthConfig)
    (spi : Z) (iv : bytes) (assigned : option AssignedConfig)
    : outcome (bytes * Identification * Z) :=
  '(first, inner) ← open_encrypted_gcm request (sk_ei (keys sa));
  got ← parse_auth_inner first inner;
  let octets := initiator_signed_octets (init_message sa) (nr sa) (sk_pi (keys sa)) (id_body got) in
  _ ← verify_peer_auth cfg got octets;
  peer_id ← Identification_parse (id_body got);
  peer_child_spi ← ok_or (child_spi got) (MissingPayload "SA");
  let idr_body := Identification_to_bytes (cfg_id cfg) in
  let our_octets := responder_signed_octets (resp_message sa) (ni sa) (sk_pr (keys sa)) idr_body in
  '(auth, cert_payloads) ← build_local_auth cfg sa our_octets;
  let inner_out := auth_response_chain cfg auth cert_payloads spi assigned in
  response ← build_encrypted_gcm (ike_auth_header sa true) (first_payload_type inner_out)
    (encode_payload_chain inner_out) (sk_er (keys sa)) iv;
  Ok (response, peer_id, peer_child_spi).

Definition peer_id_from_auth (sa : CompletedSaInit) (request : bytes) : outcome Identification :=
  '(first, inner) ← open_encrypted_gcm request (sk_ei (keys sa));
  got ← parse_auth_inner first inner;
  Identification_parse (id_body got).

Definition peer_id_from_request (sa : CompletedSaInit) (request : bytes)
    : outcome (option Identification) :=
  r ← ok (open_encrypted_gcm request (sk_ei (keys sa)));
  match r with
  | None => Ok None
  | Some (first, inner) =>
      ps ← flatten (payload_items first inner);
      match find (fun p => bool_decide (payload_type p = PIdInitiator)) ps with
      | None => Ok None
      | Some idi => ok (Identification_parse (data idi))
      end
  end.

Definition is_eap_request (sa : CompletedSaInit) (request : bytes) : outcome bool :=
  r ← ok (open_encrypted_gcm request (sk_ei (keys sa)));
  match r with
  | None => Ok false
  | Some (first, inner) =>
      ps ← flatten (payload_items first inner);
      Ok (negb (existsb (fun p => bool_decide (payload_type p = PAuthentication)) ps))
  end.

Definition client_sent_certreq (sa : CompletedSaInit) (request : bytes) : outcome bool :=
  r ← ok (open_encrypted_gcm request (sk_ei (keys sa)));
  match r with
  | None => Ok false
  | Some (first, inner) =>
      ps ← flatten (payload_items first inner);
      Ok (existsb (fun p => bool_decide (payload_type p = PCertRequest)) ps)
  end.

Definition initiator_verify_auth (sa : CompletedSaInit) (response : bytes) (cfg : AuthConfig)
    : outcome (Identification * Z * option Ipv4Addr) :=
  '(first, inner) ← open_encrypted_gcm response (sk_er (keys sa));
  got ← parse_auth_inner first inner;
  let octets := responder_signed_octets (resp_message sa) (ni sa) (sk_pr (keys sa)) (id_body got) in
  _ ← verify_peer_auth cfg got octets;
  peer_child_spi ← ok_or (child_spi got) (MissingPayload "SA");
  id ← Identification_parse (id_body got);
  Ok (id, peer_child_spi, assigned_ip4 got).
End ike_auth.

(** ** Lemmas *)
Lemma fold_lor_zero l d : foldl (fun diff '(x, y) => Z.lor diff (Z.lxor x y)) d l = 0 <->
  d = 0 /\ Forall (fun '(x, y) => x = y) l.
Proof.
  revert d. induction l as [|[x y] l IH]; intros d; cbn [foldl].
  - split; [done|by intros []].
  - rewrite IH, Z.lor_eq_0_iff, Z.lxor_eq_0_iff, Forall_cons. tauto.
Qed.

(** The constant-time comparison is equality. *)
Lemma ct_eq_spec a b : ct_eq a b = true <-> a = b.
Proof.
  unfold ct_eq. destruct (Nat.eqb_spec (length a) (length b)) as [Hl|Hl]; cbn [negb].
  - rewrite Z.eqb_eq, fold_lor_zero. split; [|intros ->; split; [done|]].
    + intros [_ Hf]. revert b Hl Hf. induction a as [|x a IH]; intros [|y b] Hl Hf; try done.
      cbn in Hf. inversion_clear Hf. subst. f_equal. apply IH; [by injection Hl|done].
    + clear. induction b; constructor; done.
  - split; [done|]. by intros ->.
Qed.

(** An identity that fits the message. *)
Definition id_fits (i : Identification) : Prop :=
  Identification_wf i /\ Z.of_nat (length (id_data i)) <= 60000.

Lemma esp_offer_wf spi : SecurityAssociation_wf (esp_offer spi).
Proof.
  constructor; [|constructor].
  constructor; cbn [esp_offer prop_num prop_protocol prop_spi transforms];
    [by split|by split|apply be_bytes_ok|simpl; lia|simpl; lia|by repeat constructor|done].
Qed.

Lemma esp_offer_spi spi : u32_ok spi ->
  auth_esp_spi_from_sa (SecurityAssociation_to_bytes (esp_offer spi)) = Ok (Some spi).
Proof.
  intros Hs.
  change (auth_esp_spi_from_sa _) with (Ok (Some (be_val (be_bytes 4 spi)))).
  by rewrite be_val_be_bytes.
Qed.

Lemma esp_offer_entry spi : chain_entry_wf (PSecurityAssociation, SecurityAssociation_to_bytes (esp_offer spi)).
Proof.
  split_and!; [by split|done|by apply SA_to_bytes_ok, esp_offer_wf|].
  change (Z.of_nat (4 + 32) < 2 ^ 16). lia.
Qed.

Lemma full_tunnel_entry t : PayloadType_wf t -> t <> NoNext -> chain_entry_wf (t, full_tunnel_ts).
Proof. intros. split_and!; [done|done|by repeat constructor|done]. Qed.

Lemma id_entry t i : PayloadType_wf t -> t <> NoNext -> id_fits i ->
  chain_entry_wf (t, Identification_to_bytes i).
Proof.
  intros ? ? [Hi Hl]. split_and!; [done|done|by apply Identification_to_bytes_ok|].
  cbn [snd]. unfold Identification_to_bytes. rewrite !length_app. simpl. lia.
Qed.

Section wf.
Context `{!Primitives, !HmacLaws}.

Lemma length_psk_auth psk o : length (psk_auth psk o) = 32%nat.
Proof. apply hmac_length. Qed.

Lemma psk_auth_wf psk o : Authentication_wf (psk_auth_payload psk o).
Proof. split; [by split|apply hmac_bytes]. Qed.

Lemma psk_auth_entry psk o :
  chain_entry_wf (PAuthentication, Authentication_to_bytes (psk_auth_payload psk o)).
Proof.
  split_and!; [by split|done|by apply Authentication_to_bytes_ok, psk_auth_wf|].
  cbn [snd]. unfold Authentication_to_bytes. rewrite !length_app. cbn [auth_data psk_auth_payload].
  rewrite length_psk_auth. simpl. lia.
Qed.

Lemma verify_psk_spec a psk o :
  verify_psk a psk o =
  if decide (auth_meth a = auth_method.SHARED_KEY /\ auth_data a = psk_auth psk o)
  then Ok tt else Err AuthFailed.
Proof.
  unfold verify_psk. case_bool_decide as Hm; cbn [andb]; [|by rewrite decide_False by (intros []; done)].
  destruct (ct_eq (auth_data a) (psk_auth psk o)) eqn:E.
  - apply ct_eq_spec in E. by rewrite decide_True.
  - rewrite decide_False; [done|]. intros [_ Eq]. apply ct_eq_spec in Eq. congruence.
Qed.
End wf.

(** ** Reading the messages back *)
Ltac auth_cbn := cbn [for_each raw ok ok_or mbind outcome_bind parse_auth_step payload_type data fst snd
  aa_id aa_auth aa_certs aa_spi aa_ip].

Lemma Ipv4_octets_ok a : a = mkIpv4 (oct0 a) (oct1 a) (oct2 a) (oct3 a).
Proof. by destruct a. Qed.

Definition Ipv4_wf (a : Ipv4Addr) : Prop := bytes_ok (octets a).

Definition AssignedConfig_wf (a : AssignedConfig) : Prop := Ipv4_wf (as_ip a) /\ Forall Ipv4_wf (as_dns a).

Lemma reply_ipv4_wf a : AssignedConfig_wf a ->
  Configuration_wf (reply_ipv4 (as_ip a) None (head (as_dns a))).
Proof.
  intros [Hi Hd]. split; [by split|]. cbn [cfg_attrs reply_ipv4]. rewrite app_nil_l.
  assert (Hx : forall t x, 0 <= t < 2 ^ 15 -> Ipv4_wf x -> ConfigAttr_wf (ConfigAttr_ipv4 t x)).
  { intros t x Ht Hx. constructor; simpl; [done|done|lia]. }
  apply Forall_app. split; [apply Forall_singleton, Hx; [by split|done]|].
  destruct (as_dns a) as [|d ds]; [constructor|]. apply Forall_singleton, Hx; [by split|].
  by inversion Hd.
Qed.

Lemma reply_assigned ip dns : assigned_ipv4 (reply_ipv4 ip None dns) = Ok (Some ip).
Proof. by destruct ip, dns. Qed.

Lemma reply_entry a : AssignedConfig_wf a ->
  chain_entry_wf (PConfiguration, Configuration_to_bytes (reply_ipv4 (as_ip a) None (head (as_dns a)))).
Proof.
  intros Ha. split_and!; [by split|done|by apply Configuration_to_bytes_ok, reply_ipv4_wf|].
  destruct a as [[] []]; done.
Qed.

Section psk.
Context `{!Primitives, !Pki, !HmacLaws, !AeadLaws}.

(** The payloads of a PSK request. *)
Definition psk_request_chain (id : Identification) (auth : Authentication) (spi : Z) : PayloadChain :=
  [(PIdInitiator, Identification_to_bytes id);
   (PAuthentication, Authentication_to_bytes auth);
   (PSecurityAssociation, SecurityAssociation_to_bytes (esp_offer spi));
   (PTrafficSelectorInitiator, full_tunnel_ts);
   (PTrafficSelectorResponder, full_tunnel_ts)].

Lemma psk_request_fits id psk o spi : id_fits id ->
  chain_fits (psk_request_chain id (psk_auth_payload psk o) spi).
Proof.
  intros Hid. apply chain_fits_intro.
  - apply Forall_cons_2; [apply id_entry; [by split|done|done]|].
    apply Forall_cons_2; [apply psk_auth_entry|].
    apply Forall_cons_2; [apply esp_offer_entry|].
    apply Forall_cons_2; [by apply full_tunnel_entry|]. by apply Forall_singleton, full_tunnel_entry.
  - destruct Hid as [_ Hl]. cbn [psk_request_chain fmap list_fmap sum_list snd].
    unfold Identification_to_bytes, Authentication_to_bytes. rewrite !length_app.
    cbn [auth_data psk_auth_payload]. rewrite length_psk_auth.
    change (length (SecurityAssociation_to_bytes (esp_offer spi))) with 32%nat.
    change (length full_tunnel_ts) with 20%nat. simpl. lia.
Qed.

Lemma parse_psk_request first inner id a spi : u32_ok spi -> Authentication_wf a ->
  payload_items first inner = Ok <$> (raw <$> psk_request_chain id a spi) ->
  parse_auth_inner first inner = Ok (mkAuthPayloads (Identification_to_bytes id) a [] (Some spi) None).
Proof.
  intros Hs Ha E. unfold parse_auth_inner. rewrite E. cbn [psk_request_chain fmap list_fmap]. auth_cbn.
  rewrite Authentication_roundtrip by done. auth_cbn. rewrite esp_offer_spi by done. done.
Qed.

Lemma response_chain_fits id psk o spi assigned : id_fits id ->
  (forall a, assigned = Some a -> AssignedConfig_wf a) ->
  chain_fits (auth_response_chain (AuthConfig_psk id psk) (psk_auth_payload psk o) [] spi assigned).
Proof.
  intros Hid Has. apply chain_fits_intro.
  - unfold auth_response_chain. cbn [AuthConfig_psk cfg_id app].
    apply Forall_cons_2; [apply id_entry; [by split|done|done]|].
    apply Forall_cons_2; [apply psk_auth_entry|].
    apply Forall_app. split; [destruct assigned; [by apply Forall_singleton, reply_entry, Has|constructor]|].
    apply Forall_cons_2; [apply esp_offer_entry|]. apply Forall_cons_2.
    { destruct assigned as [a|]; [|by apply full_tunnel_entry].
      destruct (Has a eq_refl) as [Hip _]. split_and!; [by split|done| |by destruct a as [[] ?]].
      apply TrafficSelectors_to_bytes_ok. split; [|done]. apply Forall_singleton.
      constructor; simpl; try done; by destruct a as [[] ?]. }
    apply Forall_cons_2; [by apply full_tunnel_entry|].
    apply Forall_singleton, notify_entry_wf; [apply Notify_status_wf; [by split|constructor]|simpl; lia].
  - destruct Hid as [_ Hl]. unfold auth_response_chain.
    set (cp := match assigned with Some a => [_] | None => [] end).
    set (ts := match assigned with Some _ => _ | None => full_tunnel_ts end).
    assert (Hcp : (sum_list ((fun e => (4 + length e.2)%nat) <$> cp) <= 40)%nat)
      by (unfold cp; destruct assigned as [[? [|? ?]]|]; vm_compute; lia).
    assert (Hts : (length ts <= 40)%nat) by (unfold ts; destruct assigned; vm_compute; lia).
    rewrite !fmap_app, !sum_list_with_app.
    cbn [fmap list_fmap sum_list_with snd AuthConfig_psk cfg_id].
    unfold Identification_to_bytes, Authentication_to_bytes. rewrite !length_app.
    cbn [auth_data psk_auth_payload]. rewrite length_psk_auth.
    change (length (SecurityAssociation_to_bytes (esp_offer spi))) with 32%nat.
    change (length full_tunnel_ts) with 20%nat.
    change (length (Notify_to_bytes mobike_supported)) with 4%nat. unfold Datatypes.id in *. cbn [length]. lia.
Qed.

Lemma parse_psk_response first inner id psk a spi assigned : u32_ok spi -> Authentication_wf a ->
  (forall c, assigned = Some c -> AssignedConfig_wf c) ->
  payload_items first inner =
    Ok <$> (raw <$> auth_response_chain (AuthConfig_psk id psk) a [] spi assigned) ->
  parse_auth_inner first inner =
    Ok (mkAuthPayloads (Identification_to_bytes id) a [] (Some spi) (as_ip <$> assigned)).
Proof.
  intros Hs Ha Has E. unfold parse_auth_inner. rewrite E. unfold auth_response_chain.
  destruct assigned as [c|]; cbn [app fmap list_fmap AuthConfig_psk cfg_id]; auth_cbn;
    rewrite Authentication_roundtrip by done; auth_cbn.
  - rewrite Configuration_roundtrip by (apply reply_ipv4_wf; auto). auth_cbn.
    rewrite reply_assigned. auth_cbn. rewrite esp_offer_spi by done. done.
  - rewrite esp_offer_spi by done. done.
Qed.

Lemma ike_auth_header_wf c r : CompletedSaInit_wf c -> IkeHeader_wf (ike_auth_header c r).
Proof. intros []. constructor; simpl; try done; by split. Qed.

(** The octets each side signs. *)
Definition octets_i (c : CompletedSaInit) (id : Identification) : bytes :=
  initiator_signed_octets (init_message c) (nr c) (sk_pi (keys c)) (Identification_to_bytes id).
Definition octets_r (c : CompletedSaInit) (id : Identification) : bytes :=
  responder_signed_octets (resp_message c) (ni c) (sk_pr (keys c)) (Identification_to_bytes id).

Lemma psk_request_ok c id psk spi iv : gcm_sa c -> id_fits id -> bytes_ok iv -> length iv = 8%nat ->
  exists m first inner, initiator_auth_request c (AuthConfig_psk id psk) spi iv = Ok m /\ bytes_ok m /\
    open_encrypted_gcm m (sk_ei (keys c)) = Ok (first, inner) /\
    payload_items first inner =
      Ok <$> (raw <$> psk_request_chain id (psk_auth_payload psk (octets_i c id)) spi).
Proof.
  intros Hc Hid Hiv Hl. destruct (gcm_sa_keys c Hc) as (_ & Hk & _).
  destruct (seal_chain_open (ike_auth_header c false)
    (psk_request_chain id (psk_auth_payload psk (octets_i c id)) spi) (sk_ei (keys c)) iv)
    as (m & E1 & E2 & _ & E4 & E5); try done; [apply ike_auth_header_wf, Hc|by apply psk_request_fits|].
  eexists m, _, _. split_and!; [exact E1|done|exact E4|exact E5].
Qed.

Lemma psk_request_header c id psk spi iv m : gcm_sa c -> id_fits id -> bytes_ok iv -> length iv = 8%nat ->
  initiator_auth_request c (AuthConfig_psk id psk) spi iv = Ok m ->
  exists h, IkeHeader_parse m = Ok h /\ exchange_type h = IkeAuth /\
    initiator_spi h = spi_i c /\ responder_spi h = spi_r c.
Proof.
  intros Hc Hid Hiv Hl Hm. destruct (gcm_sa_keys c Hc) as (_ & Hk & _).
  destruct (seal_chain_open (ike_auth_header c false)
    (psk_request_chain id (psk_auth_payload psk (octets_i c id)) spi) (sk_ei (keys c)) iv)
    as (m' & E1 & _ & E3 & _); try done; [apply ike_auth_header_wf, Hc|by apply psk_request_fits|].
  change (initiator_auth_request c (AuthConfig_psk id psk) spi iv = Ok m') in E1.
  rewrite Hm in E1. injection E1 as <-. eexists. by split_and!.
Qed.

Lemma verify_peer_psk id psk got o :
  verify_peer_auth (AuthConfig_psk id psk) got o = verify_psk (ap_auth got) psk o.
Proof. done. Qed.

Lemma build_local_psk id psk c o :
  build_local_auth (AuthConfig_psk id psk) c o = Ok (psk_auth_payload psk o, []).
Proof. done. Qed.

(** What the responder answers to a PSK request sealed under its key. *)
Lemma psk_process_ok c request id a spi own_id psk spi' iv assigned first inner :
  gcm_sa c -> id_fits own_id -> Identification_wf id -> u32_ok spi -> Authentication_wf a ->
  bytes_ok iv -> length iv = 8%nat -> (forall x, assigned = Some x -> AssignedConfig_wf x) ->
  open_encrypted_gcm request (sk_ei (keys c)) = Ok (first, inner) ->
  payload_items first inner = Ok <$> (raw <$> psk_request_chain id a spi) ->
  if decide (auth_meth a = auth_method.SHARED_KEY /\ auth_data a = psk_auth psk (octets_i c id))
  then exists resp first' inner',
    responder_process_auth c request (AuthConfig_psk own_id psk) spi' iv assigned = Ok (resp, id, spi) /\
    open_encrypted_gcm resp (sk_er (keys c)) = Ok (first', inner') /\
    payload_items first' inner' = Ok <$> (raw <$> auth_response_chain (AuthConfig_psk own_id psk)
      (psk_auth_payload psk (octets_r c own_id)) [] spi' assigned) /\ bytes_ok resp
  else responder_process_auth c request (AuthConfig_psk own_id psk) spi' iv assigned = Err AuthFailed.
Proof.
  intros Hc Hcid Hid Hs Ha Hiv Hl Has Eo Ei. unfold responder_process_auth. rewrite Eo.
  cbn [mbind outcome_bind]. rewrite (parse_psk_request _ _ id a spi) by done.
  cbn [mbind outcome_bind id_body ap_auth child_spi]. rewrite verify_peer_psk.
  cbn [ap_auth]. rewrite verify_psk_spec. fold (octets_i c id).
  case_decide; [|done]. cbn [mbind outcome_bind].
  rewrite Identification_roundtrip by done. cbn [mbind outcome_bind ok_or].
  rewrite build_local_psk. cbn [mbind outcome_bind].
  change (cfg_id (AuthConfig_psk own_id psk)) with own_id. fold (octets_r c own_id).
  destruct (gcm_sa_keys c Hc) as (_ & _ & Hk).
  destruct (seal_chain_open (ike_auth_header c true) (auth_response_chain (AuthConfig_psk own_id psk)
    (psk_auth_payload psk (octets_r c own_id)) [] spi' assigned) (sk_er (keys c)) iv)
    as (m & E1 & E2 & _ & E4 & E5); try done; [apply ike_auth_header_wf, Hc|by apply response_chain_fits|].
  eexists m, _, _. split_and!; [|exact E4|exact E5|exact E2]. by rewrite E1.
Qed.

Lemma psk_verify_ok c resp id a spi psk my_id my_psk assigned first inner :
  Identification_wf id -> u32_ok spi -> Authentication_wf a ->
  (forall x, assigned = Some x -> AssignedConfig_wf x) ->
  open_encrypted_gcm resp (sk_er (keys c)) = Ok (first, inner) ->
  payload_items first inner =
    Ok <$> (raw <$> auth_response_chain (AuthConfig_psk id psk) a [] spi assigned) ->
  initiator_verify_auth c resp (AuthConfig_psk my_id my_psk) =
  if decide (auth_meth a = auth_method.SHARED_KEY /\ auth_data a = psk_auth my_psk (octets_r c id))
  then Ok (id, spi, as_ip <$> assigned) else Err AuthFailed.
Proof.
  intros Hid Hs Ha Has Eo Ei. unfold initiator_verify_auth. rewrite Eo. cbn [mbind outcome_bind].
  rewrite (parse_psk_response _ _ id psk a spi assigned) by done.
  cbn [mbind outcome_bind id_body ap_auth child_spi]. rewrite verify_peer_psk.
  cbn [ap_auth]. rewrite verify_psk_spec. fold (octets_r c id).
  case_decide; [|done]. cbn [mbind outcome_bind ok_or].
  by rewrite Identification_roundtrip.
Qed.
End psk.

(** ** Arbitrary messages *)
Lemma wp_idx_any l i (Q : Z -> Prop) : (i < length l)%nat -> (forall b, Q b) -> wp (idx l i) Q.
Proof. intros. by apply wp_idx. Qed.

Lemma auth_esp_spi_wp sa : bytes_ok sa -> wp (auth_esp_spi_from_sa sa) (fun o =>
  match o with Some x => u32_ok x | None => True end).
Proof.
  intros Hs. unfold auth_esp_spi_from_sa. wp_steps; try done.
  match goal with |- u32_ok (be_val ?l) => pose proof (be_val_bound l) as Hb end.
  unfold u32_ok. apply Hb. auto with ryke.
Qed.

Lemma parse_auth_step_wp st p : RawPayload_wf p -> wp (parse_auth_step st p) (fun _ => True).
Proof.
  intros (_ & Hd & _). destruct st. unfold parse_auth_step. destruct (payload_type p); try done.
  - apply wp_bind. eapply wp_mono; [|by apply auth_esp_spi_wp]. done.
  - apply wp_bind, wp_opt; [|done]. eapply wp_mono; [|by apply Certificate_parse_wp]. done.
  - apply wp_bind. eapply wp_mono; [|by apply Authentication_parse_wp]. done.
  - apply wp_bind, wp_opt; [|done]. eapply wp_mono; [|by apply Configuration_parse_wp]. intros c _.
    apply wp_bind. eapply wp_mono; [|apply safe_wp, assigned_ipv4_safe]. done.
Qed.

Lemma parse_auth_inner_safe first inner : PayloadType_wf first -> bytes_ok inner ->
  safe (parse_auth_inner first inner).
Proof.
  intros. apply wp_safe with (Q := fun _ => True). unfold parse_auth_inner. apply wp_bind.
  eapply wp_mono; [|apply (for_each_wp _ (fun _ => True)); [by apply payload_items_wp|done|]].
  - intros. wp_steps. done.
  - intros. by apply parse_auth_step_wp.
Qed.

Section total.
Context `{!Primitives, !Pki, !HmacLaws, !AeadLaws}.

Lemma verify_cert_auth_safe leaf inters trusted dns now d o :
  safe (verify_cert_auth leaf inters trusted dns now d o).
Proof.
  apply wp_safe with (Q := fun _ => True). unfold verify_cert_auth. apply wp_bind.
  assert (Hs : safe (if existsb (fun t => bool_decide (t = leaf)) trusted
    then within_validity leaf now else validate_chain leaf inters trusted now))
    by (destruct (existsb _ _); [apply within_validity_safe|apply validate_chain_loop_safe]).
  eapply wp_mono; [|apply safe_wp, Hs]. intros _ _. apply wp_bind.
  assert (Hd : wp (match dns with
    | Some name => match cert_has_dns_name leaf name with Ok true => Ok tt | _ => Err AuthFailed end
    | None => Ok tt end) (fun _ => True)).
  { destruct dns as [name|]; [|done]. by destruct (cert_has_dns_name leaf name) as [[]| |]. }
  eapply wp_mono; [|exact Hd]. intros _ _. apply wp_bind.
  eapply wp_mono; [|apply safe_wp, from_cert_der_safe]. intros vk _.
  eapply wp_mono; [|apply safe_wp, verify_auth_data_safe]. done.
Qed.

(** The peer proved its identity over the octets, by the configured method. *)
Definition peer_proved (cfg : AuthConfig) (got : AuthPayloads) (octets : bytes) : Prop :=
  match cfg_peer cfg with
  | PeerPsk psk => ap_auth got = psk_auth_payload psk octets
  | PeerCert cas dns now =>
      auth_meth (ap_auth got) = auth_method.DIGITAL_SIGNATURE /\
      exists leaf rest, ap_certs got = leaf :: rest /\
        verify_cert_auth leaf rest cas dns now (auth_data (ap_auth got)) octets = Ok tt
  end.

Lemma verify_peer_auth_wp cfg got octets :
  wp (verify_peer_auth cfg got octets) (fun _ => peer_proved cfg got octets).
Proof.
  unfold verify_peer_auth, peer_proved. destruct (cfg_peer cfg) as [psk|cas dns now].
  - rewrite verify_psk_spec. case_decide as Hd; [|done]. destruct Hd as [Hm Hd].
    simpl. destruct (ap_auth got) as [m d]. simpl in *. by subst.
  - case_decide as Hm; [done|]. destruct (ap_certs got) as [|leaf rest]; [done|].
    eapply wp_mono; [|apply safe_wp, verify_cert_auth_safe]. intros [] E. split; [done|].
    by exists leaf, rest.
Qed.

Lemma sign_auth_data_safe k o : safe (sign_auth_data k o).
Proof.
  apply wp_safe with (Q := fun _ => True). unfold sign_auth_data. apply wp_bind.
  destruct k; wp_steps; done.
Qed.

Lemma build_local_auth_safe cfg c o : safe (build_local_auth cfg c o).
Proof.
  apply wp_safe with (Q := fun _ => True). unfold build_local_auth.
  destruct (cfg_local cfg) as [psk|key chain]; [done|]. apply wp_bind. unfold cert_auth_payload.
  destruct (existsb _ _); apply wp_bind.
  - eapply wp_mono; [|apply safe_wp, sign_auth_data_safe]. done.
  - unfold sign_ecdsa_p256_raw. destruct key; wp_steps; done.
Qed.

Lemma build_encrypted_safe h t inner k iv : length iv = 8%nat ->
  safe (build_encrypted_gcm h t inner k iv).
Proof.
  intros Hiv. destruct (decide (length k = 36%nat)) as [Hk|Hk]; [|by rewrite build_encrypted_err].
  unfold build_encrypted_gcm. rewrite split_key_ok by done. cbn [mbind outcome_bind].
  rewrite gcm_nonce_ok, gcm_new_ok by (rewrite ?length_take, ?length_drop; lia).
  cbn [mbind outcome_bind]. by destruct (gcm_encrypt _ _ _ _).
Qed.

(** What acceptance of an IKE_AUTH message under a key entails. *)
Definition auth_accepted (message key real_message nonce sk_p : bytes) (cfg : AuthConfig)
    (id : Identification) (spi : Z) (ip : option Ipv4Addr) : Prop :=
  exists first inner got, open_encrypted_gcm message key = Ok (first, inner) /\
    parse_auth_inner first inner = Ok got /\
    peer_proved cfg got (signed_octets real_message nonce sk_p (id_body got)) /\
    Identification_parse (id_body got) = Ok id /\ child_spi got = Some spi /\ assigned_ip4 got = ip.

Lemma responder_process_auth_wp c request cfg spi iv assigned : bytes_ok request -> length iv = 8%nat ->
  wp (responder_process_auth c request cfg spi iv assigned) (fun '(_, id, peer_spi) =>
    exists ip, auth_accepted request (sk_ei (keys c)) (init_message c) (nr c) (sk_pi (keys c)) cfg
                 id peer_spi ip).
Proof.
  intros Hr Hiv. unfold responder_process_auth. apply wp_bind.
  eapply wp_mono; [|by apply wp_eq, open_encrypted_wp].
  intros [first inner] [[Hf Hi] Eo]. apply wp_bind.
  eapply wp_mono; [|by apply safe_wp, parse_auth_inner_safe]. intros got Eg. apply wp_bind.
  eapply wp_mono; [|apply verify_peer_auth_wp]. intros [] Hp. apply wp_bind.
  assert (Hsafe : safe (Identification_parse (id_body got))).
  { unfold Identification_parse. case_decide; [done|].
    destruct (id_body got) as [|b0 [|b1 [|b2 [|b3 l]]]]; simpl in *; try lia. done. }
  eapply wp_mono; [|apply safe_wp, Hsafe]. intros id Eid. apply wp_bind, wp_ok_or. intros s Es.
  apply wp_bind. eapply wp_mono; [|apply safe_wp, build_local_auth_safe]. intros [auth certs] _.
  apply wp_bind. eapply wp_mono; [|by apply safe_wp, build_encrypted_safe]. intros resp _. cbn [wp].
  exists (assigned_ip4 got), first, inner, got. by split_and!.
Qed.

Lemma initiator_verify_auth_wp c response cfg : bytes_ok response ->
  wp (initiator_verify_auth c response cfg) (fun '(id, peer_spi, ip) =>
    auth_accepted response (sk_er (keys c)) (resp_message c) (ni c) (sk_pr (keys c)) cfg id peer_spi ip).
Proof.
  intros Hr. unfold initiator_verify_auth. apply wp_bind.
  eapply wp_mono; [|by apply wp_eq, open_encrypted_wp].
  intros [first inner] [[Hf Hi] Eo]. apply wp_bind.
  eapply wp_mono; [|by apply safe_wp, parse_auth_inner_safe]. intros got Eg. apply wp_bind.
  eapply wp_mono; [|apply verify_peer_auth_wp]. intros [] Hp. apply wp_bind, wp_ok_or. intros s Es.
  apply wp_bind.
  assert (Hsafe : safe (Identification_parse (id_body got))).
  { unfold Identification_parse. case_decide; [done|].
    destruct (id_body got) as [|b0 [|b1 [|b2 [|b3 l]]]]; simpl in *; try lia. done. }
  eapply wp_mono; [|apply safe_wp, Hsafe]. intros id Eid. cbn [wp].
  exists first, inner, got. by split_and!.
Qed.
End total.

Section mutual.
Context `{!Primitives, !Pki, !HmacLaws, !AeadLaws}.

(** Both ends of an SA that hold the same key. *)
Lemma psk_mutual ci cr id_i id_r psk spi_a spi_b iv iv' assigned :
  gcm_sa ci -> gcm_sa cr -> same_sa ci cr -> id_fits id_i -> id_fits id_r ->
  u32_ok spi_a -> u32_ok spi_b -> bytes_ok iv -> length iv = 8%nat -> bytes_ok iv' -> length iv' = 8%nat ->
  (forall a, assigned = Some a -> AssignedConfig_wf a) ->
  exists request response,
    initiator_auth_request ci (AuthConfig_psk id_i psk) spi_a iv = Ok request /\
    responder_process_auth cr request (AuthConfig_psk id_r psk) spi_b iv' assigned =
      Ok (response, id_i, spi_a) /\
    initiator_verify_auth ci response (AuthConfig_psk id_i psk) =
      Ok (id_r, spi_b, as_ip <$> assigned) /\ bytes_ok response.
Proof.
  intros Hci Hcr (_ & _ & _ & _ & Hk & Hni & Hnr & Him & Hrm) Hi Hr Ha Hb Hiv Lv Hiv' Lv' Has.
  destruct (psk_request_ok ci id_i psk spi_a iv) as (req & first & inner & E1 & _ & E2 & E3); [done..|].
  rewrite Hk in E2.
  assert (Eo : octets_i ci id_i = octets_i cr id_i) by (unfold octets_i; by rewrite Hk, Him, Hnr).
  assert (Eo' : octets_r ci id_r = octets_r cr id_r) by (unfold octets_r; by rewrite Hk, Hrm, Hni).
  pose proof (psk_process_ok cr req id_i (psk_auth_payload psk (octets_i ci id_i)) spi_a id_r psk spi_b
    iv' assigned first inner Hcr Hr (proj1 Hi) Ha (psk_auth_wf _ _) Hiv' Lv' Has E2 E3) as Hp.
  rewrite decide_True in Hp by (by rewrite Eo). destruct Hp as (resp & f' & i' & Ep & Eo2 & Ei2 & Or).
  exists req, resp. split_and!; [done|done| |done].
  rewrite <- Hk in Eo2.
  rewrite (psk_verify_ok ci resp id_r (psk_auth_payload psk (octets_r cr id_r)) spi_b psk id_i psk
    assigned f' i'); [|apply Hr|done|apply psk_auth_wf|done|done|done].
  by rewrite decide_True by (by rewrite Eo').
Qed.
End mutual.

(** ** Properties *)
Section properties.
Context `{!Primitives, !Pki, !HmacLaws, !AeadLaws}.

(** Mutual pre-shared-key authentication completes: the two ends of an AES-GCM
    SA that hold the same key authenticate each other.  The responder learns the
    initiator's identity and ESP SPI, the initiator learns the responder's identity
    and ESP SPI and the inner address it was assigned, if any. *)
Theorem psk_mutual_auth ci cr id_i id_r psk spi_a spi_b iv iv' assigned :
  gcm_sa ci -> gcm_sa cr -> same_sa ci cr -> id_fits id_i -> id_fits id_r ->
  u32_ok spi_a -> u32_ok spi_b -> bytes_ok iv -> length iv = 8%nat -> bytes_ok iv' -> length iv' = 8%nat ->
  (forall a, assigned = Some a -> AssignedConfig_wf a) ->
  exists request response,
    initiator_auth_request ci (AuthConfig_psk id_i psk) spi_a iv = Ok request /\
    responder_process_auth cr request (AuthConfig_psk id_r psk) spi_b iv' assigned =
      Ok (response, id_i, spi_a) /\
    initiator_verify_auth ci response (AuthConfig_psk id_i psk) =
      Ok (id_r, spi_b, as_ip <$> assigned).
Proof.
  intros. destruct (psk_mutual ci cr id_i id_r psk spi_a spi_b iv iv' assigned) as (req & resp & E1 & E2 & E3 & _); try done.
  by exists req, resp.
Qed.

(** The shared key and the transcript decide: when a responder that shares the
    encryption keys receives a request built with another pre-shared key or over
    another IKE_SA_INIT transcript, it accepts exactly if the two AUTH values
    coincide, and otherwise fails authentication; and symmetrically for the
    initiator and a response. *)
Theorem psk_auth_decides ci cr id_i id_r psk_i psk_r spi_a spi_b iv iv' :
  gcm_sa ci -> gcm_sa cr -> sk_ei (keys ci) = sk_ei (keys cr) -> sk_er (keys ci) = sk_er (keys cr) ->
  id_fits id_i -> id_fits id_r -> u32_ok spi_a -> u32_ok spi_b ->
  bytes_ok iv -> length iv = 8%nat -> bytes_ok iv' -> length iv' = 8%nat ->
  exists request, initiator_auth_request ci (AuthConfig_psk id_i psk_i) spi_a iv = Ok request /\
    if decide (psk_auth psk_i (octets_i ci id_i) = psk_auth psk_r (octets_i cr id_i))
    then exists response,
      responder_process_auth cr request (AuthConfig_psk id_r psk_r) spi_b iv' None =
        Ok (response, id_i, spi_a) /\
      initiator_verify_auth ci response (AuthConfig_psk id_i psk_i) =
        (if decide (psk_auth psk_r (octets_r cr id_r) = psk_auth psk_i (octets_r ci id_r))
         then Ok (id_r, spi_b, None) else Err AuthFailed)
    else responder_process_auth cr request (AuthConfig_psk id_r psk_r) spi_b iv' None = Err AuthFailed.
Proof.
  intros Hci Hcr He Hr' Hi Hr Ha Hb Hiv Lv Hiv' Lv'.
  destruct (psk_request_ok ci id_i psk_i spi_a iv) as (req & first & inner & E1 & _ & E2 & E3); [done..|].
  exists req. split; [done|]. rewrite He in E2.
  pose proof (psk_process_ok cr req id_i (psk_auth_payload psk_i (octets_i ci id_i)) spi_a id_r psk_r spi_b
    iv' None first inner Hcr Hr (proj1 Hi) Ha (psk_auth_wf _ _) Hiv' Lv' ltac:(done) E2 E3) as Hp.
  cbn [auth_meth auth_data psk_auth_payload] in Hp.
  destruct (decide (psk_auth psk_i (octets_i ci id_i) = _)) as [Heq|Heq];
    [|by rewrite decide_False in Hp by (by intros [])].
  rewrite decide_True in Hp by done. destruct Hp as (resp & f' & i' & Ep & Eo2 & Ei2 & _).
  exists resp. split; [done|]. rewrite <- Hr' in Eo2.
  rewrite (psk_verify_ok ci resp id_r (psk_auth_payload psk_r (octets_r cr id_r)) spi_b psk_r id_i psk_i
    None f' i'); [|apply Hr|done|apply psk_auth_wf|done|done|done].
  cbn [auth_meth auth_data psk_auth_payload].
  destruct (decide (psk_auth psk_r (octets_r cr id_r) = _)) as [E|E];
    [by rewrite decide_True|by rewrite decide_False by (by intros [])].
Qed.

(** C5: IKE_AUTH accepts no unproved peer and never panics: on any message, with
    any credentials, each side returns an error or a peer identity for which the
    message, opened under the SA's key, carried a valid proof over that side's own
    IKE_SA_INIT transcript: the pre-shared-key MAC, or a signature by a trusted
    certificate. *)
Theorem ike_auth_sound c message cfg spi iv assigned : bytes_ok message -> length iv = 8%nat ->
  wp (responder_process_auth c message cfg spi iv assigned) (fun '(_, id, peer_spi) =>
    exists ip, auth_accepted message (sk_ei (keys c)) (init_message c) (nr c) (sk_pi (keys c)) cfg
                 id peer_spi ip) /\
  wp (initiator_verify_auth c message cfg) (fun '(id, peer_spi, ip) =>
    auth_accepted message (sk_er (keys c)) (resp_message c) (ni c) (sk_pr (keys c)) cfg id peer_spi ip).
Proof.
  intros. split; [by apply responder_process_auth_wp|by apply initiator_verify_auth_wp].
Qed.
End properties.

Definition example_id_i : Identification := mkId 2 [97; 98].
Definition example_id_r : Identification := mkId 2 [99; 100].

Lemma example_id_i_fits : id_fits example_id_i.
Proof. split; [split; [by split|by repeat constructor]|simpl; lia]. Qed.

Lemma example_id_r_fits : id_fits example_id_r.
Proof. split; [split; [by split|by repeat constructor]|simpl; lia]. Qed.

Lemma psk_mutual_auth_witness : exists request response,
  initiator_auth_request (example_completed Initiator) (AuthConfig_psk example_id_i [1; 2; 3]) 100
    example_iv = Ok request /\
  responder_process_auth (example_completed Responder) request (AuthConfig_psk example_id_r [1; 2; 3])
    200 example_iv None = Ok (response, example_id_i, 100) /\
  initiator_verify_auth (example_completed Initiator) response (AuthConfig_psk example_id_i [1; 2; 3]) =
    Ok (example_id_r, 200, None).
Proof.
  apply (psk_mutual_auth (example_completed Initiator) (example_completed Responder) example_id_i
    example_id_r [1; 2; 3] 100 200 example_iv example_iv None (example_gcm_sa _) (example_gcm_sa _)
    example_same_sa example_id_i_fits example_id_r_fits);
    [by split|by split|exact example_iv_ok|reflexivity|exact example_iv_ok|reflexivity|discriminate].
Defined.

Lemma psk_auth_decides_witness : exists request,
  initiator_auth_request (example_completed Initiator) (AuthConfig_psk example_id_i [1]) 100 example_iv =
    Ok request /\
  responder_process_auth (example_completed Responder) request (AuthConfig_psk example_id_r [2]) 200
    example_iv None = Err AuthFailed.
Proof.
  destruct (psk_auth_decides (example_completed Initiator) (example_completed Responder) example_id_i
    example_id_r [1] [2] 100 200 example_iv example_iv (example_gcm_sa _) (example_gcm_sa _) eq_refl eq_refl
    example_id_i_fits example_id_r_fits) as (request & H1 & H2);
    [by split|by split|exact example_iv_ok|reflexivity|exact example_iv_ok|reflexivity|].
  exists request. split; [exact H1|]. rewrite decide_False in H2; [exact H2|].
  intros E. apply (f_equal be_val) in E. vm_compute in E. discriminate.
Defined.

(** Both sides accept each other, and what they accepted was proved. *)
Lemma ike_auth_sound_witness :
  let ci := example_completed Initiator in
  let cr := example_completed Responder in
  exists request response ip,
    responder_process_auth cr request (AuthConfig_psk example_id_r [1; 2; 3]) 200 example_iv None =
      Ok (response, example_id_i, 100) /\
    auth_accepted request (sk_ei (keys cr)) (init_message cr) (nr cr) (sk_pi (keys cr))
      (AuthConfig_psk example_id_r [1; 2; 3]) example_id_i 100 ip /\
    initiator_verify_auth ci response (AuthConfig_psk example_id_i [1; 2; 3]) = Ok (example_id_r, 200, None) /\
    auth_accepted response (sk_er (keys ci)) (resp_message ci) (ni ci) (sk_pr (keys ci))
      (AuthConfig_psk example_id_i [1; 2; 3]) example_id_r 200 None.
Proof.
  intros ci cr.
  destruct (psk_mutual ci cr example_id_i example_id_r [1; 2; 3] 100 200 example_iv example_iv None)
    as (request & response & E1 & E2 & E3 & Or); [exact (example_gcm_sa _)|exact (example_gcm_sa _)|exact example_same_sa
    |exact example_id_i_fits|exact example_id_r_fits|by split|by split|exact example_iv_ok|reflexivity
    |exact example_iv_ok|reflexivity|discriminate|].
  destruct (psk_request_ok ci example_id_i [1; 2; 3] 100 example_iv (example_gcm_sa _) example_id_i_fits
    example_iv_ok eq_refl) as (m & _ & _ & Em & Om & _). rewrite E1 in Em. injection Em as <-.
  pose proof (proj1 (ike_auth_sound cr request (AuthConfig_psk example_id_r [1; 2; 3]) 200 example_iv None
    Om eq_refl)) as Hr. rewrite E2 in Hr. destruct Hr as [ip Hr].
  exists request, response, ip. split; [exact E2|]. split; [exact Hr|]. split; [exact E3|].
  pose proof (proj2 (ike_auth_sound ci response (AuthConfig_psk example_id_i [1; 2; 3]) 200 example_iv None
    Or eq_refl)) as Hi. rewrite E3 in Hi. exact Hi.
Defined.
