(* ===== verification/Transport.v ===== *)
(** * Transport and driver monad ([src/src/transport.rs], [src/src/tunnel.rs])

    The operating system's UDP socket is an interface: [Transport] is a class over
    the socket's state.  The drivers (the ESP tunnel here, the IKEv2 client and
    server in their own files) are actions of a state monad whose state survives an
    error, as the fields of a Rust struct do when a method returns [Err]. *)
From S2P Require Import Prelude Outcome Primitives Payload Natt Esp.

(** [enum DriverError] *)
Inductive DriverError := Io | Ike (e : IkeError).

Inductive driver (A : Type) :=
| Done (a : A)
| Failed (e : DriverError)
| Panicked.
Arguments Done {A} a.
Arguments Failed {A} e.
Arguments Panicked {A}.

(** ** The socket *)

(** [UdpSocket::recv_from] ([None] is an I/O error or a timeout) and [send_to]
    ([false] is an I/O error). *)
Class Transport (Sock : Type) := {
  recv_from : Sock -> option (bytes * SocketAddr) * Sock;
  send_to : bytes -> SocketAddr -> Sock -> bool * Sock }.

(** A datagram is a sequence of octets. *)
Class TransportLaws (Sock : Type) `{!Transport Sock} : Prop :=
  recv_bytes n data from n' : recv_from n = (Some (data, from), n') -> bytes_ok data.

(** ** Actions on a state *)
Definition action (S A : Type) : Type := S -> driver A * S.

Definition act_ret {S A} (a : A) : action S A := fun s => (Done a, s).

Definition act_bind {S A B} (m : action S A) (k : A -> action S B) : action S B := fun s =>
  match m s with
  | (Done a, s') => k a s'
  | (Failed e, s') => (Failed e, s')
  | (Panicked, s') => (Panicked, s')
  end.

Declare Scope action_scope.
Delimit Scope action_scope with action.
Notation "'let!' x := m 'in' k" := (act_bind m (fun x => k))
  (at level 10, x name, k at level 200) : action_scope.
Notation "'let!' ' p := m 'in' k" := (act_bind m (fun p => k))
  (at level 10, p pattern, k at level 200) : action_scope.

(** [m?] for a result of the protocol code *)
Definition ike {S A} (m : outcome A) : action S A := fun s =>
  match m with Ok a => (Done a, s) | Err e => (Failed (Ike e), s) | Panic => (Panicked, s) end.

Definition gets {S A} (f : S -> A) : action S A := fun s => (Done (f s), s).
Definition modify {S} (f : S -> S) : action S unit := fun s => (Done tt, f s).

(** Run an action on a field of the state. *)
Definition zoom {S T A} (get : S -> T) (put : T -> S -> S) (m : action T A) : action S A := fun s =>
  let '(r, t) := m (get s) in (r, put t s).

(** [self.transport.recv_from()?] and [self.transport.send_to(..)?] *)
Definition recv `{Transport Sock} : action Sock (bytes * SocketAddr) := fun n =>
  match recv_from n with
  | (Some d, n') => (Done d, n')
  | (None, n') => (Failed Io, n')
  end.
Definition send `{Transport Sock} (data : bytes) (to : SocketAddr) : action Sock unit := fun n =>
  match send_to data to n with
  | (true, n') => (Done tt, n')
  | (false, n') => (Failed Io, n')
  end.

(** A total function on a field, such as drawing from the entropy source. *)
Definition draw {G A} (f : G -> A * G) : action G A := fun g => let '(a, g') := f g in (Done a, g').

(** ** What holds after an action, whatever it returns *)
Definition act_wp {S A} (m : action S A) (Q : driver A -> S -> Prop) (s : S) : Prop :=
  let '(r, s') := m s in r <> Panicked /\ Q r s'.

Section act_rules.
Context {S A B : Type}.

Lemma act_wp_bind (m : action S A) (k : A -> action S B) (Q : driver B -> S -> Prop) s :
  act_wp m (fun r s' => match r with
    | Done a => act_wp (k a) Q s'
    | Failed e => Q (Failed e) s'
    | Panicked => False end) s -> act_wp (act_bind m k) Q s.
Proof. unfold act_wp, act_bind. destruct (m s) as [[a|e|] s']; [by intros [_ ?]|intros [_ ?]; done|by intros [[] _]]. Qed.

Lemma act_bind_done (m : action S A) (k : A -> action S B) s a s' : m s = (Done a, s') -> act_bind m k s = k a s'.
Proof. unfold act_bind. by intros ->. Qed.

Lemma act_wp_mono (m : action S A) (P Q : driver A -> S -> Prop) s :
  (forall r s', P r s' -> Q r s') -> act_wp m P s -> act_wp m Q s.
Proof. unfold act_wp. destruct (m s). intros HQ [? ?]. auto. Qed.

Lemma act_wp_ike (m : outcome A) (P : A -> Prop) (Q : driver A -> S -> Prop) s :
  wp m P -> (forall a, P a -> m = Ok a -> Q (Done a) s) -> (forall e, m = Err e -> Q (Failed (Ike e)) s) ->
  act_wp (ike m) Q s.
Proof. unfold act_wp, ike. destruct m; simpl; naive_solver. Qed.

Lemma act_wp_ret (a : A) (Q : driver A -> S -> Prop) s : Q (Done a) s -> act_wp (act_ret a) Q s.
Proof. done. Qed.

Lemma act_wp_gets (f : S -> A) (Q : driver A -> S -> Prop) s : Q (Done (f s)) s -> act_wp (gets f) Q s.
Proof. done. Qed.
End act_rules.

Lemma ike_ok {S A} (m : outcome A) (a : A) (s : S) : m = Ok a -> ike m s = (Done a, s).
Proof. by intros ->. Qed.

Lemma zoom_draw {S G A} (get : S -> G) (put : G -> S -> S) (f : G -> A * G) s a g :
  f (get s) = (a, g) -> zoom get put (draw f) s = (Done a, put g s).
Proof. unfold zoom, draw. by intros ->. Qed.

Lemma zoom_done {S T A} (get : S -> T) (put : T -> S -> S) (m : action T A) s a t :
  m (get s) = (Done a, t) -> zoom get put m s = (Done a, put t s).
Proof. unfold zoom. by intros ->. Qed.

(** Run the first action of a sequence, given its result. *)
Tactic Notation "act_step" tactic3(t) := erewrite act_bind_done by t; cbv beta iota.

Section net_rules.
Context `{Transport Sock} {S : Type} (get : S -> Sock) (put : Sock -> S -> S).

Lemma act_wp_recv (Q : driver (bytes * SocketAddr) -> S -> Prop) s :
  (forall n, recv_from (get s) = (None, n) -> Q (Failed Io) (put n s)) ->
  (forall d n, recv_from (get s) = (Some d, n) -> Q (Done d) (put n s)) ->
  act_wp (zoom get put recv) Q s.
Proof. unfold act_wp, zoom, recv. destruct (recv_from (get s)) as [[]]; naive_solver. Qed.

Lemma act_wp_send data to (Q : driver unit -> S -> Prop) s :
  (forall n, Q (Failed Io) (put n s)) -> (forall n, Q (Done tt) (put n s)) ->
  act_wp (zoom get put (send data to)) Q s.
Proof. unfold act_wp, zoom, send. destruct (send_to data to (get s)) as [[]]; naive_solver. Qed.
End net_rules.

Lemma act_wp_draw {S G A} (get : S -> G) (put : G -> S -> S) (f : G -> A * G)
    (Q : driver A -> S -> Prop) s :
  Q (Done (f (get s)).1) (put (f (get s)).2 s) -> act_wp (zoom get put (draw f)) Q s.
Proof. unfold act_wp, zoom, draw. destruct (f (get s)). naive_solver. Qed.

(** ** A pair of queues as a socket; what arrives are octets *)
Record Mailbox := mkMailbox { inbox : list (bytes * SocketAddr); outbox : list (bytes * SocketAddr) }.

#[export] Instance Mailbox_transport : Transport Mailbox := {
  recv_from m := match inbox m with
    | [] => (None, m)
    | (d, from) :: rest => (Some (as_u8 <$> d, from), mkMailbox rest (outbox m)) end;
  send_to data to m := (true, mkMailbox (inbox m) (outbox m ++ [(data, to)])) }.

#[export] Instance Mailbox_laws : TransportLaws Mailbox.
Proof.
  intros [[|[d f] rest] out] data from n' Hr; [done|]. injection Hr as <- _ _.
  apply Forall_fmap, Forall_true. intros x. by apply Z.mod_pos_bound.
Qed.

Lemma octets_id d : bytes_ok d -> as_u8 <$> d = d.
Proof. induction 1 as [|x l Hx _ IH]; [done|]. cbn. unfold as_u8 at 1. by rewrite Z.mod_small, IH. Qed.

(** ** The ESP tunnel *)
Record Tunnel (Sock : Type) := mkTunnel { tun_sa : ChildSa; tun_transport : Sock; tun_peer : SocketAddr }.
Arguments mkTunnel {Sock} tun_sa tun_transport tun_peer.
Arguments tun_sa {Sock} _.
Arguments tun_transport {Sock} _.
Arguments tun_peer {Sock} _.

Section tunnel.
Context `{!Primitives, Transport Sock}.
Open Scope action_scope.

Definition put_tun_transport (n : Sock) (t : Tunnel Sock) : Tunnel Sock := mkTunnel (tun_sa t) n (tun_peer t).
Definition put_outbound (sa : EspSa) (t : Tunnel Sock) : Tunnel Sock :=
  mkTunnel (mkChildSa sa (inbound (tun_sa t))) (tun_transport t) (tun_peer t).

(** [self.sa.outbound.seal(..)?]: the counter advances even when sending fails. *)
Definition tun_seal (inner : bytes) (nh : Z) : action (Tunnel Sock) bytes := fun t =>
  let '(r, sa) := EspSa_seal (outbound (tun_sa t)) inner nh in
  ike r (put_outbound sa t).

Definition Tunnel_send (inner : bytes) (nh : Z) : action (Tunnel Sock) unit :=
  let! packet := tun_seal inner nh in
  let! to := gets tun_peer in
  let! _ := zoom tun_transport put_tun_transport (send packet to) in
  act_ret tt.

Definition Tunnel_recv : action (Tunnel Sock) (bytes * Z) :=
  let! '(packet, _) := zoom tun_transport put_tun_transport recv in
  let! sa := gets (fun t => inbound (tun_sa t)) in
  ike (EspSa_open sa packet).
End tunnel.

(** ** Properties *)

(** Two directions that belong together: what one seals, the other opens. *)
Definition same_esp (x y : EspSa) : Prop :=
  esp_spi x = esp_spi y /\ esp_key x = esp_key y /\ esp_salt x = esp_salt y.

Section properties.
Context `{!Primitives, !AeadLaws, Transport Sock, TransportLaws Sock2}.

(** The tunnel carries packets: sending seals the packet under a fresh sequence
    number, which is spent even when the socket fails; the datagram handed to the
    socket for the peer is opened, by any tunnel whose inbound direction matches and
    in whatever state, to exactly the packet and next header that were sent; once
    the sequence space is used up, sending is an error and nothing is handed to the
    socket.  Receiving never panics, whatever arrives, and changes no SA state. *)
Theorem tunnel_delivers (t : Tunnel Sock) (t' : Tunnel Sock2) inner nh :
  EspSa_wf (outbound (tun_sa t)) -> same_esp (outbound (tun_sa t)) (inbound (tun_sa t')) ->
  Z.of_nat (length inner) + 5 <= 2 ^ 36 ->
  (if decide (esp_seq (outbound (tun_sa t)) + 1 < 2 ^ 32) then
     exists packet, let '(sent, n) := send_to packet (tun_peer t) (tun_transport t) in
       Tunnel_send inner nh t =
         (if sent then Done tt else Failed Io,
          mkTunnel (mkChildSa (esp_next (outbound (tun_sa t))) (inbound (tun_sa t))) n (tun_peer t)) /\
       forall from m, recv_from (tun_transport t') = (Some (packet, from), m) ->
         Tunnel_recv t' = (Done (inner, nh), put_tun_transport m t')
   else Tunnel_send inner nh t = (Failed (Ike esp_exhausted), t)) /\
  act_wp Tunnel_recv (fun _ t'' => tun_sa t'' = tun_sa t' /\ tun_peer t'' = tun_peer t') t'.
Proof.
  intros Hwf (E1 & E2 & E3) Hl. split.
  - unfold Tunnel_send, tun_seal, act_bind. case_decide as Hs.
    + destruct (seal_open (outbound (tun_sa t)) (inbound (tun_sa t')) inner nh) as (p & Ep & Eo & _); try done.
      pose proof (seal_state (outbound (tun_sa t)) inner nh Hs) as Es.
      exists p. destruct (send_to p (tun_peer t) (tun_transport t)) as [sent n] eqn:En.
      destruct (EspSa_seal (outbound (tun_sa t)) inner nh) as [r sa]. cbn [fst snd] in *. subst r sa. split.
      * cbn [ike gets]. unfold zoom, send. cbn [put_outbound tun_transport tun_peer]. rewrite En.
        by destruct sent.
      * intros from m Hm. unfold Tunnel_recv, act_bind, zoom, recv. rewrite Hm.
        cbn [gets put_tun_transport tun_sa]. unfold ike. by rewrite Eo.
    + rewrite seal_exhausted by lia. by destruct t as [[] ? ?].
  - unfold Tunnel_recv. apply act_wp_bind, act_wp_recv; [done|]. intros [d from] m Hd.
    apply act_wp_bind, act_wp_gets. eapply act_wp_ike; [apply esp_open_wp; by eapply recv_bytes|done|done].
Qed.
End properties.

Definition example_addr : SocketAddr := mkSocketAddr (V4 (mkIpv4 10 0 0 1)) 4500.

Definition example_tunnel (received : list bytes) : Tunnel Mailbox :=
  mkTunnel (mkChildSa example_esp example_esp) (mkMailbox ((fun d => (d, example_addr)) <$> received) [])
    example_addr.

Lemma tunnel_delivers_witness :
  (exists packet, outbox (tun_transport (Tunnel_send [1; 2; 3] 4 (example_tunnel [])).2) =
     [(packet, example_addr)]) /\
  act_wp Tunnel_recv (fun _ t => tun_sa t = mkChildSa example_esp example_esp) (example_tunnel [[1; 2; 3]]).
Proof.
  destruct (tunnel_delivers (example_tunnel []) (example_tunnel [[1; 2; 3]]) [1; 2; 3] 4 example_esp_wf)
    as [H1 H2]; [by split_and!|simpl; lia|]. split.
  - rewrite decide_True in H1 by (simpl; lia). destruct H1 as (p & H1). cbn in H1.
    destruct H1 as [H1 _]. rewrite H1. by exists p.
  - eapply act_wp_mono; [|exact H2]. by intros r t [H _].
Defined.
