(* ===== verification/Rekey.v ===== *)
(** * Rekeying ([src/src/ikev2/rekey.rs], [src/src/ikev2/ike_rekey.rs])

    CREATE_CHILD_SA: both roles of a CHILD SA rekey, and the responder of an IKE SA
    rekey.  Either end of the IKE SA may start a rekey.  (The trace that the
    environment variable [RYKE_REKEY_TRACE] enables is output only.) *)
From S2P Require Import Prelude Outcome Wire Primitives Entropy Message Payload Crypto Sk Negotiate Esp Natt Exchange Informational Sign IkeAuth Transport.

Definition create_child_header (sa : CompletedSaInit) (mid : Z) (is_response : bool) : IkeHeader := {|
  initiator_spi := spi_i sa;
  responder_spi := spi_r sa;
  next_payload := NoNext;
  major_version := 2;
  minor_version := 0;
  exchange_type := CreateChildSa;
  flags := mkFlags (bool_decide (c_role sa = Initiator)) false is_response;
  message_id := mid;
  hdr_length := 0 |}.

(** [proposal.spi[..n].try_into().unwrap()], after the length check *)
Definition rekey_esp_spi_from_sa (sa_bytes : bytes) : outcome Z :=
  sa ← SecurityAssociation_parse sa_bytes;
  proposal ← ok_or (head (proposals sa)) NoProposalChosen;
  if decide (length (prop_spi proposal) <> 4%nat) then Err (Crypto "expected a 4-byte ESP SPI")
  else be_uint 4 (prop_spi proposal) 0 4.

Definition sa_nonce_step (st : option bytes * option bytes) (p : RawPayload)
    : outcome (option bytes * option bytes) :=
  let '(sa, nonce) := st in
  match payload_type p with
  | PSecurityAssociation => Ok (Some (data p), nonce)
  | PNonce => Ok (sa, Some (data p))
  | _ => Ok st
  end.

Definition find_sa_and_nonce (first : PayloadType) (inner : bytes) : outcome (bytes * bytes) :=
  '(sa, nonce) ← for_each sa_nonce_step (payload_items first inner) (None, None);
  s ← ok_or sa (MissingPayload "SA");
  n ← ok_or nonce (MissingPayload "Nonce");
  Ok (s, n).

Definition ts_step (st : option bytes * option bytes) (p : RawPayload)
    : outcome (option bytes * option bytes) :=
  let '(tsi, tsr) := st in
  match payload_type p with
  | PTrafficSelectorInitiator => Ok (Some (data p), tsr)
  | PTrafficSelectorResponder => Ok (tsi, Some (data p))
  | _ => Ok st
  end.

Definition rekey_notify (rekeyed_spi : Z) : Notify := {|
  n_protocol := protocol_id.ESP;
  n_spi := be_bytes 4 rekeyed_spi;
  n_type := notify_type.REKEY_SA;
  n_data := [] |}.

Section rekey.
Context `{!Primitives}.

Definition build_rekey_request (sa : CompletedSaInit) (mid rekeyed_spi new_spi : Z) (ni iv : bytes)
    : outcome bytes :=
  let inner :=
    [(PNotify, Notify_to_bytes (rekey_notify rekeyed_spi));
     (PSecurityAssociation, SecurityAssociation_to_bytes (esp_offer new_spi));
     (PNonce, ni);
     (PTrafficSelectorInitiator, full_tunnel_ts);
     (PTrafficSelectorResponder, full_tunnel_ts)] in
  build_encrypted_gcm (create_child_header sa mid false) (first_payload_type inner)
    (encode_payload_chain inner) (our_sk_e sa) iv.

Definition rekey_response_chain (new_spi : Z) (nr tsi tsr : bytes) : PayloadChain :=
  [(PSecurityAssociation, SecurityAssociation_to_bytes (esp_offer new_spi));
   (PNonce, nr);
   (PTrafficSelectorInitiator, tsi);
   (PTrafficSelectorResponder, tsr)].

(** The selectors of the response: the assigned host, or an echo. *)
Definition rekey_selectors (assigned_ip : option Ipv4Addr) (echo_tsi echo_tsr : option bytes)
    : bytes * bytes :=
  match assigned_ip with
  | Some ip => (TrafficSelectors_to_bytes {| selectors := [ipv4_host ip] |}, full_tunnel_ts)
  | None => (default full_tunnel_ts echo_tsi, default full_tunnel_ts echo_tsr)
  end.

Definition responder_process_rekey (sa : CompletedSaInit) (request : bytes) (new_spi : Z)
    (nr iv : bytes) (assigned_ip : option Ipv4Addr) : outcome (bytes * ChildSa) :=
  h ← IkeHeader_parse request;
  '(first, inner) ← open_encrypted_gcm request (peer_sk_e sa);
  '(sa_bytes, ni) ← find_sa_and_nonce first inner;
  peer_spi ← rekey_esp_spi_from_sa sa_bytes;
  '(echo_tsi, echo_tsr) ← for_each ts_step (payload_items first inner) (None, None);
  let '(tsi, tsr) := rekey_selectors assigned_ip echo_tsi echo_tsr in
  child ← ChildSa_derive (sk_d (keys sa)) ni nr Responder new_spi peer_spi;
  let inner_out := rekey_response_chain new_spi nr tsi tsr in
  response ← build_encrypted_gcm (create_child_header sa (message_id h) true)
    (first_payload_type inner_out) (encode_payload_chain inner_out) (our_sk_e sa) iv;
  Ok (response, child).

Definition initiator_complete_rekey (sa : CompletedSaInit) (ni : bytes) (new_spi : Z)
    (response : bytes) : outcome ChildSa :=
  '(first, inner) ← open_encrypted_gcm response (peer_sk_e sa);
  '(sa_bytes, nr) ← find_sa_and_nonce first inner;
  peer_spi ← rekey_esp_spi_from_sa sa_bytes;
  ChildSa_derive (sk_d (keys sa)) ni nr Initiator new_spi peer_spi.
End rekey.

(** ** IKE SA rekey *)
Definition is_ike_sa_rekey (inner : PayloadChain) : bool :=
  let has_ke := existsb (fun '(t, _) => bool_decide (t = PKeyExchange)) inner in
  let has_ts := existsb (fun '(t, _) =>
    bool_decide (t = PTrafficSelectorInitiator) || bool_decide (t = PTrafficSelectorResponder)) inner in
  has_ke && negb has_ts.

Record IkeRekeyAcc := mkRekeyAcc {
  ra_sa : option bytes;
  ra_ni : option bytes;
  ra_ke : option bytes }.

Definition ike_rekey_step (st : IkeRekeyAcc) (p : RawPayload) : outcome IkeRekeyAcc :=
  let 'mkRekeyAcc sa n ke := st in
  match payload_type p with
  | PSecurityAssociation => Ok (mkRekeyAcc (Some (data p)) n ke)
  | PNonce => Ok (mkRekeyAcc sa (Some (data p)) ke)
  | PKeyExchange => Ok (mkRekeyAcc sa n (Some (data p)))
  | _ => Ok st
  end.

(** [prop.protocol_id = IKE; prop.spi = new_spi_r.to_be_bytes().to_vec()] *)
Definition rekey_proposal (s : ChosenSuite) (new_spi_r : Z) : Proposal :=
  {| prop_num := prop_num (to_proposal s); prop_protocol := protocol_id.IKE;
     prop_spi := be_bytes 8 new_spi_r; transforms := transforms (to_proposal s) |}.

Definition ike_rekey_response_chain (s : ChosenSuite) (new_spi_r : Z) (nr public : bytes) : PayloadChain :=
  [(PSecurityAssociation, SecurityAssociation_to_bytes (mkSA [rekey_proposal s new_spi_r]));
   (PNonce, nr);
   (PKeyExchange, KeyExchange_to_bytes (mkKE (dh_id s) public))].

Definition responder_process_ike_rekey `{!Primitives} (old_sa : CompletedSaInit) (request : bytes)
    (new_spi_r : Z) (private nr iv : bytes) : outcome (bytes * CompletedSaInit) :=
  h ← IkeHeader_parse request;
  '(first, inner) ← open_encrypted_gcm request (peer_sk_e old_sa);
  st ← for_each ike_rekey_step (payload_items first inner) (mkRekeyAcc None None None);
  sa_bytes ← ok_or (ra_sa st) (MissingPayload "SA");
  ni ← ok_or (ra_ni st) (MissingPayload "Nonce");
  ke_bytes ← ok_or (ra_ke st) (MissingPayload "KE");
  ke ← KeyExchange_parse ke_bytes;
  sa ← SecurityAssociation_parse sa_bytes;
  proposal ← ok_or (head (proposals sa)) NoProposalChosen;
  if decide (length (prop_spi proposal) <> 8%nat) then Err (Crypto "expected an 8-byte IKE SPI") else
  spi_i ← be_uint 8 (prop_spi proposal) 0 8;
  suite ← ok_or (select sa) NoProposalChosen;
  group ← ok_or (DhGroup_from_transform_id (dh_id suite)) NoProposalChosen;
  if decide (dh_group ke <> DhGroup_transform_id group)
  then Err (DhGroupMismatch (DhGroup_transform_id group) (dh_group ke)) else
  shared ← DhGroup_shared group private (ke_data ke);
  our_public ← DhGroup_public group private;
  keys ← derive_rekey_session_keys (sk_d (keys old_sa)) shared ni nr spi_i new_spi_r (key_lengths suite);
  let inner_out := ike_rekey_response_chain suite new_spi_r nr our_public in
  response ← build_encrypted_gcm (create_child_header old_sa (message_id h) true)
    (first_payload_type inner_out) (encode_payload_chain inner_out) (our_sk_e old_sa) iv;
  Ok (response, {| c_role := Responder; spi_i := spi_i; spi_r := new_spi_r; suite := suite; keys := keys;
                   ni := ni; nr := nr; init_message := []; resp_message := [];
                   peer_signature_hashes := peer_signature_hashes old_sa |}).

(** ** Lemmas *)

(** What one end seals, the other opens, both ways. *)
Definition child_pair (a b : ChildSa) : Prop :=
  same_esp (outbound a) (inbound b) /\ same_esp (outbound b) (inbound a).

Lemma derive_child_pair `{!Primitives, !HmacLaws} skd n1 n2 x y : exists ca cb,
  ChildSa_derive skd n1 n2 Initiator x y = Ok ca /\ ChildSa_derive skd n1 n2 Responder y x = Ok cb /\
  child_pair ca cb /\ esp_spi (inbound ca) = x /\ esp_spi (inbound cb) = y /\
  esp_seq (outbound ca) = 0 /\ esp_seq (outbound cb) = 0.
Proof.
  destruct (ChildSa_derive_ok skd n1 n2 x y) as (k & _ & _ & _ & -> & ->).
  eexists _, _. by split_and!.
Qed.

Definition nonce_fits (n : bytes) : Prop := bytes_ok n /\ Z.of_nat (length n) <= 60000.

Lemma nonce_entry n : nonce_fits n -> chain_entry_wf (PNonce, n).
Proof. intros [Hn Hl]. split_and!; [by split|done|done|simpl; lia]. Qed.

Lemma esp_offer_rekey_spi spi : u32_ok spi ->
  rekey_esp_spi_from_sa (SecurityAssociation_to_bytes (esp_offer spi)) = Ok spi.
Proof.
  intros Hs. unfold rekey_esp_spi_from_sa. rewrite SA_roundtrip by apply esp_offer_wf.
  cbn [mbind outcome_bind esp_offer proposals head ok_or prop_spi].
  rewrite decide_False by (rewrite length_be_bytes; auto).
  change (be_uint 4 (be_bytes 4 spi) 0 4) with (Ok (be_val (be_bytes 4 spi))).
  by rewrite be_val_be_bytes.
Qed.

Lemma create_child_header_wf c mid r : CompletedSaInit_wf c -> u32_ok mid ->
  IkeHeader_wf (create_child_header c mid r).
Proof. intros [] ?. constructor; simpl; try done; by split. Qed.

Definition rekey_request_chain (rekeyed new_spi : Z) (n : bytes) : PayloadChain :=
  [(PNotify, Notify_to_bytes (rekey_notify rekeyed));
   (PSecurityAssociation, SecurityAssociation_to_bytes (esp_offer new_spi));
   (PNonce, n);
   (PTrafficSelectorInitiator, full_tunnel_ts);
   (PTrafficSelectorResponder, full_tunnel_ts)].

Lemma rekey_notify_wf spi : Notify_wf (rekey_notify spi).
Proof.
  constructor; cbn [rekey_notify n_protocol n_spi n_type n_data];
    [by split|apply be_bytes_ok|rewrite length_be_bytes; lia|by split|constructor].
Qed.

Lemma rekey_request_fits rekeyed new_spi n : nonce_fits n -> chain_fits (rekey_request_chain rekeyed new_spi n).
Proof.
  intros Hn. apply chain_fits_intro.
  - apply Forall_cons_2; [apply notify_entry_wf; [apply rekey_notify_wf|simpl; lia]|].
    apply Forall_cons_2; [apply esp_offer_entry|].
    apply Forall_cons_2; [by apply nonce_entry|].
    apply Forall_cons_2; [by apply full_tunnel_entry|]. by apply Forall_singleton, full_tunnel_entry.
  - destruct Hn as [_ Hl]. cbn [rekey_request_chain fmap list_fmap sum_list_with snd].
    change (length (SecurityAssociation_to_bytes (esp_offer new_spi))) with 32%nat.
    change (length (Notify_to_bytes (rekey_notify rekeyed))) with 8%nat.
    change (length full_tunnel_ts) with 20%nat. unfold Datatypes.id. lia.
Qed.

Lemma rekey_response_fits new_spi n tsi tsr : nonce_fits n -> bytes_ok tsi -> bytes_ok tsr ->
  (length tsi <= 1000)%nat -> (length tsr <= 1000)%nat -> chain_fits (rekey_response_chain new_spi n tsi tsr).
Proof.
  intros Hn Hi Hr Li Lr. apply chain_fits_intro.
  - apply Forall_cons_2; [apply esp_offer_entry|]. apply Forall_cons_2; [by apply nonce_entry|].
    apply Forall_cons_2; [|apply Forall_singleton]; (split_and!; [by split|done|done|simpl; lia]).
  - destruct Hn as [_ Hl]. cbn [rekey_response_chain fmap list_fmap sum_list_with snd].
    change (length (SecurityAssociation_to_bytes (esp_offer new_spi))) with 32%nat.
    unfold Datatypes.id. lia.
Qed.

Section child.
Context `{!Primitives, !HmacLaws, !AeadLaws}.

(** The selectors the responder of a rekey answers to a request of this module. *)
Definition answered_selectors (assigned : option Ipv4Addr) : bytes * bytes :=
  rekey_selectors assigned (Some full_tunnel_ts) (Some full_tunnel_ts).

Lemma answered_selectors_ok assigned : (forall ip, assigned = Some ip -> Ipv4_wf ip) ->
  bytes_ok (answered_selectors assigned).1 /\ bytes_ok (answered_selectors assigned).2 /\
  (length (answered_selectors assigned).1 <= 1000)%nat /\
  (length (answered_selectors assigned).2 <= 1000)%nat.
Proof.
  intros Hip. assert (Hf : bytes_ok full_tunnel_ts) by (by repeat constructor).
  destruct assigned as [ip|]; cbn [answered_selectors rekey_selectors fst snd default].
  - split_and!; [|done|destruct ip; vm_compute; lia|vm_compute; lia].
    specialize (Hip ip eq_refl). apply TrafficSelectors_to_bytes_ok. split; [|done].
    apply Forall_singleton. constructor; simpl; try done; by destruct ip.
  - split_and!; [done|done|vm_compute; lia|vm_compute; lia].
Qed.

Lemma rekey_agree a b mid rekeyed spi_a spi_b n1 n2 iv iv' assigned :
  gcm_sa a -> gcm_sa b -> same_sa a b -> u32_ok mid -> u32_ok spi_a -> u32_ok spi_b ->
  nonce_fits n1 -> nonce_fits n2 -> bytes_ok iv -> length iv = 8%nat -> bytes_ok iv' -> length iv' = 8%nat ->
  (forall ip, assigned = Some ip -> Ipv4_wf ip) ->
  exists request response ca cb h first inner,
    build_rekey_request a mid rekeyed spi_a n1 iv = Ok request /\
    responder_process_rekey b request spi_b n2 iv' assigned = Ok (response, cb) /\
    initiator_complete_rekey a n1 spi_a response = Ok ca /\
    child_pair ca cb /\ esp_spi (inbound ca) = spi_a /\ esp_spi (inbound cb) = spi_b /\
    esp_seq (outbound ca) = 0 /\ esp_seq (outbound cb) = 0 /\
    IkeHeader_parse response = Ok h /\ message_id h = mid /\
    open_encrypted_gcm response (peer_sk_e a) = Ok (first, inner) /\
    payload_items first inner = Ok <$> (raw <$> rekey_response_chain spi_b n2
      (answered_selectors assigned).1 (answered_selectors assigned).2).
Proof.
  intros Ha Hb Hab Hmid Hsa Hsb Hn1 Hn2 Hiv Lv Hiv' Lv' Hip.
  destruct (seal_chain_open (create_child_header a mid false) (rekey_request_chain rekeyed spi_a n1)
    (our_sk_e a) iv) as (req & E1 & _ & E3 & E4 & E5); try done;
    [by apply create_child_header_wf; [apply Ha|]|by apply rekey_request_fits|by apply our_sk_e_length|].
  destruct (answered_selectors_ok assigned Hip) as (Ti & Tr & Li & Lr).
  destruct (seal_chain_open (create_child_header b mid true) (rekey_response_chain spi_b n2
    (answered_selectors assigned).1 (answered_selectors assigned).2) (our_sk_e b) iv')
    as (resp & F1 & _ & F3 & F4 & F5); try done;
    [by apply create_child_header_wf; [apply Hb|]|by apply rekey_response_fits|by apply our_sk_e_length|].
  destruct (derive_child_pair (sk_d (keys b)) n1 n2 spi_a spi_b) as (ca & cb & Da & Db & Hp & ? & ? & ? & ?).
  assert (Hk : keys a = keys b) by apply Hab.
  eexists req, resp, ca, cb, _, _, _. split_and!; try done.
  - unfold responder_process_rekey. rewrite E3. cbn [mbind outcome_bind].
    rewrite (same_sa_keys a b) by done. rewrite E4. cbn [mbind outcome_bind].
    unfold find_sa_and_nonce. rewrite E5. cbn [rekey_request_chain fmap list_fmap for_each mbind outcome_bind raw
      sa_nonce_step payload_type data fst snd ok_or].
    rewrite esp_offer_rekey_spi by done.
    cbn [for_each mbind outcome_bind ts_step payload_type data raw fst snd].
    change (rekey_selectors _ _ _) with (answered_selectors assigned). rewrite (surjective_pairing (answered_selectors assigned)).
    rewrite Db. cbn [mbind outcome_bind fst snd].
    change (message_id (sk_header _ _)) with mid. by rewrite F1.
  - unfold initiator_complete_rekey. rewrite (same_sa_keys b a) by by apply same_sa_sym.
    rewrite F4. cbn [mbind outcome_bind]. unfold find_sa_and_nonce. rewrite F5.
    cbn [rekey_response_chain fmap list_fmap for_each mbind outcome_bind raw
      sa_nonce_step payload_type data fst snd ok_or].
    rewrite esp_offer_rekey_spi by done. cbn [mbind outcome_bind]. by rewrite Hk.
  - by rewrite (same_sa_keys b a) by by apply same_sa_sym.
Qed.
End child.

(** ** The IKE SA rekey *)
Definition ike_rekey_request_chain (offer : SecurityAssociation) (n : bytes) (g : DhGroup) (public : bytes)
    : PayloadChain :=
  [(PSecurityAssociation, SecurityAssociation_to_bytes offer);
   (PNonce, n);
   (PKeyExchange, KeyExchange_to_bytes (mkKE (DhGroup_transform_id g) public))].

Lemma ke_entry g public : bytes_ok public -> length public = public_len g ->
  chain_entry_wf (PKeyExchange, KeyExchange_to_bytes (mkKE (DhGroup_transform_id g) public)) /\
  Z.of_nat (length (KeyExchange_to_bytes (mkKE (DhGroup_transform_id g) public))) <= 260.
Proof.
  intros Hp Hl.
  assert (Hlen : length (KeyExchange_to_bytes (mkKE (DhGroup_transform_id g) public)) = (4 + length public)%nat)
    by done.
  assert (Hb : (public_len g <= 256)%nat) by (destruct g; simpl; lia).
  split; [|lia]. split_and!; [by split|done| |cbn [snd]; rewrite Hlen; lia].
  apply KeyExchange_to_bytes_ok. split; [by destruct g|done].
Qed.

Lemma rekey_proposal_sa_wf s spi : supported_suite s -> SecurityAssociation_wf (mkSA [rekey_proposal s spi]).
Proof.
  intros Hs. apply Forall_singleton. destruct (to_proposal_wf s Hs).
  constructor; cbn [rekey_proposal prop_num prop_protocol prop_spi transforms]; try done.
  - apply be_bytes_ok.
  - destruct Hs as [m g|m g]; vm_compute; reflexivity.
Qed.

(** The SA payload that answers a rekey is an echo of the chosen suite. *)
Lemma select_rekey_proposal s spi : supported_suite s -> select (mkSA [rekey_proposal s spi]) = Some s.
Proof. intros [n g Hn|n g Hn]; by destruct g. Qed.

Lemma ike_rekey_response_fits s spi n g public : supported_suite s -> nonce_fits n ->
  DhGroup_from_transform_id (dh_id s) = Some g -> bytes_ok public -> length public = public_len g ->
  chain_fits (ike_rekey_response_chain s spi n public).
Proof.
  intros Hs Hn Hg Hp Hl. unfold ike_rekey_response_chain.
  apply DhGroup_to_from in Hg as <-. destruct (ke_entry g public Hp Hl) as [Hke Lke].
  assert (Lsa : (length (SecurityAssociation_to_bytes (mkSA [rekey_proposal s spi])) <= 72)%nat).
  { destruct Hs as [m g'|m g']; vm_compute; lia. }
  apply chain_fits_intro.
  - apply Forall_cons_2; [|apply Forall_cons_2; [by apply nonce_entry|by apply Forall_singleton]].
    split_and!; [by split|done|by apply SA_to_bytes_ok, rekey_proposal_sa_wf|cbn [snd]; lia].
  - destruct Hn as [_ Hn]. cbn [fmap list_fmap sum_list_with snd]. unfold Datatypes.id. lia.
Qed.

Section ike.
Context `{!Primitives, !HmacLaws, !AeadLaws, !BigUintLaws, !X25519Laws}.

(** Reading the payloads of a rekey request that opened to this module's chain. *)
Lemma ike_rekey_read offer n g public : SecurityAssociation_wf offer -> bytes_ok public ->
  for_each ike_rekey_step (Ok <$> (raw <$> ike_rekey_request_chain offer n g public))
    (mkRekeyAcc None None None) =
  Ok (mkRekeyAcc (Some (SecurityAssociation_to_bytes offer)) (Some n)
        (Some (KeyExchange_to_bytes (mkKE (DhGroup_transform_id g) public)))) /\
  SecurityAssociation_parse (SecurityAssociation_to_bytes offer) = Ok offer /\
  KeyExchange_parse (KeyExchange_to_bytes (mkKE (DhGroup_transform_id g) public)) =
    Ok (mkKE (DhGroup_transform_id g) public).
Proof.
  intros Ho Hp. split_and!; [done|by apply SA_roundtrip|].
  apply KeyExchange_roundtrip. split; [by destruct g|done].
Qed.

Record rekey_initiator (a : CompletedSaInit) (offer : SecurityAssociation) (new_i : Z)
    (s : ChosenSuite) (g : DhGroup) (private n public : bytes) : Prop := {
  ri_offer : SecurityAssociation_wf offer;
  ri_spi : exists p, head (proposals offer) = Some p /\ prop_spi p = be_bytes 8 new_i;
  ri_spi_ok : u64_ok new_i;
  ri_suite : select offer = Some s;
  ri_group : DhGroup_from_transform_id (dh_id s) = Some g;
  ri_nonce : bytes_ok n;
  ri_private : bytes_ok private /\ (32 <= length private)%nat;
  ri_public : DhGroup_public g private = Ok public /\ peer_acceptable g public;
  ri_fits : chain_fits (ike_rekey_request_chain offer n g public) }.

Lemma ike_rekey_agree a b mid offer new_i new_r s g priv_i priv_r n1 n2 iv iv' pi pr :
  gcm_sa a -> gcm_sa b -> same_sa a b -> u32_ok mid -> u64_ok new_r ->
  rekey_initiator a offer new_i s g priv_i n1 pi ->
  bytes_ok priv_r -> (32 <= length priv_r)%nat -> nonce_fits n2 ->
  DhGroup_public g priv_r = Ok pr -> peer_acceptable g pr ->
  bytes_ok iv -> length iv = 8%nat -> bytes_ok iv' -> length iv' = 8%nat ->
  exists request response c shared first inner,
    build_encrypted_gcm (create_child_header a mid false)
      (first_payload_type (ike_rekey_request_chain offer n1 g pi))
      (encode_payload_chain (ike_rekey_request_chain offer n1 g pi)) (our_sk_e a) iv = Ok request /\
    responder_process_ike_rekey b request new_r priv_r n2 iv' = Ok (response, c) /\
    open_encrypted_gcm response (peer_sk_e a) = Ok (first, inner) /\
    payload_items first inner = Ok <$> (raw <$> ike_rekey_response_chain s new_r n2 pr) /\
    DhGroup_shared g priv_i pr = Ok shared /\
    derive_rekey_session_keys (sk_d (keys a)) shared n1 n2 new_i new_r (key_lengths s) = Ok (keys c) /\
    c_role c = Responder /\ spi_i c = new_i /\ spi_r c = new_r /\ suite c = s /\ CompletedSaInit_wf c.
Proof.
  intros Ha Hb Hab Hmid Hnr [Ho (p & Hp1 & Hp2) Hni Hs Hg Hn1 [Op Lp] [Epi Api] Hf]
    Or Lr Hn2 Epr Apr Hiv Lv Hiv' Lv'.
  assert (Hsup : supported_suite s) by by eapply select_supported.
  destruct (DhGroup_public_ok g priv_i Op Lp) as (pi' & E & Lpi & Opi).
  rewrite Epi in E. injection E as <-.
  destruct (DhGroup_public_ok g priv_r Or Lr) as (pr' & E & Lpr & Opr).
  rewrite Epr in E. injection E as <-.
  destruct (DhGroup_shared_ok g priv_i pr) as (sh & Esh & _); try done.
  destruct (DhGroup_shared_ok g priv_r pi) as (sh' & Esh' & _); try done.
  assert (sh' = sh) as -> by exact (DhGroup_agree g priv_r priv_i pr pi sh' sh Or Op Epr Epi Esh' Esh).
  destruct (derive_rekey_session_keys_ok (sk_d (keys b)) sh n1 n2 new_i new_r (key_lengths s))
    as (ks & Ek & _ & Lk & Ok').
  destruct (seal_chain_open (create_child_header a mid false) (ike_rekey_request_chain offer n1 g pi)
    (our_sk_e a) iv) as (req & E1 & _ & E3 & E4 & E5); try done;
    [by apply create_child_header_wf; [apply Ha|]|by apply our_sk_e_length|].
  destruct (seal_chain_open (create_child_header b mid true) (ike_rekey_response_chain s new_r n2 pr)
    (our_sk_e b) iv') as (resp & F1 & _ & F3 & F4 & F5); try done;
    [by apply create_child_header_wf; [apply Hb|]|by eapply ike_rekey_response_fits
    |by apply our_sk_e_length|].
  destruct (ike_rekey_read offer n1 g pi Ho Opi) as (R1 & R2 & R3).
  assert (Hk : keys a = keys b) by apply Hab.
  exists req, resp, {| c_role := Responder; spi_i := new_i; spi_r := new_r; suite := s; keys := ks;
    ni := n1; nr := n2; init_message := []; resp_message := [];
    peer_signature_hashes := peer_signature_hashes b |}, sh.
  eexists _, _. split_and!; [done| |by rewrite (same_sa_keys b a) by by apply same_sa_sym
    |exact F5|done|rewrite Hk; exact Ek|done|done|done|done|].
  - unfold responder_process_ike_rekey. rewrite E3. cbn [mbind outcome_bind].
    rewrite (same_sa_keys a b) by done. rewrite E4. cbn [mbind outcome_bind].
    rewrite E5, R1. cbn [mbind outcome_bind ra_sa ra_ni ra_ke ok_or].
    rewrite R3. cbn [mbind outcome_bind]. rewrite R2. cbn [mbind outcome_bind].
    rewrite Hp1. cbn [mbind outcome_bind ok_or]. rewrite Hp2.
    rewrite decide_False by (rewrite length_be_bytes; auto).
    change (be_uint 8 (be_bytes 8 new_i) 0 8) with (Ok (be_val (be_bytes 8 new_i))).
    rewrite be_val_be_bytes by done. cbn [mbind outcome_bind].
    rewrite Hs. cbn [mbind outcome_bind ok_or]. rewrite Hg. cbn [mbind outcome_bind ok_or dh_group ke_data].
    rewrite decide_False by auto. rewrite Esh'. cbn [mbind outcome_bind].
    rewrite Epr. cbn [mbind outcome_bind]. rewrite Ek. cbn [mbind outcome_bind].
    change (message_id (sk_header _ _)) with mid. rewrite F1. reflexivity.
  - constructor; cbn; try done; [by destruct Hn2|constructor|constructor].
Qed.
End ike.

(** ** No panics *)
Section safety.
Context `{!Primitives, !HmacLaws, !AeadLaws, !BigUintLaws, !X25519Laws}.

Definition opt_bytes_ok (o : option bytes) : Prop := forall b, o = Some b -> bytes_ok b.

Lemma ChildSa_derive_wp skd n1 n2 r x y : wp (ChildSa_derive skd n1 n2 r x y) (fun c =>
  esp_spi (inbound c) = x /\ esp_seq (outbound c) = 0).
Proof.
  destruct r; [destruct (ChildSa_derive_ok skd n1 n2 x y) as (k & _ & _ & _ & -> & _)
    |destruct (ChildSa_derive_ok skd n1 n2 y x) as (k & _ & _ & _ & _ & ->)]; done.
Qed.

Lemma offer_head_spi sa p : SecurityAssociation_wf sa -> head (proposals sa) = Some p -> bytes_ok (prop_spi p).
Proof.
  intros Hsa Hp. unfold SecurityAssociation_wf in Hsa. destruct (proposals sa) as [|q ps]; [done|].
  injection Hp as <-. by apply Forall_cons in Hsa as [[] _].
Qed.

Lemma rekey_esp_spi_wp b : bytes_ok b -> wp (rekey_esp_spi_from_sa b) u32_ok.
Proof.
  intros Hb. unfold rekey_esp_spi_from_sa. apply wp_bind.
  eapply wp_mono; [|by apply SA_parse_wp]. intros sa Hsa.
  apply wp_bind, wp_ok_or. intros p Hp. case_decide as Hl; [done|].
  apply wp_be_uint; [lia|lia|done|by eapply offer_head_spi|]. intros x Hx. exact Hx.
Qed.

Lemma find_sa_and_nonce_wp t inner : PayloadType_wf t -> bytes_ok inner ->
  wp (find_sa_and_nonce t inner) (fun '(s, n) => bytes_ok s /\ bytes_ok n).
Proof.
  intros Ht Hi. unfold find_sa_and_nonce. apply wp_bind. eapply wp_mono;
    [|apply (for_each_wp _ (fun st => opt_bytes_ok st.1 /\ opt_bytes_ok st.2)); [by apply payload_items_wp|done|]].
  - intros [s n] [Hs Hn]. apply wp_bind, wp_ok_or. intros s' Es. apply wp_bind, wp_ok_or. intros n' En.
    split; [by apply Hs|by apply Hn].
  - intros [s n] p [Hs Hn] (_ & Hd & _). unfold sa_nonce_step.
    destruct (payload_type p); split; try done; by intros ? [= <-].
Qed.

Lemma ts_wp t inner : PayloadType_wf t -> bytes_ok inner ->
  wp (for_each ts_step (payload_items t inner) (None, None)) (fun _ => True).
Proof.
  intros Ht Hi. apply for_each_wp; [by apply payload_items_wp|done|].
  intros [a b] p _ _. unfold ts_step. by destruct (payload_type p).
Qed.

Definition RekeyAcc_wf (st : IkeRekeyAcc) : Prop :=
  opt_bytes_ok (ra_sa st) /\ opt_bytes_ok (ra_ni st) /\ opt_bytes_ok (ra_ke st).

Lemma ike_rekey_step_wp st p : RekeyAcc_wf st -> RawPayload_wf p -> wp (ike_rekey_step st p) RekeyAcc_wf.
Proof.
  intros (Hs & Hn & Hk) (_ & Hd & _). destruct st as [s n k]. unfold ike_rekey_step.
  destruct (payload_type p); split_and!; try done; by intros ? [= <-].
Qed.

Lemma responder_process_rekey_wp c request spi n iv assigned : bytes_ok request -> length iv = 8%nat ->
  wp (responder_process_rekey c request spi n iv assigned) (fun '(_, child) => esp_spi (inbound child) = spi).
Proof.
  intros Hr Hiv. unfold responder_process_rekey.
  apply wp_bind. eapply wp_mono; [|by apply IkeHeader_parse_wp]. intros h _.
  apply wp_bind. eapply wp_mono; [|by apply open_encrypted_wp]. intros [t inner] [Ht Hi].
  apply wp_bind. eapply wp_mono; [|by apply find_sa_and_nonce_wp]. intros [s n1] [Hs Hn].
  apply wp_bind. eapply wp_mono; [|by apply rekey_esp_spi_wp]. intros x _.
  apply wp_bind. eapply wp_mono; [|by apply ts_wp]. intros [e1 e2] _.
  destruct (rekey_selectors assigned e1 e2) as [tsi tsr].
  apply wp_bind. eapply wp_mono; [|apply ChildSa_derive_wp]. intros child [Hc _].
  apply wp_bind. eapply wp_mono; [|by apply safe_wp, build_encrypted_safe]. done.
Qed.

Lemma initiator_complete_rekey_wp c n spi response : bytes_ok response ->
  wp (initiator_complete_rekey c n spi response) (fun child => esp_spi (inbound child) = spi).
Proof.
  intros Hr. unfold initiator_complete_rekey.
  apply wp_bind. eapply wp_mono; [|by apply open_encrypted_wp]. intros [t inner] [Ht Hi].
  apply wp_bind. eapply wp_mono; [|by apply find_sa_and_nonce_wp]. intros [s n1] [Hs Hn].
  apply wp_bind. eapply wp_mono; [|by apply rekey_esp_spi_wp]. intros x _.
  eapply wp_mono; [|apply ChildSa_derive_wp]. by intros child [Hc _].
Qed.

Lemma ike_rekey_wp c request new_r priv n iv : bytes_ok request -> u64_ok new_r -> bytes_ok priv ->
  (32 <= length priv)%nat -> bytes_ok n -> length iv = 8%nat ->
  wp (responder_process_ike_rekey c request new_r priv n iv) (fun '(_, c') =>
    CompletedSaInit_wf c' /\ c_role c' = Responder /\ spi_r c' = new_r).
Proof.
  intros Hr Hnr Hp Lp Hn Hiv. unfold responder_process_ike_rekey.
  apply wp_bind. eapply wp_mono; [|by apply IkeHeader_parse_wp]. intros h _.
  apply wp_bind. eapply wp_mono; [|by apply open_encrypted_wp]. intros [t inner] [Ht Hi].
  apply wp_bind. eapply wp_mono; [|apply (for_each_wp _ RekeyAcc_wf);
    [by apply payload_items_wp|done|intros; by apply ike_rekey_step_wp]]. intros st (Hs & Hni & Hke).
  apply wp_bind, wp_ok_or. intros s Es. apply wp_bind, wp_ok_or. intros n1 En.
  apply wp_bind, wp_ok_or. intros k Ek. apply Hs in Es. apply Hni in En. apply Hke in Ek.
  apply wp_bind. eapply wp_mono; [|by apply KeyExchange_parse_wp]. intros ke [_ Hkd].
  apply wp_bind. eapply wp_mono; [|by apply SA_parse_wp]. intros sa Hsa.
  apply wp_bind, wp_ok_or. intros p Ep. case_decide as Hl; [done|].
  apply wp_bind, wp_be_uint; [lia|lia|done|by eapply offer_head_spi|]. intros i Hi8.
  apply wp_bind, select_wp; [done|]. intros su Hsu. apply wp_bind, wp_ok_or. intros g Hg.
  case_decide; [done|]. apply wp_bind. eapply wp_mono; [|by apply DhGroup_shared_wp]. intros sh _.
  apply wp_bind. destruct (DhGroup_public_ok g priv Hp Lp) as (pub & -> & _ & _). cbn [wp].
  apply wp_bind.
  destruct (derive_rekey_session_keys_ok (sk_d (keys c)) sh n1 n i new_r (key_lengths su))
    as (ks & -> & _ & Lk & Hk). cbn [wp].
  apply wp_bind. eapply wp_mono; [|by apply safe_wp, build_encrypted_safe]. intros resp _.
  cbn [wp c_role spi_r]. split_and!; [|done|done]. constructor; cbn; try done; constructor.
Qed.
End safety.

(** ** Properties *)
Section properties.
Context `{!Primitives, !HmacLaws, !AeadLaws, !BigUintLaws, !X25519Laws}.

(** C25: A CHILD SA rekey agrees: whichever end of an AES-GCM SA asks, with fresh
    nonces and SPIs, the responder answers the request under the same message id
    and derives a new CHILD SA, the initiator completes from the answer, and the two
    new CHILD SAs are mirror images (each outbound direction has the SPI, key and
    salt of the other's inbound), receive on the SPIs the two ends chose and start
    at sequence number 0. *)
Theorem child_rekey_agreement a b mid rekeyed spi_a spi_b n1 n2 iv iv' assigned :
  gcm_sa a -> gcm_sa b -> same_sa a b -> u32_ok mid -> u32_ok spi_a -> u32_ok spi_b ->
  nonce_fits n1 -> nonce_fits n2 -> bytes_ok iv -> length iv = 8%nat -> bytes_ok iv' -> length iv' = 8%nat ->
  (forall ip, assigned = Some ip -> Ipv4_wf ip) ->
  exists request response ca cb h,
    build_rekey_request a mid rekeyed spi_a n1 iv = Ok request /\
    responder_process_rekey b request spi_b n2 iv' assigned = Ok (response, cb) /\
    IkeHeader_parse response = Ok h /\ message_id h = mid /\
    initiator_complete_rekey a n1 spi_a response = Ok ca /\
    child_pair ca cb /\ esp_spi (inbound ca) = spi_a /\ esp_spi (inbound cb) = spi_b /\
    esp_seq (outbound ca) = 0 /\ esp_seq (outbound cb) = 0.
Proof.
  intros. destruct (rekey_agree a b mid rekeyed spi_a spi_b n1 n2 iv iv' assigned)
    as (req & resp & ca & cb & h & first & inner & ? & ? & ? & ? & ? & ? & ? & ? & ? & ? & _); try done.
  exists req, resp, ca, cb, h. by split_and!.
Qed.

(** C26: An IKE SA rekey agrees with its peer: to the request of an initiator that
    offers a suite this end selects (its SPI in the first proposal) with a key
    exchange value of the suite's group, sealed under the old SA, the responder
    answers, under the old SA, with its own SPI, nonce and key exchange value, and
    the new SA it keeps has exactly the keys the initiator derives from that answer:
    the rekey schedule keyed with the old SK_d, over both nonces and the new SPIs. *)
Theorem ike_rekey_agreement a b mid offer new_i new_r s g priv_i priv_r n1 n2 iv iv' pi pr :
  gcm_sa a -> gcm_sa b -> same_sa a b -> u32_ok mid -> u64_ok new_r ->
  rekey_initiator a offer new_i s g priv_i n1 pi ->
  bytes_ok priv_r -> (32 <= length priv_r)%nat -> nonce_fits n2 ->
  DhGroup_public g priv_r = Ok pr -> peer_acceptable g pr ->
  bytes_ok iv -> length iv = 8%nat -> bytes_ok iv' -> length iv' = 8%nat ->
  exists request response c shared first inner,
    build_encrypted_gcm (create_child_header a mid false)
      (first_payload_type (ike_rekey_request_chain offer n1 g pi))
      (encode_payload_chain (ike_rekey_request_chain offer n1 g pi)) (our_sk_e a) iv = Ok request /\
    is_ike_sa_rekey (ike_rekey_request_chain offer n1 g pi) = true /\
    responder_process_ike_rekey b request new_r priv_r n2 iv' = Ok (response, c) /\
    open_encrypted_gcm response (peer_sk_e a) = Ok (first, inner) /\
    payload_items first inner = Ok <$> (raw <$> ike_rekey_response_chain s new_r n2 pr) /\
    DhGroup_shared g priv_i pr = Ok shared /\
    derive_rekey_session_keys (sk_d (keys a)) shared n1 n2 new_i new_r (key_lengths s) = Ok (keys c) /\
    c_role c = Responder /\ spi_i c = new_i /\ spi_r c = new_r /\ suite c = s.
Proof.
  intros. destruct (ike_rekey_agree a b mid offer new_i new_r s g priv_i priv_r n1 n2 iv iv' pi pr)
    as (req & resp & c & sh & first & inner & ? & ? & ? & ? & ? & ? & ? & ? & ? & ? & _); try done.
  exists req, resp, c, sh, first, inner. by split_and!.
Qed.

(** No CREATE_CHILD_SA message makes this end panic, and what it derives is
    well formed: for arbitrary bytes, both roles of a CHILD SA rekey return an error
    or a CHILD SA receiving on the SPI this end chose, and an IKE SA rekey returns
    an error or a well-formed SA with keys of the negotiated lengths. *)
Theorem rekey_total c message n spi new_r priv iv assigned :
  bytes_ok message -> u64_ok new_r -> bytes_ok priv -> (32 <= length priv)%nat -> bytes_ok n ->
  length iv = 8%nat ->
  wp (responder_process_rekey c message spi n iv assigned) (fun '(_, child) => esp_spi (inbound child) = spi) /\
  wp (initiator_complete_rekey c n spi message) (fun child => esp_spi (inbound child) = spi) /\
  wp (responder_process_ike_rekey c message new_r priv n iv) (fun '(_, c') =>
    CompletedSaInit_wf c' /\ c_role c' = Responder /\ spi_r c' = new_r).
Proof.
  intros. split_and!; [by apply responder_process_rekey_wp|by apply initiator_complete_rekey_wp
    |by apply ike_rekey_wp].
Qed.
End properties.

Lemma example_nonce_fits b : byte_ok b -> nonce_fits (replicate 16 b).
Proof. intros. split; [by apply Forall_replicate|by rewrite length_replicate]. Qed.

Lemma child_rekey_agreement_witness : exists request response ca cb,
  build_rekey_request (example_completed Responder) 3 77 100 (replicate 16 1) example_iv = Ok request /\
  responder_process_rekey (example_completed Initiator) request 200 (replicate 16 2) example_iv None =
    Ok (response, cb) /\
  initiator_complete_rekey (example_completed Responder) (replicate 16 1) 100 response = Ok ca /\
  child_pair ca cb.
Proof.
  destruct (child_rekey_agreement (example_completed Responder) (example_completed Initiator) 3 77 100 200
    (replicate 16 1) (replicate 16 2) example_iv example_iv None)
    as (req & resp & ca & cb & h & ? & ? & _ & _ & ? & ? & _); try apply example_gcm_sa;
    try apply example_nonce_fits; try apply example_iv_ok; try (by split); try done.
  exists req, resp, ca, cb. by split_and!.
Defined.

Definition example_rekey_offer : SecurityAssociation := mkSA [rekey_proposal (mkSuite 1 20 256 5 None 2) 99].

Definition example_public (private : bytes) : bytes := unwrap_or [] (DhGroup_public Modp1024 private).

Lemma example_public_eq private : accepted_public Modp1024 private = true ->
  bytes_ok private -> (32 <= length private)%nat ->
  DhGroup_public Modp1024 private = Ok (example_public private) /\
  peer_acceptable Modp1024 (example_public private) /\
  length (example_public private) = public_len Modp1024 /\ bytes_ok (example_public private).
Proof.
  intros E Hb Hl. destruct (DhGroup_public_ok Modp1024 private Hb Hl) as (q & Eq & Lq & Bq). unfold accepted_public in E. unfold example_public.
  rewrite Eq in *. split_and!; [done| |done|done]. by apply bool_decide_eq_true in E.
Qed.

Lemma example_private_ok : (bytes_ok example_private_a /\ (32 <= length example_private_a)%nat) /\
  bytes_ok example_private_b /\ (32 <= length example_private_b)%nat.
Proof. split_and!; (by repeat constructor) || (vm_compute; lia). Qed.

Lemma example_rekey_initiator : rekey_initiator (example_completed Initiator) example_rekey_offer 99
  (mkSuite 1 20 256 5 None 2) Modp1024 example_private_a (replicate 16 1) (example_public example_private_a).
Proof.
  assert (Hs : supported_suite (mkSuite 1 20 256 5 None 2)) by (apply (supported_gcm 1 Modp1024); by split).
  pose proof (example_public_eq example_private_a example_public_a) as Hp.
  constructor; [by apply rekey_proposal_sa_wf|by eexists|by split|done|done|by repeat constructor
    |apply example_private_ok|split; apply Hp; apply example_private_ok|].
  destruct Hp as (_ & _ & Hl & Hb); [apply example_private_ok|apply example_private_ok|].
  generalize dependent (example_public example_private_a). intros public Hl Hb.
  destruct (ke_entry Modp1024 _ Hb Hl) as [Hke Lke]. apply chain_fits_intro.
  - apply Forall_cons_2; [|apply Forall_cons_2; [by apply nonce_entry, example_nonce_fits|by apply Forall_singleton]].
    split_and!; [by split|done|by apply SA_to_bytes_ok, rekey_proposal_sa_wf|vm_compute; reflexivity].
  - cbn [ike_rekey_request_chain fmap list_fmap sum_list_with snd]. rewrite length_replicate.
    assert (Hsa : (length (SecurityAssociation_to_bytes example_rekey_offer) <= 100)%nat) by (vm_compute; lia).
    unfold Datatypes.id. lia.
Qed.

Lemma ike_rekey_agreement_witness : exists request response c,
  responder_process_ike_rekey (example_completed Responder) request 55 example_private_b
    (replicate 16 2) example_iv = Ok (response, c) /\ spi_i c = 99 /\ spi_r c = 55.
Proof.
  pose proof (example_public_eq example_private_b example_public_b) as Hp.
  destruct (ike_rekey_agreement (example_completed Initiator) (example_completed Responder) 3
    example_rekey_offer 99 55 (mkSuite 1 20 256 5 None 2) Modp1024 example_private_a example_private_b
    (replicate 16 1) (replicate 16 2) example_iv example_iv (example_public example_private_a)
    (example_public example_private_b) (example_gcm_sa _) (example_gcm_sa _) example_same_sa)
    as (req & resp & c & sh & first & inner & _ & _ & E1 & _ & _ & _ & _ & _ & E2 & E3 & _);
    [by split|by split|apply example_rekey_initiator|apply example_private_ok|apply example_private_ok
    |by apply example_nonce_fits|apply Hp; apply example_private_ok|apply Hp; apply example_private_ok
    |apply example_iv_ok|done|apply example_iv_ok|done|].
  exists req, resp, c. exact (conj E1 (conj E2 E3)).
Defined.

Lemma rekey_total_witness :
  wp (initiator_complete_rekey (example_completed Initiator) [1] 7 example_sealed)
    (fun child => esp_spi (inbound child) = 7).
Proof.
  refine (proj1 (proj2 (rekey_total (example_completed Initiator) example_sealed [1] 7 9 (replicate 32 3)
    example_iv None example_sealed_ok _ _ _ _ eq_refl))); [by split|by apply Forall_replicate
    |by rewrite length_replicate|by repeat constructor].
Defined.
