(* ===== verification/Server.v ===== *)
(** * The IKEv2 client and server drivers ([src/src/ikev2/server.rs], [src/src/ikev2/client.rs])

    The blocking responder with its tables of sessions and CHILD SAs, and the
    initiator, as actions over any socket ([Transport]) and randomness source
    ([Entropy]).  Reachability of server states is a relation that records the
    datagrams heard. *)
From stdpp Require Import gmap.
From S2P Require Import Prelude Outcome Wire Primitives Entropy Message Payload Crypto Sk Negotiate Esp Natt Exchange Informational Sign IkeAuth Transport Rekey.

Definition NONCE_LEN : nat := 32.

(** [enum ServerEvent] *)
Inductive ServerEvent :=
| EvSaInit (spi_i spi_r : Z)
| EvEstablished (spi_i spi_r : Z) (peer_id : Identification)
| EvIgnored.

(** ** [struct Server] *)
Section server.
Context `{!Primitives, !Pki, Transport Sock, Entropy G}.
Open Scope action_scope.

Record Server := mkServer {
  transport : Sock;
  entropy : G;
  srv_auth : AuthConfig;
  sessions : gmap (Z * Z) CompletedSaInit;
  children : gmap (Z * Z) ChildSa }.

Definition put_transport (n : Sock) (s : Server) : Server :=
  mkServer n (entropy s) (srv_auth s) (sessions s) (children s).
Definition put_entropy (g : G) (s : Server) : Server :=
  mkServer (transport s) g (srv_auth s) (sessions s) (children s).

(** [self.sessions.insert(key, sa)] and [self.children.insert(key, child)] *)
Definition insert_session (key : Z * Z) (sa : CompletedSaInit) (s : Server) : Server :=
  mkServer (transport s) (entropy s) (srv_auth s) (<[key := sa]> (sessions s)) (children s).
Definition insert_child (key : Z * Z) (c : ChildSa) (s : Server) : Server :=
  mkServer (transport s) (entropy s) (srv_auth s) (sessions s) (<[key := c]> (children s)).

Definition Server_bind (socket : Sock) (g : G) (auth : AuthConfig) : Server :=
  mkServer socket g auth ∅ ∅.

Definition session (s : Server) (i r : Z) : option CompletedSaInit := sessions s !! (i, r).
Definition child (s : Server) (i r : Z) : option ChildSa := children s !! (i, r).
Definition take_child (i r : Z) (s : Server) : option ChildSa * Server :=
  (children s !! (i, r),
   mkServer (transport s) (entropy s) (srv_auth s) (sessions s) (delete (i, r) (children s))).

(** The [IkeSaInit] arm *)
Definition handle_sa_init (data : bytes) (from : SocketAddr) : action Server ServerEvent :=
  let! local := zoom entropy put_entropy (draw (fun g => LocalSecret_generate g NONCE_LEN)) in
  let! '(response, sa) := ike (responder_respond data local) in
  let! _ := zoom transport put_transport (send response from) in
  let! _ := modify (insert_session (spi_i sa, spi_r sa) sa) in
  act_ret (EvSaInit (spi_i sa) (spi_r sa)).

(** The [IkeAuth] arm, for a known SPI pair *)
Definition handle_auth (key : Z * Z) (sa : CompletedSaInit) (data : bytes) (from : SocketAddr)
    : action Server ServerEvent :=
  let! x := zoom entropy put_entropy (draw next_u64) in
  let child_spi := as_u32 x in
  let! iv := zoom entropy put_entropy (draw (fill 8)) in
  let! cfg := gets srv_auth in
  let! '(response, peer_id, peer_child_spi) :=
    ike (responder_process_auth sa data cfg child_spi iv None) in
  let! _ := zoom transport put_transport (send response from) in
  let! child := ike (ChildSa_derive (sk_d (keys sa)) (ni sa) (nr sa) Responder child_spi peer_child_spi) in
  let! _ := modify (insert_child key child) in
  act_ret (EvEstablished key.1 key.2 peer_id).

Definition handle_one : action Server ServerEvent :=
  let! '(data, from) := zoom transport put_transport recv in
  let! header := ike (IkeHeader_parse data) in
  match exchange_type header with
  | IkeSaInit => handle_sa_init data from
  | IkeAuth =>
      let key := (initiator_spi header, responder_spi header) in
      let! known := gets (fun s => sessions s !! key) in
      match known with
      | None => act_ret EvIgnored
      | Some sa => handle_auth key sa data from
      end
  | _ => act_ret EvIgnored
  end.
End server.
Arguments Server {_} Sock G.

(** ** [struct Client] *)
Section client.
Context `{!Primitives, !Pki, Transport Sock, Entropy G}.
Open Scope action_scope.

Record Client := mkClient { cl_transport : Sock; cl_entropy : G }.

Definition put_cl_transport (n : Sock) (c : Client) : Client := mkClient n (cl_entropy c).
Definition put_cl_entropy (g : G) (c : Client) : Client := mkClient (cl_transport c) g.

Definition sa_init (server : SocketAddr) : action Client CompletedSaInit :=
  let! local := zoom cl_entropy put_cl_entropy (draw (fun g => LocalSecret_generate g NONCE_LEN)) in
  let! request := ike (initiator_request local default_offer) in
  let! _ := zoom cl_transport put_cl_transport (send request server) in
  let! '(response, _) := zoom cl_transport put_cl_transport recv in
  ike (initiator_complete local request response).

Definition authenticate (server : SocketAddr) (sa : CompletedSaInit) (cfg : AuthConfig) (child_spi : Z)
    : action Client (Identification * Z * option Ipv4Addr) :=
  let! iv := zoom cl_entropy put_cl_entropy (draw (fill 8)) in
  let! request := ike (initiator_auth_request sa cfg child_spi iv) in
  let! _ := zoom cl_transport put_cl_transport (send request server) in
  let! '(response, _) := zoom cl_transport put_cl_transport recv in
  ike (initiator_verify_auth sa response cfg).

Definition connect (server : SocketAddr) (cfg : AuthConfig) (child_spi : Z)
    : action Client (CompletedSaInit * Identification * ChildSa * option Ipv4Addr) :=
  let! sa := sa_init server in
  let! '(peer, peer_child_spi, assigned_ip) := authenticate server sa cfg child_spi in
  let! child := ike (ChildSa_derive (sk_d (keys sa)) (ni sa) (nr sa) Initiator child_spi peer_child_spi) in
  act_ret (sa, peer, child, assigned_ip).
End client.
Arguments Client Sock G : clear implicits.

(** ** Effect of one datagram *)
Section effect.
Context `{!Primitives, !Pki, !HmacLaws, !HashLaws, !AeadLaws, !BigUintLaws, !X25519Laws,
  Transport Sock, !TransportLaws Sock, Entropy G, !EntropyLaws G}.
Implicit Types (s : Server Sock G).

(** The session an IKE_SA_INIT datagram creates: what the responder computes from it, with secrets of
    its own. *)
Definition fresh_session (data : bytes) (i r : Z) (sa : CompletedSaInit) : Prop :=
  (exists h, IkeHeader_parse data = Ok h /\ exchange_type h = IkeSaInit) /\
  (exists local response, LocalSecret_wf local /\ responder_respond data local = Ok (response, sa)) /\
  CompletedSaInit_wf sa /\ c_role sa = Responder /\ spi_i sa = i /\ spi_r sa = r /\ init_message sa = data.

(** The CHILD SA that an authenticated IKE_AUTH datagram for an SPI pair creates under a session. *)
Definition authentic_child (auth : AuthConfig) (i r : Z) (sa : CompletedSaInit) (data : bytes)
    (id : Identification) (ch : ChildSa) : Prop :=
  (exists h, IkeHeader_parse data = Ok h /\ exchange_type h = IkeAuth /\ initiator_spi h = i /\ responder_spi h = r) /\
  exists local spi ip, auth_accepted data (sk_ei (keys sa)) (init_message sa) (nr sa) (sk_pi (keys sa)) auth
      id spi ip /\
    u32_ok local /\ ChildSa_derive (sk_d (keys sa)) (ni sa) (nr sa) Responder local spi = Ok ch.

Definition step_effect s (data : bytes) (r : driver ServerEvent) s' : Prop :=
  srv_auth s' = srv_auth s /\
  match r with
  | Done (EvSaInit i r) => exists sa, fresh_session data i r sa /\
      sessions s' = <[(i, r) := sa]> (sessions s) /\ children s' = children s
  | Done (EvEstablished i r id) => exists sa ch, sessions s !! (i, r) = Some sa /\
      authentic_child (srv_auth s) i r sa data id ch /\
      sessions s' = sessions s /\ children s' = <[(i, r) := ch]> (children s)
  | _ => sessions s' = sessions s /\ children s' = children s
  end.

Lemma as_u32_ok x : u32_ok (as_u32 x).
Proof. by apply Z.mod_pos_bound. Qed.

Lemma handle_sa_init_effect s data from h : bytes_ok data -> IkeHeader_parse data = Ok h ->
  exchange_type h = IkeSaInit -> act_wp (handle_sa_init data from) (step_effect s data) s.
Proof.
  intros Hd Eh Et. unfold handle_sa_init. apply act_wp_bind, act_wp_draw.
  destruct (LocalSecret_generate_wf (entropy s) NONCE_LEN) as (Hl & _); [done|].
  apply act_wp_bind. eapply act_wp_ike; [by apply responder_respond_wp| |done].
  intros [resp sa] (Hwf & Hr & _ & Hi & _) E.
  apply act_wp_bind, act_wp_send; [done|]. intros n.
  split; [done|]. split; [done|]. exists sa. split; [|done]. split; [by exists h|].
  split; [by eexists _, resp|done].
Qed.

Lemma handle_auth_effect s key sa data from h : bytes_ok data -> sessions s !! key = Some sa ->
  IkeHeader_parse data = Ok h -> exchange_type h = IkeAuth -> key = (initiator_spi h, responder_spi h) ->
  act_wp (handle_auth key sa data from) (step_effect s data) s.
Proof.
  intros Hd Hk Eh Et Ek. unfold handle_auth. apply act_wp_bind, act_wp_draw. apply act_wp_bind, act_wp_draw.
  apply act_wp_bind, act_wp_gets. apply act_wp_bind. eapply act_wp_ike;
    [apply responder_process_auth_wp; [done|apply fill_length]| |done].
  intros [[resp id] spi] (ip & Ha) _. apply act_wp_bind, act_wp_send; [done|]. intros n.
  apply act_wp_bind. eapply act_wp_ike; [apply ChildSa_derive_wp| |done]. intros ch _ Hc.
  split; [done|]. split; [done|]. destruct key as [i r]. injection Ek as -> ->.
  exists sa, ch. split_and!; [done| |done|done]. split; [by exists h|].
  eexists _, spi, ip. split_and!; [exact Ha|apply as_u32_ok|exact Hc].
Qed.

Lemma handle_one_effect s :
  match recv_from (transport s) with
  | (None, n) => handle_one s = (Failed Io, put_transport n s)
  | (Some (data, from), n) => act_wp handle_one (step_effect s data) s
  end.
Proof.
  destruct (recv_from (transport s)) as [[[data from]|] n] eqn:Hr.
  2: { unfold handle_one, act_bind, zoom, recv. by rewrite Hr. }
  pose proof (recv_bytes _ _ _ _ Hr) as Hd.
  unfold handle_one. apply act_wp_bind, act_wp_recv; [intros ? E; by rewrite Hr in E|].
  intros [d f] n' E. rewrite Hr in E. injection E as <- <- <-.
  apply act_wp_bind. eapply act_wp_ike; [by apply IkeHeader_parse_wp| |done]. intros h _ Eh.
  destruct (exchange_type h) eqn:Et; try done.
  - by apply (handle_sa_init_effect (put_transport n s) data from h).
  - apply act_wp_bind, act_wp_gets. destruct (sessions _ !! _) as [sa|] eqn:Hs; [|done].
    by apply (handle_auth_effect (put_transport n s) _ sa data from h).
Qed.
End effect.

(** ** Reachable server states, with the datagrams heard.  Between two calls the
    network may change the socket's state in any way ([reach_arrive]). *)
Inductive reachable `{!Primitives, !Pki, Transport Sock, Entropy G} : list bytes -> Server Sock G -> Prop :=
| reach_bind n g auth : reachable [] (Server_bind n g auth)
| reach_silence heard s n : reachable heard s -> recv_from (transport s) = (None, n) ->
    reachable heard (handle_one s).2
| reach_handle heard s data from n : reachable heard s ->
    recv_from (transport s) = (Some (data, from), n) ->
    reachable (heard ++ [data]) (handle_one s).2
| reach_take heard s i r : reachable heard s -> reachable heard (take_child i r s).2
| reach_arrive heard s n : reachable heard s -> reachable heard (put_transport n s).

(** One step of the server, with the datagrams heard in it, and runs from a given state *)
Inductive step `{!Primitives, !Pki, Transport Sock, Entropy G} : list bytes -> relation (Server Sock G) :=
| step_silence s n : recv_from (transport s) = (None, n) -> step [] s (handle_one s).2
| step_handle s data from n : recv_from (transport s) = (Some (data, from), n) -> step [data] s (handle_one s).2
| step_take s i r : step [] s (take_child i r s).2
| step_arrive s n : step [] s (put_transport n s).

Inductive continues `{!Primitives, !Pki, Transport Sock, Entropy G} (s0 : Server Sock G) : list bytes -> Server Sock G -> Prop :=
| cont_here : continues s0 [] s0
| cont_step heard s l s' : continues s0 heard s -> step l s s' -> continues s0 (heard ++ l) s'.

Section invariant.
Context `{!Primitives, !Pki, !HmacLaws, !HashLaws, !AeadLaws, !BigUintLaws, !X25519Laws,
  Transport Sock, !TransportLaws Sock, Entropy G, !EntropyLaws G}.
Implicit Types (s : Server Sock G).

(** Reachable states are those that steps lead to from an empty server. *)
Lemma reachable_steps (P : list bytes -> Server Sock G -> Prop) :
  (forall n g auth, P [] (Server_bind n g auth)) ->
  (forall heard s l s', reachable heard s -> P heard s -> step l s s' -> P (heard ++ l) s') ->
  forall heard s, reachable heard s -> P heard s.
Proof.
  intros Hb Hs. assert (Hs0 : forall heard s s', reachable heard s -> P heard s -> step [] s s' -> P heard s').
  { intros heard s s' Hr HP Hst. rewrite <- (app_nil_r heard). by eapply Hs. }
  induction 1 as [n g auth|heard s n Hr IH E|heard s data from n Hr IH E|heard s i r Hr IH|heard s n Hr IH]; [done|..].
  - eapply Hs0; [exact Hr|done|by eapply step_silence].
  - eapply Hs; [exact Hr|done|by eapply step_handle].
  - eapply Hs0; [exact Hr|done|constructor].
  - eapply Hs0; [exact Hr|done|constructor].
Qed.

(** How a CHILD SA came about: the run passed through a state in which a session, of an IKE_SA_INIT
    datagram heard before, was stored under the SPI pair, and in which the server handled an
    IKE_AUTH datagram for this pair that proved the peer's identity over that session. *)
Definition established_from (heard : list bytes) s (i r : Z) (ch : ChildSa) : Prop :=
  exists before data after s0 sa init id from n,
    heard = before ++ data :: after /\ reachable before s0 /\ recv_from (transport s0) = (Some (data, from), n) /\
    continues (handle_one s0).2 after s /\
    session s0 i r = Some sa /\ init ∈ before /\ fresh_session init i r sa /\
    authentic_child (srv_auth s) i r sa data id ch /\ child (handle_one s0).2 i r = Some ch.

(** Every session comes from an IKE_SA_INIT datagram that was heard, and every CHILD SA has been
    established as above. *)
Record server_inv (heard : list bytes) s : Prop := {
  inv_sessions i r sa : sessions s !! (i, r) = Some sa ->
    exists data, data ∈ heard /\ fresh_session data i r sa;
  inv_children i r ch : children s !! (i, r) = Some ch -> established_from heard s i r ch }.

Lemma step_srv_auth l s s' : step l s s' -> srv_auth s' = srv_auth s.
Proof.
  intros Hst. destruct Hst as [s n E|s data from n E|s i r|s n]; try done.
  - pose proof (handle_one_effect s) as Hh. rewrite E in Hh. by rewrite Hh.
  - pose proof (handle_one_effect s) as Hh. rewrite E in Hh. unfold act_wp in Hh.
    destruct (handle_one s). by destruct Hh as [_ [Ha _]].
Qed.

Lemma established_from_step heard s l s' i r ch : established_from heard s i r ch -> step l s s' ->
  established_from (heard ++ l) s' i r ch.
Proof.
  intros (before & data & after & s0 & sa & init & id & from & n & -> & Hr & Ed & Hc & Hs & Hi & Hf & Ha & Hch) Hst.
  exists before, data, (after ++ l), s0, sa, init, id, from, n.
  split_and!; try done; [by rewrite <- app_assoc|by eapply cont_step|by rewrite (step_srv_auth l s s')].
Qed.

(** A step that adds nothing to the tables keeps the invariant. *)
Lemma server_inv_less heard s l s' : server_inv heard s -> step l s s' -> sessions s' ⊆ sessions s ->
  children s' ⊆ children s -> server_inv (heard ++ l) s'.
Proof.
  intros [I1 I2] Hst Es Ec. constructor.
  - intros i r sa Hsa. destruct (I1 i r sa) as (d & Hd & Hf); [by eapply lookup_weaken|]. exists d. split; [set_solver|done].
  - intros i r ch Hch. eapply established_from_step; [|done]. apply I2. by eapply lookup_weaken.
Qed.

Lemma server_inv_handle heard s data from n : reachable heard s -> server_inv heard s ->
  recv_from (transport s) = (Some (data, from), n) -> server_inv (heard ++ [data]) (handle_one s).2.
Proof.
  intros Hr Hinv Ed. assert (Hst : step [data] s (handle_one s).2) by by eapply step_handle.
  pose proof (handle_one_effect s) as Hh. rewrite Ed in Hh. unfold act_wp in Hh.
  assert (Hnew : forall i r ch sa id, children (handle_one s).2 !! (i, r) = Some ch ->
    sessions s !! (i, r) = Some sa -> authentic_child (srv_auth s) i r sa data id ch ->
    established_from (heard ++ [data]) (handle_one s).2 i r ch).
  { intros i r ch sa id Hch Hsa Hau. destruct (inv_sessions _ _ Hinv i r sa Hsa) as (init & Hin & Hf).
    exists heard, data, [], s, sa, init, id, from, n. split_and!; try done; [apply cont_here|].
    by rewrite (step_srv_auth _ _ _ Hst). }
  destruct (handle_one s) as [x s']. cbn [fst snd] in *. destruct Hh as [_ [_ Hx]].
  destruct x as [[i r|i r id|]|e|]; try (destruct Hx as [Es Ec]; eapply server_inv_less; [done|done|by rewrite Es|by rewrite Ec]).
  - destruct Hx as (sa & Hf & Es & Ec). constructor; intros i' r' x.
    + rewrite Es, lookup_insert_Some. intros [[[= <- <-] <-]|[_ Hx]]; [exists data; split; [set_solver|done]|].
      destruct (inv_sessions _ _ Hinv _ _ _ Hx) as (d & Hd & Hf'). exists d. split; [set_solver|done].
    + rewrite Ec. intros Hx. eapply established_from_step; [|done]. by apply (inv_children _ _ Hinv).
  - destruct Hx as (sa & ch & Hk & Hau & Es & Ec). constructor; intros i' r' x.
    + rewrite Es. intros Hx. destruct (inv_sessions _ _ Hinv _ _ _ Hx) as (d & Hd & Hf'). exists d. split; [set_solver|done].
    + intros Hx. pose proof Hx as Hx'. rewrite Ec, lookup_insert_Some in Hx'. destruct Hx' as [[[= <- <-] <-]|[_ Ho]].
      * by eapply Hnew.
      * eapply established_from_step; [|done]. by apply (inv_children _ _ Hinv).
Qed.

Lemma reachable_inv heard s : reachable heard s -> server_inv heard s.
Proof.
  revert heard s. apply reachable_steps.
  - intros n g auth. constructor; intros i r x; cbn [Server_bind sessions children]; by rewrite lookup_empty.
  - intros heard s l s' Hr IH Hst. pose proof Hst as Hst'. destruct Hst as [s n E|s data from n E|s i r|s n].
    + pose proof (handle_one_effect s) as Hh. rewrite E in Hh. eapply server_inv_less; [done|done|..]; by rewrite Hh.
    + by eapply server_inv_handle.
    + eapply server_inv_less; [done|done|done|apply delete_subseteq].
    + by eapply server_inv_less.
Qed.
End invariant.

(** ** An ideal network between a client and a server *)

(** What the client sends is handled by the server at once; the server's answers
    queue up for the client. *)
Record Link `{!Pki} (G : Type) := mkLink { far : Server Mailbox G; near : list (bytes * SocketAddr) }.
Arguments mkLink {_ G} far near.
Arguments far {_ G} _.
Arguments near {_ G} _.

Definition client_addr : SocketAddr := mkSocketAddr (V4 (mkIpv4 10 0 0 2)) 500.

#[export] Instance Link_transport `{!Primitives, !Pki, Entropy G} : Transport (Link G) := {
  recv_from l := match near l with
    | [] => (None, l)
    | d :: rest => (Some d, mkLink (far l) rest) end;
  send_to data to l :=
    let s' := (handle_one (put_transport (mkMailbox [(data, client_addr)] []) (far l))).2 in
    (true, mkLink s' (near l ++ ((fun '(d, _) => (d, to)) <$> outbox (transport s')))) }.

Section handshake.
Context `{!Primitives, !Pki, !HmacLaws, !HashLaws, !AeadLaws, !BigUintLaws, !X25519Laws,
  Entropy G, !EntropyLaws G, Entropy G2, !EntropyLaws G2}.

(** The server answers a default IKE_SA_INIT request. *)
Lemma serve_sa_init (s : Server Mailbox G) li request from :
  LocalSecret_wf li -> initiator_request li default_offer = Ok request ->
  transport s = mkMailbox [(request, from)] [] ->
  exists resp ci cr g,
    handle_one s = (Done (EvSaInit (spi_i cr) (spi_r cr)),
      mkServer (mkMailbox [] [(resp, from)]) g (srv_auth s)
        (<[(spi_i cr, spi_r cr) := cr]> (sessions s)) (children s)) /\
    initiator_complete li request resp = Ok ci /\ same_sa ci cr /\ gcm_sa ci /\ gcm_sa cr.
Proof.
  intros Hli Hreq Ht.
  destruct (initiator_request_parse li default_offer request Hli default_offer_wf Hreq)
    as (h & _ & _ & P1 & _ & _ & Om & _).
  pose proof (initiator_request_type _ _ _ _ Hli default_offer_wf Hreq P1) as Hty.
  destruct (LocalSecret_generate_wf (entropy s) NONCE_LEN) as (Hlr & _); [done|].
  destruct (LocalSecret_generate (entropy s) NONCE_LEN) as [lr g] eqn:Hg. cbn [fst] in Hlr.
  destruct (sa_init_default li lr None Hli Hlr) as (req & resp & ci & cr & E1 & E2 & E3 & Hs & Es & _).
  rewrite Hreq in E1. injection E1 as <-.
  assert (Er : responder_respond request lr = Ok (resp, cr))
    by (unfold responder_respond; by rewrite E2).
  destruct (wp_ok _ _ _ (responder_respond_wp request lr Om Hlr) Er) as (Wr & _ & Eresp & _).
  assert (Or : bytes_ok resp) by (rewrite Eresp; apply Wr).
  exists resp, ci, cr, g. split_and!; [|done|done| |].
  - unfold handle_one, act_bind, zoom, recv. rewrite Ht. cbn [recv_from Mailbox_transport inbox outbox].
    rewrite octets_id by done. unfold ike at 1. rewrite P1, Hty.
    unfold handle_sa_init, act_bind, zoom, draw. cbn [put_transport entropy]. rewrite Hg.
    unfold ike. rewrite Er. reflexivity.
  - split; [|by rewrite (proj1 (proj2 (proj2 (proj2 Hs)))), Es].
    by apply (wp_ok _ _ _ (initiator_complete_wp request resp li Om Or Hli) E3).
  - by split; [|rewrite Es].
Qed.

(** The outbound direction does not depend on the SPI this end receives on. *)
Lemma derive_outbound skd n1 n2 x x' y c c' : ChildSa_derive skd n1 n2 Responder x y = Ok c ->
  ChildSa_derive skd n1 n2 Responder x' y = Ok c' -> outbound c = outbound c'.
Proof.
  unfold ChildSa_derive. destruct (derive_child_keys _ _ _ _ _) as [k| |]; try done. cbn [mbind outcome_bind].
  destruct (expect (EspSa_new y (encr_r k))) as [o| |]; try done. cbn [mbind outcome_bind].
  destruct (expect (EspSa_new x (encr_i k))), (expect (EspSa_new x' (encr_i k))); try done.
  by intros [= <-] [= <-].
Qed.

(** The server answers an IKE_AUTH request of a client that shares its key. *)
Lemma serve_auth (s : Server Mailbox G) ci cr id_i id_r psk spi_a iv request from rest out :
  gcm_sa ci -> gcm_sa cr -> same_sa ci cr -> id_fits id_i -> id_fits id_r -> u32_ok spi_a ->
  bytes_ok iv -> length iv = 8%nat ->
  sessions s !! (spi_i cr, spi_r cr) = Some cr -> srv_auth s = AuthConfig_psk id_r psk ->
  initiator_auth_request ci (AuthConfig_psk id_i psk) spi_a iv = Ok request ->
  transport s = mkMailbox ((request, from) :: rest) out ->
  exists resp g ca cb spi_b,
    handle_one s = (Done (EvEstablished (spi_i cr) (spi_r cr) id_i),
      mkServer (mkMailbox rest (out ++ [(resp, from)])) g (srv_auth s) (sessions s)
        (<[(spi_i cr, spi_r cr) := cb]> (children s))) /\
    initiator_verify_auth ci resp (AuthConfig_psk id_i psk) = Ok (id_r, spi_b, None) /\
    ChildSa_derive (sk_d (keys ci)) (ni ci) (nr ci) Initiator spi_a spi_b = Ok ca /\
    child_pair ca cb /\ esp_seq (outbound cb) = 0 /\
    ChildSa_derive (sk_d (keys cr)) (ni cr) (nr cr) Responder spi_b spi_a = Ok cb /\ u32_ok spi_b.
Proof.
  intros Hci Hcr Hs Hi Hr Ha Hiv Lv Hk Hau Hreq Ht.
  destruct (psk_request_ok ci id_i psk spi_a iv) as (m & _ & _ & Em & Om & _); try done.
  rewrite Hreq in Em. injection Em as <-.
  destruct (psk_request_header ci id_i psk spi_a iv request) as (h & Eh & Ety & Ei & Er); try done.
  destruct (next_u64 (entropy s)) as [x g1] eqn:E1. destruct (fill 8 g1) as [iv' g2] eqn:E2.
  pose proof (fill_length 8 g1) as Lv'. pose proof (fill_bytes 8 g1) as Hv'. rewrite E2 in Lv', Hv'.
  destruct (psk_mutual ci cr id_i id_r psk spi_a (as_u32 x) iv iv' None) as (req & resp & M1 & M2 & M3 & _);
    try done; [apply as_u32_ok|]. rewrite Hreq in M1. injection M1 as <-.
  destruct (derive_child_pair (sk_d (keys cr)) (ni cr) (nr cr) spi_a (as_u32 x))
    as (ca & cb & D1 & D2 & Hp & _ & _ & S1 & S2).
  destruct Hs as (_ & Si & Sr & _ & Sk & Sni & Snr & _).
  exists resp, g2, ca, cb, (as_u32 x). split_and!; try done; [|by rewrite Sk, Sni, Snr|apply as_u32_ok].
  unfold handle_one, act_bind, zoom, recv. rewrite Ht. cbn [recv_from Mailbox_transport inbox outbox].
  rewrite octets_id by done. unfold ike at 1. rewrite Eh, Ety, Ei, Er, Si, Sr.
  unfold gets. cbn [put_transport sessions]. rewrite Hk.
  unfold handle_auth, act_bind, zoom, draw. cbn [put_transport put_entropy entropy]. rewrite E1.
  cbn [put_entropy entropy]. rewrite E2. unfold gets, ike. cbn [put_entropy put_transport srv_auth].
  rewrite Hau, M2. unfold send. cbn [send_to Mailbox_transport transport put_entropy]. rewrite D2.
  cbn [modify act_ret]. unfold modify, act_ret, insert_child. cbn. by rewrite Hau.
Qed.
End handshake.

Section client_runs.
Context `{!Primitives, !Pki, !HmacLaws, !HashLaws, !AeadLaws, !BigUintLaws, !X25519Laws,
  Entropy G, !EntropyLaws G, Entropy G2, !EntropyLaws G2}.

(** One message over the link, and the server's answer to it. *)
Lemma link_roundtrip (s s' : Server Mailbox G) (g : G2) data to r resp A (k : bytes * SocketAddr -> action _ A) :
  handle_one (put_transport (mkMailbox [(data, client_addr)] []) s) = (r, s') ->
  outbox (transport s') = [(resp, client_addr)] ->
  act_bind (zoom cl_transport put_cl_transport (send data to))
    (fun _ => act_bind (zoom cl_transport put_cl_transport recv) k) (mkClient (mkLink s []) g) =
  k (resp, to) (mkClient (mkLink s' []) g).
Proof.
  intros E1 E2. unfold act_bind, zoom, send. cbn [cl_transport send_to Link_transport far near].
  rewrite E1. cbn [snd]. by rewrite E2.
Qed.

Lemma client_sa_init (s : Server Mailbox G) (g : G2) addr : exists ci cr s1 g1,
  sa_init addr (mkClient (mkLink s []) g) = (Done ci, mkClient (mkLink s1 []) g1) /\
  same_sa ci cr /\ gcm_sa ci /\ gcm_sa cr /\ srv_auth s1 = srv_auth s /\
  sessions s1 = <[(spi_i cr, spi_r cr) := cr]> (sessions s) /\ children s1 = children s.
Proof.
  destruct (LocalSecret_generate_wf g NONCE_LEN) as (Hli & _); [done|].
  destruct (LocalSecret_generate g NONCE_LEN) as [li g1] eqn:Eg. cbn [fst] in Hli.
  destruct (initiator_request_ok li default_offer Hli default_offer_wf)
    as (pub & _ & _ & _ & _ & _ & Ereq & _).
  set (m := build_sa_init _ _ _ _ _ _) in Ereq. clearbody m. clear pub.
  destruct (serve_sa_init (put_transport (mkMailbox [(m, client_addr)] []) s) li m client_addr)
    as (resp & ci & cr & gs & S1 & S2 & Hs & Hci & Hcr); try done.
  eexists ci, cr, _, g1. split_and!; [|exact Hs|exact Hci|exact Hcr|..].
  - unfold sa_init. erewrite act_bind_done by (apply zoom_draw; exact Eg).
    erewrite act_bind_done by (apply ike_ok; exact Ereq). unfold put_cl_entropy. cbn [cl_transport].
    erewrite link_roundtrip by (exact S1 || reflexivity). by rewrite (ike_ok _ ci).
  - done.
  - done.
  - done.
Qed.

Lemma client_authenticate (s : Server Mailbox G) (g : G2) addr ci cr id_i id_r psk spi_a :
  gcm_sa ci -> gcm_sa cr -> same_sa ci cr -> id_fits id_i -> id_fits id_r -> u32_ok spi_a ->
  sessions s !! (spi_i cr, spi_r cr) = Some cr -> srv_auth s = AuthConfig_psk id_r psk ->
  exists s1 g1 ca cb spi_b,
    authenticate addr ci (AuthConfig_psk id_i psk) spi_a (mkClient (mkLink s []) g) =
      (Done (id_r, spi_b, None), mkClient (mkLink s1 []) g1) /\
    sessions s1 = sessions s /\ children s1 !! (spi_i cr, spi_r cr) = Some cb /\
    ChildSa_derive (sk_d (keys ci)) (ni ci) (nr ci) Initiator spi_a spi_b = Ok ca /\ child_pair ca cb.
Proof.
  intros Hci Hcr Hs Hi Hr Ha Hk Hau.
  destruct (fill 8 g) as [iv g2] eqn:E2.
  pose proof (fill_length 8 g) as Lv. pose proof (fill_bytes 8 g) as Hv. rewrite E2 in Lv, Hv.
  destruct (psk_request_ok ci id_i psk spi_a iv) as (m2 & _ & _ & Em2 & _); try done.
  destruct (serve_auth (put_transport (mkMailbox [(m2, client_addr)] []) s)
    ci cr id_i id_r psk spi_a iv m2 client_addr [] [])
    as (resp2 & gs2 & ca & cb & spi_b & A1 & A2 & A3 & Hp & _); try done.
  eexists _, g2, ca, cb, spi_b. split_and!; [| | |exact A3|exact Hp].
  - unfold authenticate. erewrite act_bind_done by (apply zoom_draw; exact E2).
    erewrite act_bind_done by (apply ike_ok; exact Em2). unfold put_cl_entropy. cbn [cl_transport].
    erewrite link_roundtrip by (exact A1 || reflexivity). by rewrite (ike_ok _ (id_r, spi_b, None)).
  - done.
  - cbn [children]. by rewrite lookup_insert_eq.
Qed.

(** The whole handshake over the link *)
Lemma connect_run (s : Server Mailbox G) (g : G2) addr id_i id_r psk spi_a :
  srv_auth s = AuthConfig_psk id_r psk -> id_fits id_i -> id_fits id_r -> u32_ok spi_a ->
  exists sa ca sr cb s2 g2,
    connect addr (AuthConfig_psk id_i psk) spi_a (mkClient (mkLink s []) g) =
      (Done (sa, id_r, ca, None), mkClient (mkLink s2 []) g2) /\ gcm_sa sa /\
    session s2 (spi_i sa) (spi_r sa) = Some sr /\ same_sa sa sr /\
    child s2 (spi_i sa) (spi_r sa) = Some cb /\ child_pair ca cb.
Proof.
  intros Hau Hi Hr Ha.
  destruct (client_sa_init s g addr) as (ci & cr & s1 & g1 & E1 & Hs & Hci & Hcr & Ea & Es & _).
  assert (Hk : sessions s1 !! (spi_i cr, spi_r cr) = Some cr) by (rewrite Es; apply lookup_insert_eq).
  destruct (client_authenticate s1 g1 addr ci cr id_i id_r psk spi_a)
    as (s2 & g2 & ca & cb & spi_b & E2 & Es2 & Ec & Ed & Hp); try done; [by rewrite Ea|].
  exists ci, ca, cr, cb, s2, g2. split_and!; [|done|..].
  - unfold connect. erewrite act_bind_done by exact E1. cbv beta. erewrite act_bind_done by exact E2.
    cbv beta iota. erewrite act_bind_done by (apply ike_ok; exact Ed). reflexivity.
  - unfold session. destruct Hs as (_ & -> & -> & _). by rewrite Es2.
  - done.
  - unfold child. by destruct Hs as (_ & -> & -> & _).
  - done.
Qed.
End client_runs.

(** ** Properties *)
Section properties.
Context `{!Primitives, !Pki, !HmacLaws, !HashLaws, !AeadLaws, !BigUintLaws, !X25519Laws,
  Entropy G, !EntropyLaws G, Entropy G2, !EntropyLaws G2, Transport Sock, !TransportLaws Sock}.

(** C1: The whole handshake completes: a client that runs [connect] against a
    server, in any state and with any randomness on both sides, that holds the same
    pre-shared key (identities of a size that fits an IKE_AUTH message), obtains an SA, the server's identity and a CHILD SA; the server
    is left with the same SA in its session table and, in its CHILD SA table under
    the same SPI pair, the mirror image of the client's CHILD SA. *)
Theorem handshake_completes (s : Server Mailbox G) (g : G2) id_i id_r psk spi_a addr :
  srv_auth s = AuthConfig_psk id_r psk -> id_fits id_i -> id_fits id_r -> u32_ok spi_a ->
  exists sa ca sr cb cl,
    connect addr (AuthConfig_psk id_i psk) spi_a (mkClient (mkLink s []) g) =
      (Done (sa, id_r, ca, None), cl) /\
    session (far (cl_transport cl)) (spi_i sa) (spi_r sa) = Some sr /\ same_sa sa sr /\
    child (far (cl_transport cl)) (spi_i sa) (spi_r sa) = Some cb /\ child_pair ca cb.
Proof.
  intros Hau Hi Hr Ha. destruct (connect_run s g addr id_i id_r psk spi_a)
    as (sa & ca & sr & cb & s2 & g2 & E & _ & Es & Hs & Ec & Hp); try done.
  by eexists sa, ca, sr, cb, _.
Qed.

(** What one datagram does to the server: without a datagram only the socket
    changes; otherwise the server does not panic, never changes its credentials,
    and changes its tables only in two ways.  An IKE_SA_INIT event adds one
    well-formed responder session whose transcript is that datagram, and an
    established event adds one CHILD SA, derived from the session already stored
    under the SPI pair, after the datagram proved the peer's identity over that
    session's transcript.  Errors and ignored datagrams change no table. *)
Theorem server_step_effect (s : Server Sock G) :
  match recv_from (transport s) with
  | (None, n) => handle_one s = (Failed Io, put_transport n s)
  | (Some (data, from), n) =>
      (handle_one s).1 <> Panicked /\ step_effect s data (handle_one s).1 (handle_one s).2
  end.
Proof.
  pose proof (handle_one_effect s) as E. destruct (recv_from (transport s)) as [[[data from]|] n]; [|done].
  unfold act_wp in E. by destruct (handle_one s).
Qed.

(** C2: No CHILD SA without authentication: in every state the server can reach from
    an empty one, under any sequence of datagrams, socket errors, changes of the
    socket's state and removals, each stored session is what the responder computes, with
    secrets of its own, from a datagram that was heard and whose header says IKE_SA_INIT; and for
    each stored CHILD SA the run passed through a state in which such a session was stored
    under the same SPI pair and the server handled a datagram whose header says IKE_AUTH and
    names this pair, which, opened with that session's keys, proved the peer's
    identity with the server's credentials over that session's transcript; the CHILD SA was
    derived from that session then. *)
Theorem server_children_authenticated heard (s : Server Sock G) :
  reachable heard s ->
  (forall i r sa, session s i r = Some sa -> exists data, data ∈ heard /\ fresh_session data i r sa) /\
  (forall i r ch, child s i r = Some ch -> established_from heard s i r ch).
Proof. intros [I1 I2]%reachable_inv. by split. Qed.

(** C31: A repeated IKE_AUTH datagram is processed again: when a server with an
    established peer hears the very datagram that established it a second time, it
    reports the peer as established again and replaces the CHILD SA by one whose
    outbound direction has the same SPI, key and salt and whose sequence counter is
    back at 0, so that what is sealed after the repetition uses, under the same key,
    the nonces already used before it. *)
Theorem replayed_auth_resets_child (s : Server Mailbox G) ci cr id_i id_r psk spi_a iv request a1 a2 out :
  gcm_sa ci -> gcm_sa cr -> same_sa ci cr -> id_fits id_i -> id_fits id_r -> u32_ok spi_a ->
  bytes_ok iv -> length iv = 8%nat ->
  sessions s !! (spi_i cr, spi_r cr) = Some cr -> srv_auth s = AuthConfig_psk id_r psk ->
  initiator_auth_request ci (AuthConfig_psk id_i psk) spi_a iv = Ok request ->
  transport s = mkMailbox [(request, a1); (request, a2)] out ->
  exists s1 s2 c1 c2,
    handle_one s = (Done (EvEstablished (spi_i cr) (spi_r cr) id_i), s1) /\
    handle_one s1 = (Done (EvEstablished (spi_i cr) (spi_r cr) id_i), s2) /\
    child s1 (spi_i cr) (spi_r cr) = Some c1 /\ child s2 (spi_i cr) (spi_r cr) = Some c2 /\
    outbound c1 = outbound c2 /\ esp_seq (outbound c2) = 0.
Proof.
  intros Hci Hcr Hs Hi Hr Ha Hiv Lv Hk Hau Hreq Ht.
  destruct (serve_auth s ci cr id_i id_r psk spi_a iv request a1 [(request, a2)] out)
    as (r1 & g1 & ca & c1 & x1 & E1 & _ & _ & _ & _ & D1 & _); try done.
  set (s1 := mkServer _ _ _ _ _) in E1.
  destruct (serve_auth s1 ci cr id_i id_r psk spi_a iv request a2 [] (out ++ [(r1, a1)]))
    as (r2 & g2 & ca2 & c2 & x2 & E2 & _ & _ & _ & S2 & D2 & _); try done.
  eexists s1, _, c1, c2. split_and!; [exact E1|exact E2|..].
  - unfold child. cbn [s1 children]. by rewrite lookup_insert_eq.
  - unfold child. cbn [children]. by rewrite lookup_insert_eq.
  - by eapply derive_outbound.
  - exact S2.
Qed.
End properties.

(** A server of a fixed seed that knows the example SA. *)
Definition example_server (received : list bytes) : Server Mailbox SeedEntropy :=
  mkServer (mkMailbox ((fun d => (d, client_addr)) <$> received) []) (SeedEntropy_new 7)
    (AuthConfig_psk example_id_r [1; 2; 3]) {[(17, 34) := example_completed Responder]} ∅.

Lemma handshake_completes_witness : exists sa ca cl,
  connect client_addr (AuthConfig_psk example_id_i [1; 2; 3]) 100
    (mkClient (mkLink (example_server []) []) (SeedEntropy_new 5)) = (Done (sa, example_id_r, ca, None), cl).
Proof.
  destruct (handshake_completes (example_server []) (SeedEntropy_new 5) example_id_i example_id_r [1; 2; 3]
    100 client_addr eq_refl example_id_i_fits example_id_r_fits) as (sa & ca & sr & cb & cl & E & _);
    [by split|].
  exists sa, ca, cl. exact E.
Defined.

(** A server hears an IKE_SA_INIT and then the IKE_AUTH request of a client with its
    pre-shared key, and holds a CHILD SA afterwards. *)
Lemma example_established : exists heard (s : Server Mailbox SeedEntropy) i r ch,
  reachable heard s /\ child s i r = Some ch.
Proof.
  destruct (LocalSecret_generate_wf (SeedEntropy_new 5) NONCE_LEN) as (Hli & _); [done|].
  generalize dependent (fst (LocalSecret_generate (SeedEntropy_new 5) NONCE_LEN)). intros li Hli.
  destruct (initiator_request_ok li default_offer Hli default_offer_wf)
    as (pub & _ & _ & _ & _ & _ & Ereq & _).
  set (m := build_sa_init _ _ _ _ _ _) in Ereq. clearbody m. clear pub.
  pose (s0 := Server_bind (mkMailbox [(m, client_addr)] []) (SeedEntropy_new 7)
    (AuthConfig_psk example_id_r [1; 2; 3])).
  destruct (serve_sa_init s0 li m client_addr) as (resp & ci & cr & g & E1 & _ & Hs & Hci & Hcr); try done.
  destruct (psk_request_ok ci example_id_i [1; 2; 3] 100 example_iv Hci example_id_i_fits example_iv_ok eq_refl)
    as (m2 & _ & _ & Em2 & _).
  pose (s1 := put_transport (mkMailbox [(m2, client_addr)] []) (handle_one s0).2).
  assert (R1 : reachable [as_u8 <$> m] s1).
  { apply reach_arrive. by apply (reach_handle [] s0 (as_u8 <$> m) client_addr (mkMailbox [] []) (reach_bind _ _ _)). }
  destruct (serve_auth s1 ci cr example_id_i example_id_r [1; 2; 3] 100 example_iv m2 client_addr [] [])
    as (resp2 & g2 & ca & cb & spi_b & E2 & _); try done;
    [exact example_id_i_fits|exact example_id_r_fits|exact example_iv_ok|..].
  { unfold s1. rewrite E1. apply lookup_insert_eq. }
  { unfold s1. by rewrite E1. }
  eexists _, (handle_one s1).2, (spi_i cr), (spi_r cr), cb. split.
  - by apply (reach_handle _ s1 (as_u8 <$> m2) client_addr (mkMailbox [] []) R1).
  - rewrite E2. apply lookup_insert_eq.
Qed.

Lemma server_children_authenticated_witness : exists (heard : list bytes) (s : Server Mailbox SeedEntropy) i r ch,
  child s i r = Some ch /\ established_from heard s i r ch.
Proof.
  destruct example_established as (heard & s & i & r & ch & Hreach & Hch).
  exists heard, s, i, r, ch. split; [exact Hch|].
  exact (proj2 (server_children_authenticated heard s Hreach) i r ch Hch).
Defined.

Lemma replayed_auth_resets_child_witness : exists request s1 s2 c1 c2,
  handle_one (example_server [request; request]) = (Done (EvEstablished 17 34 example_id_i), s1) /\
  handle_one s1 = (Done (EvEstablished 17 34 example_id_i), s2) /\
  child s1 17 34 = Some c1 /\ child s2 17 34 = Some c2 /\ outbound c1 = outbound c2.
Proof.
  destruct (psk_request_ok (example_completed Initiator) example_id_i [1; 2; 3] 100 example_iv
    (example_gcm_sa _) example_id_i_fits example_iv_ok eq_refl) as (m & _ & _ & Em & _).
  exists m.
  destruct (replayed_auth_resets_child (example_server [m; m]) (example_completed Initiator)
    (example_completed Responder) example_id_i example_id_r [1; 2; 3] 100 example_iv m client_addr client_addr []
    (example_gcm_sa _) (example_gcm_sa _) example_same_sa example_id_i_fits example_id_r_fits)
    as (s1 & s2 & c1 & c2 & H1 & H2 & H3 & H4 & H5 & _);
    [by split|exact example_iv_ok|reflexivity|reflexivity|reflexivity|exact Em|reflexivity|].
  exists s1, s2, c1, c2. exact (conj H1 (conj H2 (conj H3 (conj H4 H5)))).
Defined.

Lemma server_step_effect_witness : exists request,
  (handle_one (example_server [request])).1 = Done (EvEstablished 17 34 example_id_i) /\
  step_effect (example_server [request]) request (Done (EvEstablished 17 34 example_id_i))
    (handle_one (example_server [request])).2.
Proof.
  destruct (psk_request_ok (example_completed Initiator) example_id_i [1; 2; 3] 100 example_iv
    (example_gcm_sa _) example_id_i_fits example_iv_ok eq_refl) as (m & _ & _ & Em & Om & _).
  destruct (serve_auth (example_server [m]) (example_completed Initiator)
    (example_completed Responder) example_id_i example_id_r [1; 2; 3] 100 example_iv m client_addr [] []
    (example_gcm_sa _) (example_gcm_sa _) example_same_sa example_id_i_fits example_id_r_fits)
    as (resp & g & ca & cb & spi_b & E & _);
    [by split|exact example_iv_ok|reflexivity|reflexivity|reflexivity|exact Em|reflexivity|].
  exists m. split; [by rewrite E|].
  pose proof (server_step_effect (example_server [m])) as Hs. rewrite E in Hs |- *.
  cbn [recv_from Mailbox_transport transport example_server fmap list_fmap inbox outbox] in Hs.
  rewrite octets_id in Hs by exact Om. exact (proj2 Hs).
Defined.
