(* ===== verification/Eap.v ===== *)
(** * EAP and MS-CHAP-v2 ([src/src/ikev2/mschapv2.rs], [src/src/ikev2/eap.rs])

    The challenge-response scheme of RFC 2759, the EAP packet framing and the
    EAP-MSCHAPv2 messages.  MD4 and DES come from other crates and are parameters. *)
From S2P Require Import Prelude Outcome Primitives.
From stdpp Require Import strings.
Open Scope Z_scope.

(** [md4::Md4::digest]; [des::Des]: key, block. *)
Class LegacyCrypto := { md4 : bytes -> bytes; des_block : bytes -> bytes -> bytes }.

Class LegacyLaws `{!LegacyCrypto} : Prop := {
  md4_length d : length (md4 d) = 16%nat;
  md4_bytes d : bytes_ok (md4 d);
  des_length k b : length (des_block k b) = 8%nat;
  des_bytes k b : bytes_ok (des_block k b) }.

#[export] Instance toy_legacy : LegacyCrypto := {|
  md4 d := drop 16 (sha256 d);
  des_block k b := drop 24 (sha256 (k ++ b)) |}.

#[export] Instance toy_legacy_laws : LegacyLaws.
Proof.
  split; intros; cbn [md4 des_block toy_legacy]; try (apply Forall_drop, sha256_bytes);
    by rewrite length_drop, sha256_length.
Qed.

(** The bytes of a byte-string literal. *)
Definition ascii_bytes (s : string) : bytes :=
  (fun c => Z.of_N (Ascii.N_of_ascii c)) <$> String.list_ascii_of_string s.

(** A [str] by its Unicode scalar values. *)
Definition str : Type := list Z.

(** [char::encode_utf16] *)
Definition utf16_units (c : Z) : list Z :=
  if decide (c < 0x10000) then [c]
  else let c' := c - 0x10000 in
       [Z.lor 0xD800 (Z.shiftr c' 10); Z.lor 0xDC00 (Z.land c' 0x3FF)].

Definition u16_le_bytes (u : Z) : bytes := [as_u8 u; as_u8 (Z.shiftr u 8)].

(** [password.encode_utf16().flat_map(|c| c.to_le_bytes())] *)
Definition utf16_le (s : str) : bytes := (s ≫= utf16_units) ≫= u16_le_bytes.

(** ** MS-CHAP-v2 *)
Definition MAGIC1 : bytes := ascii_bytes "Magic server to client signing constant".
Definition MAGIC2 : bytes := ascii_bytes "Pad to make it do more than one iteration".
Definition MPPE_MASTER_MAGIC : bytes := ascii_bytes "This is the MPPE Master Key".
Definition MPPE_MAGIC2 : bytes :=
  ascii_bytes "On the client side, this is the send key; on the server side, it is the receive key.".
Definition MPPE_MAGIC3 : bytes :=
  ascii_bytes "On the client side, this is the receive key; on the server side, it is the send key.".
Definition SHS_PAD1 : bytes := replicate 40 0.
Definition SHS_PAD2 : bytes := replicate 40 0xF2.

(** [for b in &mut k { *b <<= 1 }] on [u8]s *)
Definition str_to_key (s : bytes) : outcome bytes :=
  s0 ← idx s 0; s1 ← idx s 1; s2 ← idx s 2; s3 ← idx s 3;
  s4 ← idx s 4; s5 ← idx s 5; s6 ← idx s 6;
  let k :=
    [Z.shiftr s0 1;
     Z.lor (Z.shiftl (Z.land s0 0x01) 6) (Z.shiftr s1 2);
     Z.lor (Z.shiftl (Z.land s1 0x03) 5) (Z.shiftr s2 3);
     Z.lor (Z.shiftl (Z.land s2 0x07) 4) (Z.shiftr s3 4);
     Z.lor (Z.shiftl (Z.land s3 0x0F) 3) (Z.shiftr s4 5);
     Z.lor (Z.shiftl (Z.land s4 0x1F) 2) (Z.shiftr s5 6);
     Z.lor (Z.shiftl (Z.land s5 0x3F) 1) (Z.shiftr s6 7);
     Z.land s6 0x7F] in
  Ok ((fun b => as_u8 (Z.shiftl b 1)) <$> k).

(** [format!("{b:02X}")] *)
Definition hex_digit (d : Z) : Z := if decide (d < 10) then 48 + d else 55 + d.
Definition hex_byte (b : Z) : bytes := [hex_digit (Z.shiftr b 4); hex_digit (Z.land b 15)].

Section mschapv2.
Context `{!Primitives, !LegacyCrypto}.

Definition nt_password_hash (password : str) : bytes := md4 (utf16_le password).
Definition hash_nt_password_hash (password_hash : bytes) : bytes := md4 password_hash.

Definition challenge_hash (peer_challenge authenticator_challenge user_name : bytes) : outcome bytes :=
  slice (sha1 (peer_challenge ++ authenticator_challenge ++ user_name)) 0 8.

Definition des_encrypt (challenge key7 : bytes) : outcome bytes :=
  k ← str_to_key key7;
  Ok (des_block k challenge).

(** [zph] is the hash padded with zeros to 21 octets *)
Definition challenge_response (challenge password_hash : bytes) : outcome bytes :=
  let zph := password_hash ++ replicate 5 0 in
  k1 ← slice zph 0 7; a ← des_encrypt challenge k1;
  k2 ← slice zph 7 14; b ← des_encrypt challenge k2;
  k3 ← slice zph 14 21; c ← des_encrypt challenge k3;
  Ok (a ++ b ++ c).

Definition generate_nt_response (authenticator_challenge peer_challenge user_name : bytes)
    (password : str) : outcome bytes :=
  challenge ← challenge_hash peer_challenge authenticator_challenge user_name;
  let password_hash := nt_password_hash password in
  challenge_response challenge password_hash.

Definition generate_authenticator_response (password : str) (nt_response peer_challenge
    authenticator_challenge user_name : bytes) : outcome bytes :=
  let password_hash := nt_password_hash password in
  let password_hash_hash := hash_nt_password_hash password_hash in
  let digest := sha1 (password_hash_hash ++ nt_response ++ MAGIC1) in
  challenge ← challenge_hash peer_challenge authenticator_challenge user_name;
  let digest2 := sha1 (digest ++ challenge ++ MAGIC2) in
  Ok (ascii_bytes "S=" ++ (digest2 ≫= hex_byte)).

Definition get_master_key (password_hash_hash nt_response : bytes) : outcome bytes :=
  slice (sha1 (password_hash_hash ++ nt_response ++ MPPE_MASTER_MAGIC)) 0 16.

Definition asymmetric_start_key (master_key magic : bytes) : outcome bytes :=
  slice (sha1 (master_key ++ SHS_PAD1 ++ magic ++ SHS_PAD2)) 0 16.

Definition derive_msk (password : str) (nt_response : bytes) : outcome bytes :=
  let phh := hash_nt_password_hash (nt_password_hash password) in
  mk ← get_master_key phh nt_response;
  master_receive_key ← asymmetric_start_key mk MPPE_MAGIC2;
  master_send_key ← asymmetric_start_key mk MPPE_MAGIC3;
  Ok (master_receive_key ++ master_send_key ++ replicate 32 0).
End mschapv2.

(** ** EAP packets *)
Module code.
Definition REQUEST : Z := 1.
Definition RESPONSE : Z := 2.
Definition SUCCESS : Z := 3.
Definition FAILURE : Z := 4.
End code.

Module eap_type.
Definition IDENTITY : Z := 1.
Definition NAK : Z := 3.
Definition MSCHAPV2 : Z := 26.
End eap_type.

Module op.
Definition CHALLENGE : Z := 1.
Definition RESPONSE : Z := 2.
Definition SUCCESS : Z := 3.
Definition FAILURE : Z := 4.
End op.

Record EapPacket := mkEap { eap_code : Z; identifier : Z; eap_data : bytes }.

Definition EapPacket_parse (body : bytes) : outcome EapPacket :=
  if decide (length body < 4)%nat then Err (Truncated 4 (length body)) else
  l ← u16be body 2;
  let len := usize l in
  if decide (len < 4 \/ length body < len)%nat then Err (BadLength len (length body)) else
  c ← idx body 0;
  i ← idx body 1;
  d ← slice body 4 len;
  Ok (mkEap c i d).

Definition EapPacket_to_bytes (p : EapPacket) : bytes :=
  [eap_code p; identifier p] ++ be_bytes 2 (len16 (4 + length (eap_data p))) ++ eap_data p.

(** [self.data.first().copied()] *)
Definition EapPacket_type (p : EapPacket) : option Z := head (eap_data p).

(** ** EAP-MSCHAPv2 messages *)
Definition build_challenge (mschap_id : Z) (challenge name : bytes) : bytes :=
  [eap_type.MSCHAPV2; op.CHALLENGE; mschap_id] ++ be_bytes 2 (len16 (4 + 1 + 16 + length name)) ++
  [16] ++ challenge ++ name.

Definition parse_challenge (d : bytes) : outcome (Z * bytes * bytes) :=
  if decide (length d < 22)%nat then Err (Crypto "not an EAP-MSCHAPv2 Challenge") else
  d0 ← idx d 0;
  if decide (d0 <> eap_type.MSCHAPV2) then Err (Crypto "not an EAP-MSCHAPv2 Challenge") else
  d1 ← idx d 1;
  if decide (d1 <> op.CHALLENGE) then Err (Crypto "not an EAP-MSCHAPv2 Challenge") else
  challenge ← slice d 6 22;
  id ← idx d 2;
  name ← slice_from d 22;
  Ok (id, challenge, name).

(** [struct Response] *)
Record Response := mkResponse {
  mschap_id : Z; peer_challenge : bytes; nt_response : bytes; resp_name : bytes }.

Definition parse_response (d : bytes) : outcome Response :=
  if decide (length d < 55)%nat then Err (Crypto "not an EAP-MSCHAPv2 Response") else
  d0 ← idx d 0;
  if decide (d0 <> eap_type.MSCHAPV2) then Err (Crypto "not an EAP-MSCHAPv2 Response") else
  d1 ← idx d 1;
  if decide (d1 <> op.RESPONSE) then Err (Crypto "not an EAP-MSCHAPv2 Response") else
  id ← idx d 2;
  pc ← slice d 6 22;
  nt ← slice d 30 54;
  name ← slice_from d 55;
  Ok (mkResponse id pc nt name).

Definition build_success (mschap_id : Z) (auth_response : bytes) : bytes :=
  [eap_type.MSCHAPV2; op.SUCCESS; mschap_id] ++ be_bytes 2 (len16 (4 + length auth_response)) ++
  auth_response.

Section messages.
Context `{!Primitives, !LegacyCrypto}.

Definition build_response (mschap_id : Z) (authenticator_challenge peer_challenge user : bytes)
    (password : str) : outcome bytes :=
  nt ← generate_nt_response authenticator_challenge peer_challenge user password;
  Ok ([eap_type.MSCHAPV2; op.RESPONSE; mschap_id] ++ be_bytes 2 (len16 (4 + 1 + 49 + length user)) ++
      [49] ++ peer_challenge ++ replicate 8 0 ++ nt ++ [0] ++ user).

Definition verify_response (authenticator_challenge response_data : bytes) (password : str)
    : outcome bytes :=
  resp ← parse_response response_data;
  expected ← generate_nt_response authenticator_challenge (peer_challenge resp) (resp_name resp) password;
  if decide (expected <> nt_response resp) then Err AuthFailed
  else generate_authenticator_response password (nt_response resp) (peer_challenge resp)
         authenticator_challenge (resp_name resp).
End messages.

(** ** Lemmas *)
Section lengths.
Context `{!Primitives, !HashLaws, !LegacyCrypto, !LegacyLaws}.

Lemma challenge_hash_ok p a u : exists c, challenge_hash p a u = Ok c /\ length c = 8%nat.
Proof.
  unfold challenge_hash. rewrite slice_ok by (rewrite ?sha1_length; lia).
  eexists. split; [done|]. rewrite length_take, length_drop, sha1_length. lia.
Qed.

Lemma str_to_key_ok s : length s = 7%nat -> exists k, str_to_key s = Ok k /\ length k = 8%nat.
Proof.
  intros Hl. destruct s as [|s0 [|s1 [|s2 [|s3 [|s4 [|s5 [|s6 [|]]]]]]]]; try done. by eexists.
Qed.

Lemma des_encrypt_ok c k : length k = 7%nat ->
  exists b, des_encrypt c k = Ok b /\ length b = 8%nat /\ bytes_ok b.
Proof.
  intros Hk. unfold des_encrypt. destruct (str_to_key_ok k Hk) as (k' & -> & _).
  eexists. split_and!; [done|apply des_length|apply des_bytes].
Qed.

Lemma challenge_response_ok c h : length h = 16%nat ->
  exists r, challenge_response c h = Ok r /\ length r = 24%nat /\ bytes_ok r.
Proof.
  intros Hh. unfold challenge_response.
  assert (Hz : length (h ++ replicate 5 0) = 21%nat) by (rewrite length_app, length_replicate; lia).
  assert (Hs : forall i, (i <= 14)%nat -> exists k, slice (h ++ replicate 5 0) i (i + 7) = Ok k /\ length k = 7%nat).
  { intros i Hi. rewrite slice_ok by lia. eexists. split; [done|]. rewrite length_take, length_drop. lia. }
  destruct (Hs 0%nat ltac:(lia)) as (k1 & E1 & L1). destruct (Hs 7%nat ltac:(lia)) as (k2 & E2 & L2).
  destruct (Hs 14%nat ltac:(lia)) as (k3 & E3 & L3). cbn [Nat.add] in E1, E2, E3.
  destruct (des_encrypt_ok c k1 L1) as (a & Ea & La & Ba), (des_encrypt_ok c k2 L2) as (b & Eb & Lb & Bb),
    (des_encrypt_ok c k3 L3) as (d & Ed & Ld & Bd).
  rewrite E1. cbn [mbind outcome_bind]. rewrite Ea. cbn [mbind outcome_bind].
  rewrite E2. cbn [mbind outcome_bind]. rewrite Eb. cbn [mbind outcome_bind].
  rewrite E3. cbn [mbind outcome_bind]. rewrite Ed.
  eexists. split_and!; [done|rewrite !length_app; lia|auto with ryke].
Qed.

Lemma generate_nt_response_ok a p u pw : exists r, generate_nt_response a p u pw = Ok r /\
  length r = 24%nat /\ bytes_ok r.
Proof.
  unfold generate_nt_response. destruct (challenge_hash_ok p a u) as (c & -> & _). cbn [mbind outcome_bind].
  apply challenge_response_ok, md4_length.
Qed.

Lemma generate_authenticator_response_ok pw nt p a u : exists r,
  generate_authenticator_response pw nt p a u = Ok r.
Proof.
  unfold generate_authenticator_response. destruct (challenge_hash_ok p a u) as (c & -> & _).
  by eexists.
Qed.

Lemma hex_byte_ok b : byte_ok b -> bytes_ok (hex_byte b).
Proof.
  intros Hb. unfold byte_ok in Hb. assert (Hd : forall d, 0 <= d < 16 -> byte_ok (hex_digit d)).
  { intros d Hd. unfold hex_digit, byte_ok. case_decide; lia. }
  unfold hex_byte. rewrite Z.shiftr_div_pow2 by lia. change 15 with (Z.ones 4). rewrite Z.land_ones by lia.
  apply Forall_cons_2; [|apply Forall_singleton]; apply Hd.
  - split; [apply Z.div_pos; lia|apply Z.div_lt_upper_bound; lia].
  - apply Z.mod_pos_bound. lia.
Qed.

Lemma hex_bytes_ok l : bytes_ok l -> bytes_ok (l ≫= hex_byte) /\ length (l ≫= hex_byte) = (2 * length l)%nat.
Proof.
  induction 1 as [|b l Hb Hl [IH1 IH2]]; [split; [constructor|done]|]. cbn [mbind list_bind]. split.
  - apply bytes_ok_app; [by apply hex_byte_ok|done].
  - rewrite length_app. change (list_bind _ _ hex_byte l) with (l ≫= hex_byte). rewrite IH2. simpl. lia.
Qed.

Lemma authenticator_response_fits pw nt p a u r : generate_authenticator_response pw nt p a u = Ok r ->
  bytes_ok r /\ length r = 42%nat.
Proof.
  unfold generate_authenticator_response. destruct (challenge_hash_ok p a u) as (c & -> & _).
  cbn [mbind outcome_bind]. intros [= <-]. set (d := sha1 _).
  destruct (hex_bytes_ok d) as [Hb Hl]; [apply sha1_bytes|].
  split; [apply Forall_cons_2; [by split|]; apply Forall_cons_2; [by split|done]|].
  cbn [length]. rewrite Hl. unfold d. by rewrite sha1_length.
Qed.

Lemma derive_msk_ok pw nt : exists k, derive_msk pw nt = Ok k /\ length k = 64%nat.
Proof.
  unfold derive_msk, get_master_key, asymmetric_start_key. rewrite slice_ok by (rewrite ?sha1_length; lia).
  cbn [mbind outcome_bind]. rewrite !slice_ok by (rewrite ?sha1_length; lia). eexists. split; [done|].
  rewrite !length_app, !length_take, !length_drop, !sha1_length, length_replicate. lia.
Qed.
End lengths.

Record EapPacket_wf (p : EapPacket) : Prop := {
  wf_eap_code : byte_ok (eap_code p);
  wf_eap_id : byte_ok (identifier p);
  wf_eap_data : bytes_ok (eap_data p);
  wf_eap_len : Z.of_nat (4 + length (eap_data p)) < 2 ^ 16 }.

Lemma EapPacket_roundtrip p rest : EapPacket_wf p -> EapPacket_parse (EapPacket_to_bytes p ++ rest) = Ok p.
Proof.
  intros [_ _ _ Hl]. destruct p as [c i d]. cbn [eap_data] in Hl. unfold EapPacket_parse.
  set (hd := [c; i] ++ be_bytes 2 (len16 (4 + length d))).
  assert (E : EapPacket_to_bytes (mkEap c i d) ++ rest = hd ++ d ++ rest)
    by (unfold EapPacket_to_bytes, hd; cbn [eap_code identifier eap_data]; by rewrite <- !app_assoc).
  rewrite E. assert (Hh : length hd = 4%nat) by done.
  rewrite decide_False by (rewrite length_app; lia).
  change (u16be (hd ++ ?r) 2) with (Ok (be_val (be_bytes 2 (len16 (4 + length d))))).
  cbn [mbind outcome_bind]. rewrite len16_small by done. rewrite Nat2Z.id.
  rewrite decide_False by (rewrite !length_app; lia).
  change (idx (hd ++ ?r) 0) with (Ok c). change (idx (hd ++ ?r) 1) with (Ok i). cbn [mbind outcome_bind].
  by rewrite (slice_app_mid hd d rest 4 (4 + length d)) by lia.
Qed.

Lemma EapPacket_parse_wp b : bytes_ok b -> wp (EapPacket_parse b) EapPacket_wf.
Proof.
  intros Hb. unfold EapPacket_parse. wp_steps; try done; try lia.
  constructor; simpl; auto with ryke. rewrite length_take, length_drop in *.
  match goal with Hl : u16_ok _ |- _ => destruct Hl end. lia.
Qed.

Lemma parse_challenge_built id c name : length c = 16%nat ->
  parse_challenge (build_challenge id c name) = Ok (id, c, name).
Proof.
  intros Hc. unfold parse_challenge.
  set (hd := [eap_type.MSCHAPV2; op.CHALLENGE; id] ++ be_bytes 2 (len16 (4 + 1 + 16 + length name)) ++ [16]).
  assert (E : build_challenge id c name = hd ++ c ++ name)
    by (unfold build_challenge, hd; by rewrite <- !app_assoc).
  rewrite E. assert (Hh : length hd = 6%nat) by done.
  rewrite decide_False by (rewrite !length_app; lia).
  change (idx (hd ++ ?r) 0) with (Ok eap_type.MSCHAPV2). change (idx (hd ++ ?r) 1) with (Ok op.CHALLENGE).
  cbn [mbind outcome_bind]. rewrite !decide_False by auto.
  rewrite (slice_app_mid hd c name 6 22) by lia. change (idx (hd ++ ?r) 2) with (Ok id).
  cbn [mbind outcome_bind]. by rewrite app_assoc, slice_from_app by (rewrite length_app; lia).
Qed.

(** The Response message with its NT-Response. *)
Definition response_bytes (id : Z) (pc nt user : bytes) : bytes :=
  [eap_type.MSCHAPV2; op.RESPONSE; id] ++ be_bytes 2 (len16 (4 + 1 + 49 + length user)) ++
      [49] ++ pc ++ replicate 8 0 ++ nt ++ [0] ++ user.

Lemma parse_response_built id pc nt user : length pc = 16%nat -> length nt = 24%nat ->
  parse_response (response_bytes id pc nt user) = Ok (mkResponse id pc nt user).
Proof.
  intros Hp Hn. unfold parse_response.
  set (hd := [eap_type.MSCHAPV2; op.RESPONSE; id] ++ be_bytes 2 (len16 (4 + 1 + 49 + length user)) ++ [49]).
  assert (E : response_bytes id pc nt user = hd ++ pc ++ replicate 8 0 ++ nt ++ [0] ++ user)
    by (unfold response_bytes, hd; by rewrite <- !app_assoc).
  rewrite E. assert (Hh : length hd = 6%nat) by done.
  rewrite decide_False by (rewrite !length_app, length_replicate; simpl; lia).
  change (idx (hd ++ ?r) 0) with (Ok eap_type.MSCHAPV2). change (idx (hd ++ ?r) 1) with (Ok op.RESPONSE).
  change (idx (hd ++ ?r) 2) with (Ok id).
  cbn [mbind outcome_bind]. rewrite !decide_False by auto.
  rewrite (slice_app_mid hd pc _ 6 22) by lia. cbn [mbind outcome_bind].
  assert (E1 : hd ++ pc ++ replicate 8 0 ++ nt ++ [0] ++ user =
    (hd ++ pc ++ replicate 8 0) ++ nt ++ [0] ++ user) by (by rewrite <- !app_assoc).
  rewrite E1, (slice_app_mid _ nt _ 30 54) by (rewrite ?length_app, ?length_replicate; lia).
  cbn [mbind outcome_bind].
  assert (E2 : (hd ++ pc ++ replicate 8 0) ++ nt ++ [0] ++ user =
    ((hd ++ pc ++ replicate 8 0) ++ nt ++ [0]) ++ user) by (by rewrite <- !app_assoc).
  by rewrite E2, slice_from_app by (rewrite !length_app, length_replicate; simpl; lia).
Qed.

Lemma parse_response_wp d : bytes_ok d -> wp (parse_response d) (fun r =>
  length (peer_challenge r) = 16%nat /\ length (nt_response r) = 24%nat).
Proof.
  intros Hd. unfold parse_response. wp_steps; try done; try lia; simpl; lia.
Qed.

Lemma parse_challenge_wp d : bytes_ok d -> wp (parse_challenge d) (fun '(id, c, _) =>
  byte_ok id /\ bytes_ok c /\ length c = 16%nat).
Proof.
  intros Hd. unfold parse_challenge. wp_steps; try done; try lia.
  split_and!; [done|auto with ryke|done].
Qed.

(** Two bit fields side by side. *)
Lemma lor_disjoint x d n : 0 <= n -> 0 <= d < 2 ^ n -> Z.lor (x * 2 ^ n) d = x * 2 ^ n + d.
Proof.
  intros Hn Hd.
  assert (Hz : Z.land (x * 2 ^ n) d = 0).
  { apply Z.bits_inj'. intros k Hk. rewrite Z.land_spec, Z.bits_0.
    destruct (decide (k < n)) as [Hl|Hl].
    - by rewrite Z.mul_pow2_bits_low.
    - destruct (decide (d = 0)) as [->|]; [by rewrite Z.bits_0, andb_false_r|].
      rewrite (Z.bits_above_log2 d k), andb_false_r; [done|lia|]. apply Z.log2_lt_pow2; [lia|].
      apply Z.lt_le_trans with (2 ^ n); [lia|]. apply Z.pow_le_mono_r; lia. }
  by rewrite <- Z.lxor_lor, Z.add_nocarry_lxor.
Qed.

Lemma lor_fields a b m n j : 0 <= n -> 0 <= j -> 0 <= b < 2 ^ (n + j) -> 0 <= m ->
  Z.lor (Z.shiftl (Z.land a (Z.ones m)) n) (Z.shiftr b j) = a mod 2 ^ m * 2 ^ n + b / 2 ^ j.
Proof.
  intros Hn Hj Hb Hm. rewrite Z.land_ones, Z.shiftl_mul_pow2, Z.shiftr_div_pow2 by lia.
  apply lor_disjoint; [done|]. split; [apply Z.div_pos; lia|].
  apply Z.div_lt_upper_bound; [lia|]. rewrite <- Z.pow_add_r by lia. rewrite (Z.add_comm j n). apply Hb.
Qed.

(** The 56 key bits of an expanded DES key: the upper seven of each octet. *)
Definition des_key_bits (k : bytes) : Z := foldl (fun acc b => 128 * acc + b / 2) 0 k.

Lemma str_to_key_bits s : length s = 7%nat -> bytes_ok s ->
  exists k, str_to_key s = Ok k /\ length k = 8%nat /\ bytes_ok k /\
    Forall (fun b => b mod 2 = 0) k /\ des_key_bits k = be_val s.
Proof.
  intros Hl Hs. destruct s as [|s0 [|s1 [|s2 [|s3 [|s4 [|s5 [|s6 [|]]]]]]]]; try done.
  unfold bytes_ok in Hs. rewrite !Forall_cons in Hs. destruct Hs as (H0 & H1 & H2 & H3 & H4 & H5 & H6 & _).
  unfold byte_ok in *.
  assert (Hx : exists x0 x1 x2 x3 x4 x5 x6 x7, str_to_key [s0; s1; s2; s3; s4; s5; s6] =
    Ok ((fun x => as_u8 (Z.shiftl x 1)) <$> [x0; x1; x2; x3; x4; x5; x6; x7]) /\
    x0 = s0 / 2 /\ x1 = s0 mod 2 * 64 + s1 / 4 /\ x2 = s1 mod 4 * 32 + s2 / 8 /\
    x3 = s2 mod 8 * 16 + s3 / 16 /\ x4 = s3 mod 16 * 8 + s4 / 32 /\ x5 = s4 mod 32 * 4 + s5 / 64 /\
    x6 = s5 mod 64 * 2 + s6 / 128 /\ x7 = s6 mod 128).
  { do 8 eexists. split; [reflexivity|]. split_and!;
      [apply (Z.shiftr_div_pow2 _ 1); lia|apply (lor_fields s0 s1 1 6 2)|apply (lor_fields s1 s2 2 5 3)
      |apply (lor_fields s2 s3 3 4 4)|apply (lor_fields s3 s4 4 3 5)|apply (lor_fields s4 s5 5 2 6)
      |apply (lor_fields s5 s6 6 1 7)|apply (Z.land_ones s6 7); lia]; simpl; lia. }
  destruct Hx as (x0 & x1 & x2 & x3 & x4 & x5 & x6 & x7 & -> & E0 & E1 & E2 & E3 & E4 & E5 & E6 & E7).
  assert (Hb : forall x, 0 <= x < 128 -> as_u8 (Z.shiftl x 1) = 2 * x).
  { intros x Hx. unfold as_u8. rewrite Z.shiftl_mul_pow2, Z.mod_small by lia. lia. }
  assert (R : 0 <= x0 < 128 /\ 0 <= x1 < 128 /\ 0 <= x2 < 128 /\ 0 <= x3 < 128 /\ 0 <= x4 < 128 /\
    0 <= x5 < 128 /\ 0 <= x6 < 128 /\ 0 <= x7 < 128)
    by (subst; split_and!; Z.to_euclidean_division_equations; lia).
  destruct R as (R0 & R1 & R2 & R3 & R4 & R5 & R6 & R7).
  cbn [fmap list_fmap]. rewrite !Hb by done. eexists. split_and!; [done|done|..].
  - repeat (apply Forall_cons_2; [unfold byte_ok; lia|]). constructor.
  - repeat (apply Forall_cons_2; [rewrite Z.mul_comm; apply Z.mod_mul; lia|]). constructor.
  - unfold des_key_bits. cbn [foldl]. change (be_val [s0; s1; s2; s3; s4; s5; s6]) with
      (((((((0 * 256 + s0) * 256 + s1) * 256 + s2) * 256 + s3) * 256 + s4) * 256 + s5) * 256 + s6).
    rewrite !(Z.mul_comm 2), !Z.div_mul by lia. subst.
    Z.to_euclidean_division_equations; lia.
Qed.

(** ** Properties *)
Section properties.
Context `{!Primitives, !HashLaws, !LegacyCrypto, !LegacyLaws}.

Lemma build_response_ok id a pc user pw : exists nt,
  generate_nt_response a pc user pw = Ok nt /\ length nt = 24%nat /\ bytes_ok nt /\
  build_response id a pc user pw = Ok (response_bytes id pc nt user).
Proof.
  destruct (generate_nt_response_ok a pc user pw) as (nt & E & Hl & Hb). exists nt.
  split_and!; [done..|]. unfold build_response. by rewrite E.
Qed.

(** The framing of EAP and of the MSCHAPv2 messages is lossless: an EAP packet
    within the length field reads back as itself whatever follows it, a Challenge
    and a Response give back the identifier, the challenge, the NT-Response and the
    name that were put in; and reading arbitrary octets never panics. *)
Theorem eap_messages_roundtrip p rest id a pc user name pw body :
  EapPacket_wf p -> length a = 16%nat -> length pc = 16%nat -> bytes_ok body ->
  EapPacket_parse (EapPacket_to_bytes p ++ rest) = Ok p /\
  parse_challenge (build_challenge id a name) = Ok (id, a, name) /\
  (exists d nt, build_response id a pc user pw = Ok d /\ generate_nt_response a pc user pw = Ok nt /\
     parse_response d = Ok (mkResponse id pc nt user)) /\
  wp (EapPacket_parse body) EapPacket_wf /\ safe (parse_challenge body) /\ safe (parse_response body).
Proof.
  intros Hp Ha Hpc Hb. split_and!.
  - by apply EapPacket_roundtrip.
  - by apply parse_challenge_built.
  - destruct (build_response_ok id a pc user pw) as (nt & E & Hl & _ & E').
    eexists _, nt. split_and!; [exact E'|done|by apply parse_response_built].
  - by apply EapPacket_parse_wp.
  - by eapply wp_safe, parse_challenge_wp.
  - by eapply wp_safe, parse_response_wp.
Qed.

(** The password check: the server accepts the Response a peer computed with
    some password exactly when that password gives the same NT-Response as the one
    the server holds, and otherwise fails authentication; and whatever octets it is
    given, it accepts only a Response whose NT-Response is the one of the server's
    password for the challenges and the name of that Response. *)
Theorem mschap_verify_decides id a pc user pw pw' d :
  length pc = 16%nat -> bytes_ok d ->
  (exists m nt nt' r, build_response id a pc user pw = Ok m /\
     generate_nt_response a pc user pw = Ok nt /\ generate_nt_response a pc user pw' = Ok nt' /\
     generate_authenticator_response pw' nt pc a user = Ok r /\
     verify_response a m pw' = (if decide (nt' = nt) then Ok r else Err AuthFailed)) /\
  wp (verify_response a d pw') (fun _ => exists resp, parse_response d = Ok resp /\
    generate_nt_response a (peer_challenge resp) (resp_name resp) pw' = Ok (nt_response resp)).
Proof.
  intros Hpc Hd. split.
  - destruct (build_response_ok id a pc user pw) as (nt & E & Hl & _ & E').
    destruct (generate_nt_response_ok a pc user pw') as (nt' & E2 & _).
    destruct (generate_authenticator_response_ok pw' nt pc a user) as (r & Er).
    exists (response_bytes id pc nt user), nt, nt', r. split_and!; try done.
    unfold verify_response. rewrite parse_response_built by done.
    cbn [mbind outcome_bind peer_challenge resp_name nt_response]. rewrite E2. cbn [mbind outcome_bind].
    destruct (decide (nt' = nt)) as [->|Hn]; [rewrite decide_False by auto|by rewrite decide_True]. done.
  - unfold verify_response. apply wp_bind. eapply wp_mono; [|by apply wp_eq, parse_response_wp].
    intros resp [_ Er]. apply wp_bind.
    destruct (generate_nt_response_ok a (peer_challenge resp) (resp_name resp) pw') as (nt & E & _).
    rewrite E. cbn [wp]. case_decide as Hn; [done|].
    destruct (generate_authenticator_response_ok pw' (nt_response resp) (peer_challenge resp) a
      (resp_name resp)) as (r & ->). cbn [wp]. exists resp. split; [done|]. rewrite E. f_equal.
    destruct (decide (nt = nt_response resp)); [done|]. by destruct Hn.
Qed.
End properties.

(** The DES key expansion loses no key bit: seven octets become eight whose low
    (parity) bits are zero and whose upper seven bits, in order, are the 56 bits of
    the input. *)
Theorem des_key_expansion s : length s = 7%nat -> bytes_ok s ->
  exists k, str_to_key s = Ok k /\ length k = 8%nat /\ bytes_ok k /\
    Forall (fun b => b mod 2 = 0) k /\ des_key_bits k = be_val s.
Proof. apply str_to_key_bits. Qed.

Lemma eap_messages_roundtrip_witness :
  EapPacket_parse (EapPacket_to_bytes (mkEap 1 7 [1]) ++ [9]) = Ok (mkEap 1 7 [1]).
Proof.
  refine (proj1 (eap_messages_roundtrip (mkEap 1 7 [1]) [9] 1 (replicate 16 3) (replicate 16 4) [5] [] [6] []
    _ eq_refl eq_refl _)); [|constructor].
  constructor; simpl; [by split|by split|by repeat constructor|lia].
Defined.

Lemma mschap_verify_decides_witness : exists m r,
  build_response 1 (replicate 16 3) (replicate 16 4) [85] [112; 119] = Ok m /\
  verify_response (replicate 16 3) m [112; 119] = Ok r.
Proof.
  destruct (mschap_verify_decides 1 (replicate 16 3) (replicate 16 4) [85] [112; 119] [112; 119] []
    eq_refl ltac:(constructor)) as [(m & nt & nt' & r & H1 & H2 & H3 & _ & H5) _].
  exists m, r. split; [exact H1|]. rewrite H5. rewrite H2 in H3. injection H3 as <-.
  destruct (decide (nt = nt)) as [_|H]; [reflexivity|destruct (H eq_refl)].
Defined.

Lemma des_key_expansion_witness : exists k,
  str_to_key [1; 35; 69; 103; 137; 171; 205] = Ok k /\ des_key_bits k = 0x0123456789ABCD.
Proof.
  destruct (des_key_expansion [1; 35; 69; 103; 137; 171; 205] eq_refl) as (k & H1 & _ & _ & _ & H5);
    [by repeat constructor|].
  exists k. split; [exact H1|exact H5].
Defined.
