(* ===== verification/EapAuth.v ===== *)
(** * EAP-MSCHAPv2 inside IKE_AUTH ([src/src/ikev2/eap_auth.rs])

    The two state machines of RFC 7296 section 2.16: [EapInitiator] (the client) and
    [EapResponder] (the server).  Each handles one decrypted message at a time, as
    an action on its own state and the randomness source. *)
From stdpp Require Import gmap strings.
From S2P Require Import Prelude Outcome Wire Primitives Entropy Message Payload Crypto Sk Negotiate Natt Exchange Informational Sign IkeAuth Transport Eap.

(** [enum ServerVerify] *)
Inductive ServerVerify :=
| Insecure
| TrustedCas (cas : list bytes) (expected_dns : bytes) (now_unix : Z).

(** [enum EapEvent] *)
Inductive EapEvent :=
| Reply (message : bytes)
| EapEstablished (message : option bytes)
| EapFailed.

(** ** Messages *)
Definition eap_header (sa : CompletedSaInit) (mid : Z) (is_response : bool) : IkeHeader := {|
  initiator_spi := spi_i sa;
  responder_spi := spi_r sa;
  next_payload := NoNext;
  major_version := 2;
  minor_version := 0;
  exchange_type := IkeAuth;
  flags := mkFlags (bool_decide (c_role sa = Initiator)) false is_response;
  message_id := mid;
  hdr_length := 0 |}.

Definition find_payload (ps : PayloadChain) (want : PayloadType) : option bytes :=
  snd <$> find (fun '(t, _) => bool_decide (t = want)) ps.

(** [msg_id + 1] on [u32], in a build that checks for overflow *)
Definition add1_u32 (x : Z) : outcome Z := if decide (x + 1 < 2 ^ 32) then Ok (x + 1) else Panic.

Section messages.
Context `{!Primitives}.

Definition build_sk (sa : CompletedSaInit) (mid : Z) (is_response : bool) (inner : PayloadChain) (iv : bytes)
    : outcome bytes :=
  build_encrypted_gcm (eap_header sa mid is_response) (first_payload_type inner)
    (encode_payload_chain inner) (our_sk_e sa) iv.

Definition decrypt (sa : CompletedSaInit) (message : bytes) : outcome (Z * PayloadChain) :=
  h ← IkeHeader_parse message;
  '(first, inner) ← open_encrypted_gcm message (peer_sk_e sa);
  out ← for_each push_payload (payload_items first inner) [];
  Ok (message_id h, out).
End messages.

(** ** [struct EapInitiator] *)
Record EapInitiator := mkEapInitiator {
  ei_sa : CompletedSaInit;
  ei_id : Identification;
  ei_user : bytes;
  ei_password : str;
  ei_child_spi : Z;
  ei_nt_response : bytes;
  ei_verify : ServerVerify;
  ei_server_verified : bool;
  ei_send_certreq : bool }.

Definition EapInitiator_new (sa : CompletedSaInit) (id : Identification) (user : bytes) (password : str)
    (child_spi : Z) (verify : ServerVerify) : EapInitiator := {|
  ei_sa := sa; ei_id := id; ei_user := user; ei_password := password; ei_child_spi := child_spi;
  ei_nt_response := replicate 24 0; ei_verify := verify; ei_server_verified := false;
  ei_send_certreq := false |}.

Definition set_send_certreq (on : bool) (i : EapInitiator) : EapInitiator :=
  mkEapInitiator (ei_sa i) (ei_id i) (ei_user i) (ei_password i) (ei_child_spi i) (ei_nt_response i)
    (ei_verify i) (ei_server_verified i) on.
Definition set_server_verified (i : EapInitiator) : EapInitiator :=
  mkEapInitiator (ei_sa i) (ei_id i) (ei_user i) (ei_password i) (ei_child_spi i) (ei_nt_response i)
    (ei_verify i) true (ei_send_certreq i).
Definition set_ei_nt_response (nt : bytes) (i : EapInitiator) : EapInitiator :=
  mkEapInitiator (ei_sa i) (ei_id i) (ei_user i) (ei_password i) (ei_child_spi i) nt
    (ei_verify i) (ei_server_verified i) (ei_send_certreq i).

(** Update the first component of the state. *)
Definition upd {S G} (f : S -> S) : action (S * G) unit := modify (fun '(s, g) => (f s, g)).
Definition eap_draw {S G A} (f : G -> A * G) : action (S * G) A :=
  zoom snd (fun g s => (s.1, g)) (draw f).

Definition octets_bool {A} (o : option A) : bool := match o with Some _ => true | None => false end.

Section initiator.
Context `{!Primitives, !Pki, !LegacyCrypto, Entropy G}.
Open Scope action_scope.

(** The certificates, in order: leaf first. *)
Definition certs_of (ps : PayloadChain) : outcome (list bytes) :=
  rs ← mapM (fun '(_, d) => ok (Certificate_parse d))
    (filter (fun e => e.1 = PCertificate) ps);
  Ok (omap (fun r => cert_data <$> r) rs).

Definition verify_server (i : EapInitiator) (ps : PayloadChain) : outcome bool :=
  match ei_verify i with
  | Insecure => Ok true
  | TrustedCas cas expected_dns now =>
      match find_payload ps PIdResponder, find_payload ps PAuthentication with
      | Some idr, Some auth_bytes =>
          certs ← certs_of ps;
          match certs with
          | [] => Ok false
          | leaf :: rest =>
              r ← ok (Authentication_parse auth_bytes);
              match r with
              | None => Ok false
              | Some auth =>
                  if decide (auth_meth auth <> auth_method.DIGITAL_SIGNATURE) then Ok false else
                  let octets := responder_signed_octets (resp_message (ei_sa i)) (ni (ei_sa i))
                    (sk_pr (keys (ei_sa i))) idr in
                  v ← ok (verify_cert_auth leaf rest cas (Some expected_dns) now (auth_data auth) octets);
                  Ok (octets_bool v)
              end
          end
      | _, _ => Ok false
      end
  end.

Definition EapInitiator_start (i : EapInitiator) : action G bytes :=
  let! iv := draw (fill 8) in
  if ei_send_certreq i
  then ike (initiator_eap_request_with_certreq (ei_sa i) (ei_id i) (ei_child_spi i) [replicate 20 0] iv)
  else ike (initiator_eap_request (ei_sa i) (ei_id i) (ei_child_spi i) iv).

(** Verify the server once, on the message that carries IDr and AUTH; [false] is
    the early return of [EapEvent::Failed]. *)
Definition check_server (ps : PayloadChain) : action (EapInitiator * G) bool :=
  let! i := gets fst in
  if negb (ei_server_verified i) && octets_bool (find_payload ps PIdResponder) &&
     octets_bool (find_payload ps PAuthentication)
  then
    let! good := ike (verify_server i ps) in
    if good then let! _ := upd set_server_verified in act_ret true else act_ret false
  else act_ret true.

(** [matches!(self.verify, TrustedCas { .. }) && !self.server_verified] *)
Definition firewalled (i : EapInitiator) : bool :=
  match ei_verify i with TrustedCas _ _ _ => negb (ei_server_verified i) | Insecure => false end.

(** The responder's final message, without EAP *)
Definition initiator_confirm (i : EapInitiator) (ps : PayloadChain) : outcome EapEvent :=
  match find_payload ps PAuthentication, find_payload ps PSecurityAssociation with
  | Some auth_bytes, Some _ =>
      let idr := default [] (find_payload ps PIdResponder) in
      msk ← derive_msk (ei_password i) (ei_nt_response i);
      let expect := psk_auth msk (responder_signed_octets (resp_message (ei_sa i)) (ni (ei_sa i))
        (sk_pr (keys (ei_sa i))) idr) in
      got ← Authentication_parse auth_bytes;
      Ok (if bool_decide (auth_meth got = auth_method.SHARED_KEY) && bool_decide (auth_data got = expect)
          then EapEstablished None else EapFailed)
  | _, _ => Ok EapFailed
  end.

(** EAP-Success: our AUTH, keyed by the MSK *)
Definition initiator_auth (i : EapInitiator) (next_id : Z) : action (EapInitiator * G) EapEvent :=
  let! msk := ike (derive_msk (ei_password i) (ei_nt_response i)) in
  let idi := Identification_to_bytes (ei_id i) in
  let octets := initiator_signed_octets (init_message (ei_sa i)) (nr (ei_sa i)) (sk_pi (keys (ei_sa i))) idi in
  let auth := psk_auth_payload msk octets in
  let! iv := eap_draw (fill 8) in
  let! msg := ike (build_sk (ei_sa i) next_id false [(PAuthentication, Authentication_to_bytes auth)] iv) in
  act_ret (Reply msg).

(** The answer to an EAP request; [None] is the early return of [Failed]. *)
Definition initiator_answer (i : EapInitiator) (eap : EapPacket) : action (EapInitiator * G) (option bytes) :=
  match EapPacket_type eap with
  | Some t =>
      if decide (t = eap_type.IDENTITY) then act_ret (Some (eap_type.IDENTITY :: ei_user i))
      else if decide (t = eap_type.MSCHAPV2 /\ eap_data eap !! 1%nat = Some op.CHALLENGE) then
        let! '(mschap_id, auth_challenge, _) := ike (parse_challenge (eap_data eap)) in
        let! peer_challenge := eap_draw (fill 16) in
        let! nt := ike (generate_nt_response auth_challenge peer_challenge (ei_user i) (ei_password i)) in
        let! _ := upd (set_ei_nt_response nt) in
        let! d := ike (build_response mschap_id auth_challenge peer_challenge (ei_user i) (ei_password i)) in
        act_ret (Some d)
      else if decide (t = eap_type.MSCHAPV2 /\ eap_data eap !! 1%nat = Some op.SUCCESS) then
        act_ret (Some [eap_type.MSCHAPV2; op.SUCCESS])
      else act_ret None
  | None => act_ret None
  end.

Definition initiator_eap (i : EapInitiator) (next_id : Z) (eap_bytes : bytes)
    : action (EapInitiator * G) EapEvent :=
  let! eap := ike (EapPacket_parse eap_bytes) in
  if decide (eap_code eap = code.FAILURE) then act_ret EapFailed
  else if decide (eap_code eap = code.SUCCESS) then initiator_auth i next_id
  else
    let! answer := initiator_answer i eap in
    match answer with
    | None => act_ret EapFailed
    | Some d =>
        let! iv := eap_draw (fill 8) in
        let! msg := ike (build_sk (ei_sa i) next_id false
          [(PEap, EapPacket_to_bytes (mkEap code.RESPONSE (identifier eap) d))] iv) in
        act_ret (Reply msg)
    end.

Definition EapInitiator_handle (message : bytes) : action (EapInitiator * G) EapEvent :=
  let! sa := gets (fun s => ei_sa s.1) in
  let! '(msg_id, ps) := ike (decrypt sa message) in
  let! next_id := ike (add1_u32 msg_id) in
  let! checked := check_server ps in
  if negb checked then act_ret EapFailed else
  let! i := gets fst in
  if firewalled i then act_ret EapFailed else
  match find_payload ps PEap with
  | None => ike (initiator_confirm i ps)
  | Some eap_bytes => initiator_eap i next_id eap_bytes
  end.
End initiator.

(** ** [struct EapResponder] *)
Section responder_state.
Context `{!Pki}.

(** [enum ServerAuth] *)
Inductive ServerAuth :=
| ServerPsk (psk : bytes)
| ServerCert (key : SigningKey) (chain : list bytes).

Record EapResponder := mkEapResponder {
  er_sa : CompletedSaInit;
  er_id : Identification;
  er_auth : ServerAuth;
  er_user : bytes;
  er_password : str;
  er_users : gmap bytes str;
  er_child_spi : Z;
  er_eap_id : Z;
  er_auth_challenge : bytes;
  er_nt_response : bytes;
  er_peer_idi : bytes;
  er_peer_child_spi : option Z;
  er_assigned : option AssignedConfig }.

Definition EapResponder_new_multi (sa : CompletedSaInit) (id : Identification) (auth : ServerAuth)
    (users : gmap bytes str) (child_spi : Z) : EapResponder := {|
  er_sa := sa; er_id := id; er_auth := auth; er_user := []; er_password := []; er_users := users;
  er_child_spi := child_spi; er_eap_id := 1; er_auth_challenge := replicate 16 0;
  er_nt_response := replicate 24 0; er_peer_idi := []; er_peer_child_spi := None; er_assigned := None |}.

Definition peer_child_spi (r : EapResponder) : option Z := er_peer_child_spi r.
Definition user (r : EapResponder) : bytes := er_user r.

Definition EapResponder_new (sa : CompletedSaInit) (id : Identification) (auth : ServerAuth)
    (user : bytes) (password : str) (child_spi : Z) : EapResponder :=
  EapResponder_new_multi sa id auth {[user := password]} child_spi.

Definition set_assigned (a : option AssignedConfig) (r : EapResponder) : EapResponder :=
  mkEapResponder (er_sa r) (er_id r) (er_auth r) (er_user r) (er_password r) (er_users r) (er_child_spi r)
    (er_eap_id r) (er_auth_challenge r) (er_nt_response r) (er_peer_idi r) (er_peer_child_spi r) a.
Definition set_peer (spi : option Z) (idi : bytes) (r : EapResponder) : EapResponder :=
  mkEapResponder (er_sa r) (er_id r) (er_auth r) (er_user r) (er_password r) (er_users r) (er_child_spi r)
    (er_eap_id r) (er_auth_challenge r) (er_nt_response r) idi spi (er_assigned r).
Definition set_eap_id (x : Z) (r : EapResponder) : EapResponder :=
  mkEapResponder (er_sa r) (er_id r) (er_auth r) (er_user r) (er_password r) (er_users r) (er_child_spi r)
    x (er_auth_challenge r) (er_nt_response r) (er_peer_idi r) (er_peer_child_spi r) (er_assigned r).
Definition set_credential (user : bytes) (password : str) (r : EapResponder) : EapResponder :=
  mkEapResponder (er_sa r) (er_id r) (er_auth r) user password (er_users r) (er_child_spi r)
    (er_eap_id r) (er_auth_challenge r) (er_nt_response r) (er_peer_idi r) (er_peer_child_spi r) (er_assigned r).
Definition set_auth_challenge (c : bytes) (r : EapResponder) : EapResponder :=
  mkEapResponder (er_sa r) (er_id r) (er_auth r) (er_user r) (er_password r) (er_users r) (er_child_spi r)
    (er_eap_id r) c (er_nt_response r) (er_peer_idi r) (er_peer_child_spi r) (er_assigned r).
Definition set_er_nt_response (nt : bytes) (r : EapResponder) : EapResponder :=
  mkEapResponder (er_sa r) (er_id r) (er_auth r) (er_user r) (er_password r) (er_users r) (er_child_spi r)
    (er_eap_id r) (er_auth_challenge r) nt (er_peer_idi r) (er_peer_child_spi r) (er_assigned r).
End responder_state.

Section responder.
Context `{!Primitives, !Pki, !LegacyCrypto, Entropy G}.
Open Scope action_scope.

Definition own_octets (r : EapResponder) : bytes :=
  responder_signed_octets (resp_message (er_sa r)) (ni (er_sa r)) (sk_pr (keys (er_sa r)))
    (Identification_to_bytes (er_id r)).

(** Our AUTH, with the certificate chain when there is one *)
Definition server_auth_payloads (r : EapResponder) : outcome PayloadChain :=
  match er_auth r with
  | ServerPsk psk =>
      Ok [(PAuthentication, Authentication_to_bytes (psk_auth_payload psk (own_octets r)))]
  | ServerCert key chain =>
      auth ← cert_auth_payload key (peer_signature_hashes (er_sa r)) (own_octets r);
      Ok (((fun c => (PCertificate, Certificate_to_bytes (Certificate_x509 c))) <$> chain) ++
          [(PAuthentication, Authentication_to_bytes auth)])
  end.

(** msg-1: authenticate ourselves and ask for the EAP identity *)
Definition responder_first (msg_id : Z) (ps : PayloadChain) : action (EapResponder * G) EapEvent :=
  match find_payload ps PSecurityAssociation with
  | None => act_ret EapFailed
  | Some sai2 =>
      let! spi := ike (auth_esp_spi_from_sa sai2) in
      let! _ := upd (set_peer spi (default [] (find_payload ps PIdInitiator))) in
      let! r := gets fst in
      let! auths := ike (server_auth_payloads r) in
      let inner := [(PIdResponder, Identification_to_bytes (er_id r))] ++ auths ++
        [(PEap, EapPacket_to_bytes (mkEap code.REQUEST (er_eap_id r) [eap_type.IDENTITY]))] in
      let! iv := eap_draw (fill 8) in
      let! msg := ike (build_sk (er_sa r) msg_id true inner iv) in
      act_ret (Reply msg)
  end.

(** Our last message: AUTH(MSK), the configuration, SAr2 and the selectors *)
Definition final_chain (r : EapResponder) (msk : bytes) : PayloadChain :=
  [(PIdResponder, Identification_to_bytes (er_id r));
   (PAuthentication, Authentication_to_bytes (psk_auth_payload msk (own_octets r)))] ++
  match er_assigned r with
  | Some a => [(PConfiguration, Configuration_to_bytes (reply_ipv4 (as_ip a) None (head (as_dns a))))]
  | None => []
  end ++
  [(PSecurityAssociation, SecurityAssociation_to_bytes (esp_offer (er_child_spi r)));
   (PTrafficSelectorInitiator,
      match er_assigned r with
      | Some a => TrafficSelectors_to_bytes {| selectors := [ipv4_host (as_ip a)] |}
      | None => full_tunnel_ts
      end);
   (PTrafficSelectorResponder, full_tunnel_ts);
   (PNotify, Notify_to_bytes mobike_supported)].

(** The initiator's MSK-keyed AUTH *)
Definition responder_final (r : EapResponder) (msg_id : Z) (auth_bytes : bytes)
    : action (EapResponder * G) EapEvent :=
  let! msk := ike (derive_msk (er_password r) (er_nt_response r)) in
  let expect := psk_auth msk (initiator_signed_octets (init_message (er_sa r)) (nr (er_sa r))
    (sk_pi (keys (er_sa r))) (er_peer_idi r)) in
  let! got := ike (Authentication_parse auth_bytes) in
  if decide (auth_data got <> expect) then act_ret EapFailed else
  let! iv := eap_draw (fill 8) in
  let! msg := ike (build_sk (er_sa r) msg_id true (final_chain r msk) iv) in
  act_ret (EapEstablished (Some msg)).

(** What an EAP response leads to: a new request, EAP-Success, or failure *)
Inductive EapOut := NextRequest (d : bytes) | SendSuccess | Reject.

Definition responder_out (eap : EapPacket) : action (EapResponder * G) EapOut :=
  match EapPacket_type eap with
  | Some t =>
      if decide (t = eap_type.IDENTITY) then
        let claimed := drop 1 (eap_data eap) in
        let! r := gets fst in
        match er_users r !! claimed with
        | None => act_ret Reject
        | Some pw =>
            let! _ := upd (set_credential claimed pw) in
            let! c := eap_draw (fill 16) in
            let! _ := upd (set_auth_challenge c) in
            act_ret (NextRequest (build_challenge 1 c (ascii_bytes "ryke")))
        end
      else if decide (t = eap_type.MSCHAPV2 /\ eap_data eap !! 1%nat = Some op.RESPONSE) then
        let! resp := ike (parse_response (eap_data eap)) in
        let! r := gets fst in
        let! nt := ike (generate_nt_response (er_auth_challenge r) (peer_challenge resp) (er_user r)
          (er_password r)) in
        let! _ := upd (set_er_nt_response nt) in
        if decide (nt <> nt_response resp) then act_ret Reject else
        let! auth_resp := ike (generate_authenticator_response (er_password r) nt (peer_challenge resp)
          (er_auth_challenge r) (er_user r)) in
        act_ret (NextRequest (build_success 1 auth_resp))
      else if decide (t = eap_type.MSCHAPV2 /\ eap_data eap !! 1%nat = Some op.SUCCESS) then
        act_ret SendSuccess
      else act_ret Reject
  | None => act_ret Reject
  end.

Definition responder_eap (msg_id : Z) (eap_bytes : bytes) : action (EapResponder * G) EapEvent :=
  let! eap := ike (EapPacket_parse eap_bytes) in
  let! _ := upd (fun r => set_eap_id (as_u8 (er_eap_id r + 1)) r) in
  let! out := responder_out eap in
  let! r := gets fst in
  match out with
  | Reject => act_ret EapFailed
  | SendSuccess =>
      let! iv := eap_draw (fill 8) in
      let! msg := ike (build_sk (er_sa r) msg_id true
        [(PEap, EapPacket_to_bytes (mkEap code.SUCCESS (identifier eap) []))] iv) in
      act_ret (Reply msg)
  | NextRequest d =>
      let! iv := eap_draw (fill 8) in
      let! msg := ike (build_sk (er_sa r) msg_id true
        [(PEap, EapPacket_to_bytes (mkEap code.REQUEST (er_eap_id r) d))] iv) in
      act_ret (Reply msg)
  end.

Definition EapResponder_handle (message : bytes) : action (EapResponder * G) EapEvent :=
  let! sa := gets (fun s => er_sa s.1) in
  let! '(msg_id, ps) := ike (decrypt sa message) in
  match find_payload ps PEap, find_payload ps PAuthentication with
  | None, None => responder_first msg_id ps
  | None, Some auth_bytes => let! r := gets fst in responder_final r msg_id auth_bytes
  | Some eap_bytes, _ => responder_eap msg_id eap_bytes
  end.
End responder.

(** ** Delivery *)
Definition opposite (a b : CompletedSaInit) : Prop := gcm_sa a /\ gcm_sa b /\ same_sa a b.

Lemma opposite_sym a b : opposite a b -> opposite b a.
Proof. intros (? & ? & ?). split_and!; [done|done|by apply same_sa_sym]. Qed.

Lemma eap_header_wf c mid r : CompletedSaInit_wf c -> u32_ok mid -> IkeHeader_wf (eap_header c mid r).
Proof. intros [] ?. constructor; simpl; try done; by split. Qed.

Section delivery.
Context `{!Primitives, !AeadLaws}.

Lemma sealed_decrypts a b h ps iv : opposite a b -> IkeHeader_wf h -> chain_fits ps -> bytes_ok iv ->
  length iv = 8%nat ->
  exists m, build_encrypted_gcm h (first_payload_type ps) (encode_payload_chain ps) (our_sk_e a) iv = Ok m /\
    bytes_ok m /\ decrypt b m = Ok (message_id h, ps).
Proof.
  intros (Ha & Hb & Hs) Hh Hps Hiv Hl.
  destruct (seal_chain_open h ps (our_sk_e a) iv) as (m & E1 & E2 & E3 & E4 & E5); try done;
    [by apply our_sk_e_length|].
  exists m. split_and!; [done|done|]. unfold decrypt. rewrite E3. cbn [mbind outcome_bind].
  rewrite (same_sa_keys a b) by done. rewrite E4. cbn [mbind outcome_bind]. by rewrite E5, push_all.
Qed.

Lemma sk_delivered a b mid r ps iv : opposite a b -> u32_ok mid -> chain_fits ps -> bytes_ok iv ->
  length iv = 8%nat ->
  exists m, build_sk a mid r ps iv = Ok m /\ bytes_ok m /\ decrypt b m = Ok (mid, ps).
Proof.
  intros Hab Hm Hps Hiv Hl. apply (sealed_decrypts a b (eap_header a mid r)); try done.
  apply eap_header_wf; [apply Hab|done].
Qed.

(** An EAP packet as the only payload. *)
Definition eap_fits (p : EapPacket) : Prop :=
  EapPacket_wf p /\ Z.of_nat (length (eap_data p)) <= 60000.

Lemma eap_packet_bytes p : EapPacket_wf p -> bytes_ok (EapPacket_to_bytes p).
Proof. intros []. unfold EapPacket_to_bytes. auto with ryke. Qed.

Lemma length_eap_packet p : length (EapPacket_to_bytes p) = (4 + length (eap_data p))%nat.
Proof. done. Qed.

Lemma eap_entry p : eap_fits p -> chain_entry_wf (PEap, EapPacket_to_bytes p).
Proof.
  intros [Hp Hl]. split_and!; [by split|done|by apply eap_packet_bytes|].
  cbn [snd]. rewrite length_eap_packet. lia.
Qed.

Lemma eap_chain_fits p : eap_fits p -> chain_fits [(PEap, EapPacket_to_bytes p)].
Proof.
  intros Hp. apply chain_fits_intro; [by apply Forall_singleton, eap_entry|].
  destruct Hp as [_ Hl]. cbn [fmap list_fmap sum_list_with snd]. rewrite length_eap_packet.
  unfold Datatypes.id. lia.
Qed.

Lemma EapPacket_parse_built p : EapPacket_wf p -> EapPacket_parse (EapPacket_to_bytes p) = Ok p.
Proof. intros Hp. rewrite <- (app_nil_r (EapPacket_to_bytes p)). by apply EapPacket_roundtrip. Qed.
End delivery.

(** Drawing from the randomness in the state of a machine. *)
Lemma eap_draw_done {S G A} (f : G -> A * G) (s : S) g : eap_draw f (s, g) = (Done (f g).1, (s, (f g).2)).
Proof. unfold eap_draw, zoom, draw. cbn [fst snd]. by destruct (f g). Qed.

Lemma upd_done {S G} (f : S -> S) (s : S) (g : G) : upd f (s, g) = (Done tt, (f s, g)).
Proof. done. Qed.

(** The reply of a machine: draw an IV, seal, send. *)
Lemma reply_delivered `{!Primitives, !AeadLaws, Entropy G, !EntropyLaws G} {S B} a b mid r ps (s : S) (g : G)
    (k : bytes -> B) : opposite a b -> u32_ok mid -> chain_fits ps ->
  exists m g', act_bind (eap_draw (fill 8)) (fun iv =>
      act_bind (ike (build_sk a mid r ps iv)) (fun msg => act_ret (k msg))) (s, g) = (Done (k m), (s, g')) /\
    bytes_ok m /\ decrypt b m = Ok (mid, ps).
Proof.
  intros Hab Hm Hps.
  destruct (sk_delivered a b mid r ps (fill 8 g).1 Hab Hm Hps (fill_bytes 8 g) (fill_length 8 g))
    as (m & E1 & E2 & E3).
  exists m, (fill 8 g).2. split_and!; [|done|done].
  erewrite act_bind_done by apply eap_draw_done. erewrite act_bind_done by (apply ike_ok; exact E1). done.
Qed.

(** ** Steps of the two machines *)
Section steps.
Context `{!Primitives, !Pki, !LegacyCrypto, !AeadLaws, !HashLaws, !HmacLaws, !LegacyLaws,
  Entropy G, !EntropyLaws G}.
Open Scope action_scope.

Lemma responder_request a r (g : G) m mid p d r' g' :
  opposite (er_sa r) a -> u32_ok mid -> EapPacket_wf p ->
  decrypt (er_sa r) m = Ok (mid, [(PEap, EapPacket_to_bytes p)]) ->
  responder_out p (set_eap_id (as_u8 (er_eap_id r + 1)) r, g) = (Done (NextRequest d), (r', g')) ->
  er_sa r' = er_sa r -> eap_fits (mkEap code.REQUEST (er_eap_id r') d) ->
  exists m' g'', EapResponder_handle m (r, g) = (Done (Reply m'), (r', g'')) /\
    decrypt a m' = Ok (mid, [(PEap, EapPacket_to_bytes (mkEap code.REQUEST (er_eap_id r') d))]).
Proof.
  intros Hab Hmid Hp Hd Ho Hsa Hf.
  destruct (reply_delivered (er_sa r') a mid true
    [(PEap, EapPacket_to_bytes (mkEap code.REQUEST (er_eap_id r') d))] r' g' Reply)
    as (m' & g'' & E & _ & Ed); [by rewrite Hsa|done|by apply eap_chain_fits|].
  exists m', g''. split; [|done]. unfold EapResponder_handle.
  act_step reflexivity. act_step (apply ike_ok; exact Hd).
  change (find_payload [(PEap, EapPacket_to_bytes p)] PEap) with (Some (EapPacket_to_bytes p)).
  unfold responder_eap.
  act_step (apply ike_ok, EapPacket_parse_built; exact Hp).
  act_step apply upd_done.
  act_step exact Ho. act_step reflexivity. exact E.
Qed.

Lemma initiator_reply b i (g : G) m mid ps p d i1 i' g' :
  opposite (ei_sa i) b -> u32_ok mid -> mid + 1 < 2 ^ 32 -> EapPacket_wf p -> eap_code p = code.REQUEST ->
  decrypt (ei_sa i) m = Ok (mid, ps) -> find_payload ps PEap = Some (EapPacket_to_bytes p) ->
  check_server ps (i, g) = (Done true, (i1, g)) -> firewalled i1 = false -> ei_sa i1 = ei_sa i ->
  initiator_answer i1 p (i1, g) = (Done (Some d), (i', g')) ->
  eap_fits (mkEap code.RESPONSE (identifier p) d) ->
  exists m' g'', EapInitiator_handle m (i, g) = (Done (Reply m'), (i', g'')) /\
    decrypt b m' = Ok (mid + 1, [(PEap, EapPacket_to_bytes (mkEap code.RESPONSE (identifier p) d))]).
Proof.
  intros Hab Hmid Hlt Hp Hc Hd Hps Hchk Hfw Hsa Ha Hf.
  destruct (reply_delivered (ei_sa i1) b (mid + 1) false
    [(PEap, EapPacket_to_bytes (mkEap code.RESPONSE (identifier p) d))] i' g' Reply)
    as (m' & g'' & E & _ & Ed); [by rewrite Hsa|unfold u32_ok in *; lia|by apply eap_chain_fits|].
  exists m', g''. split; [|done]. unfold EapInitiator_handle.
  act_step reflexivity. act_step (apply ike_ok; exact Hd).
  act_step (apply ike_ok; unfold add1_u32; rewrite decide_True by done; reflexivity).
  act_step exact Hchk. cbn [negb].
  act_step reflexivity. cbn [fst]. rewrite Hfw, Hps. unfold initiator_eap.
  act_step (apply ike_ok, EapPacket_parse_built; exact Hp).
  rewrite Hc, !decide_False by done. act_step exact Ha. exact E.
Qed.

(** *** The first round: the request, the server's AUTH, the identity *)
Definition eap_request_chain (id : Identification) (spi : Z) : PayloadChain :=
  [(PIdInitiator, Identification_to_bytes id);
   (PSecurityAssociation, SecurityAssociation_to_bytes (esp_offer spi));
   (PTrafficSelectorInitiator, full_tunnel_ts);
   (PTrafficSelectorResponder, full_tunnel_ts)].

Lemma eap_request_fits id spi : id_fits id -> chain_fits (eap_request_chain id spi).
Proof.
  intros Hid. apply chain_fits_intro.
  - apply Forall_cons_2; [by apply id_entry|]. apply Forall_cons_2; [apply esp_offer_entry|].
    apply Forall_cons_2; [by apply full_tunnel_entry|]. by apply Forall_singleton, full_tunnel_entry.
  - destruct Hid as [_ Hl]. cbn [eap_request_chain fmap list_fmap sum_list_with snd].
    change (length (SecurityAssociation_to_bytes (esp_offer spi))) with 32%nat.
    change (length full_tunnel_ts) with 20%nat. unfold Identification_to_bytes. rewrite !length_app.
    unfold Datatypes.id. simpl. lia.
Qed.

Lemma start_delivered i b (g : G) : opposite (ei_sa i) b -> c_role (ei_sa i) = Initiator ->
  ei_send_certreq i = false -> id_fits (ei_id i) ->
  exists m g', EapInitiator_start i g = (Done m, g') /\
    decrypt b m = Ok (1, eap_request_chain (ei_id i) (ei_child_spi i)).
Proof.
  intros Hab Hr Hc Hid.
  destruct (sealed_decrypts (ei_sa i) b (ike_auth_header (ei_sa i) false)
    (eap_request_chain (ei_id i) (ei_child_spi i)) (fill 8 g).1) as (m & E1 & _ & E3); try done;
    [apply ike_auth_header_wf, Hab|by apply eap_request_fits|apply fill_bytes|apply fill_length|].
  exists m, (fill 8 g).2. split; [|done]. unfold EapInitiator_start, act_bind, draw.
  destruct (fill 8 g) as [iv g2]. rewrite Hc. apply ike_ok. unfold our_sk_e in E1. rewrite Hr in E1. exact E1.
Qed.

(** An AUTH payload as the only payload. *)
Lemma auth_payload_entry psk o : chain_entry_wf (PAuthentication, Authentication_to_bytes (psk_auth_payload psk o)) /\
  length (Authentication_to_bytes (psk_auth_payload psk o)) = 36%nat.
Proof.
  assert (Ha : length (Authentication_to_bytes (psk_auth_payload psk o)) = 36%nat).
  { unfold Authentication_to_bytes. rewrite !length_app. cbn [auth_data psk_auth_payload].
    by rewrite length_psk_auth. }
  split; [|done].
  split_and!; [by split|done|apply Authentication_to_bytes_ok, psk_auth_wf|cbn [snd]; rewrite Ha; lia].
Qed.

Lemma auth_chain_fits psk o :
  chain_fits [(PAuthentication, Authentication_to_bytes (psk_auth_payload psk o))].
Proof.
  destruct (auth_payload_entry psk o) as [He Hl]. apply chain_fits_intro; [by apply Forall_singleton|].
  cbn [fmap list_fmap sum_list_with snd]. rewrite Hl. simpl. lia.
Qed.

Definition first_reply_chain (r : EapResponder) (psk : bytes) : PayloadChain :=
  [(PIdResponder, Identification_to_bytes (er_id r));
   (PAuthentication, Authentication_to_bytes (psk_auth_payload psk (own_octets r)));
   (PEap, EapPacket_to_bytes (mkEap code.REQUEST (er_eap_id r) [eap_type.IDENTITY]))].

Lemma first_reply_fits r psk : id_fits (er_id r) -> byte_ok (er_eap_id r) ->
  chain_fits (first_reply_chain r psk).
Proof.
  intros Hid He. assert (Hp : eap_fits (mkEap code.REQUEST (er_eap_id r) [eap_type.IDENTITY])).
  { split; [|simpl; lia]. constructor; simpl; [by split|done|by repeat constructor|lia]. }
  destruct (auth_payload_entry psk (own_octets r)) as [Hae Ha].
  apply chain_fits_intro.
  - apply Forall_cons_2; [by apply id_entry|]. apply Forall_cons_2; [done|by apply Forall_singleton, eap_entry].
  - destruct Hid as [_ Hl]. cbn [first_reply_chain fmap list_fmap sum_list_with snd].
    rewrite Ha, length_eap_packet. unfold Identification_to_bytes. rewrite !length_app.
    unfold Datatypes.id. simpl. lia.
Qed.

Lemma responder_first_step a r (g : G) m id spi psk :
  opposite (er_sa r) a -> er_auth r = ServerPsk psk -> id_fits (er_id r) -> byte_ok (er_eap_id r) ->
  u32_ok spi -> decrypt (er_sa r) m = Ok (1, eap_request_chain id spi) ->
  let r' := set_peer (Some spi) (Identification_to_bytes id) r in
  exists m' g', EapResponder_handle m (r, g) = (Done (Reply m'), (r', g')) /\
    decrypt a m' = Ok (1, first_reply_chain r psk).
Proof.
  intros Hab Hau Hid He Hspi Hd r'.
  destruct (reply_delivered (er_sa r') a 1 true (first_reply_chain r' psk) r' g Reply)
    as (m' & g'' & E & _ & Ed); [done|by split|by apply first_reply_fits|].
  exists m', g''. split; [|done]. unfold EapResponder_handle.
  act_step reflexivity. act_step (apply ike_ok; exact Hd).
  change (find_payload (eap_request_chain id spi) PEap) with (@None bytes).
  change (find_payload (eap_request_chain id spi) PAuthentication) with (@None bytes).
  unfold responder_first.
  change (find_payload (eap_request_chain id spi) PSecurityAssociation) with
    (Some (SecurityAssociation_to_bytes (esp_offer spi))). cbv beta iota.
  act_step (apply ike_ok, esp_offer_spi; exact Hspi).
  act_step apply upd_done. act_step reflexivity. cbn [fst].
  change (default [] (find_payload (eap_request_chain id spi) PIdInitiator)) with (Identification_to_bytes id).
  fold r'. act_step (apply ike_ok; unfold server_auth_payloads; cbn [er_auth set_peer r']; rewrite Hau; reflexivity).
  exact E.
Qed.

(** *** The EAP rounds *)
Definition user_fits (u : bytes) : Prop := bytes_ok u /\ Z.of_nat (length u) <= 1000.

Lemma eap_fits_intro c id d : byte_ok c -> byte_ok id -> bytes_ok d -> Z.of_nat (length d) <= 2000 ->
  eap_fits (mkEap c id d).
Proof. intros. split; [constructor; simpl; try done; lia|simpl; lia]. Qed.

Lemma response_fits x pc nt user : byte_ok x -> bytes_ok pc -> bytes_ok nt -> user_fits user ->
  length pc = 16%nat -> length nt = 24%nat ->
  eap_fits (mkEap code.RESPONSE x (response_bytes 1 pc nt user)).
Proof.
  intros Hx Hp Hn [Hu Lu] Lp Ln. apply eap_fits_intro; [by split|done|unfold response_bytes..].
  - repeat (apply bytes_ok_app); try done; try apply be_bytes_ok; by repeat constructor.
  - rewrite !length_app, length_be_bytes, length_replicate, Lp, Ln. cbn [length]. lia.
Qed.

Lemma success_fits x ar : byte_ok x -> bytes_ok ar -> length ar = 42%nat ->
  eap_fits (mkEap code.REQUEST x (build_success 1 ar)).
Proof.
  intros Hx Ha La. apply eap_fits_intro; [by split|done|unfold build_success..].
  - repeat (apply bytes_ok_app); try done; try apply be_bytes_ok; by repeat constructor.
  - rewrite !length_app, length_be_bytes, La. done.
Qed.

Lemma answer_challenge (i : EapInitiator) (g : G) x c name : length c = 16%nat ->
  exists nt, generate_nt_response c (fill 16 g).1 (ei_user i) (ei_password i) = Ok nt /\
    length nt = 24%nat /\ bytes_ok nt /\
    initiator_answer i (mkEap code.REQUEST x (build_challenge 1 c name)) (i, g) =
      (Done (Some (response_bytes 1 (fill 16 g).1 nt (ei_user i))), (set_ei_nt_response nt i, (fill 16 g).2)).
Proof.
  intros Hc. destruct (build_response_ok 1 c (fill 16 g).1 (ei_user i) (ei_password i))
    as (nt & E & Hl & Hb & E'). exists nt. split_and!; [done..|].
  unfold initiator_answer. change (EapPacket_type _) with (Some eap_type.MSCHAPV2). cbv iota.
  rewrite decide_False by done. cbn [eap_data].
  rewrite decide_True by (split; reflexivity).
  act_step (apply ike_ok, parse_challenge_built; exact Hc).
  act_step apply eap_draw_done. act_step (apply ike_ok; exact E).
  act_step apply upd_done. act_step (apply ike_ok; exact E'). done.
Qed.

Lemma out_identity (r : EapResponder) (g : G) x user pw : er_users r !! user = Some pw ->
  responder_out (mkEap code.RESPONSE x (eap_type.IDENTITY :: user)) (r, g) =
    (Done (NextRequest (build_challenge 1 (fill 16 g).1 (ascii_bytes "ryke"))),
     (set_auth_challenge (fill 16 g).1 (set_credential user pw r), (fill 16 g).2)).
Proof.
  intros Hu. unfold responder_out. change (EapPacket_type _) with (Some eap_type.IDENTITY). cbv iota.
  rewrite decide_True by done. cbn [eap_data]. change (drop 1 (eap_type.IDENTITY :: user)) with user.
  act_step reflexivity. cbn [fst]. rewrite Hu. act_step apply upd_done.
  act_step apply eap_draw_done. by act_step apply upd_done.
Qed.

(** The Response is accepted exactly if its NT-Response is the expected one. *)
Lemma out_response (r : EapResponder) (g : G) x pc nt user nt' : length pc = 16%nat -> length nt = 24%nat ->
  generate_nt_response (er_auth_challenge r) pc (er_user r) (er_password r) = Ok nt' ->
  exists ar, generate_authenticator_response (er_password r) nt' pc (er_auth_challenge r) (er_user r) = Ok ar /\
  responder_out (mkEap code.RESPONSE x (response_bytes 1 pc nt user)) (r, g) =
    (Done (if decide (nt' = nt) then NextRequest (build_success 1 ar) else Reject), (set_er_nt_response nt' r, g)).
Proof.
  intros Hp Hn E. destruct (generate_authenticator_response_ok (er_password r) nt' pc (er_auth_challenge r)
    (er_user r)) as (ar & Ear). exists ar. split; [done|].
  unfold responder_out. change (EapPacket_type _) with (Some eap_type.MSCHAPV2). cbv iota.
  rewrite decide_False by done. cbn [eap_data]. rewrite decide_True by (split; reflexivity).
  act_step (apply ike_ok, parse_response_built; [exact Hp|exact Hn]).
  act_step reflexivity. cbn [fst peer_challenge nt_response]. act_step (apply ike_ok; exact E).
  act_step apply upd_done. destruct (decide (nt' = nt)) as [->|Hne]; [rewrite decide_False by auto|by rewrite decide_True].
  act_step (apply ike_ok; exact Ear). done.
Qed.

Lemma responder_success_step a r (g : G) m mid x : opposite (er_sa r) a -> u32_ok mid -> byte_ok x ->
  decrypt (er_sa r) m = Ok (mid, [(PEap, EapPacket_to_bytes (mkEap code.RESPONSE x [eap_type.MSCHAPV2; op.SUCCESS]))]) ->
  exists m' g', EapResponder_handle m (r, g) =
      (Done (Reply m'), (set_eap_id (as_u8 (er_eap_id r + 1)) r, g')) /\
    decrypt a m' = Ok (mid, [(PEap, EapPacket_to_bytes (mkEap code.SUCCESS x []))]).
Proof.
  intros Hab Hmid Hx Hd. set (r' := set_eap_id (as_u8 (er_eap_id r + 1)) r).
  destruct (reply_delivered (er_sa r') a mid true [(PEap, EapPacket_to_bytes (mkEap code.SUCCESS x []))] r' g Reply)
    as (m' & g'' & E & _ & Ed); [done|done|apply eap_chain_fits, eap_fits_intro; [by split|done|constructor|simpl; lia]|].
  exists m', g''. split; [|done]. unfold EapResponder_handle.
  act_step reflexivity. act_step (apply ike_ok; exact Hd).
  change (find_payload [(PEap, ?b)] PEap) with (Some b).
  unfold responder_eap.
  act_step (apply ike_ok, EapPacket_parse_built; apply eap_fits_intro; [by split|done|by repeat constructor|simpl; lia]).
  act_step apply upd_done. fold r'. act_step reflexivity. act_step reflexivity. exact E.
Qed.

(** *** The final round *)
Lemma initiator_auth_step b i (g : G) m mid x : opposite (ei_sa i) b -> u32_ok mid -> mid + 1 < 2 ^ 32 ->
  byte_ok x -> firewalled i = false ->
  decrypt (ei_sa i) m = Ok (mid, [(PEap, EapPacket_to_bytes (mkEap code.SUCCESS x []))]) ->
  exists msk m' g', derive_msk (ei_password i) (ei_nt_response i) = Ok msk /\
    EapInitiator_handle m (i, g) = (Done (Reply m'), (i, g')) /\
    decrypt b m' = Ok (mid + 1, [(PAuthentication, Authentication_to_bytes (psk_auth_payload msk
      (initiator_signed_octets (init_message (ei_sa i)) (nr (ei_sa i)) (sk_pi (keys (ei_sa i)))
        (Identification_to_bytes (ei_id i)))))]).
Proof.
  intros Hab Hmid Hlt Hx Hfw Hd. destruct (derive_msk_ok (ei_password i) (ei_nt_response i)) as (msk & Em & _).
  set (o := initiator_signed_octets _ _ _ _).
  destruct (reply_delivered (ei_sa i) b (mid + 1) false
    [(PAuthentication, Authentication_to_bytes (psk_auth_payload msk o))] i g Reply)
    as (m' & g'' & E & _ & Ed); [done|unfold u32_ok in *; lia| |].
  { apply auth_chain_fits. }
  exists msk, m', g''. split_and!; [done| |done]. unfold EapInitiator_handle.
  act_step reflexivity. act_step (apply ike_ok; exact Hd).
  act_step (apply ike_ok; unfold add1_u32; rewrite decide_True by done; reflexivity).
  act_step (unfold check_server; act_step reflexivity;
    change (find_payload [(PEap, ?y)] PIdResponder) with (@None bytes); cbn [octets_bool];
    rewrite andb_false_r; reflexivity).
  cbn [negb]. act_step reflexivity. cbn [fst]. rewrite Hfw.
  change (find_payload [(PEap, ?y)] PEap) with (Some y). cbv iota. unfold initiator_eap.
  act_step (apply ike_ok, EapPacket_parse_built; apply eap_fits_intro; [by split|done|constructor|simpl; lia]).
  cbn [eap_code]. rewrite decide_False, decide_True by done. unfold initiator_auth.
  act_step (apply ike_ok; exact Em). exact E.
Qed.

(** The responder accepts an AUTH payload exactly if it is keyed by its MSK. *)
Lemma responder_final_step a r (g : G) m mid meth d msk : opposite (er_sa r) a -> u32_ok mid ->
  id_fits (er_id r) -> (forall c, er_assigned r = Some c -> AssignedConfig_wf c) ->
  Authentication_wf (mkAuth meth d) ->
  derive_msk (er_password r) (er_nt_response r) = Ok msk ->
  decrypt (er_sa r) m = Ok (mid, [(PAuthentication, Authentication_to_bytes (mkAuth meth d))]) ->
  if decide (d = psk_auth msk (initiator_signed_octets (init_message (er_sa r)) (nr (er_sa r))
                 (sk_pi (keys (er_sa r))) (er_peer_idi r)))
  then exists m' g', EapResponder_handle m (r, g) = (Done (EapEstablished (Some m')), (r, g')) /\
    decrypt a m' = Ok (mid, final_chain r msk)
  else EapResponder_handle m (r, g) = (Done EapFailed, (r, g)).
Proof.
  intros Hab Hmid Hid Has Hwf Em Hd.
  assert (Hh : EapResponder_handle m (r, g) = responder_final r mid (Authentication_to_bytes (mkAuth meth d)) (r, g)).
  { unfold EapResponder_handle. act_step reflexivity. act_step (apply ike_ok; exact Hd). done. }
  rewrite Hh. unfold responder_final. act_step (apply ike_ok; exact Em).
  act_step (apply ike_ok, Authentication_roundtrip; exact Hwf). cbn [auth_data].
  case_decide as Hdec; [|by rewrite decide_True]. rewrite decide_False by auto.
  destruct (reply_delivered (er_sa r) a mid true (final_chain r msk) r g (fun x => EapEstablished (Some x)))
    as (m' & g'' & E & _ & Ed); [done|done| |].
  { exact (response_chain_fits (er_id r) msk (own_octets r) (er_child_spi r) (er_assigned r) Hid Has). }
  exists m', g''. split; [exact E|done].
Qed.

Lemma initiator_confirm_step i (g : G) m mid r msk : c_role (ei_sa i) = Initiator ->
  same_sa (ei_sa i) (er_sa r) -> u32_ok mid -> mid + 1 < 2 ^ 32 -> ei_server_verified i = true ->
  derive_msk (ei_password i) (ei_nt_response i) = Ok msk ->
  decrypt (ei_sa i) m = Ok (mid, final_chain r msk) ->
  EapInitiator_handle m (i, g) = (Done (EapEstablished None), (i, g)).
Proof.
  intros Hr Hs Hmid Hlt Hv Em Hd. unfold EapInitiator_handle.
  act_step reflexivity. act_step (apply ike_ok; exact Hd).
  act_step (apply ike_ok; unfold add1_u32; rewrite decide_True by done; reflexivity).
  act_step (unfold check_server; act_step reflexivity; cbn [fst]; rewrite Hv; reflexivity).
  cbn [negb]. act_step reflexivity. cbn [fst].
  assert (Hfw : firewalled i = false) by (unfold firewalled; rewrite Hv; by destruct (ei_verify i)).
  rewrite Hfw.
  assert (F : find_payload (final_chain r msk) PEap = None /\
    find_payload (final_chain r msk) PAuthentication =
      Some (Authentication_to_bytes (psk_auth_payload msk (own_octets r))) /\
    find_payload (final_chain r msk) PSecurityAssociation =
      Some (SecurityAssociation_to_bytes (esp_offer (er_child_spi r))) /\
    find_payload (final_chain r msk) PIdResponder = Some (Identification_to_bytes (er_id r)))
    by (unfold final_chain; by destruct (er_assigned r)).
  destruct F as (-> & F2 & F3 & F4). apply ike_ok. unfold initiator_confirm. rewrite F2, F3, F4, Em.
  cbn [mbind outcome_bind default]. rewrite Authentication_roundtrip by apply psk_auth_wf.
  cbn [mbind outcome_bind auth_meth auth_data psk_auth_payload].
  destruct Hs as (_ & _ & _ & _ & Hk & Hni & _ & _ & Hrm). unfold own_octets. rewrite Hk, Hni, Hrm.
  by rewrite !bool_decide_eq_true_2.
Qed.
End steps.

(** ** The two machines talking to each other *)

(** [m] goes to the responder, its reply to the initiator, and so on, until the
    responder establishes and the initiator confirms. *)
Fixpoint eap_drive `{!Primitives, !Pki, !LegacyCrypto, Entropy G, Entropy G2} (fuel : nat)
    (si : EapInitiator * G) (sr : EapResponder * G2) (m : bytes)
    : option ((EapInitiator * G) * (EapResponder * G2)) :=
  match fuel with
  | O => None
  | S f =>
      match EapResponder_handle m sr with
      | (Done (Reply m'), sr') =>
          match EapInitiator_handle m' si with
          | (Done (Reply m''), si') => eap_drive f si' sr' m''
          | _ => None
          end
      | (Done (EapEstablished (Some m')), sr') =>
          match EapInitiator_handle m' si with
          | (Done (EapEstablished None), si') => Some (si', sr')
          | _ => None
          end
      | _ => None
      end
  end.

Section exchange.
Context `{!Primitives, !Pki, !LegacyCrypto, !AeadLaws, !HashLaws, !HmacLaws, !LegacyLaws,
  Entropy G, !EntropyLaws G, Entropy G2, !EntropyLaws G2}.

(** A later EAP request of the exchange, to an initiator that verified the server. *)
Lemma initiator_round b i (g : G) m mid x d0 d i' g' :
  opposite (ei_sa i) b -> u32_ok mid -> mid + 1 < 2 ^ 32 -> ei_server_verified i = true ->
  eap_fits (mkEap code.REQUEST x d0) ->
  decrypt (ei_sa i) m = Ok (mid, [(PEap, EapPacket_to_bytes (mkEap code.REQUEST x d0))]) ->
  initiator_answer i (mkEap code.REQUEST x d0) (i, g) = (Done (Some d), (i', g')) ->
  eap_fits (mkEap code.RESPONSE x d) ->
  exists m' g'', EapInitiator_handle m (i, g) = (Done (Reply m'), (i', g'')) /\
    decrypt b m' = Ok (mid + 1, [(PEap, EapPacket_to_bytes (mkEap code.RESPONSE x d))]).
Proof.
  intros Hab Hmid Hlt Hv [Hp _] Hd Ha Hf.
  apply (initiator_reply b i g m mid [(PEap, EapPacket_to_bytes (mkEap code.REQUEST x d0))] (mkEap code.REQUEST x d0) d i i' g'); try done.
  - unfold check_server. act_step reflexivity. cbn [fst]. by rewrite Hv.
  - unfold firewalled. rewrite Hv. by destruct (ei_verify i).
Qed.

(** The credentials and certificates of both ends are well formed. *)
Record eap_setup (i : EapInitiator) (r : EapResponder) (psk : bytes) : Prop := {
  es_sas : opposite (ei_sa i) (er_sa r);
  es_role : c_role (ei_sa i) = Initiator;
  es_idi : id_fits (ei_id i);
  es_idr : id_fits (er_id r);
  es_spi : u32_ok (ei_child_spi i);
  es_user : user_fits (ei_user i);
  es_auth : er_auth r = ServerPsk psk;
  es_verify : ei_verify i = Insecure;
  es_certreq : ei_send_certreq i = false;
  es_id : er_eap_id r = 1;
  es_assigned c : er_assigned r = Some c -> AssignedConfig_wf c }.

Lemma drive_step n (si si' : EapInitiator * G) (sr sr' : EapResponder * G2) m m' m'' :
  EapResponder_handle m sr = (Done (Reply m'), sr') -> EapInitiator_handle m' si = (Done (Reply m''), si') ->
  eap_drive (S n) si sr m = eap_drive n si' sr' m''.
Proof. intros E1 E2. cbn [eap_drive]. by rewrite E1, E2. Qed.

(** The responder authenticates itself and asks for the identity. *)
Lemma eap_round_first i r psk (g : G) (g2 : G2) m n : eap_setup i r psk ->
  decrypt (er_sa r) m = Ok (1, eap_request_chain (ei_id i) (ei_child_spi i)) ->
  exists m' g' g2',
    eap_drive (S n) (i, g) (r, g2) m = eap_drive n (set_server_verified i, g')
      (set_peer (Some (ei_child_spi i)) (Identification_to_bytes (ei_id i)) r, g2') m' /\
    decrypt (er_sa r) m' =
      Ok (2, [(PEap, EapPacket_to_bytes (mkEap code.RESPONSE 1 (eap_type.IDENTITY :: ei_user i)))]).
Proof.
  intros [Hab Hr Hi Hid Hs [Hu Lu] Hau Hv Hc He Has] Hd.
  destruct (responder_first_step (ei_sa i) r g2 m (ei_id i) (ei_child_spi i) psk)
    as (m' & g2' & E1 & D1); try done; [by apply opposite_sym|by rewrite He|].
  destruct (initiator_reply (er_sa r) i g m' 1 (first_reply_chain r psk)
    (mkEap code.REQUEST 1 [eap_type.IDENTITY]) (eap_type.IDENTITY :: ei_user i)
    (set_server_verified i) (set_server_verified i) g) as (m'' & g' & E2 & D2); try done.
  - apply eap_fits_intro; [by split|by split|by repeat constructor|simpl; lia].
  - unfold first_reply_chain. rewrite He. reflexivity.
  - unfold check_server. act_step reflexivity. cbn [fst].
    destruct (ei_server_verified i) eqn:Ev; cbn [negb andb].
    + f_equal. f_equal. destruct i. cbn in *. by subst.
    + change (octets_bool (find_payload (first_reply_chain r psk) PIdResponder)) with true.
      change (octets_bool (find_payload (first_reply_chain r psk) PAuthentication)) with true. cbn [andb].
      act_step (apply ike_ok; unfold verify_server; rewrite Hv; reflexivity). by act_step apply upd_done.
  - unfold firewalled. cbn [set_server_verified ei_verify]. by rewrite Hv.
  - apply eap_fits_intro; [by split|by split|by apply Forall_cons_2|cbn [length]; lia].
  - exists m'', g', g2'. split; [by eapply drive_step|exact D2].
Qed.

(** The identity selects the credential; the challenge is answered. *)
Lemma eap_round_challenge i r (g : G) (g2 : G2) m n pw :
  opposite (ei_sa i) (er_sa r) -> user_fits (ei_user i) -> ei_server_verified i = true ->
  er_users r !! ei_user i = Some pw -> er_eap_id r = 1 ->
  decrypt (er_sa r) m =
    Ok (2, [(PEap, EapPacket_to_bytes (mkEap code.RESPONSE 1 (eap_type.IDENTITY :: ei_user i)))]) ->
  exists m' g' g2' c pc nt,
    length pc = 16%nat /\ length nt = 24%nat /\ bytes_ok pc /\ bytes_ok nt /\
    generate_nt_response c pc (ei_user i) (ei_password i) = Ok nt /\
    eap_drive (S n) (i, g) (r, g2) m = eap_drive n (set_ei_nt_response nt i, g')
      (set_auth_challenge c (set_credential (ei_user i) pw (set_eap_id 2 r)), g2') m' /\
    decrypt (er_sa r) m' =
      Ok (3, [(PEap, EapPacket_to_bytes (mkEap code.RESPONSE 2 (response_bytes 1 pc nt (ei_user i))))]).
Proof.
  intros Hab Huf Hv Hus He Hd. pose proof Huf as [Hu Lu].
  assert (Hch : forall c, bytes_ok c -> length c = 16%nat ->
    eap_fits (mkEap code.REQUEST 2 (build_challenge 1 c (ascii_bytes "ryke")))).
  { intros c Hc Lc. apply eap_fits_intro; [by split|by split| |].
    - unfold build_challenge. repeat (apply bytes_ok_app; [|auto with ryke]); try (by repeat constructor).
    - unfold build_challenge. rewrite !length_app, length_be_bytes, Lc. vm_compute. done. }
  pose proof (fill_length 16 g2) as Lc. pose proof (fill_bytes 16 g2) as Hc.
  pose proof (out_identity (set_eap_id 2 r) g2 1 (ei_user i) pw Hus) as Ho.
  destruct (responder_request (ei_sa i) r g2 m 2 (mkEap code.RESPONSE 1 (eap_type.IDENTITY :: ei_user i))
    (build_challenge 1 (fill 16 g2).1 (ascii_bytes "ryke"))
    (set_auth_challenge (fill 16 g2).1 (set_credential (ei_user i) pw (set_eap_id 2 r))) (fill 16 g2).2)
    as (m4 & g2' & E1 & D1); try done; [by apply opposite_sym| |by rewrite He|by apply Hch|].
  { apply eap_fits_intro; [by split|by split|by apply Forall_cons_2|cbn [length]; lia]. }
  destruct (answer_challenge i g 2 (fill 16 g2).1 (ascii_bytes "ryke") Lc) as (nt & En & Ln & Bn & Ea).
  pose proof (fill_length 16 g) as Lp. pose proof (fill_bytes 16 g) as Hp.
  destruct (initiator_round (er_sa r) i g m4 2 2 (build_challenge 1 (fill 16 g2).1 (ascii_bytes "ryke"))
    (response_bytes 1 (fill 16 g).1 nt (ei_user i)) (set_ei_nt_response nt i) (fill 16 g).2)
    as (m5 & g' & E2 & D2); try done; [by apply Hch| |].
  { by apply response_fits. }
  exists m5, g', g2', (fill 16 g2).1, (fill 16 g).1, nt. split_and!; [done..|by eapply drive_step|exact D2].
Qed.

(** The response is accepted; the success message is acknowledged. *)
Lemma eap_round_response i r (g : G) (g2 : G2) m n pc nt :
  opposite (ei_sa i) (er_sa r) -> user_fits (ei_user i) -> ei_server_verified i = true ->
  er_eap_id r = 2 -> length pc = 16%nat -> length nt = 24%nat -> bytes_ok pc -> bytes_ok nt ->
  generate_nt_response (er_auth_challenge r) pc (er_user r) (er_password r) = Ok nt ->
  decrypt (er_sa r) m =
    Ok (3, [(PEap, EapPacket_to_bytes (mkEap code.RESPONSE 2 (response_bytes 1 pc nt (ei_user i))))]) ->
  exists m' g' g2',
    eap_drive (S n) (i, g) (r, g2) m = eap_drive n (i, g') (set_er_nt_response nt (set_eap_id 3 r), g2') m' /\
    decrypt (er_sa r) m' =
      Ok (4, [(PEap, EapPacket_to_bytes (mkEap code.RESPONSE 3 [eap_type.MSCHAPV2; op.SUCCESS]))]).
Proof.
  intros Hab Hu Hv He Lp Ln Hp Hn Ent Hd.
  destruct (out_response (set_eap_id 3 r) g2 2 pc nt (ei_user i) nt Lp Ln Ent) as (ar & Ear & Eo).
  rewrite decide_True in Eo by done. destruct (authenticator_response_fits _ _ _ _ _ _ Ear) as [Har Lar].
  assert (Hf : eap_fits (mkEap code.REQUEST 3 (build_success 1 ar))).
  { by apply success_fits. }
  destruct (responder_request (ei_sa i) r g2 m 3
    (mkEap code.RESPONSE 2 (response_bytes 1 pc nt (ei_user i))) (build_success 1 ar)
    (set_er_nt_response nt (set_eap_id 3 r)) g2)
    as (m6 & g2' & E1 & D1); try done; [by apply opposite_sym| |by rewrite He|].
  { by apply response_fits. }
  destruct (initiator_round (er_sa r) i g m6 3 3 (build_success 1 ar) [eap_type.MSCHAPV2; op.SUCCESS] i g)
    as (m7 & g' & E2 & D2); try done.
  { apply eap_fits_intro; [by split|by split|by repeat constructor|simpl; lia]. }
  exists m7, g', g2'. split; [by eapply drive_step|exact D2].
Qed.

(** EAP-Success, then the two AUTH payloads keyed by the MSK. *)
Lemma eap_round_final i r (g : G) (g2 : G2) m n :
  opposite (ei_sa i) (er_sa r) -> c_role (ei_sa i) = Initiator -> ei_server_verified i = true ->
  id_fits (er_id r) -> (forall c, er_assigned r = Some c -> AssignedConfig_wf c) ->
  ei_password i = er_password r -> ei_nt_response i = er_nt_response r ->
  er_peer_idi r = Identification_to_bytes (ei_id i) ->
  decrypt (er_sa r) m =
    Ok (4, [(PEap, EapPacket_to_bytes (mkEap code.RESPONSE 3 [eap_type.MSCHAPV2; op.SUCCESS]))]) ->
  exists g' g2', eap_drive (S (S n)) (i, g) (r, g2) m =
    Some ((i, g'), (set_eap_id (as_u8 (er_eap_id r + 1)) r, g2')).
Proof.
  intros Hab Hr Hv Hid Has Epw Ent Eid Hd. set (r' := set_eap_id (as_u8 (er_eap_id r + 1)) r).
  destruct (responder_success_step (ei_sa i) r g2 m 4 3) as (m8 & g2' & E1 & D1); try done;
    [by apply opposite_sym|].
  assert (Hfw : firewalled i = false) by (unfold firewalled; rewrite Hv; by destruct (ei_verify i)).
  destruct (initiator_auth_step (er_sa r) i g m8 4 3) as (msk & m9 & g' & Em & E2 & D2); try done.
  assert (Hs : same_sa (ei_sa i) (er_sa r)) by apply Hab.
  pose proof (responder_final_step (ei_sa i) r' g2' m9 5 auth_method.SHARED_KEY
    (psk_auth msk (initiator_signed_octets (init_message (ei_sa i)) (nr (ei_sa i)) (sk_pi (keys (ei_sa i)))
      (Identification_to_bytes (ei_id i)))) msk) as Hfin.
  rewrite decide_True in Hfin.
  2: { cbn [er_sa er_peer_idi r' set_eap_id]. rewrite Eid. destruct Hs as (_ & _ & _ & _ & -> & _ & -> & -> & _). done. }
  destruct Hfin as (m10 & g2'' & E3 & D3); try done;
    [by apply opposite_sym|apply (psk_auth_wf msk)|cbn [er_password er_nt_response r' set_eap_id]; by rewrite <- Epw, <- Ent|].
  exists g', g2''. rewrite (drive_step _ _ _ _ _ _ _ _ E1 E2). cbn [eap_drive]. fold r'. rewrite E3.
  by rewrite (initiator_confirm_step i g' m10 5 r' msk).
Qed.

Lemma eap_run i r psk (g : G) (g2 : G2) : eap_setup i r psk ->
  er_users r !! ei_user i = Some (ei_password i) ->
  exists m g0 i' g' r' g2', EapInitiator_start i g = (Done m, g0) /\
    eap_drive 5 (i, g0) (r, g2) m = Some ((i', g'), (r', g2')) /\
    er_user r' = ei_user i /\ er_peer_child_spi r' = Some (ei_child_spi i) /\
    ei_nt_response i' = er_nt_response r' /\ ei_password i' = er_password r'.
Proof.
  intros Hset Hus. pose proof Hset as [Hab Hr Hi Hid Hs Hu Hau Hv Hc He Has].
  destruct (start_delivered i (er_sa r) g) as (m & g0 & E0 & D0); try done.
  destruct (eap_round_first i r psk g0 g2 m 4 Hset D0) as (m3 & ga & gb & E1 & D1).
  set (i1 := set_server_verified i) in *. set (r1 := set_peer _ _ r) in *.
  destruct (eap_round_challenge i1 r1 ga gb m3 3 (ei_password i))
    as (m5 & gc & gd & c & pc & nt & Lp & Ln & Bp & Bn & En & E2 & D2); try done.
  set (i2 := set_ei_nt_response nt i1) in *. set (r2 := set_auth_challenge c _) in *.
  destruct (eap_round_response i2 r2 gc gd m5 2 pc nt) as (m7 & ge & gf & E3 & D3); try done.
  set (r3 := set_er_nt_response nt _) in *.
  destruct (eap_round_final i2 r3 ge gf m7 0) as (gg & gh & E4); try done.
  exists m, g0, i2, gg, (set_eap_id (as_u8 (er_eap_id r3 + 1)) r3), gh.
  split_and!; [done|by rewrite E1, E2, E3|done..].
Qed.
End exchange.

(** ** What a machine never changes *)
Definition preserves {S A} (R : relation S) (m : action S A) : Prop := forall s, R s (m s).2.

Section preserves.
Context {S : Type} (R : relation S) `{!PreOrder R}.

Lemma preserves_bind {A B} (m : action S A) (k : A -> action S B) :
  preserves R m -> (forall a, preserves R (k a)) -> preserves R (act_bind m k).
Proof.
  intros Hm Hk s. unfold act_bind. specialize (Hm s). destruct (m s) as [[a|e|] s']; cbn [snd] in *; try done.
  etrans; [exact Hm|apply Hk].
Qed.
Lemma preserves_ret {A} (a : A) : preserves R (act_ret a).
Proof. intros s. reflexivity. Qed.
Lemma preserves_gets {A} (f : S -> A) : preserves R (gets f).
Proof. intros s. reflexivity. Qed.
Lemma preserves_ike {A} (m : outcome A) : preserves R (ike m).
Proof. intros s. destruct m; reflexivity. Qed.
End preserves.

(** The connection, the credentials and the verification of the server. *)
Definition same_identity {G} (s s' : EapInitiator * G) : Prop :=
  ei_sa s'.1 = ei_sa s.1 /\ ei_verify s'.1 = ei_verify s.1 /\
  ei_server_verified s'.1 = ei_server_verified s.1.

#[export] Instance same_identity_pre {G} : PreOrder (@same_identity G).
Proof.
  split; [intros s; by split_and!|]. intros x y z (? & ? & ?) (? & ? & ?). split; [|split]; congruence.
Qed.

Lemma same_identity_draw {G A} (f : G -> A * G) : preserves same_identity (eap_draw f).
Proof. intros [i g]. by rewrite eap_draw_done. Qed.

Ltac keep := repeat match goal with
  | |- preserves _ (act_bind _ _) => apply preserves_bind; [apply _| |intros]
  | |- preserves _ (act_ret _) => apply preserves_ret, _
  | |- preserves _ (gets _) => apply preserves_gets, _
  | |- preserves _ (ike _) => apply preserves_ike, _
  | |- preserves _ (eap_draw _) => apply same_identity_draw
  | |- preserves _ (upd (set_ei_nt_response _)) => by intros [? ?]
  | |- preserves _ (if ?b then _ else _) => destruct b
  | |- preserves _ (match ?o with _ => _ end) => destruct o
  end.

Section firewall.
Context `{!Primitives, !Pki, !LegacyCrypto, Entropy G}.

Lemma initiator_eap_keeps i n b : preserves same_identity (@initiator_eap _ _ G _ i n b).
Proof. unfold initiator_eap, initiator_auth, initiator_answer. keep. Qed.

(** A message that proves the server's identity to an initiator that trusts [cas]
    for [dns]. *)
Definition server_proved (sa : CompletedSaInit) (cas : list bytes) (dns : bytes) (now : Z) (m : bytes) : Prop :=
  exists mid ps idr auth_bytes auth leaf rest, decrypt sa m = Ok (mid, ps) /\
    find_payload ps PIdResponder = Some idr /\ find_payload ps PAuthentication = Some auth_bytes /\
    certs_of ps = Ok (leaf :: rest) /\ Authentication_parse auth_bytes = Ok auth /\
    auth_meth auth = auth_method.DIGITAL_SIGNATURE /\
    verify_cert_auth leaf rest cas (Some dns) now (auth_data auth)
      (responder_signed_octets (resp_message sa) (ni sa) (sk_pr (keys sa)) idr) = Ok tt.

Lemma verify_server_proved i cas dns now m mid ps : ei_verify i = TrustedCas cas dns now ->
  decrypt (ei_sa i) m = Ok (mid, ps) -> verify_server i ps = Ok true ->
  server_proved (ei_sa i) cas dns now m.
Proof.
  intros Hv Hd. unfold verify_server. rewrite Hv.
  destruct (find_payload ps PIdResponder) as [idr|] eqn:E1; [|done].
  destruct (find_payload ps PAuthentication) as [ab|] eqn:E2; [|done].
  destruct (certs_of ps) as [[|leaf rest]| |] eqn:E3; try done. cbn [mbind outcome_bind].
  destruct (Authentication_parse ab) as [auth| |] eqn:E4; try done. cbn [ok mbind outcome_bind].
  case_decide as Hm; [done|].
  destruct (verify_cert_auth _ _ _ _ _ _ _) as [[]| |] eqn:E5; try done. intros _.
  assert (auth_meth auth = auth_method.DIGITAL_SIGNATURE)
    by (destruct (decide (auth_meth auth = auth_method.DIGITAL_SIGNATURE)); [done|by destruct Hm]).
  exists mid, ps, idr, ab, auth, leaf, rest. by split_and!.
Qed.

(** The check of the server either changes nothing or records a proof. *)
Lemma check_server_effect ps i (g : G) r i' g' : check_server ps (i, g) = (r, (i', g')) ->
  (i' = i \/ (i' = set_server_verified i /\ verify_server i ps = Ok true)) /\ g' = g.
Proof.
  unfold check_server, act_bind, gets, ike. cbn [fst]. destruct (negb _ && _ && _).
  - destruct (verify_server i ps) as [[]| |]; intros [= <- <- <-]; auto.
  - intros [= <- <- <-]. auto.
Qed.

Definition discloses (r : driver EapEvent) : Prop :=
  match r with Done (Reply _) | Done (EapEstablished _) => True | _ => False end.

(** One message: the trust settings stay, the server counts as verified only
    through a proof, and nothing is answered before that. *)
Lemma initiator_handle_effect m i (g : G) cas dns now : ei_verify i = TrustedCas cas dns now ->
  let '(r, (i', g')) := EapInitiator_handle m (i, g) in
  ei_sa i' = ei_sa i /\ ei_verify i' = ei_verify i /\
  (ei_server_verified i' = true -> ei_server_verified i = true \/ server_proved (ei_sa i) cas dns now m) /\
  (discloses r -> ei_server_verified i' = true).
Proof.
  intros Hv. unfold EapInitiator_handle, act_bind at 1, gets at 1. cbn [fst].
  unfold act_bind at 1, ike at 1. destruct (decrypt (ei_sa i) m) as [[mid ps]| |] eqn:Hd; try (by auto).
  unfold act_bind at 1, ike at 1. destruct (add1_u32 mid) as [n| |]; try (by auto).
  unfold act_bind at 1. destruct (check_server ps (i, g)) as [r [i1 g1]] eqn:Hc.
  apply check_server_effect in Hc as [Hc ->].
  assert (Hi1 : ei_sa i1 = ei_sa i /\ ei_verify i1 = ei_verify i /\
    (ei_server_verified i1 = true -> ei_server_verified i = true \/ server_proved (ei_sa i) cas dns now m)).
  { destruct Hc as [->|[-> Hver]]; split_and!; auto. intros _. right. by eapply verify_server_proved. }
  destruct r as [[]|e|]; cbn [negb]; try (by destruct Hi1 as (? & ? & ?); split_and!).
  unfold act_bind, gets. cbn [fst]. destruct (firewalled i1) eqn:Hfw;
    [by destruct Hi1 as (? & ? & ?); split_and!|].
  assert (Hver : ei_server_verified i1 = true).
  { unfold firewalled in Hfw. destruct Hi1 as (_ & Hv1 & _). rewrite Hv1, Hv in Hfw.
    by destruct (ei_server_verified i1). }
  destruct (find_payload ps PEap) as [b|].
  - pose proof (initiator_eap_keeps i1 n b (i1, g)) as (K1 & K2 & K3).
    destruct (initiator_eap i1 n b (i1, g)) as [r [i' g']]. cbn [fst snd] in *.
    destruct Hi1 as (Hs & Hv' & Himp). split_and!; [congruence|congruence| |congruence].
    rewrite K3. exact Himp.
  - unfold ike. destruct Hi1 as (Hs & Hv' & Himp).
    by destruct (initiator_confirm i1 ps).
Qed.

(** An initiator after a sequence of messages. *)
Inductive initiator_heard (i0 : EapInitiator) : list bytes -> EapInitiator * G -> Prop :=
| heard_none g : initiator_heard i0 [] (i0, g)
| heard_more ms s m : initiator_heard i0 ms s -> initiator_heard i0 (ms ++ [m]) (EapInitiator_handle m s).2.

Lemma initiator_heard_inv i0 ms s cas dns now : ei_verify i0 = TrustedCas cas dns now ->
  ei_server_verified i0 = false -> initiator_heard i0 ms s ->
  ei_sa s.1 = ei_sa i0 /\ ei_verify s.1 = TrustedCas cas dns now /\
  (ei_server_verified s.1 = true -> exists m, m ∈ ms /\ server_proved (ei_sa i0) cas dns now m).
Proof.
  intros Hv Hf. induction 1 as [g|ms [i g] m _ (IH1 & IH2 & IH3)]; [cbn [fst]; by rewrite Hf|].
  cbn [fst] in *. pose proof (initiator_handle_effect m i g cas dns now IH2) as E.
  destruct (EapInitiator_handle m (i, g)) as [r [i' g']]. destruct E as (E1 & E2 & E3 & _).
  cbn [fst snd]. split_and!; [congruence|congruence|]. intros Ht. apply E3 in Ht as [Ht|Hp].
  - apply IH3 in Ht as (m0 & Hm0 & ?). exists m0. split; [set_solver|done].
  - rewrite IH1 in Hp. exists m. split; [set_solver|done].
Qed.
End firewall.

(** ** No panics *)
Section total.
Context `{!Primitives, !Pki, !LegacyCrypto, !AeadLaws, !HashLaws, !HmacLaws, !LegacyLaws,
  Entropy G, !EntropyLaws G}.

(** An action that panics in no state. *)
Definition total {S A} (m : action S A) : Prop := forall s, (m s).1 <> Panicked.

Lemma total_ike {S A B} (m : outcome A) (P : A -> Prop) (k : A -> action S B) :
  wp m P -> (forall a, P a -> total (k a)) -> total (act_bind (ike m) k).
Proof. intros Hm Hk s. unfold act_bind, ike. destruct m; [by apply Hk|done|done]. Qed.

Lemma total_ike_last {S A} (m : outcome A) : safe m -> total (ike (S := S) m).
Proof. intros Hm s. unfold ike. destruct m; [done|done|by destruct Hm]. Qed.

Lemma total_gets {S A B} (f : S -> A) (k : A -> action S B) : (forall a, total (k a)) -> total (act_bind (gets f) k).
Proof. intros Hk s. by apply Hk. Qed.

Lemma total_upd {S A} (f : S -> S) (k : unit -> action (S * G) A) : (forall a, total (k a)) -> total (act_bind (upd f) k).
Proof. intros Hk [s g]. by apply Hk. Qed.

Lemma total_fill {S A} n (k : bytes -> action (S * G) A) :
  (forall b, length b = n -> bytes_ok b -> total (k b)) -> total (act_bind (eap_draw (fill n)) k).
Proof.
  intros Hk [s g]. erewrite act_bind_done by apply eap_draw_done.
  apply Hk; [apply fill_length|apply fill_bytes].
Qed.

Lemma total_bind {S A B} (m : action S A) (k : A -> action S B) :
  total m -> (forall a, total (k a)) -> total (act_bind m k).
Proof.
  intros Hm Hk s. specialize (Hm s). unfold act_bind. destruct (m s) as [[a|e|] s']; [by apply Hk|done|done].
Qed.

(** The reply of a machine. *)
Lemma total_reply {S A} sa mid r ps (f : bytes -> A) :
  total (act_bind (eap_draw (S := S) (fill 8)) (fun iv =>
    act_bind (ike (build_sk sa mid r ps iv)) (fun msg => act_ret (f msg)))).
Proof.
  apply total_fill. intros iv Hl _. eapply total_ike; [by apply safe_wp, build_encrypted_safe|done].
Qed.

Lemma decrypt_wp c m : bytes_ok m -> wp (decrypt c m) (fun '(mid, ps) => u32_ok mid /\
  Forall (fun e => bytes_ok e.2) ps).
Proof.
  intros Hm. unfold decrypt. apply wp_bind. eapply wp_mono; [|by apply IkeHeader_parse_wp]. intros h Hh.
  apply wp_bind. eapply wp_mono; [|by apply open_encrypted_wp]. intros [t inner] [Ht Hi].
  apply wp_bind. eapply wp_mono; [|apply (for_each_wp _ (Forall (fun e => bytes_ok e.2)));
    [by apply payload_items_wp|constructor|]].
  - intros ps Hps. split; [apply Hh|done].
  - intros out p Hout (_ & Hd & _). apply Forall_app. split; [done|by apply Forall_singleton].
Qed.

Lemma find_payload_ok ps t b : Forall (fun e => bytes_ok e.2) ps -> find_payload ps t = Some b -> bytes_ok b.
Proof.
  intros Hps. induction Hps as [|[t' d] ps Hd _ IH]; [done|]. unfold find_payload. cbn [find].
  destruct (bool_decide (t' = t)); [by intros [= <-]|exact IH].
Qed.

Lemma generate_nt_wp a p u pw : wp (generate_nt_response a p u pw) (fun _ => True).
Proof. by destruct (generate_nt_response_ok a p u pw) as (nt & -> & _). Qed.

Lemma derive_msk_wp pw nt : wp (derive_msk pw nt) (fun _ => True).
Proof. by destruct (derive_msk_ok pw nt) as (k & -> & _). Qed.

Lemma certs_of_safe ps : Forall (fun e => bytes_ok e.2) ps -> safe (certs_of ps).
Proof.
  intros Hps. apply wp_safe with (Q := fun _ => True). unfold certs_of. apply wp_bind.
  eapply wp_mono; [|apply (mapM_wp _ (fun _ => True))]; [done|].
  assert (Hf : Forall (fun e => bytes_ok e.2) (filter (fun e => e.1 = PCertificate) ps)).
  { apply Forall_forall. intros e He. apply list_elem_of_filter in He as [_ He]. by eapply Forall_forall in Hps. }
  eapply Forall_impl; [exact Hf|]. intros [t d] Hd. cbn [snd] in Hd.
  pose proof (wp_safe _ _ (Certificate_parse_wp d Hd)) as Hs. by destruct (Certificate_parse d).
Qed.

Lemma verify_server_safe i ps : Forall (fun e => bytes_ok e.2) ps -> safe (verify_server i ps).
Proof.
  intros Hps. apply wp_safe with (Q := fun _ => True). unfold verify_server.
  destruct (ei_verify i); [done|]. destruct (find_payload ps PIdResponder) as [idr|]; [|done].
  destruct (find_payload ps PAuthentication) as [ab|] eqn:Ea; [|done].
  apply wp_bind. eapply wp_mono; [|by apply safe_wp, certs_of_safe]. intros [|leaf rest] _; [done|].
  pose proof (wp_safe _ _ (Authentication_parse_wp ab (find_payload_ok _ _ _ Hps Ea))) as Hs.
  destruct (Authentication_parse ab) as [auth| |]; try done. cbn [ok mbind outcome_bind].
  case_decide; [done|]. pose proof (verify_cert_auth_safe leaf rest cas (Some expected_dns) now_unix
    (auth_data auth) (responder_signed_octets (resp_message (ei_sa i)) (ni (ei_sa i)) (sk_pr (keys (ei_sa i))) idr)) as Hc.
  by destruct (verify_cert_auth _ _ _ _ _ _ _).
Qed.

Lemma initiator_eap_total i n b : bytes_ok b -> total (@initiator_eap _ _ G _ i n b).
Proof.
  intros Hb. unfold initiator_eap. eapply total_ike; [by apply EapPacket_parse_wp|]. intros p Hp.
  case_decide; [done|]. case_decide.
  - unfold initiator_auth. eapply total_ike; [apply derive_msk_wp|]. intros msk _. apply total_reply.
  - apply total_bind; [|intros [d|]; [apply total_reply|done]].
    unfold initiator_answer. destruct (EapPacket_type p); [|done]. repeat (case_decide; try done).
    eapply total_ike; [apply parse_challenge_wp, Hp|]. intros [[id c] name] _.
    apply total_fill. intros pc Hpc _. eapply total_ike; [apply generate_nt_wp|]. intros nt _.
    apply total_upd. intros _. eapply (total_ike _ (fun _ => True)); [|done].
    destruct (build_response_ok id c pc (ei_user i) (ei_password i)) as (nt' & _ & _ & _ & ->). exact I.
Qed.

Lemma initiator_confirm_safe i ps : Forall (fun e => bytes_ok e.2) ps -> safe (initiator_confirm i ps).
Proof.
  intros Hps. apply wp_safe with (Q := fun _ => True). unfold initiator_confirm.
  destruct (find_payload ps PAuthentication) as [ab|] eqn:Ea; [|done].
  destruct (find_payload ps PSecurityAssociation); [|done].
  apply wp_bind. eapply wp_mono; [|apply derive_msk_wp]. intros msk _. apply wp_bind.
  eapply wp_mono; [|apply Authentication_parse_wp; by eapply find_payload_ok]. done.
Qed.

(** The client panics on no message but one with the last message id. *)
Lemma initiator_handle_total m i (g : G) : bytes_ok m ->
  (forall h, IkeHeader_parse m = Ok h -> message_id h + 1 < 2 ^ 32) ->
  (EapInitiator_handle m (i, g)).1 <> Panicked.
Proof.
  intros Hm Hid. unfold EapInitiator_handle. act_step reflexivity.
  assert (Hd : wp (decrypt (ei_sa (i, g).1) m) (fun '(mid, ps) => mid + 1 < 2 ^ 32 /\
    Forall (fun e => bytes_ok e.2) ps)).
  { eapply wp_mono; [|by apply wp_eq, decrypt_wp]. intros [mid ps] [[_ Hps] E]. split; [|done].
    unfold decrypt in E. apply bind_Ok in E as (h & Eh & E). apply bind_Ok in E as ([t b] & _ & E).
    apply bind_Ok in E as (out & _ & E). injection E as <- _. by apply Hid. }
  apply (total_ike _ _ _ Hd). intros [mid ps] [Hlt Hps].
  eapply (total_ike _ (fun _ => True)); [unfold add1_u32; by rewrite decide_True|]. intros n _.
  apply total_bind.
  - unfold check_server. apply total_gets. intros i1. destruct (negb _ && _ && _); [|done].
    eapply total_ike; [by apply safe_wp, verify_server_safe|]. intros [] _; [|done]. by apply total_upd.
  - intros []; cbn [negb]; [|done]. apply total_gets. intros i1. destruct (firewalled i1); [done|].
    destruct (find_payload ps PEap) as [b|] eqn:Eb.
    + apply initiator_eap_total. by eapply find_payload_ok.
    + by apply total_ike_last, initiator_confirm_safe.
Qed.

Lemma responder_eap_total mid b : bytes_ok b -> total (@responder_eap _ _ _ G _ mid b).
Proof.
  intros Hb. unfold responder_eap. eapply total_ike; [by apply EapPacket_parse_wp|]. intros p Hp.
  apply total_upd. intros _. apply total_bind.
  - unfold responder_out. destruct (EapPacket_type p); [|done]. case_decide.
    + apply total_gets. intros r. destruct (er_users r !! _); [|done].
      apply total_upd. intros _. apply total_fill. intros c _ _. by apply total_upd.
    + case_decide; [|by case_decide]. eapply total_ike; [apply parse_response_wp, Hp|]. intros resp _.
      apply total_gets. intros r. eapply total_ike; [apply generate_nt_wp|]. intros nt _.
      apply total_upd. intros _. case_decide; [done|]. eapply (total_ike _ (fun _ => True)); [|done].
      by destruct (generate_authenticator_response_ok (er_password r) nt (peer_challenge resp)
        (er_auth_challenge r) (er_user r)) as (ar & ->).
  - intros out. apply total_gets. intros r. destruct out; [apply total_reply|apply total_reply|done].
Qed.

Lemma cert_auth_payload_safe k hs o : safe (cert_auth_payload k hs o).
Proof.
  apply wp_safe with (Q := fun _ => True). unfold cert_auth_payload. destruct (existsb _ _); apply wp_bind.
  - eapply wp_mono; [|apply safe_wp, sign_auth_data_safe]. done.
  - unfold sign_ecdsa_p256_raw. destruct k; wp_steps; done.
Qed.

Lemma responder_handle_total m r (g : G) : bytes_ok m -> (EapResponder_handle m (r, g)).1 <> Panicked.
Proof.
  intros Hm. unfold EapResponder_handle. act_step reflexivity.
  apply (total_ike _ _ _ (decrypt_wp (er_sa (r, g).1) m Hm)). intros [mid ps] [_ Hps].
  destruct (find_payload ps PEap) as [b|] eqn:Eb; [apply responder_eap_total; by eapply find_payload_ok|].
  destruct (find_payload ps PAuthentication) as [ab|] eqn:Ea.
  - apply total_gets. intros r1. unfold responder_final. eapply total_ike; [apply derive_msk_wp|]. intros msk _.
    eapply total_ike; [apply Authentication_parse_wp; by eapply find_payload_ok|]. intros a _.
    case_decide; [done|]. apply total_reply.
  - unfold responder_first. destruct (find_payload ps PSecurityAssociation) as [sb|] eqn:Es; [|done].
    eapply total_ike; [apply auth_esp_spi_wp; by eapply find_payload_ok|]. intros spi _.
    apply total_upd. intros _. apply total_gets. intros r1.
    eapply (total_ike _ (fun _ => True)); [|intros auths _; apply total_reply].
    unfold server_auth_payloads. destruct (er_auth r1); [done|]. apply wp_bind.
    eapply wp_mono; [|apply safe_wp, cert_auth_payload_safe]. done.
Qed.
End total.

(** ** Properties *)
Section properties.
Context `{!Primitives, !Pki, !LegacyCrypto, !AeadLaws, !HashLaws, !HmacLaws, !LegacyLaws,
  Entropy G, !EntropyLaws G, Entropy G2, !EntropyLaws G2}.

(** C6: The whole EAP exchange completes for a client that does not insist on a certificate
    ([ServerVerify::Insecure], without CERTREQ) and a server that authenticates with a
    pre-shared key: on the two ends of an AES-GCM SA, with the server in its initial EAP
    state (EAP identifier 1) and knowing the client's password under its user name, with
    identities, user name and assigned configuration of a size that fits, both ends
    establish, for all randomness, within five messages from the client (the first
    message, the identity, the challenge response, the acknowledged success and the MSK-keyed
    AUTH); the server then names the client's user and ESP SPI, and both ends hold the same
    password and NT-Response, hence the same MSK. *)
Theorem eap_exchange_completes i r psk (g : G) (g2 : G2) : eap_setup i r psk ->
  er_users r !! ei_user i = Some (ei_password i) ->
  exists m g0 i' g' r' g2', EapInitiator_start i g = (Done m, g0) /\
    eap_drive 5 (i, g0) (r, g2) m = Some ((i', g'), (r', g2')) /\
    er_user r' = ei_user i /\ er_peer_child_spi r' = Some (ei_child_spi i) /\
    ei_nt_response i' = er_nt_response r' /\ ei_password i' = er_password r'.
Proof. apply eap_run. Qed.

(** C7: The credential firewall: a client that requires a trusted server answers
    nothing - no identity, no MSCHAPv2 response, no AUTH - and establishes nothing,
    whatever messages it has received, unless one of them carried a certificate
    chain to a trusted CA for the expected name and a signature over this
    connection's transcript. *)
Theorem eap_credential_firewall i0 ms (s : EapInitiator * G) m cas dns now :
  ei_verify i0 = TrustedCas cas dns now -> ei_server_verified i0 = false -> initiator_heard i0 ms s ->
  discloses (EapInitiator_handle m s).1 ->
  exists m', m' ∈ ms ++ [m] /\ server_proved (ei_sa i0) cas dns now m'.
Proof.
  intros Hv Hf Hh Hd. destruct (initiator_heard_inv i0 ms s cas dns now Hv Hf Hh) as (E1 & E2 & E3).
  destruct s as [i g]. cbn [fst] in *. pose proof (initiator_handle_effect m i g cas dns now E2) as E.
  destruct (EapInitiator_handle m (i, g)) as [r [i' g']]. destruct E as (_ & _ & Hp & Hdis).
  apply Hdis, Hp in Hd as [Hver|Hpr].
  - apply E3 in Hver as (m' & Hm' & ?). exists m'. split; [set_solver|done].
  - rewrite E1 in Hpr. exists m. split; [set_solver|done].
Qed.

(** C32: The password decides: to a Response that a client computed with some password
    for the challenge, the server answers with a Success request exactly if that
    password gives the NT-Response of the selected credential, and otherwise
    reports failure. *)
Theorem eap_password_decides a r (g : G) m mid x pc pw d :
  opposite (er_sa r) a -> u32_ok mid -> byte_ok x -> user_fits (er_user r) -> bytes_ok pc ->
  length pc = 16%nat ->
  build_response 1 (er_auth_challenge r) pc (er_user r) pw = Ok d ->
  decrypt (er_sa r) m = Ok (mid, [(PEap, EapPacket_to_bytes (mkEap code.RESPONSE x d))]) ->
  exists nt nt', generate_nt_response (er_auth_challenge r) pc (er_user r) pw = Ok nt /\
    generate_nt_response (er_auth_challenge r) pc (er_user r) (er_password r) = Ok nt' /\
    if decide (nt' = nt)
    then exists m' g' ar, EapResponder_handle m (r, g) =
           (Done (Reply m'), (set_er_nt_response nt (set_eap_id (as_u8 (er_eap_id r + 1)) r), g')) /\
         decrypt a m' = Ok (mid, [(PEap, EapPacket_to_bytes
           (mkEap code.REQUEST (as_u8 (er_eap_id r + 1)) (build_success 1 ar)))])
    else (EapResponder_handle m (r, g)).1 = Done EapFailed.
Proof.
  intros Hab Hmid Hx Hu Hp Lp Hb Hd.
  destruct (build_response_ok 1 (er_auth_challenge r) pc (er_user r) pw) as (nt & En & Ln & Bn & Eb).
  rewrite Hb in Eb. injection Eb as ->.
  destruct (generate_nt_response_ok (er_auth_challenge r) pc (er_user r) (er_password r)) as (nt' & En' & _).
  exists nt, nt'. split_and!; [done|done|]. set (r1 := set_eap_id (as_u8 (er_eap_id r + 1)) r).
  destruct (out_response r1 g x pc nt (er_user r) nt' Lp Ln En') as (ar & Ear & Eo).
  assert (Hf : eap_fits (mkEap code.RESPONSE x (response_bytes 1 pc nt (er_user r)))).
  { by apply response_fits. }
  case_decide as Hdec.
  - subst nt'. destruct (authenticator_response_fits _ _ _ _ _ _ Ear) as [Har Lar].
    destruct (responder_request a r g m mid (mkEap code.RESPONSE x (response_bytes 1 pc nt (er_user r)))
      (build_success 1 ar) (set_er_nt_response nt r1) g) as (m' & g' & E & D); try done; [apply Hf| |].
    + apply success_fits; [apply Z.mod_pos_bound; lia|done|done].
    + exists m', g', ar. by split.
  - unfold EapResponder_handle. act_step reflexivity. act_step (apply ike_ok; exact Hd).
    change (find_payload [(PEap, ?b)] PEap) with (Some b). unfold responder_eap.
    act_step (apply ike_ok, EapPacket_parse_built; apply Hf). act_step apply upd_done. fold r1.
    act_step exact Eo. by act_step reflexivity.
Qed.

(** The EAP machines panic on no message, whatever the bytes and their state; the
    client's only exception is a message with the last message id, whose successor
    overflows. *)
Theorem eap_handlers_total m i r (g : G) (g2 : G2) : bytes_ok m ->
  (EapResponder_handle m (r, g2)).1 <> Panicked /\
  ((forall h, IkeHeader_parse m = Ok h -> message_id h + 1 < 2 ^ 32) ->
   (EapInitiator_handle m (i, g)).1 <> Panicked).
Proof.
  intros Hm. split; [by apply responder_handle_total|]. intros Hid. by apply initiator_handle_total.
Qed.

(** C30: The responder accepts an AUTH payload before any EAP exchange: to a server
    that has heard nothing yet, whatever its user table, the first message can be an
    AUTH payload keyed by the MSK of the empty password and the all-zero
    NT-Response, which are the initial values of its fields and known to anyone; it
    then reports the peer as established, though no user name was named and no
    password was ever checked. *)
Theorem eap_auth_without_eap ci cr id auth users spi (g : G) iv :
  opposite ci cr -> id_fits id -> bytes_ok iv -> length iv = 8%nat ->
  let r := EapResponder_new_multi cr id auth users spi in
  exists msk m, derive_msk [] (replicate 24 0) = Ok msk /\
    build_sk ci 1 false [(PAuthentication, Authentication_to_bytes (psk_auth_payload msk
      (initiator_signed_octets (init_message ci) (nr ci) (sk_pi (keys ci)) [])))] iv = Ok m /\
    exists m' g', EapResponder_handle m (r, g) = (Done (EapEstablished (Some m')), (r, g')) /\ er_user r = [].
Proof.
  intros Hab Hid Hiv Lv r. destruct (derive_msk_ok [] (replicate 24 0)) as (msk & Em & _).
  set (o := initiator_signed_octets _ _ _ _).
  destruct (sk_delivered ci cr 1 false [(PAuthentication, Authentication_to_bytes (psk_auth_payload msk o))] iv)
    as (m & E1 & _ & D1); try done.
  { apply auth_chain_fits. }
  exists msk, m. split_and!; [done|done|].
  pose proof (responder_final_step ci r g m 1 auth_method.SHARED_KEY (psk_auth msk o) msk) as Hfin.
  destruct Hab as (Hci & Hcr & Hs). rewrite decide_True in Hfin.
  2: { unfold o. cbn [er_sa er_peer_idi r EapResponder_new_multi].
       destruct Hs as (_ & _ & _ & _ & -> & _ & -> & -> & _). done. }
  destruct Hfin as (m' & g' & E & _); try done;
    [apply opposite_sym; by split_and!|apply (psk_auth_wf msk)|].
  by exists m', g'.
Qed.
End properties.

Definition example_eap_i (v : ServerVerify) : EapInitiator :=
  EapInitiator_new (example_completed Initiator) example_id_i [85] [112; 119] 100 v.

Definition example_eap_r : EapResponder :=
  EapResponder_new (example_completed Responder) example_id_r (ServerPsk [1; 2; 3]) [85] [112; 119] 200.

Lemma example_opposite : opposite (example_completed Initiator) (example_completed Responder).
Proof. split_and!; [apply example_gcm_sa|apply example_gcm_sa|apply example_same_sa]. Qed.

Lemma example_user_fits : user_fits [85].
Proof. split; [by repeat constructor|simpl; lia]. Qed.

Lemma example_eap_setup : eap_setup (example_eap_i Insecure) example_eap_r [1; 2; 3].
Proof.
  constructor; try done; [apply example_opposite|apply example_id_i_fits|apply example_id_r_fits
    |apply example_user_fits].
Qed.

Lemma eap_exchange_completes_witness : exists m g0 i' g' r' g2',
  EapInitiator_start (example_eap_i Insecure) (SeedEntropy_new 1) = (Done m, g0) /\
  eap_drive 5 (example_eap_i Insecure, g0) (example_eap_r, SeedEntropy_new 2) m = Some ((i', g'), (r', g2')) /\
  er_user r' = [85].
Proof.
  destruct (eap_exchange_completes (example_eap_i Insecure) example_eap_r [1; 2; 3] (SeedEntropy_new 1)
    (SeedEntropy_new 2) example_eap_setup) as (m & g0 & i' & g' & r' & g2' & H1 & H2 & H3 & _);
    [apply lookup_singleton_eq|].
  exists m, g0, i', g', r', g2'. split; [exact H1|]. split; [exact H2|exact H3].
Defined.

(** A client that trusts the example anchor, and a server with the example chain. *)
Definition example_trusting : EapInitiator := example_eap_i (TrustedCas [toy_anchor] [3] 50).

Definition example_cert_server : EapResponder :=
  EapResponder_new (example_completed Responder) example_id_r
    (ServerCert (SkEcdsaP256 ([13] : EcSigningKey (Pki := toy_pki))) [toy_leaf; toy_inter]) [85] [112; 119] 200.

Definition message_of (r : driver EapEvent) : bytes := match r with Done (Reply m) => m | _ => [] end.

Definition example_first_reply : bytes :=
  match EapInitiator_start example_trusting (SeedEntropy_new 1) with
  | (Done m, _) => message_of (EapResponder_handle m (example_cert_server, SeedEntropy_new 2)).1
  | _ => []
  end.

Lemma example_discloses : discloses (EapInitiator_handle example_first_reply (example_trusting, SeedEntropy_new 1)).1.
Proof. vm_compute. exact I. Qed.

Lemma eap_credential_firewall_witness :
  exists m, m ∈ [example_first_reply] /\ server_proved (example_completed Initiator) [toy_anchor] [3] 50 m.
Proof.
  exact (eap_credential_firewall example_trusting [] (example_trusting, SeedEntropy_new 1) example_first_reply
    [toy_anchor] [3] 50 eq_refl eq_refl (heard_none _ _) example_discloses).
Defined.

Lemma eap_password_decides_witness : exists m d,
  build_response 1 (er_auth_challenge example_eap_r) (replicate 16 4) [] [7] = Ok d /\
  build_sk (example_completed Initiator) 3 false
    [(PEap, EapPacket_to_bytes (mkEap code.RESPONSE 2 d))] example_iv = Ok m /\
  (EapResponder_handle m (example_eap_r, SeedEntropy_new 1)).1 = Done EapFailed.
Proof.
  destruct (build_response_ok 1 (er_auth_challenge example_eap_r) (replicate 16 4) [] [7])
    as (nt0 & _ & L0 & B0 & Eb).
  destruct (sk_delivered (example_completed Initiator) (example_completed Responder) 3 false
    [(PEap, EapPacket_to_bytes (mkEap code.RESPONSE 2 (response_bytes 1 (replicate 16 4) nt0 [])))] example_iv
    example_opposite) as (m & Em & _ & Dm); [by split| |exact example_iv_ok|reflexivity|].
  { apply eap_chain_fits, response_fits; [by split|by repeat constructor|exact B0
      |split; [constructor|simpl; lia]|reflexivity|exact L0]. }
  destruct (eap_password_decides (example_completed Initiator) example_eap_r (SeedEntropy_new 1) m 3 2
    (replicate 16 4) [7] (response_bytes 1 (replicate 16 4) nt0 []) (opposite_sym _ _ example_opposite)) as (nt & nt' & H1 & H2 & H3);
    [by split|by split|split; [constructor|simpl; lia]|by repeat constructor|reflexivity|exact Eb|exact Dm|].
  exists m, (response_bytes 1 (replicate 16 4) nt0 []).
  split; [exact Eb|]. split; [exact Em|].
  destruct (decide (nt' = nt)) as [E|_]; [|exact H3]. exfalso.
  rewrite E, <- H1 in H2. vm_compute in H2. discriminate.
Defined.

Lemma eap_handlers_total_witness :
  (EapResponder_handle example_sealed (example_eap_r, SeedEntropy_new 1)).1 <> Panicked.
Proof.
  exact (proj1 (eap_handlers_total example_sealed (example_eap_i Insecure) example_eap_r (SeedEntropy_new 1)
    (SeedEntropy_new 1) example_sealed_ok)).
Defined.

Lemma eap_auth_without_eap_witness : exists m m' g',
  EapResponder_handle m (EapResponder_new_multi (example_completed Responder) example_id_r (ServerPsk [1; 2; 3])
    {[ [85] := [112; 119] ]} 200, SeedEntropy_new 1) =
  (Done (EapEstablished (Some m')), (EapResponder_new_multi (example_completed Responder) example_id_r
    (ServerPsk [1; 2; 3]) {[ [85] := [112; 119] ]} 200, g')).
Proof.
  destruct (eap_auth_without_eap (example_completed Initiator) (example_completed Responder) example_id_r
    (ServerPsk [1; 2; 3]) {[ [85] := [112; 119] ]} 200 (SeedEntropy_new 1) example_iv example_opposite
    example_id_r_fits example_iv_ok eq_refl) as (msk & m & _ & _ & m' & g' & H & _).
  exists m, m', g'. exact H.
Defined.
