(* ===== verification/Isakmp.v ===== *)
(** * ISAKMP framing of IKEv1 ([src/src/ikev1/isakmp.rs])

    The 28-octet ISAKMP header and the chain of generic payloads.  Both differ from
    the IKEv2 framing of [Message]: every payload header names the type of the next
    payload, and the parser stops at the type 0 and ignores what follows, which is
    how the padding of an encrypted message is dropped. *)
From S2P Require Import Prelude Outcome.

(** ** Registries *)
Module exchange.
Definition MAIN : Z := 2.
Definition AGGRESSIVE : Z := 4.
Definition INFORMATIONAL : Z := 5.
Definition TRANSACTION : Z := 6.
Definition QUICK : Z := 32.
End exchange.

Module flags.
Definition ENCRYPTION : Z := 0x01.
Definition COMMIT : Z := 0x02.
Definition AUTH_ONLY : Z := 0x04.
End flags.

Module payload.
Definition NONE : Z := 0.
Definition SA : Z := 1.
Definition PROPOSAL : Z := 2.
Definition TRANSFORM : Z := 3.
Definition KE : Z := 4.
Definition ID : Z := 5.
Definition CERT : Z := 6.
Definition CERTREQ : Z := 7.
Definition HASH : Z := 8.
Definition SIG : Z := 9.
Definition NONCE : Z := 10.
Definition NOTIFY : Z := 11.
Definition DELETE : Z := 12.
Definition VENDOR_ID : Z := 13.
Definition ATTRIBUTE : Z := 14.
Definition NAT_D : Z := 20.
Definition NAT_OA : Z := 21.
End payload.

(** ** The header *)
Record IsakmpHeader := mkIsakmpHeader {
  init_cookie : bytes;
  resp_cookie : bytes;
  next_payload : Z;
  version : Z;
  exchange_type : Z;
  hdr_flags : Z;
  message_id : Z;
  hdr_length : Z }.

#[export] Instance IsakmpHeader_eq_dec : EqDecision IsakmpHeader.
Proof. solve_decision. Defined.

Definition IsakmpHeader_LEN : nat := 28.
Definition VERSION_1_0 : Z := 0x10.

(** [bytes[i..j].try_into().unwrap()] into an array of [n] octets *)
Definition array (n : nat) (l : bytes) (i j : nat) : outcome bytes :=
  s ← slice l i j; if decide (length s = n) then Ok s else Panic.

Definition IsakmpHeader_parse (b : bytes) : outcome IsakmpHeader :=
  if decide (length b < IsakmpHeader_LEN)%nat then Err (Truncated IsakmpHeader_LEN (length b)) else
  ci ← array 8 b 0 8;
  cr ← array 8 b 8 16;
  np ← idx b 16;
  v ← idx b 17;
  et ← idx b 18;
  fl ← idx b 19;
  mid ← be_uint 4 b 20 24;
  len ← be_uint 4 b 24 28;
  Ok {| init_cookie := ci; resp_cookie := cr; next_payload := np; version := v;
        exchange_type := et; hdr_flags := fl; message_id := mid; hdr_length := len |}.

Definition IsakmpHeader_to_bytes (h : IsakmpHeader) : bytes :=
  init_cookie h ++ resp_cookie h ++
  [next_payload h; version h; exchange_type h; hdr_flags h] ++
  be_bytes 4 (message_id h) ++ be_bytes 4 (hdr_length h).

Definition encrypted (h : IsakmpHeader) : bool :=
  negb (Z.land (hdr_flags h) flags.ENCRYPTION =? 0).

(** ** Payload chains *)
Record Payload := mkPayload { payload_type : Z; p_data : bytes }.

#[export] Instance Payload_eq_dec : EqDecision Payload.
Proof. solve_decision. Defined.

(** The [while next != NONE] loop.  Every turn consumes at least four octets;
    running out of fuel counts as a panic, so that the absence of panics includes
    the end of the loop. *)
Fixpoint parse_payloads_loop (body : bytes) (fuel : nat) (next : Z) (off : nat)
    : outcome (list Payload) :=
  match fuel with
  | O => Panic
  | S f =>
      if decide (next = payload.NONE) then Ok [] else
      if decide (length body < off + 4)%nat then Err (Truncated (off + 4) (length body)) else
      this_next ← idx body off;
      x ← u16be body (off + 2);
      let len := usize x in
      if decide (len < 4 \/ length body < off + len)%nat
      then Err (BadLength len (length body - off)) else
      d ← slice body (off + 4) (off + len);
      rest ← parse_payloads_loop body f this_next (off + len);
      Ok ({| payload_type := next; p_data := d |} :: rest)
  end.

Definition parse_payloads (first : Z) (body : bytes) : outcome (list Payload) :=
  parse_payloads_loop body (S (length body)) first 0.

(** [fn find] of phase1.rs and quick.rs: the first payload of a type *)
Definition find_payload (ps : list Payload) (t : Z) : option Payload :=
  List.find (fun p => payload_type p =? t) ps.

(** [payloads.get(i + 1).map(|p| p.0).unwrap_or(NONE)] at the head of the rest *)
Definition first_type (ps : list (Z * bytes)) : Z :=
  match ps with (t, _) :: _ => t | [] => payload.NONE end.

Fixpoint encode_body (ps : list (Z * bytes)) : bytes :=
  match ps with
  | [] => []
  | (_, d) :: rest =>
      [first_type rest; 0] ++ be_bytes 2 (len16 (4 + length d)) ++ d ++ encode_body rest
  end.

Definition encode_payloads (ps : list (Z * bytes)) : Z * bytes := (first_type ps, encode_body ps).

(** Assignments to fields of a [mut header] *)
Definition put_next_payload (x : Z) (h : IsakmpHeader) : IsakmpHeader :=
  {| init_cookie := init_cookie h; resp_cookie := resp_cookie h; next_payload := x;
     version := version h; exchange_type := exchange_type h; hdr_flags := hdr_flags h;
     message_id := message_id h; hdr_length := hdr_length h |}.
Definition put_flags (x : Z) (h : IsakmpHeader) : IsakmpHeader :=
  {| init_cookie := init_cookie h; resp_cookie := resp_cookie h; next_payload := next_payload h;
     version := version h; exchange_type := exchange_type h; hdr_flags := x;
     message_id := message_id h; hdr_length := hdr_length h |}.
Definition put_length (x : Z) (h : IsakmpHeader) : IsakmpHeader :=
  {| init_cookie := init_cookie h; resp_cookie := resp_cookie h; next_payload := next_payload h;
     version := version h; exchange_type := exchange_type h; hdr_flags := hdr_flags h;
     message_id := message_id h; hdr_length := x |}.

Definition build_message (header : IsakmpHeader) (payloads : list (Z * bytes)) : bytes :=
  let '(first, body) := encode_payloads payloads in
  let header := put_next_payload first header in
  let header := put_length (as_u32 (Z.of_nat (IsakmpHeader_LEN + length body))) header in
  IsakmpHeader_to_bytes header ++ body.

(** ** The header's codec *)
Record IsakmpHeader_wf (h : IsakmpHeader) : Prop := {
  wf_init_cookie : length (init_cookie h) = 8%nat /\ bytes_ok (init_cookie h);
  wf_resp_cookie : length (resp_cookie h) = 8%nat /\ bytes_ok (resp_cookie h);
  wf_next_payload : byte_ok (next_payload h);
  wf_version : byte_ok (version h);
  wf_exchange : byte_ok (exchange_type h);
  wf_flags : byte_ok (hdr_flags h);
  wf_message_id : u32_ok (message_id h);
  wf_length : u32_ok (hdr_length h) }.

Lemma length_IsakmpHeader_to_bytes h : IsakmpHeader_wf h ->
  length (IsakmpHeader_to_bytes h) = IsakmpHeader_LEN.
Proof.
  intros [[H1 _] [H2 _] _ _ _ _ _ _]. unfold IsakmpHeader_to_bytes.
  rewrite !length_app, !length_be_bytes, H1, H2. done.
Qed.

Lemma IsakmpHeader_to_bytes_ok h : IsakmpHeader_wf h -> bytes_ok (IsakmpHeader_to_bytes h).
Proof. intros [[_ ?] [_ ?] ? ? ? ? _ _]. unfold IsakmpHeader_to_bytes. auto 10 with ryke. Qed.

Lemma wp_array n l i j (Q : bytes -> Prop) : (i <= j)%nat -> (j <= length l)%nat -> (j - i = n)%nat ->
  bytes_ok l -> (forall s, length s = n -> bytes_ok s -> Q s) -> wp (array n l i j) Q.
Proof.
  intros Hij Hj Hn Hl HQ. apply wp_bind, wp_slice; [done..|]. intros Hlen.
  rewrite decide_True by lia. apply HQ; [lia|auto with ryke].
Qed.

Lemma IsakmpHeader_parse_app h rest : IsakmpHeader_wf h ->
  IsakmpHeader_parse (IsakmpHeader_to_bytes h ++ rest) = Ok h.
Proof.
  intros Hh. pose proof (length_IsakmpHeader_to_bytes h Hh) as Hl.
  destruct Hh as [[H1 _] [H2 _] _ _ _ _ H7 H8]. destruct h as [ci cr np v et fl mid len].
  cbn [init_cookie resp_cookie message_id hdr_length] in *.
  unfold IsakmpHeader_parse. rewrite decide_False by (rewrite length_app; lia).
  destruct ci as [|? [|? [|? [|? [|? [|? [|? [|? [|? ?]]]]]]]]]; try discriminate H1.
  destruct cr as [|? [|? [|? [|? [|? [|? [|? [|? [|? ?]]]]]]]]]; try discriminate H2.
  clear H1 H2 Hl. change 4%nat with (length (be_bytes 4 mid)) at 1.
  transitivity (Ok {| init_cookie := [z; z0; z1; z2; z3; z4; z5; z6];
    resp_cookie := [z7; z8; z9; z10; z11; z12; z13; z14]; next_payload := np; version := v;
    exchange_type := et; hdr_flags := fl; message_id := be_val (be_bytes 4 mid);
    hdr_length := be_val (be_bytes 4 len) |}); [reflexivity|].
  by rewrite !be_val_be_bytes by done.
Qed.

Lemma IsakmpHeader_parse_wp b : bytes_ok b -> wp (IsakmpHeader_parse b) (fun h =>
  IsakmpHeader_wf h /\ (IsakmpHeader_LEN <= length b)%nat).
Proof.
  intros Hb. unfold IsakmpHeader_parse, IsakmpHeader_LEN. case_decide; [done|].
  do 2 (apply wp_bind, wp_array; [lia|lia|lia|done|intros ? ? ?]). wp_steps.
  split; [by constructor|lia].
Qed.

(** ** The grammar of payload chains

    [chain t body ps]: the octets [body], announced by the type [t], begin with the
    payloads [ps]; after a payload whose next type is [NONE] anything may follow. *)
Inductive chain : Z -> bytes -> list Payload -> Prop :=
| chain_none rest : chain payload.NONE rest []
| chain_next t next reserved d rest ps :
    t <> payload.NONE -> 4 + Z.of_nat (length d) < 2 ^ 16 -> chain next rest ps ->
    chain t ([next; reserved] ++ be_bytes 2 (4 + Z.of_nat (length d)) ++ d ++ rest)
      ({| payload_type := t; p_data := d |} :: ps).

Lemma idx_app pre x r : idx (pre ++ x :: r) (length pre) = Ok x.
Proof. unfold idx. by rewrite list_lookup_middle. Qed.

Lemma u16be_app pre x y r i : length pre = i -> u16be (pre ++ x :: y :: r) i = Ok (be_val [x; y]).
Proof.
  intros <-. unfold u16be. rewrite idx_app. cbn [mbind outcome_bind].
  replace (length pre + 1)%nat with (length (pre ++ [x])) by (rewrite length_app; simpl; lia).
  change (x :: y :: r) with ([x] ++ y :: r). by rewrite app_assoc, idx_app.
Qed.

(** One turn of the loop on a complete payload header. *)
Lemma parse_payloads_step pre next res x y tl fuel t : t <> payload.NONE ->
  let len := usize (be_val [x; y]) in
  parse_payloads_loop (pre ++ next :: res :: x :: y :: tl) (S fuel) t (length pre) =
  if decide (len < 4 \/ 4 + length tl < len)%nat then Err (BadLength len (4 + length tl)) else
  rest ← parse_payloads_loop (pre ++ next :: res :: x :: y :: tl) fuel next (length pre + len);
  Ok ({| payload_type := t; p_data := take (len - 4) tl |} :: rest).
Proof.
  intros Ht len. set (body := pre ++ _).
  assert (Hl : length body = (length pre + (4 + length tl))%nat) by (unfold body; rewrite length_app; done).
  cbn [parse_payloads_loop]. rewrite decide_False by done. rewrite decide_False by lia.
  assert (E0 : idx body (length pre) = Ok next) by apply idx_app.
  rewrite E0. cbn [mbind outcome_bind].
  assert (E : u16be body (length pre + 2) = Ok (be_val [x; y])).
  { unfold body. change (next :: res :: x :: y :: tl) with ([next; res] ++ x :: y :: tl).
    rewrite app_assoc. apply u16be_app. by rewrite length_app. }
  rewrite E. cbn [mbind outcome_bind]. fold len. rewrite Hl.
  rewrite (decide_ext (len < 4 \/ length pre + (4 + length tl) < length pre + len)%nat
    (len < 4 \/ 4 + length tl < len)%nat) by lia.
  case_decide; [f_equal; f_equal; lia|].
  rewrite slice_ok by lia. cbn [mbind outcome_bind].
  replace (length pre + len - (length pre + 4))%nat with (len - 4)%nat by lia.
  assert (E1 : drop (length pre + 4) body = tl) by (unfold body; by rewrite drop_app_add).
  by rewrite E1.
Qed.

(** One step of the grammar, read off the first four octets. *)
Lemma chain_cons t next res x y tl ps : t <> payload.NONE -> bytes_ok [x; y] ->
  let len := usize (be_val [x; y]) in
  chain t (next :: res :: x :: y :: tl) ps <->
  (4 <= len <= 4 + length tl)%nat /\ exists ps', chain next (drop (len - 4) tl) ps' /\
    ps = {| payload_type := t; p_data := take (len - 4) tl |} :: ps'.
Proof.
  intros Ht Hxy len. pose proof (be_val_bound _ Hxy) as Hv.
  change (256 ^ Z.of_nat (length [x; y])) with (2 ^ 16) in Hv. split.
  - intros H. inversion H as [|t' next' res' d rest ps' _ Hd Hc E0 [E1 E2 E3 E5 E6] E4]; [done|].
    subst next' res' t'.
    assert (El : len = (4 + length d)%nat).
    { unfold len. rewrite <- E3, <- E5. change [_; _] with (be_bytes 2 (4 + Z.of_nat (length d))).
      rewrite be_val_be_bytes by (change (256 ^ Z.of_nat 2) with (2 ^ 16); lia). lia. }
    rewrite El, length_app. replace (4 + length d - 4)%nat with (length d) by lia.
    rewrite drop_app_length, take_app_length. split; [lia|eauto].
  - intros [Hlen (ps' & Hc & ->)]. set (d := take (len - 4) tl).
    assert (Hd : length d = (len - 4)%nat) by (unfold d; rewrite length_take; lia).
    assert (E : next :: res :: x :: y :: tl = [next; res] ++ be_bytes 2 (4 + Z.of_nat (length d)) ++ d ++ drop (len - 4) tl).
    { unfold d at 2. rewrite take_drop. replace (4 + Z.of_nat (length d)) with (be_val [x; y]) by (unfold len in *; lia).
      by rewrite (be_bytes_of_val 2 [x; y]). }
    rewrite E. constructor; [done|lia|done].
Qed.

(** The loop at an offset reads exactly the chains that start there. *)
Lemma parse_payloads_loop_chain fuel pre body t ps : bytes_ok body -> (length body < fuel)%nat ->
  parse_payloads_loop (pre ++ body) fuel t (length pre) = Ok ps <-> chain t body ps.
Proof.
  revert pre body t ps. induction fuel as [|fuel IH]; intros pre body t ps Hb Hf; [lia|].
  destruct (decide (t = payload.NONE)) as [->|Ht].
  { cbn [parse_payloads_loop]. rewrite decide_True by done.
    split; [intros [= <-]; constructor|]. intros H. by inversion H. }
  destruct (decide (length body < 4)%nat) as [Hs|Hs].
  { cbn [parse_payloads_loop]. rewrite decide_False, decide_True by (done || rewrite length_app; lia).
    split; [done|]. intros H. inversion H; subst; [done|]. simpl in Hs. lia. }
  destruct body as [|next [|res [|x [|y tl]]]]; try (simpl in Hs; lia). clear Hs.
  rewrite parse_payloads_step by done. cbv zeta.
  change (next :: res :: x :: y :: tl) with ([next; res] ++ [x; y] ++ tl) in Hb.
  apply bytes_ok_app_inv in Hb as [_ Hb]. apply bytes_ok_app_inv in Hb as [Hxy Htl].
  rewrite chain_cons by done. cbv zeta. set (len := usize (be_val [x; y])).
  case_decide as Hl; [split; [done|intros [? _]; lia]|].
  set (q := pre ++ next :: res :: x :: y :: take (len - 4) tl).
  assert (Eq : pre ++ next :: res :: x :: y :: tl = q ++ drop (len - 4) tl).
  { unfold q. rewrite <- app_assoc. cbn [app]. by rewrite take_drop. }
  assert (Lq : (length pre + len)%nat = length q).
  { unfold q. rewrite length_app. cbn [length]. rewrite length_take. lia. }
  rewrite Eq, Lq, bind_Ok. cbn [length] in Hf.
  setoid_rewrite (IH q (drop (len - 4) tl) next); [|auto with ryke|rewrite length_drop; lia].
  split.
  - intros (ps' & Hc & [= <-]). split; [lia|eauto].
  - intros (_ & ps' & Hc & ->). eauto.
Qed.

Lemma parse_payloads_Ok t body ps : bytes_ok body ->
  parse_payloads t body = Ok ps <-> chain t body ps.
Proof. intros Hb. apply (parse_payloads_loop_chain (S (length body)) [] body); [done|lia]. Qed.

(** ** Totality of the parser *)
Lemma parse_payloads_loop_safe fuel body t off : bytes_ok body -> (length body - off < fuel)%nat ->
  safe (parse_payloads_loop body fuel t off).
Proof.
  intros Hb. revert t off. induction fuel as [|fuel IH]; intros t off Hf; [lia|].
  apply (wp_safe _ (fun _ => True)). cbn [parse_payloads_loop]. case_decide; [done|]. case_decide; [done|].
  apply wp_bind, wp_idx_ok; [lia|done|]. intros next _. apply wp_bind, wp_u16be; [lia|done|].
  intros x _. cbv zeta. case_decide; [done|]. apply wp_bind, wp_slice; [lia|lia|]. intros _.
  apply wp_bind. eapply wp_mono; [|apply safe_wp, IH; lia]. done.
Qed.

Lemma parse_payloads_safe t body : bytes_ok body -> safe (parse_payloads t body).
Proof. intros. apply parse_payloads_loop_safe; [done|lia]. Qed.

(** Enough fuel is enough: more does not change the result. *)
Lemma parse_payloads_loop_fuel fuel fuel' body t off : bytes_ok body ->
  (length body - off < fuel)%nat -> (fuel <= fuel')%nat ->
  parse_payloads_loop body fuel' t off = parse_payloads_loop body fuel t off.
Proof.
  intros Hb. revert fuel' t off. induction fuel as [|fuel IH]; intros fuel' t off Hf Hle; [lia|].
  destruct fuel' as [|fuel']; [lia|]. cbn [parse_payloads_loop]. case_decide; [done|]. case_decide; [done|].
  destruct (idx body off) as [next| |]; [|done..]. cbn [mbind outcome_bind].
  destruct (u16be body (off + 2)) as [x| |]; [|done..]. cbn [mbind outcome_bind].
  case_decide; [done|]. destruct (slice _ _ _) as [d| |]; [|done..]. cbn [mbind outcome_bind].
  by rewrite IH by lia.
Qed.

(** What a well-formed chain contains. *)
Definition payload_wf (p : Payload) : Prop :=
  payload_type p <> payload.NONE /\ bytes_ok (p_data p) /\ 4 + Z.of_nat (length (p_data p)) < 2 ^ 16.

Definition chain_size (ps : list Payload) : nat := sum_list_with (fun p => 4 + length (p_data p))%nat ps.

Lemma chain_wf t body ps : chain t body ps -> bytes_ok body ->
  Forall payload_wf ps /\ (chain_size ps <= length body)%nat.
Proof.
  induction 1 as [rest|t next res d rest ps Ht Hd Hc IH]; intros Hb; [split; [constructor|cbn; lia]|].
  apply bytes_ok_app_inv in Hb as [_ Hb]. apply bytes_ok_app_inv in Hb as [_ Hb].
  apply bytes_ok_app_inv in Hb as [Hbd Hb]. destruct (IH Hb) as [H1 H2]. split; [by constructor|].
  cbn [chain_size sum_list_with p_data]. rewrite !length_app, length_be_bytes. unfold chain_size in H2. cbn [length]. lia.
Qed.

Lemma parse_payloads_wp t body : bytes_ok body ->
  wp (parse_payloads t body) (fun ps => Forall payload_wf ps /\ (chain_size ps <= length body)%nat).
Proof.
  intros Hb. eapply wp_mono; [|by apply safe_wp, parse_payloads_safe]. intros ps Hps. cbv beta in Hps.
  apply parse_payloads_Ok in Hps; [|done]. by eapply chain_wf.
Qed.

(** ** The encoder *)
Definition to_payload (p : Z * bytes) : Payload := {| payload_type := p.1; p_data := p.2 |}.
Definition of_payload (p : Payload) : Z * bytes := (payload_type p, p_data p).

Definition enc_wf (p : Z * bytes) : Prop :=
  p.1 <> payload.NONE /\ byte_ok p.1 /\ bytes_ok p.2 /\ 4 + Z.of_nat (length p.2) < 2 ^ 16.

Lemma encode_body_chain ps rest : Forall enc_wf ps ->
  chain (first_type ps) (encode_body ps ++ rest) (to_payload <$> ps).
Proof.
  induction 1 as [|[t d] ps (Ht & _ & _ & Hl) _ IH]; [constructor|]. cbn [encode_body first_type fmap list_fmap].
  cbn [fst snd] in *. rewrite <- !app_assoc.
  replace (len16 (4 + length d)) with (4 + Z.of_nat (length d)) by (unfold as_u16; rewrite Z.mod_small; lia).
  by constructor.
Qed.

Lemma first_type_ok ps : Forall enc_wf ps -> byte_ok (first_type ps).
Proof. destruct 1 as [|[t d] ps (_ & Ht & _) _]; [by split|exact Ht]. Qed.

Lemma encode_body_ok ps : Forall enc_wf ps -> bytes_ok (encode_body ps).
Proof.
  induction 1 as [|[t d] ps (Ht & _ & Hd & Hl) Hps IH]; [constructor|]. cbn [encode_body].
  pose proof (first_type_ok ps Hps). assert (byte_ok 0) by done. auto 10 with ryke.
Qed.

Lemma length_encode_body ps : length (encode_body ps) = sum_list_with (fun p => 4 + length p.2)%nat ps.
Proof.
  induction ps as [|[t d] ps IH]; [done|]. cbn [encode_body sum_list_with snd].
  rewrite !length_app, length_be_bytes, IH. cbn [length]. lia.
Qed.

Lemma chain_size_to_payload (ps : list (Z * bytes)) : chain_size (to_payload <$> ps) = length (encode_body ps).
Proof.
  rewrite length_encode_body. unfold chain_size. induction ps as [|[t d] ps IH]; [done|].
  cbn -[Nat.add]. f_equal. exact IH.
Qed.

Lemma parse_encoded ps rest : Forall enc_wf ps -> bytes_ok rest ->
  parse_payloads (first_type ps) (encode_body ps ++ rest) = Ok (to_payload <$> ps).
Proof.
  intros Hps Hr. apply parse_payloads_Ok; [|by apply encode_body_chain].
  apply bytes_ok_app; [by apply encode_body_ok|done].
Qed.

Lemma of_to_payload (ps : list (Z * bytes)) : of_payload <$> (to_payload <$> ps) = ps.
Proof. induction ps as [|[t d] ps IH]; [done|]. cbn. f_equal. exact IH. Qed.

(** ** Whole messages *)
Definition built_header (h : IsakmpHeader) (ps : list (Z * bytes)) : IsakmpHeader :=
  put_length (as_u32 (Z.of_nat (IsakmpHeader_LEN + length (encode_body ps))))
    (put_next_payload (first_type ps) h).

Lemma isakmp_built_wf h ps : IsakmpHeader_wf h -> Forall enc_wf ps -> IsakmpHeader_wf (built_header h ps).
Proof.
  intros [] Hps. constructor; try done; [by apply first_type_ok|]. by apply Z.mod_pos_bound.
Qed.

Lemma build_message_ok h ps : IsakmpHeader_wf h -> Forall enc_wf ps -> bytes_ok (build_message h ps).
Proof.
  intros. apply bytes_ok_app; [by apply IsakmpHeader_to_bytes_ok, isakmp_built_wf|by apply encode_body_ok].
Qed.

(** Reading a built message back: the header, and the payloads after it. *)
Lemma build_message_parse h ps : IsakmpHeader_wf h -> Forall enc_wf ps ->
  IsakmpHeader_parse (build_message h ps) = Ok (built_header h ps) /\
  slice_from (build_message h ps) IsakmpHeader_LEN = Ok (encode_body ps) /\
  parse_payloads (first_type ps) (encode_body ps) = Ok (to_payload <$> ps).
Proof.
  intros Hh Hps. pose proof (isakmp_built_wf h ps Hh Hps) as Hb. split_and!.
  - by apply IsakmpHeader_parse_app.
  - by apply slice_from_app, length_IsakmpHeader_to_bytes.
  - rewrite <- (app_nil_r (encode_body ps)). apply parse_encoded; [done|constructor].
Qed.

(** ** Properties *)

(** C40: The payload parser implements the grammar of payload chains exactly: on any
    octets and any announced first type it ends (the fuel of the loop, one more than
    the number of octets, is never used up, and more fuel changes nothing), it never
    indexes out of range, and it returns a list of payloads if and only if the octets
    begin with a chain of exactly these payloads; otherwise it returns an error. *)
Theorem parse_payloads_grammar t body : bytes_ok body ->
  parse_payloads t body <> Panic /\
  (forall fuel, (length body < fuel)%nat -> parse_payloads_loop body fuel t 0 = parse_payloads t body) /\
  (forall ps, parse_payloads t body = Ok ps <-> chain t body ps).
Proof.
  intros Hb. split_and!; [by apply parse_payloads_safe| |intros; by apply parse_payloads_Ok].
  intros fuel Hf. apply parse_payloads_loop_fuel; [done|lia|lia].
Qed.

(** An ISAKMP message that is built from a header and a list of payloads is read
    back: the header with the type of the first payload and the length of the message
    filled in, and the same payloads, whatever octets (such as the padding of an
    encrypted message) follow the chain.  The payload types must not be 0, which ends
    a chain, and each payload must fit its 16-bit length. *)
Theorem isakmp_message_roundtrip h ps rest : IsakmpHeader_wf h -> Forall enc_wf ps -> bytes_ok rest ->
  IsakmpHeader_parse (build_message h ps ++ rest) = Ok (built_header h ps) /\
  length (build_message h ps) = (IsakmpHeader_LEN + chain_size (to_payload <$> ps))%nat /\
  slice_from (build_message h ps ++ rest) IsakmpHeader_LEN = Ok (encode_body ps ++ rest) /\
  parse_payloads (first_type ps) (encode_body ps ++ rest) = Ok (to_payload <$> ps).
Proof.
  intros Hh Hps Hr. pose proof (isakmp_built_wf h ps Hh Hps) as Hb.
  assert (Hl : length (IsakmpHeader_to_bytes (built_header h ps)) = IsakmpHeader_LEN)
    by by apply length_IsakmpHeader_to_bytes.
  change (build_message h ps) with (IsakmpHeader_to_bytes (built_header h ps) ++ encode_body ps).
  rewrite <- app_assoc. split_and!.
  - by apply IsakmpHeader_parse_app.
  - by rewrite length_app, Hl, chain_size_to_payload.
  - by apply slice_from_app.
  - by apply parse_encoded.
Qed.

Definition example_isakmp : IsakmpHeader := {|
  init_cookie := [1; 2; 3; 4; 5; 6; 7; 8]; resp_cookie := replicate 8 9; next_payload := payload.NONE;
  version := VERSION_1_0; exchange_type := exchange.AGGRESSIVE; hdr_flags := 0; message_id := 0;
  hdr_length := 0 |}.

Lemma example_isakmp_wf : IsakmpHeader_wf example_isakmp.
Proof. by repeat constructor. Qed.

Lemma parse_payloads_grammar_witness :
  parse_payloads payload.KE [0; 0; 0; 6; 1; 2; 0; 0] = Ok [mkPayload payload.KE [1; 2]] /\
  chain payload.KE [0; 0; 0; 6; 1; 2; 0; 0] [mkPayload payload.KE [1; 2]].
Proof.
  split; [reflexivity|].
  apply (parse_payloads_grammar payload.KE [0; 0; 0; 6; 1; 2; 0; 0]); [by repeat constructor|reflexivity].
Defined.

Lemma isakmp_message_roundtrip_witness :
  IsakmpHeader_parse (build_message example_isakmp [(payload.HASH, [1; 2])] ++ [0; 0]) =
    Ok (built_header example_isakmp [(payload.HASH, [1; 2])]).
Proof.
  apply (isakmp_message_roundtrip example_isakmp [(payload.HASH, [1; 2])] [0; 0] example_isakmp_wf);
    by repeat constructor.
Defined.
