(* ===== verification/Payloads1.v ===== *)
(** * IKEv1 payload bodies ([src/src/ikev1/payloads.rs])

    The SA / Proposal / Transform tree with its attributes, and the identification
    payload.  A proposal and an SA hold chains of payloads of their own
    ([Isakmp.parse_payloads]), so that the codec is nested three deep. *)
From S2P Require Import Prelude Outcome Isakmp.

(** ** Registries *)
Definition IPSEC_DOI : Z := 1.
Definition SIT_IDENTITY_ONLY : Z := 1.

Module attr.
Definition ENCRYPTION : Z := 1.
Definition HASH : Z := 2.
Definition AUTH_METHOD : Z := 3.
Definition GROUP_DESC : Z := 4.
Definition LIFE_TYPE : Z := 11.
Definition LIFE_DURATION : Z := 12.
Definition KEY_LENGTH : Z := 14.
End attr.

Module enc.
Definition DES_CBC : Z := 1.
Definition TRIPLE_DES_CBC : Z := 5.
Definition AES_CBC : Z := 7.
End enc.

Module hash.
Definition MD5 : Z := 1.
Definition SHA1 : Z := 2.
Definition SHA2_256 : Z := 4.
Definition SHA2_384 : Z := 5.
Definition SHA2_512 : Z := 6.
End hash.

Module auth.
Definition PSK : Z := 1.
Definition RSA_SIG : Z := 3.
Definition XAUTH_INIT_PSK : Z := 65001.
End auth.

Module life.
Definition SECONDS : Z := 1.
Definition KILOBYTES : Z := 2.
End life.

Module protocol.
Definition ISAKMP : Z := 1.
Definition ESP : Z := 3.
End protocol.

Module id_type.
Definition IPV4_ADDR : Z := 1.
Definition FQDN : Z := 2.
Definition USER_FQDN : Z := 3.
Definition IPV4_ADDR_SUBNET : Z := 4.
Definition KEY_ID : Z := 11.
End id_type.

(** ** Attributes *)
Inductive AttrValue := Short (v : Z) | Long (d : bytes).

Record Attribute := mkAttribute { attr_type : Z; attr_value : AttrValue }.

#[export] Instance AttrValue_eq_dec : EqDecision AttrValue.
Proof. solve_decision. Defined.
#[export] Instance Attribute_eq_dec : EqDecision Attribute.
Proof. solve_decision. Defined.

Definition Attribute_short (t v : Z) : Attribute := {| attr_type := t; attr_value := Short v |}.
Definition Attribute_long_u32 (t v : Z) : Attribute :=
  {| attr_type := t; attr_value := Long (be_bytes 4 v) |}.
Definition Attribute_long_bytes (t : Z) (v : bytes) : Attribute :=
  {| attr_type := t; attr_value := Long v |}.

(** [fn bytes] *)
Definition Attribute_bytes (a : Attribute) : bytes :=
  match attr_value a with Short v => be_bytes 2 v | Long d => d end.

Definition Attribute_parse (b : bytes) : outcome (Attribute * nat) :=
  if decide (length b < 4)%nat then Err (Truncated 4 (length b)) else
  type_af ← u16be b 0;
  let attr_type := Z.land type_af 0x7FFF in
  if negb (Z.land type_af 0x8000 =? 0) then
    v ← u16be b 2; Ok ({| attr_type := attr_type; attr_value := Short v |}, 4%nat)
  else
    x ← u16be b 2;
    let len := usize x in
    if decide (length b < 4 + len)%nat then Err (BadLength (4 + len) (length b)) else
    d ← slice b 4 (4 + len);
    Ok ({| attr_type := attr_type; attr_value := Long d |}, (4 + len)%nat).

Definition Attribute_to_bytes (a : Attribute) : bytes :=
  match attr_value a with
  | Short v => be_bytes 2 (Z.lor (attr_type a) 0x8000) ++ be_bytes 2 v
  | Long d => be_bytes 2 (attr_type a) ++ be_bytes 2 (len16 (length d)) ++ d
  end.

Definition Attribute_as_u16 (a : Attribute) : option Z :=
  match attr_value a with
  | Short v => Some v
  | Long [x; y] => Some (be_val [x; y])
  | Long _ => None
  end.

(** The [while !b.is_empty()] loop; every turn consumes at least four octets. *)
Fixpoint parse_attributes_loop (fuel : nat) (b : bytes) : outcome (list Attribute) :=
  match fuel with
  | O => Panic
  | S f =>
      match b with
      | [] => Ok []
      | _ =>
          '(a, used) ← Attribute_parse b;
          b' ← slice_from b used;
          rest ← parse_attributes_loop f b';
          Ok (a :: rest)
      end
  end.

Definition parse_attributes (b : bytes) : outcome (list Attribute) :=
  parse_attributes_loop (S (length b)) b.

(** [for a in &self.attributes { out.extend_from_slice(&a.to_bytes()); }] *)
Definition attributes_bytes (l : list Attribute) : bytes := concat (Attribute_to_bytes <$> l).

(** ** Transforms *)
Record Transform := mkTransform { t_num : Z; transform_id : Z; attributes : list Attribute }.

#[export] Instance Transform_eq_dec : EqDecision Transform.
Proof. solve_decision. Defined.

Definition Transform_parse (body : bytes) : outcome Transform :=
  if decide (length body < 4)%nat then Err (Truncated 4 (length body)) else
  n ← idx body 0;
  t ← idx body 1;
  rest ← slice_from body 4;
  attrs ← parse_attributes rest;
  Ok {| t_num := n; transform_id := t; attributes := attrs |}.

Definition Transform_to_bytes (t : Transform) : bytes :=
  [t_num t; transform_id t; 0; 0] ++ attributes_bytes (attributes t).

(** [self.attributes.iter().find(|a| a.attr_type == attr_type).and_then(|a| a.as_u16())] *)
Definition Transform_attr (t : Transform) (ty : Z) : option Z :=
  a ← List.find (fun a => attr_type a =? ty) (attributes t); Attribute_as_u16 a.

(** ** Proposals *)
Record Proposal := mkProposal {
  prop_num : Z; protocol_id : Z; prop_spi : bytes; transforms : list Transform }.

#[export] Instance Proposal_eq_dec : EqDecision Proposal.
Proof. solve_decision. Defined.

Definition Proposal_parse (body : bytes) : outcome Proposal :=
  if decide (length body < 4)%nat then Err (Truncated 4 (length body)) else
  x ← idx body 2;
  let spi_size := usize x in
  if decide (length body < 4 + spi_size)%nat then Err (BadLength (4 + spi_size) (length body)) else
  spi ← slice body 4 (4 + spi_size);
  rest ← slice_from body (4 + spi_size);
  ps ← parse_payloads payload.TRANSFORM rest;
  ts ← mapM (fun p => Transform_parse (p_data p)) ps;
  n ← idx body 0;
  proto ← idx body 1;
  Ok {| prop_num := n; protocol_id := proto; prop_spi := spi; transforms := ts |}.

Definition Proposal_to_bytes (p : Proposal) : bytes :=
  let tf_chain := (fun t => (payload.TRANSFORM, Transform_to_bytes t)) <$> transforms p in
  let '(_, tf_body) := encode_payloads tf_chain in
  [prop_num p; protocol_id p; as_u8 (Z.of_nat (length (prop_spi p)));
   as_u8 (Z.of_nat (length (transforms p)))] ++ prop_spi p ++ tf_body.

(** ** Security associations *)
Record SaPayload := mkSaPayload { doi : Z; situation : Z; proposals : list Proposal }.

#[export] Instance SaPayload_eq_dec : EqDecision SaPayload.
Proof. solve_decision. Defined.

Definition SaPayload_parse (body : bytes) : outcome SaPayload :=
  if decide (length body < 8)%nat then Err (Truncated 8 (length body)) else
  d ← be_uint 4 body 0 4;
  s ← be_uint 4 body 4 8;
  rest ← slice_from body 8;
  ps ← parse_payloads payload.PROPOSAL rest;
  props ← mapM (fun p => Proposal_parse (p_data p)) ps;
  Ok {| doi := d; situation := s; proposals := props |}.

Definition SaPayload_to_bytes (sa : SaPayload) : bytes :=
  let prop_chain := (fun p => (payload.PROPOSAL, Proposal_to_bytes p)) <$> proposals sa in
  let '(_, prop_body) := encode_payloads prop_chain in
  be_bytes 4 (doi sa) ++ be_bytes 4 (situation sa) ++ prop_body.

(** ** Identification *)
Record Id := mkId { id_ty : Z; id_protocol : Z; id_port : Z; id_data : bytes }.

#[export] Instance Id_eq_dec : EqDecision Id.
Proof. solve_decision. Defined.

Definition Id_ipv4 (addr : bytes) : Id :=
  {| id_ty := id_type.IPV4_ADDR; id_protocol := 0; id_port := 0; id_data := addr |}.

Definition Id_parse (body : bytes) : outcome Id :=
  if decide (length body < 4)%nat then Err (Truncated 4 (length body)) else
  t ← idx body 0;
  p ← idx body 1;
  port ← u16be body 2;
  d ← slice_from body 4;
  Ok {| id_ty := t; id_protocol := p; id_port := port; id_data := d |}.

Definition Id_to_bytes (i : Id) : bytes :=
  [id_ty i; id_protocol i] ++ be_bytes 2 (id_port i) ++ id_data i.

(** ** Well-formed values: what fits the fields of the wire format *)
Definition attr_wf (a : Attribute) : Prop :=
  0 <= attr_type a < 2 ^ 15 /\
  match attr_value a with
  | Short v => u16_ok v
  | Long d => bytes_ok d /\ Z.of_nat (length d) < 2 ^ 16
  end.

(** A body that fits a generic payload *)
Definition fits (b : bytes) : Prop := 4 + Z.of_nat (length b) < 2 ^ 16.

Record Transform_wf (t : Transform) : Prop := {
  wf_t_num : byte_ok (t_num t);
  wf_transform_id : byte_ok (transform_id t);
  wf_attributes : Forall attr_wf (attributes t);
  wf_transform_fits : fits (Transform_to_bytes t) }.

Record Proposal_wf (p : Proposal) : Prop := {
  wf_prop_num : byte_ok (prop_num p);
  wf_protocol : byte_ok (protocol_id p);
  wf_spi : bytes_ok (prop_spi p) /\ Z.of_nat (length (prop_spi p)) < 2 ^ 8;
  wf_transforms : transforms p <> [] /\ Forall Transform_wf (transforms p);
  wf_proposal_fits : fits (Proposal_to_bytes p) }.

Record SaPayload_wf (sa : SaPayload) : Prop := {
  wf_doi : u32_ok (doi sa);
  wf_situation : u32_ok (situation sa);
  wf_proposals : proposals sa <> [] /\ Forall Proposal_wf (proposals sa) }.

Record Id_wf (i : Id) : Prop := {
  wf_id_ty : byte_ok (id_ty i);
  wf_id_protocol : byte_ok (id_protocol i);
  wf_id_port : u16_ok (id_port i);
  wf_id_data : bytes_ok (id_data i) }.

(** ** Attributes *)

(** The format bit of an attribute type *)
Lemma af_land x : 0 <= x < 2 ^ 15 -> Z.land x 0x7FFF = x /\ Z.land x 0x8000 = 0.
Proof.
  intros Hx. assert (E : Z.land x 0x7FFF = x)
    by (change 0x7FFF with (Z.ones 15); rewrite Z.land_ones by lia; by apply Z.mod_small).
  split; [done|]. rewrite <- E, <- Z.land_assoc. apply Z.land_0_r.
Qed.

Lemma af_lor x : 0 <= x < 2 ^ 15 ->
  u16_ok (Z.lor x 0x8000) /\ Z.land (Z.lor x 0x8000) 0x7FFF = x /\ Z.land (Z.lor x 0x8000) 0x8000 <> 0.
Proof.
  intros Hx. destruct (af_land x Hx) as [E1 E2]. split_and!.
  - assert (0 <= Z.lor x 0x8000) by (apply Z.lor_nonneg; lia). split; [done|].
    apply Z.log2_lt_cancel. rewrite Z.log2_lor by lia. apply Z.max_lub_lt; [|done].
    destruct (decide (x = 0)) as [->|]; [done|].
    apply Z.log2_lt_pow2; [lia|]. change (2 ^ Z.log2 (2 ^ 16)) with (2 ^ 16). lia.
  - by rewrite Z.land_lor_distr_l, E1, Z.lor_0_r.
  - rewrite Z.land_lor_distr_l, E2. done.
Qed.

Lemma af_parsed x : u16_ok x -> 0 <= Z.land x 0x7FFF < 2 ^ 15.
Proof. intros. change 0x7FFF with (Z.ones 15). rewrite Z.land_ones by lia. by apply Z.mod_pos_bound. Qed.

Lemma length_Attribute_to_bytes a : length (Attribute_to_bytes a) =
  match attr_value a with Short _ => 4%nat | Long d => (4 + length d)%nat end.
Proof. unfold Attribute_to_bytes. destruct (attr_value a); by rewrite ?length_app, !length_be_bytes. Qed.

Lemma Attribute_to_bytes_ok a : attr_wf a -> bytes_ok (Attribute_to_bytes a).
Proof. intros [_ H]. unfold Attribute_to_bytes. destruct (attr_value a); [|destruct H]; auto with ryke. Qed.

Lemma u16be_field pre x rest : u16_ok x ->
  u16be (pre ++ be_bytes 2 x ++ rest) (length pre) = Ok x.
Proof.
  intros Hx. cbn [be_bytes app]. rewrite u16be_app by done. f_equal.
  change [_; _] with (be_bytes 2 x). by apply u16be_val.
Qed.

Lemma u16be_head x rest : u16_ok x -> u16be (be_bytes 2 x ++ rest) 0 = Ok x.
Proof. exact (u16be_field [] x rest). Qed.

Lemma Attribute_parse_app a rest : attr_wf a ->
  Attribute_parse (Attribute_to_bytes a ++ rest) = Ok (a, length (Attribute_to_bytes a)).
Proof.
  destruct a as [t v]. intros [Ht Hv]. cbn [attr_type attr_value] in *. unfold Attribute_parse.
  pose proof (length_Attribute_to_bytes (mkAttribute t v)) as Hl. cbn [attr_value] in Hl.
  rewrite decide_False by (rewrite length_app, Hl; destruct v; lia).
  rewrite Hl. unfold Attribute_to_bytes. cbn [attr_type attr_value]. destruct v as [v|d].
  - destruct (af_lor t Ht) as (H1 & H2 & H3). rewrite <- app_assoc.
    rewrite u16be_head by done. cbn [mbind outcome_bind].
    rewrite (proj2 (Z.eqb_neq _ _) H3), H2. cbn [negb].
    by rewrite (u16be_field (be_bytes 2 (Z.lor t 0x8000)) v : forall rest, _ -> u16be _ 2 = _).
  - destruct (af_land t Ht) as [H1 H2]. destruct Hv as [Hd Hn]. rewrite <- !app_assoc.
    assert (Ht' : u16_ok t) by (unfold u16_ok; lia).
    assert (Ln : len16 (length d) = Z.of_nat (length d)) by (unfold as_u16; rewrite Z.mod_small; lia).
    rewrite u16be_head by done. cbn [mbind outcome_bind]. rewrite H1, H2. cbn [Z.eqb negb].
    rewrite Ln. rewrite (u16be_field (be_bytes 2 t) (Z.of_nat (length d)) : forall rest, _ -> u16be _ 2 = _) by (unfold u16_ok; lia).
    cbn [mbind outcome_bind]. rewrite Nat2Z.id.
    rewrite decide_False by (rewrite !length_app, !length_be_bytes; lia).
    rewrite app_assoc. rewrite slice_app_mid by (rewrite ?length_app, ?length_be_bytes; lia). done.
Qed.

Lemma Attribute_parse_wp b : bytes_ok b -> wp (Attribute_parse b) (fun '(a, used) =>
  attr_wf a /\ (4 <= used <= length b)%nat /\ length (Attribute_to_bytes a) = used).
Proof.
  intros Hb. unfold Attribute_parse. case_decide; [done|].
  apply wp_bind, wp_u16be; [lia|done|]. intros ty Hty. pose proof (af_parsed ty Hty). cbv zeta.
  destruct (negb _).
  - wp_steps. rewrite length_Attribute_to_bytes. cbn [attr_value]. split_and!; [by split|lia|lia|done].
  - apply wp_bind, wp_u16be; [lia|done|]. intros x [Hx1 Hx2]. cbv zeta. case_decide; [done|].
    apply wp_bind, wp_slice; [lia|lia|]. intros Hl. cbn [wp]. rewrite length_Attribute_to_bytes. cbn [attr_value].
    rewrite Hl. split_and!; [|lia|lia|lia]. split; [done|]. split; [auto with ryke|]. lia.
Qed.

(** ** Attribute lists *)
Lemma attributes_bytes_ok l : Forall attr_wf l -> bytes_ok (attributes_bytes l).
Proof.
  induction 1 as [|a l Ha _ IH]; [constructor|].
  apply bytes_ok_app; [by apply Attribute_to_bytes_ok|exact IH].
Qed.

Lemma parse_attributes_loop_write l fuel : Forall attr_wf l -> (length (attributes_bytes l) < fuel)%nat ->
  parse_attributes_loop fuel (attributes_bytes l) = Ok l.
Proof.
  intros Hl. revert fuel. induction Hl as [|a l Ha _ IH]; intros [|fuel] Hf; try lia; [done|].
  change (attributes_bytes (a :: l)) with (Attribute_to_bytes a ++ attributes_bytes l) in *.
  rewrite length_app in Hf. pose proof (length_Attribute_to_bytes a) as La.
  cbn [parse_attributes_loop]. destruct (Attribute_to_bytes a ++ attributes_bytes l) as [|x r] eqn:E.
  { apply (f_equal length) in E. rewrite length_app in E. destruct (attr_value a); simpl in E; lia. }
  rewrite <- E, Attribute_parse_app by done. cbn [mbind outcome_bind].
  rewrite slice_from_app by done. cbn [mbind outcome_bind].
  rewrite IH; [done|]. destruct (attr_value a); lia.
Qed.

Lemma parse_attributes_write l : Forall attr_wf l -> parse_attributes (attributes_bytes l) = Ok l.
Proof. intros. apply parse_attributes_loop_write; [done|lia]. Qed.

Lemma parse_attributes_loop_wp fuel b : bytes_ok b -> (length b < fuel)%nat ->
  wp (parse_attributes_loop fuel b) (fun l => Forall attr_wf l /\ length (attributes_bytes l) = length b).
Proof.
  revert b. induction fuel as [|fuel IH]; intros b Hb Hf; [lia|]. cbn [parse_attributes_loop].
  destruct b as [|x r]; [by split|]. set (b := x :: r) in *.
  apply wp_bind. eapply wp_mono; [|by apply Attribute_parse_wp]. intros [a used] (Ha & Hu & La).
  apply wp_bind, wp_slice_from; [lia|]. apply wp_bind.
  eapply wp_mono; [|apply IH; [auto with ryke|rewrite length_drop; lia]]. intros l [Hl Ll].
  rewrite length_drop in Ll. split; [by constructor|].
  change (attributes_bytes (a :: l)) with (Attribute_to_bytes a ++ attributes_bytes l).
  rewrite length_app. lia.
Qed.

Lemma parse_attributes_wp b : bytes_ok b ->
  wp (parse_attributes b) (fun l => Forall attr_wf l /\ length (attributes_bytes l) = length b).
Proof. intros. apply parse_attributes_loop_wp; [done|lia]. Qed.

(** ** Bodies carried in a chain of payloads *)

(** What the codec of a payload body promises to the chain that carries it. *)
Class Body {A} (parse : bytes -> outcome A) (write : A -> bytes) (wf : A -> Prop) : Prop := {
  body_bytes x : wf x -> bytes_ok (write x);
  body_fits x : wf x -> fits (write x);
  body_roundtrip x : wf x -> parse (write x) = Ok x;
  body_wp b : bytes_ok b -> fits b ->
    wp (parse b) (fun x => wf x /\ (length (write x) <= length b)%nat) }.

Section nested.
Context {A : Type} {parse : bytes -> outcome A} {write : A -> bytes} {wf : A -> Prop} `{!Body parse write wf}.
Context (ty : Z).
Hypothesis Hty : byte_ok ty /\ ty <> payload.NONE.

Definition nested_chain (xs : list A) : list (Z * bytes) := (fun x => (ty, write x)) <$> xs.

Lemma nested_enc_wf xs : Forall wf xs -> Forall enc_wf (nested_chain xs).
Proof.
  intros H. apply Forall_fmap. eapply Forall_impl; [exact H|]. intros x Hx.
  destruct Hty. split_and!; [done|done|exact (body_bytes x Hx)|exact (body_fits x Hx)].
Qed.

Lemma nested_parse xs : xs <> [] -> Forall wf xs ->
  (ps ← parse_payloads ty (encode_body (nested_chain xs)); mapM (fun p => parse (p_data p)) ps) = Ok xs.
Proof.
  intros Hne Hxs. pose proof (nested_enc_wf xs Hxs) as He.
  rewrite <- (app_nil_r (encode_body _)).
  replace ty with (first_type (nested_chain xs)) at 1 by by destruct xs.
  rewrite parse_encoded by (done || constructor). cbn [mbind outcome_bind]. apply mapM_Ok.
  clear Hne He. induction Hxs as [|x xs Hx _ IH]; [constructor|].
  constructor; [exact (body_roundtrip x Hx)|exact IH].
Qed.

Lemma nested_size ps xs : Forall payload_wf ps ->
  Forall2 (fun p x => parse (p_data p) = Ok x) ps xs ->
  Forall wf xs /\ (length (encode_body (nested_chain xs)) <= chain_size ps)%nat.
Proof.
  intros Hp H. induction H as [|p x ps xs Hx _ IH]; [split; [constructor|cbn; lia]|].
  apply Forall_cons in Hp as [(_ & Hb & Hf) Hp]. destruct (IH Hp) as [H1 H2].
  destruct (wp_ok _ _ _ (body_wp (p_data p) Hb Hf) Hx) as [Hw Hl]. split; [by constructor|].
  rewrite length_encode_body in *. unfold chain_size in *. cbn [nested_chain fmap list_fmap sum_list_with snd].
  unfold nested_chain in H2. lia.
Qed.

Lemma nested_parse_wp rest : bytes_ok rest ->
  wp (ps ← parse_payloads ty rest; mapM (fun p => parse (p_data p)) ps) (fun xs =>
    xs <> [] /\ Forall wf xs /\ (length (encode_body (nested_chain xs)) <= length rest)%nat).
Proof.
  intros Hr. apply wp_bind. eapply wp_mono; [|apply wp_eq, (parse_payloads_wp ty rest Hr)].
  intros ps [[Hps Hs] E].
  assert (Hne : ps <> []).
  { apply parse_payloads_Ok in E; [|done]. intros ->. inversion E; subst. by destruct Hty. }
  assert (Hsafe : wp (mapM (fun p => parse (p_data p)) ps) (fun _ => True)).
  { eapply wp_mono; [|apply (mapM_wp _ (fun _ => True))]; [done|]. eapply Forall_impl; [exact Hps|].
    intros p (_ & Hb & Hf). eapply wp_mono; [|by apply body_wp]. done. }
  eapply wp_mono; [|apply wp_eq, Hsafe]. intros xs [_ Ex]. apply mapM_Ok in Ex.
  destruct (nested_size ps xs Hps Ex) as [H1 H2]. split_and!; [|done|lia].
  intros ->. by inversion Ex; subst.
Qed.
End nested.
Arguments nested_chain {A} write ty xs.

(** ** Transforms, proposals and security associations *)
Lemma length_Transform_to_bytes t :
  length (Transform_to_bytes t) = (4 + length (attributes_bytes (attributes t)))%nat.
Proof. done. Qed.

#[export] Instance Transform_body : Body Transform_parse Transform_to_bytes Transform_wf.
Proof.
  split.
  - intros t [Hn Hi Ha _]. assert (byte_ok 0) by done. pose proof (attributes_bytes_ok _ Ha).
    unfold Transform_to_bytes. auto 10 with ryke.
  - by intros t [].
  - intros [n i l] [_ _ Hl _]. unfold Transform_parse. rewrite length_Transform_to_bytes.
    rewrite decide_False by lia. unfold Transform_to_bytes. cbn [attributes t_num transform_id] in *.
    change (idx ([n; i; 0; 0] ++ attributes_bytes l) 0) with (Ok n).
    change (idx ([n; i; 0; 0] ++ attributes_bytes l) 1) with (Ok i). cbn [mbind outcome_bind].
    rewrite slice_from_app by done. cbn [mbind outcome_bind]. by rewrite parse_attributes_write.
  - intros b Hb Hf. unfold Transform_parse. case_decide; [done|].
    apply wp_bind, wp_idx_ok; [lia|done|]. intros n Hn. apply wp_bind, wp_idx_ok; [lia|done|]. intros i Hi.
    apply wp_bind, wp_slice_from; [lia|]. apply wp_bind.
    eapply wp_mono; [|apply parse_attributes_wp; auto with ryke]. intros l [Hl Ll]. rewrite length_drop in Ll.
    cbn [wp]. rewrite length_Transform_to_bytes. cbn [attributes]. split; [|lia].
    constructor; [done|done|done|]. unfold fits in *. rewrite length_Transform_to_bytes. cbn [attributes]. lia.
Qed.

Lemma length_Proposal_to_bytes p : length (Proposal_to_bytes p) =
  (4 + length (prop_spi p) + length (encode_body (nested_chain Transform_to_bytes payload.TRANSFORM (transforms p))))%nat.
Proof. unfold Proposal_to_bytes. cbn [encode_payloads]. by rewrite !length_app, Nat.add_assoc. Qed.

Lemma transform_type_ok : byte_ok payload.TRANSFORM /\ payload.TRANSFORM <> payload.NONE.
Proof. done. Qed.

Lemma proposal_type_ok : byte_ok payload.PROPOSAL /\ payload.PROPOSAL <> payload.NONE.
Proof. done. Qed.

#[export] Instance Proposal_body : Body Proposal_parse Proposal_to_bytes Proposal_wf.
Proof.
  split.
  - intros p [Hn Hi [Hs _] [_ Ht] _]. unfold Proposal_to_bytes. cbn [encode_payloads].
    pose proof (encode_body_ok _ (nested_enc_wf _ transform_type_ok _ Ht)) as He.
    assert (forall n, byte_ok (as_u8 n)) by (intros; by apply Z.mod_pos_bound). auto 10 with ryke.
  - by intros p [].
  - intros [n i spi ts] [_ _ [_ Hs] [Hne Ht] _]. cbn [prop_spi transforms] in *. unfold Proposal_parse.
    rewrite length_Proposal_to_bytes. cbn [prop_spi transforms]. rewrite decide_False by lia.
    unfold Proposal_to_bytes. cbn [encode_payloads prop_spi transforms prop_num protocol_id].
    set (e := encode_body _). rewrite as_u8_small by done.
    set (q := [n; i; Z.of_nat (length spi); _]).
    change (idx (q ++ spi ++ e) 2) with (Ok (Z.of_nat (length spi))).
    change (idx (q ++ spi ++ e) 0) with (Ok n). change (idx (q ++ spi ++ e) 1) with (Ok i).
    cbn [mbind outcome_bind]. rewrite Nat2Z.id, decide_False by lia.
    rewrite slice_app_mid by done. cbn [mbind outcome_bind].
    rewrite app_assoc, slice_from_app by (rewrite length_app; done). cbn [mbind outcome_bind].
    pose proof (nested_parse payload.TRANSFORM transform_type_ok ts Hne Ht) as Hp. apply bind_Ok in Hp as (ps & E1 & E2).
    unfold e. change ((fun t => (payload.TRANSFORM, Transform_to_bytes t)) <$> ts)
      with (nested_chain Transform_to_bytes payload.TRANSFORM ts).
    rewrite E1. cbn [mbind outcome_bind]. by rewrite E2.
  - intros b Hb Hf. unfold Proposal_parse. case_decide; [done|].
    apply wp_bind, wp_idx_ok; [lia|done|]. intros x [Hx1 Hx2]. cbv zeta. case_decide; [done|].
    apply wp_bind, wp_slice; [lia|lia|]. intros Ls. apply wp_bind, wp_slice_from; [lia|].
    assert (Hr : bytes_ok (drop (4 + usize x) b)) by auto with ryke.
    pose proof (nested_parse_wp payload.TRANSFORM transform_type_ok _ Hr) as Hw.
    destruct (parse_payloads payload.TRANSFORM (drop (4 + usize x) b)) as [ps| |]; [|done|done].
    cbn [mbind outcome_bind] in *. apply wp_bind. eapply wp_mono; [|exact Hw].
    intros ts (Hne & Hts & Hl). rewrite length_drop in Hl.
    apply wp_bind, wp_idx_ok; [lia|done|]. intros n Hn. apply wp_bind, wp_idx_ok; [lia|done|]. intros i Hi.
    cbn [wp]. set (p := mkProposal _ _ _ _).
    assert (Lp : (length (Proposal_to_bytes p) <= length b)%nat)
      by (rewrite length_Proposal_to_bytes; cbn [prop_spi transforms p]; lia).
    split; [|done]. constructor; cbn [prop_num protocol_id prop_spi transforms p]; [done|done| |done|].
    + split; [auto with ryke|lia].
    + fold p. unfold fits in *. lia.
Qed.

Lemma SaPayload_parse_write sa : SaPayload_wf sa -> SaPayload_parse (SaPayload_to_bytes sa) = Ok sa.
Proof.
  destruct sa as [d s ps]. intros [Hd Hs [Hne Hps]]. cbn [doi situation proposals] in *.
  unfold SaPayload_to_bytes, SaPayload_parse. cbn [encode_payloads doi situation proposals].
  set (e := encode_body _). rewrite !length_app, !length_be_bytes, decide_False by lia.
  unfold be_uint. rewrite slice_app_head by done. cbn [mbind outcome_bind].
  rewrite slice_app_mid by done. cbn [mbind outcome_bind].
  rewrite !length_be_bytes, !decide_True by done. cbn [mbind outcome_bind].
  rewrite app_assoc, slice_from_app by done. cbn [mbind outcome_bind].
  pose proof (nested_parse payload.PROPOSAL proposal_type_ok ps Hne Hps) as Hp. apply bind_Ok in Hp as (l & E1 & E2).
  unfold e. change ((fun p => (payload.PROPOSAL, Proposal_to_bytes p)) <$> ps)
    with (nested_chain Proposal_to_bytes payload.PROPOSAL ps).
  rewrite E1. cbn [mbind outcome_bind]. rewrite E2. cbn [mbind outcome_bind].
  by rewrite !be_val_be_bytes by done.
Qed.

Lemma SaPayload_parse_wp b : bytes_ok b -> wp (SaPayload_parse b) SaPayload_wf.
Proof.
  intros Hb. unfold SaPayload_parse. case_decide; [done|].
  apply wp_bind, wp_be_uint; [lia|lia|lia|done|]. intros d Hd.
  apply wp_bind, wp_be_uint; [lia|lia|lia|done|]. intros s Hs. apply wp_bind, wp_slice_from; [lia|].
  assert (Hr : bytes_ok (drop 8 b)) by auto with ryke.
  pose proof (nested_parse_wp payload.PROPOSAL proposal_type_ok _ Hr) as Hw.
  destruct (parse_payloads payload.PROPOSAL (drop 8 b)) as [ps| |]; [|done|done].
  cbn [mbind outcome_bind] in *. apply wp_bind. eapply wp_mono; [|exact Hw].
  intros props (Hne & Hps & _). by constructor.
Qed.

Lemma SaPayload_to_bytes_ok sa : SaPayload_wf sa -> bytes_ok (SaPayload_to_bytes sa).
Proof.
  intros [_ _ [_ Hps]]. unfold SaPayload_to_bytes. cbn [encode_payloads].
  pose proof (encode_body_ok _ (nested_enc_wf _ proposal_type_ok _ Hps)). auto with ryke.
Qed.

(** ** Identification *)
Lemma Id_parse_write i : Id_wf i -> Id_parse (Id_to_bytes i) = Ok i.
Proof.
  destruct i as [t p port d]. intros [_ _ Hp _]. unfold Id_parse, Id_to_bytes. cbn [id_ty id_protocol id_port id_data] in *.
  rewrite !length_app, length_be_bytes, decide_False by (simpl; lia).
  rewrite (u16be_field [t; p] port d Hp : u16be _ 2 = _).
  rewrite app_assoc, slice_from_app by done. done.
Qed.

Lemma Id_parse_wp b : bytes_ok b -> wp (Id_parse b) Id_wf.
Proof. intros Hb. unfold Id_parse. wp_steps. constructor; cbn; auto with ryke. Qed.

Lemma Id_to_bytes_ok i : Id_wf i -> bytes_ok (Id_to_bytes i).
Proof. intros []. unfold Id_to_bytes. auto with ryke. Qed.

(** ** Properties *)

(** The codec of IKEv1 security associations: an SA with its proposals, transforms
    and attributes is read back from its encoding as it was, provided that every value
    fits its field and that the lists of proposals and transforms are not empty; an
    SA without proposals is written but not read back, the parser asks for at least
    one payload; and whatever SA the parser accepts is read back from its own
    encoding. *)
Theorem sa_payload_codec :
  (forall sa, SaPayload_wf sa -> SaPayload_parse (SaPayload_to_bytes sa) = Ok sa) /\
  (forall d s, SaPayload_parse (SaPayload_to_bytes (mkSaPayload d s [])) = Err (Truncated 4 0)) /\
  (forall b sa, bytes_ok b -> SaPayload_parse b = Ok sa ->
     SaPayload_parse (SaPayload_to_bytes sa) = Ok sa).
Proof.
  split_and!.
  - apply SaPayload_parse_write.
  - intros d s. unfold SaPayload_to_bytes, SaPayload_parse. cbn [encode_payloads doi situation proposals].
    rewrite !length_app, !length_be_bytes, decide_False by (cbn; lia). reflexivity.
  - intros b sa Hb E. apply SaPayload_parse_write. exact (wp_ok _ _ _ (SaPayload_parse_wp b Hb) E).
Qed.

(** C39: Typing of the IKEv1 parsers: on arbitrary octets none of them panics, and what
    they return is well formed: attribute types have 15 bits, values and lengths fit
    their fields, SPIs have at most 255 octets, proposals and transforms are not empty
    and fit the payload that would carry them.  For [Transform_parse] and [Proposal_parse],
    called on octets of their own, this holds of octets that a payload can carry ([fits], the bound
    which the 16-bit length of every payload of a chain gives); the other parsers need no bound. *)
Theorem ikev1_parsers_typed b : bytes_ok b ->
  wp (parse_attributes b) (Forall attr_wf) /\
  (fits b -> wp (Transform_parse b) Transform_wf /\ wp (Proposal_parse b) Proposal_wf) /\
  wp (SaPayload_parse b) SaPayload_wf /\ wp (Id_parse b) Id_wf.
Proof.
  intros Hb. split_and!; [|intros Hf; split|by apply SaPayload_parse_wp|by apply Id_parse_wp].
  - eapply wp_mono; [|by apply parse_attributes_wp]. by intros l [].
  - eapply wp_mono; [|by apply body_wp]. by intros t [].
  - eapply wp_mono; [|by apply body_wp]. by intros t [].
Qed.

Lemma ikev1_parsers_typed_witness :
  Transform_parse [1; 1; 0; 0; 0x80; 1; 0; 7; 0; 12; 0; 4; 0; 0; 0x70; 0x80] =
    Ok (mkTransform 1 1 [Attribute_short attr.ENCRYPTION enc.AES_CBC; Attribute_long_u32 attr.LIFE_DURATION 28800]) /\
  wp (Transform_parse [1; 1; 0; 0; 0x80; 1; 0; 7; 0; 12; 0; 4; 0; 0; 0x70; 0x80]) Transform_wf.
Proof.
  split; [reflexivity|].
  apply (ikev1_parsers_typed [1; 1; 0; 0; 0x80; 1; 0; 7; 0; 12; 0; 4; 0; 0; 0x70; 0x80]);
    [by repeat constructor|reflexivity].
Defined.
