(* ===== verification/ModeCfg.v ===== *)
(** * ISAKMP configuration payloads ([src/src/ikev1/modecfg.rs])

    The body of an ATTRIBUTE payload, used by XAUTH and Mode-Config: a type, an
    identifier and a list of attributes with the codec of [Payloads1]. *)
From S2P Require Import Prelude Outcome Isakmp Payloads1.

Module cfg.
Definition REQUEST : Z := 1.
Definition REPLY : Z := 2.
Definition SET : Z := 3.
Definition ACK : Z := 4.
End cfg.

Module cfg_attr.
Definition INTERNAL_IP4_ADDRESS : Z := 1.
Definition INTERNAL_IP4_NETMASK : Z := 2.
Definition INTERNAL_IP4_DNS : Z := 3.
Definition INTERNAL_IP4_NBNS : Z := 4.
Definition INTERNAL_ADDRESS_EXPIRY : Z := 5.
Definition INTERNAL_IP4_DHCP : Z := 6.
Definition APPLICATION_VERSION : Z := 7.
Definition INTERNAL_IP4_SUBNET : Z := 13.
Definition XAUTH_TYPE : Z := 16520.
Definition XAUTH_USER_NAME : Z := 16521.
Definition XAUTH_USER_PASSWORD : Z := 16522.
Definition XAUTH_PASSCODE : Z := 16523.
Definition XAUTH_MESSAGE : Z := 16524.
Definition XAUTH_CHALLENGE : Z := 16525.
Definition XAUTH_DOMAIN : Z := 16526.
Definition XAUTH_STATUS : Z := 16527.
Definition XAUTH_NEXT_PIN : Z := 16528.
Definition XAUTH_ANSWER : Z := 16529.
End cfg_attr.

Module xauth_type.
Definition GENERIC : Z := 0.
Definition RADIUS_CHAP : Z := 1.
Definition OTP : Z := 2.
Definition SKEY : Z := 3.
End xauth_type.

Module xauth_status.
Definition FAIL : Z := 0.
Definition OK : Z := 1.
End xauth_status.

Record ConfigPayload := mkConfigPayload {
  cfg_type : Z; cfg_identifier : Z; cfg_attributes : list Attribute }.

#[export] Instance ConfigPayload_eq_dec : EqDecision ConfigPayload.
Proof. solve_decision. Defined.

Definition ConfigPayload_new (t i : Z) (l : list Attribute) : ConfigPayload :=
  {| cfg_type := t; cfg_identifier := i; cfg_attributes := l |}.

Definition ConfigPayload_to_bytes (c : ConfigPayload) : bytes :=
  [cfg_type c; 0] ++ be_bytes 2 (cfg_identifier c) ++ attributes_bytes (cfg_attributes c).

Definition ConfigPayload_parse (body : bytes) : outcome ConfigPayload :=
  if decide (length body < 4)%nat then Err (Truncated 4 (length body)) else
  t ← idx body 0;
  i ← u16be body 2;
  rest ← slice_from body 4;
  l ← parse_attributes rest;
  Ok {| cfg_type := t; cfg_identifier := i; cfg_attributes := l |}.

(** [self.attributes.iter().find(|a| a.attr_type == attr_type)] *)
Definition ConfigPayload_attr (c : ConfigPayload) (ty : Z) : option Attribute :=
  List.find (fun a => attr_type a =? ty) (cfg_attributes c).

Record ConfigPayload_wf (c : ConfigPayload) : Prop := {
  wf_cfg_type : byte_ok (cfg_type c);
  wf_cfg_identifier : u16_ok (cfg_identifier c);
  wf_cfg_attributes : Forall attr_wf (cfg_attributes c) }.

Lemma ConfigPayload_parse_write c : ConfigPayload_wf c ->
  ConfigPayload_parse (ConfigPayload_to_bytes c) = Ok c.
Proof.
  destruct c as [t i l]. intros [_ Hi Hl]. unfold ConfigPayload_parse, ConfigPayload_to_bytes.
  cbn [cfg_type cfg_identifier cfg_attributes] in *.
  rewrite !length_app, length_be_bytes, decide_False by (simpl; lia).
  rewrite (u16be_field [t; 0] i (attributes_bytes l) Hi : u16be _ 2 = _).
  change (idx ([t; 0] ++ be_bytes 2 i ++ attributes_bytes l) 0) with (Ok t).
  rewrite app_assoc, slice_from_app by done. cbn [mbind outcome_bind]. by rewrite parse_attributes_write.
Qed.

Lemma ConfigPayload_parse_wp b : bytes_ok b -> wp (ConfigPayload_parse b) ConfigPayload_wf.
Proof.
  intros Hb. unfold ConfigPayload_parse. case_decide; [done|].
  apply wp_bind, wp_idx_ok; [lia|done|]. intros t Ht. apply wp_bind, wp_u16be; [lia|done|]. intros i Hi.
  apply wp_bind, wp_slice_from; [lia|]. apply wp_bind.
  eapply wp_mono; [|apply parse_attributes_wp; auto with ryke]. intros l [Hl _]. by constructor.
Qed.

(** The configuration codec is typed and total: arbitrary octets give a
    well-formed payload or an error; a well-formed payload is read back from its
    encoding, and looking up an attribute type finds the first attribute of that
    type, with its value in octets. *)
Theorem config_payload_codec :
  (forall b, bytes_ok b -> wp (ConfigPayload_parse b) ConfigPayload_wf) /\
  (forall c, ConfigPayload_wf c -> ConfigPayload_parse (ConfigPayload_to_bytes c) = Ok c) /\
  (forall t i l1 ty v l2, Forall (fun a => attr_type a <> ty) l1 ->
     Attribute_bytes <$> ConfigPayload_attr
       (ConfigPayload_new t i (l1 ++ Attribute_long_bytes ty v :: l2)) ty = Some v).
Proof.
  split_and!; [apply ConfigPayload_parse_wp|apply ConfigPayload_parse_write|].
  intros t i l1 ty v l2 H. unfold ConfigPayload_attr. cbn [ConfigPayload_new cfg_attributes].
  induction H as [|a l1 Ha _ IH]; cbn [app List.find attr_type Attribute_long_bytes].
  - by rewrite Z.eqb_refl.
  - by rewrite (proj2 (Z.eqb_neq _ _) Ha).
Qed.
