(* ===== verification/Crypto1.v ===== *)
(** * IKEv1 key schedule and encryption ([src/src/ikev1/crypto1.rs])

    The raw-keyed PRF, the chain SKEYID, SKEYID_d, SKEYID_a, SKEYID_e, the feedback
    expansions of RFC 2409, and AES-256-CBC with an IV that is carried from message to
    message.  HMAC-SHA1 and AES-CBC come from other crates: the class [Legacy1] lists
    what the source calls, and the classes of laws what it relies on. *)
From S2P Require Import Prelude Outcome Primitives.

(** ** Primitives of other crates *)
Class Legacy1 := {
  (** [hmac::Hmac<Sha1>]: key, data *)
  hmac_sha1 : bytes -> bytes -> bytes;
  (** [cbc::Encryptor<Aes256>::new_from_slices(key, iv).is_ok()] *)
  cbc_new : bytes -> bytes -> bool;
  (** [encrypt_padded_vec_mut::<NoPadding>] and [decrypt_padded_vec_mut::<NoPadding>]
      of such a cipher; [None] is the crate's unpadding error *)
  cbc_encrypt : bytes -> bytes -> bytes -> bytes;
  cbc_decrypt : bytes -> bytes -> bytes -> option bytes }.

Definition AES_BLOCK : nat := 16.

(** Whole blocks *)
Definition aligned (b : bytes) : Prop := (length b mod AES_BLOCK = 0)%nat.

(** HMAC-SHA1 yields 20 octets. *)
Class HmacSha1Laws `{!Legacy1} : Prop := {
  hmac_sha1_length k d : length (hmac_sha1 k d) = 20%nat;
  hmac_sha1_bytes k d : bytes_ok (hmac_sha1 k d) }.

(** AES-256-CBC takes a key of 32 and an IV of 16 octets; on whole blocks encryption
    and decryption keep the length, and decryption inverts encryption. *)
Class CbcLaws `{!Legacy1} : Prop := {
  cbc_new_spec k iv : cbc_new k iv = true <-> length k = 32%nat /\ length iv = 16%nat;
  cbc_encrypt_length k iv p : cbc_new k iv = true -> aligned p ->
    length (cbc_encrypt k iv p) = length p;
  cbc_encrypt_bytes k iv p : bytes_ok (cbc_encrypt k iv p);
  cbc_decrypt_some k iv c : cbc_new k iv = true -> aligned c ->
    exists p, cbc_decrypt k iv c = Some p /\ length p = length c;
  cbc_decrypt_bytes k iv c p : cbc_decrypt k iv c = Some p -> bytes_ok p;
  cbc_decrypt_encrypt k iv p : cbc_new k iv = true -> aligned p -> bytes_ok p ->
    cbc_decrypt k iv (cbc_encrypt k iv p) = Some p }.

Section crypto1.
Context `{!Primitives, !Legacy1}.

(** ** [enum Prf] *)
Inductive Prf := Sha1 | Sha256.

#[export] Instance Prf_eq_dec : EqDecision Prf.
Proof. solve_decision. Defined.

Definition output_len (p : Prf) : nat := match p with Sha1 => 20 | Sha256 => 32 end.
Definition mac (p : Prf) (key data : bytes) : bytes :=
  match p with Sha1 => hmac_sha1 key data | Sha256 => hmac_sha256 key data end.
Definition Prf_hash (p : Prf) (data : bytes) : bytes :=
  match p with Sha1 => sha1 data | Sha256 => sha256 data end.

Definition cat (parts : list bytes) : bytes := concat parts.

(** ** The key schedule of phase 1 *)
Definition skeyid_psk (p : Prf) (psk ni nr : bytes) : bytes := mac p psk (cat [ni; nr]).
Definition skeyid_d (p : Prf) (skeyid gxy cky_i cky_r : bytes) : bytes :=
  mac p skeyid (cat [gxy; cky_i; cky_r; [0]]).
Definition skeyid_a (p : Prf) (skeyid skeyid_d gxy cky_i cky_r : bytes) : bytes :=
  mac p skeyid (cat [skeyid_d; gxy; cky_i; cky_r; [1]]).
Definition skeyid_e (p : Prf) (skeyid skeyid_a gxy cky_i cky_r : bytes) : bytes :=
  mac p skeyid (cat [skeyid_a; gxy; cky_i; cky_r; [2]]).
Definition hash_i (p : Prf) (skeyid gx_i gx_r cky_i cky_r sa_b id_b : bytes) : bytes :=
  mac p skeyid (cat [gx_i; gx_r; cky_i; cky_r; sa_b; id_b]).
Definition hash_r (p : Prf) (skeyid gx_r gx_i cky_r cky_i sa_b id_b : bytes) : bytes :=
  mac p skeyid (cat [gx_r; gx_i; cky_r; cky_i; sa_b; id_b]).

(** ** Feedback expansion *)

(** [while out.len() < n { prev = step(prev); out.extend_from_slice(&prev); }], the loop
    of both expansions.  A block has at least one octet, so [n] turns are enough. *)
Fixpoint feedback_loop (step : bytes -> bytes) (n fuel : nat) (out prev : bytes) : bytes :=
  match fuel with
  | O => out
  | S f =>
      if decide (length out < n)%nat then
        let prev := step prev in feedback_loop step n f (out ++ prev) prev
      else out
  end.

Definition derive_cipher_key (p : Prf) (ske : bytes) (key_len : nat) : outcome bytes :=
  if decide (key_len <= length ske)%nat then slice ske 0 key_len else
  let prev := mac p ske [0] in
  let ka := feedback_loop (mac p ske) key_len key_len prev prev in
  Ok (take key_len ka).

Definition keymat (p : Prf) (skd : bytes) (protocol : Z) (spi ni nr : bytes) (out_len : nat) : bytes :=
  let seed := cat [[protocol]; spi; ni; nr] in
  let prev := mac p skd seed in
  let out := feedback_loop (fun prev => mac p skd (prev ++ seed)) out_len out_len prev prev in
  take out_len out.

(** ** Initialisation vectors *)
Definition phase1_iv (p : Prf) (gx_i gx_r : bytes) (block : nat) : bytes :=
  take block (Prf_hash p (cat [gx_i; gx_r])).
Definition phase2_iv (p : Prf) (iv : bytes) (message_id : Z) (block : nat) : bytes :=
  take block (Prf_hash p (cat [iv; be_bytes 4 message_id])).

(** ** Padding and encryption; [% block] panics when the block size is 0. *)
Definition pad_to_block (data : bytes) (block : nat) : outcome bytes :=
  if decide (block = 0%nat) then Panic else
  let rem := (length data mod block)%nat in
  Ok (if decide (rem <> 0%nat) then data ++ replicate (block - rem) 0 else data).

Definition aes256_cbc_encrypt (key iv plaintext : bytes) : outcome bytes :=
  if decide (length plaintext mod AES_BLOCK <> 0)%nat
  then Err (Crypto "CBC plaintext not block-aligned") else
  if negb (cbc_new key iv) then Err (Crypto "bad AES-CBC key/iv") else
  Ok (cbc_encrypt key iv plaintext).

Definition aes256_cbc_decrypt (key iv ciphertext : bytes) : outcome bytes :=
  if decide (ciphertext = [] \/ length ciphertext mod AES_BLOCK <> 0)%nat
  then Err (Crypto "CBC ciphertext not block-aligned") else
  if negb (cbc_new key iv) then Err (Crypto "bad AES-CBC key/iv") else
  ok_or (cbc_decrypt key iv ciphertext) (Crypto "AES-CBC decrypt failed").

(** [ciphertext[ciphertext.len().saturating_sub(block)..]] *)
Definition next_iv (ciphertext : bytes) (block : nat) : outcome bytes :=
  slice_from ciphertext (length ciphertext - block).
End crypto1.

(** CBC mode: every block is combined with the ciphertext block before it, so that
    encrypting a continuation starts from the last ciphertext block. *)
Class CbcMode `{!Legacy1} : Prop :=
  cbc_encrypt_app k iv a b : cbc_new k iv = true -> aligned a -> a <> [] -> aligned b ->
    cbc_encrypt k iv (a ++ b) =
    cbc_encrypt k iv a ++ cbc_encrypt k (drop (length (cbc_encrypt k iv a) - AES_BLOCK) (cbc_encrypt k iv a)) b.

(** ** Specification of the expansions (RFC 2409, section 5.5 and appendix B):
    [K1] is given and [K(n+1)] is computed from [K(n)]. *)
Fixpoint feedback_block (step : bytes -> bytes) (k1 : bytes) (n : nat) : bytes :=
  match n with O => k1 | S m => step (feedback_block step k1 m) end.

(** [K1 | K2 | ... | Kn] *)
Fixpoint feedback_stream (step : bytes -> bytes) (k1 : bytes) (n : nat) : bytes :=
  match n with O => [] | S m => feedback_stream step k1 m ++ feedback_block step k1 m end.

Section feedback.
Context (step : bytes -> bytes) (k1 : bytes) (L : nat).
Hypothesis (HL : (0 < L)%nat) (Hk1 : length k1 = L) (Hstep : forall b, length (step b) = L).

Lemma length_feedback_block n : length (feedback_block step k1 n) = L.
Proof. destruct n; [exact Hk1|apply Hstep]. Qed.

Lemma length_feedback_stream n : length (feedback_stream step k1 n) = (L * n)%nat.
Proof.
  induction n as [|n IH]; [cbn; lia|]. cbn [feedback_stream]. rewrite length_app, IH, length_feedback_block. lia.
Qed.

Lemma feedback_stream_prefix n m : (n <= m)%nat ->
  feedback_stream step k1 n `prefix_of` feedback_stream step k1 m.
Proof. induction 1 as [|m _ IH]; [done|]. cbn [feedback_stream]. by apply prefix_app_r. Qed.

Lemma take_feedback_stream k n m : (k <= L * n)%nat -> (k <= L * m)%nat ->
  take k (feedback_stream step k1 n) = take k (feedback_stream step k1 m).
Proof.
  assert (Hw : forall n m, (n <= m)%nat -> (k <= L * n)%nat ->
    take k (feedback_stream step k1 n) = take k (feedback_stream step k1 m)).
  { intros n' m' Hnm Hk. destruct (feedback_stream_prefix n' m' Hnm) as [r ->].
    by rewrite take_app_le by (rewrite length_feedback_stream; lia). }
  intros. destruct (decide (n <= m)%nat); [by apply Hw|]. symmetry. apply Hw; lia.
Qed.

Lemma feedback_loop_stream n fuel i : (n <= S i + fuel)%nat ->
  exists j, feedback_loop step n fuel (feedback_stream step k1 (S i)) (feedback_block step k1 i) =
    feedback_stream step k1 j /\ (n <= L * j)%nat.
Proof.
  revert i. induction fuel as [|fuel IH]; intros i Hf; [exists (S i); split; [done|nia]|].
  cbn [feedback_loop]. rewrite length_feedback_stream. case_decide; [|exists (S i); split; [done|lia]].
  apply (IH (S i)). lia.
Qed.

(** The loop produces the beginning of the key stream. *)
Lemma feedback_loop_correct n m : (n <= L * m)%nat ->
  take n (feedback_loop step n n k1 k1) = take n (feedback_stream step k1 m).
Proof.
  intros Hm. destruct (feedback_loop_stream n n 0) as (j & E & Hj); [lia|]. cbn in E.
  rewrite E. by apply take_feedback_stream.
Qed.

Lemma length_feedback n : length (take n (feedback_loop step n n k1 k1)) = n.
Proof. rewrite (feedback_loop_correct n n) by nia. rewrite length_take, length_feedback_stream. nia. Qed.

Lemma feedback_bytes n : bytes_ok k1 -> (forall b, bytes_ok (step b)) ->
  bytes_ok (take n (feedback_loop step n n k1 k1)).
Proof.
  intros H1 H2. rewrite (feedback_loop_correct n n) by nia. apply bytes_ok_take.
  assert (Hb : forall i, bytes_ok (feedback_block step k1 i)) by (intros [|i]; [exact H1|apply H2]).
  generalize n at 1. intros i. induction i as [|i IH]; [constructor|]. by apply bytes_ok_app.
Qed.
End feedback.

Section schedule.
Context `{!Primitives, !Legacy1, !HmacLaws, !HmacSha1Laws, !HashLaws}.

Lemma length_mac p k d : length (mac p k d) = output_len p.
Proof. destruct p; [apply hmac_sha1_length|apply hmac_length]. Qed.

Lemma mac_bytes p k d : bytes_ok (mac p k d).
Proof. destruct p; [apply hmac_sha1_bytes|apply hmac_bytes]. Qed.

Lemma output_len_pos p : (0 < output_len p)%nat.
Proof. destruct p; cbn; lia. Qed.

Lemma length_Prf_hash p d : length (Prf_hash p d) = output_len p.
Proof. destruct p; [apply sha1_length|apply sha256_length]. Qed.

Lemma Prf_hash_bytes p d : bytes_ok (Prf_hash p d).
Proof. destruct p; [apply sha1_bytes|apply sha256_bytes]. Qed.

Lemma length_keymat p skd proto spi ni nr n : length (keymat p skd proto spi ni nr n) = n.
Proof.
  apply (length_feedback _ _ (output_len p)); [apply output_len_pos|apply length_mac|intros; apply length_mac].
Qed.

Lemma keymat_bytes p skd proto spi ni nr n : bytes_ok (keymat p skd proto spi ni nr n).
Proof.
  apply (feedback_bytes _ _ (output_len p)); [apply output_len_pos|apply length_mac|intros; apply length_mac|..];
    intros; apply mac_bytes.
Qed.

Lemma derive_cipher_key_ok p ske n : bytes_ok ske ->
  exists k, derive_cipher_key p ske n = Ok k /\ length k = n /\ bytes_ok k.
Proof.
  intros Hb. unfold derive_cipher_key. case_decide.
  - rewrite slice_ok by lia. eexists. split; [reflexivity|]. rewrite drop_0, Nat.sub_0_r, length_take.
    split; [lia|auto with ryke].
  - eexists. split; [reflexivity|]. split.
    + apply (length_feedback _ _ (output_len p)); [apply output_len_pos|apply length_mac|intros; apply length_mac].
    + apply (feedback_bytes _ _ (output_len p)); [apply output_len_pos|apply length_mac|intros; apply length_mac|..];
        intros; apply mac_bytes.
Qed.

Lemma iv_ok p d : length (take AES_BLOCK (Prf_hash p d)) = AES_BLOCK /\ bytes_ok (take AES_BLOCK (Prf_hash p d)).
Proof.
  split; [|apply bytes_ok_take, Prf_hash_bytes]. rewrite length_take, length_Prf_hash. unfold AES_BLOCK.
  destruct p; cbn; lia.
Qed.
End schedule.

(** ** Padding and blocks *)
Definition pad_zeros (n : nat) : nat :=
  if decide (n mod AES_BLOCK = 0)%nat then 0 else AES_BLOCK - n mod AES_BLOCK.
Definition padded (d : bytes) : bytes := d ++ replicate (pad_zeros (length d)) 0.

Lemma pad_to_block_ok d : pad_to_block d AES_BLOCK = Ok (padded d).
Proof.
  unfold pad_to_block, padded, pad_zeros. rewrite decide_False by done.
  destruct (decide (length d mod AES_BLOCK = 0)%nat) as [E|E].
  - rewrite decide_False by (intros []; done). by rewrite app_nil_r.
  - by rewrite decide_True by done.
Qed.

Lemma padded_aligned d : aligned (padded d).
Proof.
  unfold aligned, padded, pad_zeros, AES_BLOCK. rewrite length_app, length_replicate.
  pose proof (Nat.mod_upper_bound (length d) 16 ltac:(lia)). case_decide as E.
  - by rewrite Nat.add_0_r.
  - rewrite (Nat.div_mod_eq (length d) 16) at 1.
    replace (16 * (length d / 16) + length d mod 16 + (16 - length d mod 16))%nat
      with ((length d / 16 + 1) * 16)%nat by lia. apply Nat.Div0.mod_mul.
Qed.

Lemma padded_bytes d : bytes_ok d -> bytes_ok (padded d).
Proof. intros. apply bytes_ok_app; [done|]. by apply Forall_replicate. Qed.

Lemma padded_nonempty d : d <> [] -> padded d <> [].
Proof. by destruct d. Qed.

Lemma aligned_block b : aligned b -> b <> [] -> (AES_BLOCK <= length b)%nat.
Proof.
  unfold aligned, AES_BLOCK. intros E Hb. destruct (decide (length b < 16)%nat) as [H|]; [|lia].
  rewrite Nat.mod_small in E by done. by destruct b.
Qed.

Lemma aligned_app a b : aligned a -> aligned b -> aligned (a ++ b).
Proof.
  unfold aligned, AES_BLOCK. intros Ha Hb. rewrite length_app, Nat.Div0.add_mod, Ha, Hb. done.
Qed.

Lemma next_iv_ok c : next_iv c AES_BLOCK = Ok (drop (length c - AES_BLOCK) c).
Proof. apply slice_from_ok. lia. Qed.

Section cbc.
Context `{!Legacy1, !CbcLaws}.
Implicit Types (k iv : bytes).

Definition cipher_ok k iv : Prop := length k = 32%nat /\ length iv = AES_BLOCK.

Lemma encrypt_ok k iv p : cipher_ok k iv -> aligned p ->
  aes256_cbc_encrypt k iv p = Ok (cbc_encrypt k iv p).
Proof.
  intros Hk Hp. unfold aes256_cbc_encrypt. rewrite decide_False by (by intros []).
  by rewrite (proj2 (cbc_new_spec k iv) Hk).
Qed.

Lemma encrypted_shape k iv p : cipher_ok k iv -> aligned p -> p <> [] ->
  aligned (cbc_encrypt k iv p) /\ cbc_encrypt k iv p <> [] /\ bytes_ok (cbc_encrypt k iv p).
Proof.
  intros Hk%cbc_new_spec Hp Hne. pose proof (cbc_encrypt_length k iv p Hk Hp) as Hl. split_and!; [|intros E|apply cbc_encrypt_bytes].
  - unfold aligned. by rewrite Hl.
  - rewrite E in Hl. by destruct p.
Qed.

Lemma decrypt_encrypted k iv p : cipher_ok k iv -> aligned p -> p <> [] -> bytes_ok p ->
  aes256_cbc_decrypt k iv (cbc_encrypt k iv p) = Ok p.
Proof.
  intros Hk Hp Hne Hb. destruct (encrypted_shape k iv p Hk Hp Hne) as (Ha & Hc & _).
  unfold aes256_cbc_decrypt. rewrite decide_False by (intros [?|[]]; done).
  rewrite (proj2 (cbc_new_spec k iv) Hk). cbn [negb].
  by rewrite cbc_decrypt_encrypt by (done || by apply cbc_new_spec).
Qed.

Lemma aes256_cbc_decrypt_wp k iv c : wp (aes256_cbc_decrypt k iv c) (fun p =>
  bytes_ok p /\ length p = length c /\ aligned c /\ c <> []).
Proof.
  unfold aes256_cbc_decrypt. case_decide as Hd; [done|]. destruct (cbc_new k iv) eqn:Hn; [|done].
  assert (Ha : aligned c) by (unfold aligned; destruct (decide (length c mod AES_BLOCK = 0)%nat); tauto).
  destruct (cbc_decrypt_some k iv c Hn Ha) as (p & E & Hl). cbn [negb]. rewrite E. cbn [ok_or wp].
  split_and!; [by eapply cbc_decrypt_bytes|done|done|]. intros ->. tauto.
Qed.

Lemma next_iv_length c : aligned c -> c <> [] -> length (drop (length c - AES_BLOCK) c) = AES_BLOCK.
Proof. intros Ha Hne. pose proof (aligned_block c Ha Hne). rewrite length_drop. lia. Qed.
End cbc.

(** ** Messages that are encrypted one after the other *)
Section chaining.
Context `{!Legacy1}.

(** The sender of a conversation: pad, encrypt, carry the last block over. *)
Fixpoint encrypt_messages (k iv : bytes) (msgs : list bytes) : outcome (list bytes) :=
  match msgs with
  | [] => Ok []
  | m :: rest =>
      p ← pad_to_block m AES_BLOCK;
      ct ← aes256_cbc_encrypt k iv p;
      iv' ← next_iv ct AES_BLOCK;
      cts ← encrypt_messages k iv' rest;
      Ok (ct :: cts)
  end.

Fixpoint decrypt_messages (k iv : bytes) (cts : list bytes) : outcome (list bytes) :=
  match cts with
  | [] => Ok []
  | ct :: rest =>
      p ← aes256_cbc_decrypt k iv ct;
      iv' ← next_iv ct AES_BLOCK;
      ps ← decrypt_messages k iv' rest;
      Ok (p :: ps)
  end.
End chaining.

(** ** A concrete instance: a shift of each block by the key and the block before *)
Definition toy_block (k iv b : bytes) : bytes :=
  zip_with (fun x y => (x + y) mod 256) b (zip_with Z.add iv (take AES_BLOCK k)).
Definition toy_unblock (k iv c : bytes) : bytes :=
  zip_with (fun x y => (x - y) mod 256) c (zip_with Z.add iv (take AES_BLOCK k)).

Fixpoint toy_cbc (blocks : nat) (k iv p : bytes) : bytes :=
  match blocks with
  | O => []
  | S n => let c := toy_block k iv (take AES_BLOCK p) in c ++ toy_cbc n k c (drop AES_BLOCK p)
  end.
Fixpoint toy_uncbc (blocks : nat) (k iv c : bytes) : bytes :=
  match blocks with
  | O => []
  | S n => toy_unblock k iv (take AES_BLOCK c) ++ toy_uncbc n k (take AES_BLOCK c) (drop AES_BLOCK c)
  end.

#[export] Instance toy1 : Legacy1 := {|
  hmac_sha1 k d := toy_digest 20 (k ++ [300] ++ d);
  cbc_new k iv := bool_decide (length k = 32%nat /\ length iv = 16%nat);
  cbc_encrypt k iv p := toy_cbc (length p / AES_BLOCK) k iv p;
  cbc_decrypt k iv c := Some (toy_uncbc (length c / AES_BLOCK) k iv c) |}.

#[export] Instance toy1_hmac : HmacSha1Laws.
Proof. split; intros; [apply length_be_bytes|apply be_bytes_ok]. Qed.

Lemma toy_block_length k iv b : (16 <= length k)%nat -> length iv = AES_BLOCK -> length b = AES_BLOCK ->
  length (toy_block k iv b) = AES_BLOCK.
Proof. unfold toy_block, AES_BLOCK. intros. rewrite !length_zip_with, length_take. lia. Qed.

Lemma toy_block_bytes k iv b : bytes_ok (toy_block k iv b).
Proof.
  unfold toy_block. generalize (zip_with Z.add iv (take AES_BLOCK k)). revert b.
  induction b as [|x b IH]; intros [|y l]; try constructor; [apply byte_ok_mod|apply IH].
Qed.

Lemma toy_unblock_bytes k iv b : bytes_ok (toy_unblock k iv b).
Proof.
  unfold toy_unblock. generalize (zip_with Z.add iv (take AES_BLOCK k)). revert b.
  induction b as [|x b IH]; intros [|y l]; try constructor; [apply byte_ok_mod|apply IH].
Qed.

Lemma toy_unblock_block k iv b : (16 <= length k)%nat -> length iv = AES_BLOCK -> length b = AES_BLOCK ->
  bytes_ok b -> toy_unblock k iv (toy_block k iv b) = b.
Proof.
  intros Hk Hiv Hb Hok. unfold toy_unblock, toy_block. set (z := zip_with Z.add iv (take AES_BLOCK k)).
  assert (Hz : length z = length b) by (unfold z; rewrite length_zip_with, length_take; unfold AES_BLOCK in *; lia).
  clearbody z. clear Hb Hk Hiv. revert z Hz. induction Hok as [|x b Hx _ IH]; intros [|y z] Hz; try done.
  cbn [zip_with]. rewrite Zminus_mod_idemp_l. f_equal; [|apply IH; by injection Hz].
  replace (x + y - y) with x by lia. by apply Z.mod_small.
Qed.

Lemma toy_cbc_length n k iv p : (16 <= length k)%nat -> length iv = AES_BLOCK ->
  length p = (AES_BLOCK * n)%nat -> length (toy_cbc n k iv p) = (AES_BLOCK * n)%nat.
Proof.
  intros Hk. revert iv p. induction n as [|n IH]; intros iv p Hiv Hp; [cbn; lia|].
  assert (Hb : length (take AES_BLOCK p) = AES_BLOCK) by (rewrite length_take; lia).
  pose proof (toy_block_length k iv _ Hk Hiv Hb) as Hc.
  cbn [toy_cbc]. rewrite length_app, Hc, IH; [lia|done|rewrite length_drop; lia].
Qed.

Lemma toy_cbc_bytes n k iv p : bytes_ok (toy_cbc n k iv p).
Proof.
  revert iv p. induction n as [|n IH]; intros; [constructor|]. apply bytes_ok_app; [apply toy_block_bytes|apply IH].
Qed.

Lemma toy_uncbc_bytes n k iv p : bytes_ok (toy_uncbc n k iv p).
Proof.
  revert iv p. induction n as [|n IH]; intros; [constructor|]. apply bytes_ok_app; [apply toy_unblock_bytes|apply IH].
Qed.

Lemma toy_uncbc_length n k iv p : (16 <= length k)%nat -> length iv = AES_BLOCK ->
  length p = (AES_BLOCK * n)%nat -> length (toy_uncbc n k iv p) = (AES_BLOCK * n)%nat.
Proof.
  intros Hk. revert iv p. induction n as [|n IH]; intros iv p Hiv Hp; [cbn; lia|].
  assert (Hb : length (take AES_BLOCK p) = AES_BLOCK) by (rewrite length_take; lia).
  cbn [toy_uncbc]. rewrite length_app, IH; [|done|rewrite length_drop; lia].
  unfold toy_unblock. rewrite !length_zip_with, !length_take. unfold AES_BLOCK in *. lia.
Qed.

Lemma toy_uncbc_cbc n k iv p : (16 <= length k)%nat -> length iv = AES_BLOCK ->
  length p = (AES_BLOCK * n)%nat -> bytes_ok p -> toy_uncbc n k iv (toy_cbc n k iv p) = p.
Proof.
  intros Hk. revert iv p. induction n as [|n IH]; intros iv p Hiv Hp Hok.
  { destruct p; [done|simpl in Hp; lia]. }
  assert (Hb : length (take AES_BLOCK p) = AES_BLOCK) by (rewrite length_take; lia).
  pose proof (toy_block_length k iv _ Hk Hiv Hb) as Hc. cbn [toy_cbc toy_uncbc].
  rewrite take_app_length', drop_app_length' by done.
  rewrite toy_unblock_block by auto with ryke. rewrite IH by (auto with ryke || rewrite length_drop; lia).
  apply take_drop.
Qed.

Lemma toy_cbc_app n m k iv a b : (16 <= length k)%nat -> length iv = AES_BLOCK ->
  length a = (AES_BLOCK * S n)%nat ->
  let ca := toy_cbc (S n) k iv a in
  toy_cbc (S n + m) k iv (a ++ b) = ca ++ toy_cbc m k (drop (length ca - AES_BLOCK) ca) b.
Proof.
  intros Hk. revert iv a. induction n as [|n IH]; intros iv a Hiv Ha; cbv zeta.
  - cbn [toy_cbc Nat.add]. rewrite take_app_length', drop_app_length' by lia.
    rewrite (firstn_all2 a) by lia. rewrite app_nil_r.
    rewrite toy_block_length by lia. by rewrite Nat.sub_diag, drop_0.
  - set (c := toy_block k iv (take AES_BLOCK a)).
    assert (Hb : length (take AES_BLOCK a) = AES_BLOCK) by (rewrite length_take; lia).
    assert (Hc : length c = AES_BLOCK) by (by apply toy_block_length).
    assert (Hd : length (drop AES_BLOCK a) = (AES_BLOCK * S n)%nat) by (rewrite length_drop; lia).
    change (toy_cbc (S (S n)) k iv a) with (c ++ toy_cbc (S n) k c (drop AES_BLOCK a)).
    change (toy_cbc (S (S n) + m) k iv (a ++ b)) with
      (toy_block k iv (take AES_BLOCK (a ++ b)) ++
       toy_cbc (S n + m) k (toy_block k iv (take AES_BLOCK (a ++ b))) (drop AES_BLOCK (a ++ b))).
    rewrite take_app_le, drop_app_le by lia. fold c. rewrite (IH c (drop AES_BLOCK a) Hc Hd).
    pose proof (toy_cbc_length (S n) k c _ Hk Hc Hd) as Hl. rewrite <- app_assoc. do 2 f_equal. f_equal.
    rewrite length_app, Hc, Hl, drop_app_ge by lia. f_equal. lia.
Qed.

#[export] Instance toy1_cbc : CbcLaws.
Proof.
  split; unfold aligned, AES_BLOCK in *; cbn [cbc_new cbc_encrypt cbc_decrypt toy1].
  - intros k iv. apply bool_decide_eq_true.
  - intros k iv p [Hk Hiv]%bool_decide_eq_true Hp. apply Nat.Div0.div_exact in Hp.
    rewrite toy_cbc_length; [done|lia|done|done].
  - intros. apply toy_cbc_bytes.
  - intros k iv c [Hk Hiv]%bool_decide_eq_true Hc. eexists. split; [reflexivity|].
    apply Nat.Div0.div_exact in Hc. rewrite toy_uncbc_length; [done|lia|done|done].
  - intros k iv c p [= <-]. apply toy_uncbc_bytes.
  - intros k iv p [Hk Hiv]%bool_decide_eq_true Hp Hb. apply Nat.Div0.div_exact in Hp.
    rewrite toy_cbc_length by (done || lia). rewrite Nat.mul_comm, Nat.div_mul by done.
    by rewrite toy_uncbc_cbc by (done || lia).
Qed.

#[export] Instance toy1_mode : CbcMode.
Proof.
  intros k iv a b [Hk Hiv]%bool_decide_eq_true Ha Hne Hb. unfold aligned, AES_BLOCK in *.
  cbn [cbc_encrypt toy1]. change AES_BLOCK with 16%nat. apply Nat.Div0.div_exact in Ha. rewrite length_app.
  destruct (length a / 16)%nat as [|n] eqn:E; [destruct a; [done|simpl in Ha; lia]|].
  replace ((length a + length b) / 16)%nat with (S n + length b / 16)%nat
    by (rewrite Ha, (Nat.mul_comm 16), Nat.div_add_l by done; lia).
  apply toy_cbc_app; [lia|done|done].
Qed.

(** ** Properties *)
Section properties.
Context `{!Primitives, !Legacy1}.

(** C37: The expansions of IKEv1 implement the RFC's recursions: KEYMAT has exactly the
    requested length and is the beginning of [K1 | K2 | ...] with
    [K1 = prf(SKEYID_d, seed)] and [K(n+1) = prf(SKEYID_d, K(n) | seed)]; the cipher key
    is the beginning of SKEYID_e when that is long enough, and otherwise the beginning
    of [K1 | K2 | ...] with [K1 = prf(SKEYID_e, 0)] and [K(n+1) = prf(SKEYID_e, K(n))].
    Both loops end with enough octets, whatever length is asked for. *)
Theorem ikev1_expansions_correct `{!HmacLaws, !HmacSha1Laws} p key proto spi ni nr n m :
  (n <= output_len p * m)%nat ->
  (length (keymat p key proto spi ni nr n) = n /\
   keymat p key proto spi ni nr n =
     take n (feedback_stream (fun k => mac p key (k ++ [proto] ++ spi ++ ni ++ nr))
       (mac p key ([proto] ++ spi ++ ni ++ nr)) m)) /\
  derive_cipher_key p key n =
    Ok (if decide (n <= length key)%nat then take n key
        else take n (feedback_stream (mac p key) (mac p key [0]) m)).
Proof.
  intros Hn. pose proof (output_len_pos p) as Hp. split_and!.
  - apply length_keymat.
  - unfold keymat. rewrite (feedback_loop_correct _ _ (output_len p) Hp (length_mac _ _ _) (fun _ => length_mac _ _ _) n m Hn).
    by unfold cat; cbn [concat]; rewrite app_nil_r.
  - unfold derive_cipher_key. case_decide.
    + rewrite slice_ok by lia. by rewrite drop_0, Nat.sub_0_r.
    + cbv zeta. by rewrite (feedback_loop_correct _ _ (output_len p) Hp (length_mac _ _ _) (length_mac p key) n m Hn).
Qed.

(** C36: Chaining the IV from message to message is one long CBC encryption: when the
    messages of a conversation are padded and encrypted one after the other, each
    with the last ciphertext block of the message before as its IV, then nothing
    fails, the ciphertexts in sequence are the CBC encryption of the padded messages
    in sequence under the first IV, and the receiver who chains in the same way gets
    every message back, with its padding. *)
Theorem cbc_chaining `{!CbcLaws, !CbcMode} k iv msgs : cipher_ok k iv ->
  Forall (fun m => bytes_ok m /\ m <> []) msgs ->
  exists cts, encrypt_messages k iv msgs = Ok cts /\
    concat cts = cbc_encrypt k iv (concat (padded <$> msgs)) /\
    decrypt_messages k iv cts = Ok (padded <$> msgs).
Proof.
  intros Hk Hm. revert iv Hk. induction Hm as [|m msgs [Hb Hne] _ IH]; intros iv Hk.
  { exists []. split_and!; [done| |done]. symmetry. apply length_zero_iff_nil. cbn.
    by rewrite cbc_encrypt_length by (done || by apply cbc_new_spec). }
  pose proof (padded_aligned m) as Hp. pose proof (padded_nonempty m Hne) as Hpn.
  pose proof (encrypted_shape k iv _ Hk Hp Hpn) as (Ha & Hc & _).
  set (c := cbc_encrypt k iv (padded m)) in *. set (iv' := drop (length c - AES_BLOCK) c).
  assert (Hk' : cipher_ok k iv') by (split; [apply Hk|by apply next_iv_length]).
  destruct (IH iv' Hk') as (cts & E1 & E2 & E3). exists (c :: cts). split_and!.
  - cbn [encrypt_messages]. rewrite pad_to_block_ok. cbn [mbind outcome_bind].
    rewrite encrypt_ok by done. cbn [mbind outcome_bind]. fold c. rewrite next_iv_ok. cbn [mbind outcome_bind].
    fold iv'. by rewrite E1.
  - cbn [concat fmap list_fmap]. rewrite cbc_encrypt_app; [|by apply cbc_new_spec|done|done|].
    + fold c. fold iv'. by rewrite E2.
    + clear. induction msgs as [|m msgs IH]; [done|]. apply aligned_app; [apply padded_aligned|exact IH].
  - cbn [decrypt_messages]. rewrite (decrypt_encrypted k iv (padded m) Hk Hp Hpn (padded_bytes m Hb) : aes256_cbc_decrypt k iv c = _).
    cbn [mbind outcome_bind]. rewrite next_iv_ok. cbn [mbind outcome_bind]. fold iv'. by rewrite E3.
Qed.
End properties.

Lemma ikev1_expansions_correct_witness : exists k, derive_cipher_key Sha1 (replicate 20 7) 32 = Ok k /\
  k = take 32 (feedback_stream (mac Sha1 (replicate 20 7)) (mac Sha1 (replicate 20 7) [0]) 2).
Proof.
  destruct (ikev1_expansions_correct Sha1 (replicate 20 7) 3 [1; 2; 3; 4] [5] [6] 32 2) as [_ H]; [cbn; lia|].
  eexists. split; [exact H|reflexivity].
Defined.

Lemma cbc_chaining_witness : exists c1 c2,
  encrypt_messages (replicate 32 1) (replicate 16 2) [[1; 2; 3]; [4; 5]] = Ok [c1; c2] /\
  c1 ++ c2 = cbc_encrypt (replicate 32 1) (replicate 16 2) (padded [1; 2; 3] ++ padded [4; 5]).
Proof.
  destruct (cbc_chaining (replicate 32 1) (replicate 16 2) [[1; 2; 3]; [4; 5]]) as (cts & H1 & H2 & _);
    [done|by repeat constructor|].
  vm_compute in H1. injection H1 as <-. eexists _, _. split; [reflexivity|].
  cbn [concat fmap list_fmap] in H2. rewrite !app_nil_r in H2. exact H2.
Defined.
