(* ===== verification/Phase2.v ===== *)
(** * Encrypted ISAKMP messages ([src/src/ikev1/phase2.rs])

    Messages after phase 1 carry a HASH payload first and are encrypted with
    AES-256-CBC under the phase-1 key, with an IV per message id that is chained from
    message to message. *)
From S2P Require Import Prelude Outcome Primitives Isakmp Crypto1.

Section phase2.
Context `{!Primitives, !Legacy1}.

(** The common end of [build_encrypted_prefixed] and [encrypt_payloads]: encode, pad,
    encrypt, and complete the header. *)
Definition seal_payloads (header : IsakmpHeader) (enc_key iv : bytes) (payloads : list (Z * bytes))
    : outcome (bytes * bytes) :=
  let '(first, plaintext) := encode_payloads payloads in
  padded ← pad_to_block plaintext AES_BLOCK;
  ct ← aes256_cbc_encrypt enc_key iv padded;
  next ← next_iv ct AES_BLOCK;
  let header := put_next_payload first header in
  let header := put_flags (Z.lor (hdr_flags header) flags.ENCRYPTION) header in
  let header := put_length (as_u32 (Z.of_nat (IsakmpHeader_LEN + length ct))) header in
  Ok (IsakmpHeader_to_bytes header ++ ct, next).

Definition build_encrypted_prefixed (header : IsakmpHeader) (p : Prf) (skeyid_a enc_key iv hash_prefix : bytes)
    (payloads_after_hash : list (Z * bytes)) : outcome (bytes * bytes) :=
  let '(_, after_body) := encode_payloads payloads_after_hash in
  let hi := be_bytes 4 (message_id header) ++ hash_prefix ++ after_body in
  let hash := mac p skeyid_a hi in
  let all := (payload.HASH, hash) :: payloads_after_hash in
  seal_payloads header enc_key iv all.

Definition build_encrypted (header : IsakmpHeader) (p : Prf) (skeyid_a enc_key iv : bytes)
    (payloads_after_hash : list (Z * bytes)) : outcome (bytes * bytes) :=
  build_encrypted_prefixed header p skeyid_a enc_key iv [] payloads_after_hash.

Definition encrypt_payloads (header : IsakmpHeader) (enc_key iv : bytes) (payloads : list (Z * bytes))
    : outcome (bytes * bytes) :=
  seal_payloads header enc_key iv payloads.

Definition decrypt_payloads (data enc_key iv : bytes) : outcome (IsakmpHeader * list Payload * bytes) :=
  header ← IsakmpHeader_parse data;
  ct ← slice_from data IsakmpHeader_LEN;
  plaintext ← aes256_cbc_decrypt enc_key iv ct;
  next ← next_iv ct AES_BLOCK;
  payloads ← parse_payloads (next_payload header) plaintext;
  Ok (header, payloads, next).

(** [payloads.iter().filter(|p| p.payload_type != HASH).map(|p| (p.payload_type, p.data.clone()))] *)
Definition after_hash (ps : list Payload) : list (Z * bytes) :=
  of_payload <$> filter (fun p => payload_type p <> payload.HASH) ps.

Definition parse_encrypted (data : bytes) (p : Prf) (skeyid_a enc_key iv : bytes)
    : outcome (IsakmpHeader * list Payload * bytes) :=
  header ← IsakmpHeader_parse data;
  ct ← slice_from data IsakmpHeader_LEN;
  plaintext ← aes256_cbc_decrypt enc_key iv ct;
  next ← next_iv ct AES_BLOCK;
  payloads ← parse_payloads (next_payload header) plaintext;
  hash_p ← ok_or (find_payload payloads payload.HASH) (MissingPayload "HASH");
  let '(_, after_body) := encode_payloads (after_hash payloads) in
  let hi := be_bytes 4 (message_id header) ++ after_body in
  if decide (p_data hash_p <> mac p skeyid_a hi) then Err AuthFailed else
  Ok (header, payloads, next).
End phase2.

(** ** Sealing and opening *)
Section lemmas.
Context `{!Primitives, !Legacy1, !CbcLaws}.

(** The header a sealed message carries. *)
Definition sealed_header (h : IsakmpHeader) (ps : list (Z * bytes)) : IsakmpHeader :=
  put_length (as_u32 (Z.of_nat (IsakmpHeader_LEN + length (padded (encode_body ps)))))
    (put_flags (Z.lor (hdr_flags h) flags.ENCRYPTION) (put_next_payload (first_type ps) h)).

Lemma lor_bound n a b : 0 < n -> 0 <= a < 2 ^ n -> 0 <= b < 2 ^ n -> 0 <= Z.lor a b < 2 ^ n.
Proof.
  intros Hn [Ha1 Ha2] [Hb1 Hb2]. split; [apply Z.lor_nonneg; lia|].
  apply Z.log2_lt_cancel. rewrite Z.log2_lor, Z.log2_pow2 by lia.
  assert (Hl : forall x, 0 <= x -> x < 2 ^ n -> Z.log2 x < n).
  { intros x Hx1 Hx2. destruct (decide (x = 0)) as [->|]; [done|]. apply Z.log2_lt_pow2; [lia|exact Hx2]. }
  apply Z.max_lub_lt; auto.
Qed.

Lemma lor_byte a b : byte_ok a -> byte_ok b -> byte_ok (Z.lor a b).
Proof. by apply (lor_bound 8). Qed.

Lemma sealed_header_wf h ps : IsakmpHeader_wf h -> Forall enc_wf ps -> IsakmpHeader_wf (sealed_header h ps).
Proof.
  intros [? ? ? ? ? Hf ? ?] Hps. constructor; try done; cbn.
  - by apply first_type_ok.
  - by apply lor_byte.
  - by apply Z.mod_pos_bound.
Qed.

Lemma sealed_encrypted h ps : byte_ok (hdr_flags h) -> encrypted (sealed_header h ps) = true.
Proof.
  intros Hf. unfold encrypted. cbn [sealed_header put_length put_flags hdr_flags].
  rewrite Z.land_lor_distr_l. change (Z.land flags.ENCRYPTION flags.ENCRYPTION) with 1.
  destruct (Z.eqb_spec (Z.lor (Z.land (hdr_flags h) flags.ENCRYPTION) 1) 0) as [E|]; [|done].
  by apply Z.lor_eq_0_iff in E as [_ ?].
Qed.

Lemma encode_body_nonempty ps : ps <> [] -> encode_body ps <> [].
Proof. by destruct ps as [|[t d] ps]. Qed.

(** Sealing may fail, on a key or IV of a wrong length, but never panics. *)
Lemma seal_payloads_safe h k iv ps : seal_payloads h k iv ps <> Panic.
Proof.
  unfold seal_payloads. cbn [encode_payloads]. rewrite pad_to_block_ok. cbn [mbind outcome_bind].
  unfold aes256_cbc_encrypt. case_decide; [done|]. destruct (negb _); [done|]. cbn [mbind outcome_bind].
  by rewrite next_iv_ok.
Qed.

(** What sealing yields, and that opening inverts it. *)
Lemma seal_payloads_ok h k iv ps : IsakmpHeader_wf h -> cipher_ok k iv -> Forall enc_wf ps -> ps <> [] ->
  exists msg next, seal_payloads h k iv ps = Ok (msg, next) /\ bytes_ok msg /\
    length next = AES_BLOCK /\ bytes_ok next /\
    IsakmpHeader_parse msg = Ok (sealed_header h ps) /\
    decrypt_payloads msg k iv = Ok (sealed_header h ps, to_payload <$> ps, next).
Proof.
  intros Hh Hk Hps Hne. pose proof (encode_body_ok ps Hps) as Hb.
  pose proof (padded_aligned (encode_body ps)) as Hp. set (pt := padded (encode_body ps)) in *.
  assert (Hpn : pt <> []) by (by apply padded_nonempty, encode_body_nonempty).
  assert (Hpb : bytes_ok pt) by (by apply padded_bytes).
  destruct (encrypted_shape k iv pt Hk Hp Hpn) as (Ha & Hc & Hcb).
  assert (Hl : length (cbc_encrypt k iv pt) = length pt)
    by (apply cbc_encrypt_length; [by apply cbc_new_spec|done]).
  set (c := cbc_encrypt k iv pt) in *.
  pose proof (sealed_header_wf h ps Hh Hps) as Hw.
  assert (Hlen : length (IsakmpHeader_to_bytes (sealed_header h ps)) = IsakmpHeader_LEN)
    by by apply length_IsakmpHeader_to_bytes.
  pose proof (IsakmpHeader_parse_app (sealed_header h ps) c Hw) as Hparse.
  exists (IsakmpHeader_to_bytes (sealed_header h ps) ++ c), (drop (length c - AES_BLOCK) c). split_and!.
  - unfold seal_payloads. cbn [encode_payloads]. rewrite pad_to_block_ok. cbn [mbind outcome_bind]. fold pt.
    rewrite encrypt_ok by done. cbn [mbind outcome_bind]. fold c. rewrite next_iv_ok. cbn [mbind outcome_bind].
    rewrite Hl. done.
  - apply bytes_ok_app; [by apply IsakmpHeader_to_bytes_ok|done].
  - by apply next_iv_length.
  - auto with ryke.
  - done.
  - unfold decrypt_payloads. rewrite Hparse. cbn [mbind outcome_bind].
    rewrite slice_from_app by done. cbn [mbind outcome_bind].
    rewrite (decrypt_encrypted k iv pt Hk Hp Hpn Hpb : aes256_cbc_decrypt k iv c = _). cbn [mbind outcome_bind].
    rewrite next_iv_ok. cbn [mbind outcome_bind].
    rewrite (parse_encoded ps (replicate (pad_zeros (length (encode_body ps))) 0) :
      _ -> _ -> parse_payloads (next_payload (sealed_header h ps)) pt = _); [done|done|by apply Forall_replicate].
Qed.
End lemmas.

Section opening.
Context `{!Primitives, !Legacy1, !CbcLaws}.

Lemma decrypt_payloads_wp data k iv : bytes_ok data ->
  wp (decrypt_payloads data k iv) (fun '(h, ps, next) =>
    IsakmpHeader_wf h /\ IsakmpHeader_parse data = Ok h /\ Forall payload_wf ps /\
    length next = AES_BLOCK /\ bytes_ok next).
Proof.
  intros Hd. unfold decrypt_payloads. apply wp_bind.
  eapply wp_mono; [|by apply wp_eq, IsakmpHeader_parse_wp]. intros h [[Hh Hl] Eh].
  apply wp_bind, wp_slice_from; [done|]. set (ct := drop IsakmpHeader_LEN data).
  apply wp_bind. eapply wp_mono; [|apply aes256_cbc_decrypt_wp]. intros pt (Hb & _ & Ha & Hne).
  rewrite next_iv_ok. cbn [mbind outcome_bind]. apply wp_bind.
  eapply wp_mono; [|by apply parse_payloads_wp]. intros ps [Hps _]. cbn [wp].
  split_and!; [done|done|done|by apply next_iv_length|]. unfold ct. auto with ryke.
Qed.

(** The HASH payload of a message covers the message id, [prefix] and the other
    payloads. *)
Definition hash_valid (p : Prf) (ska prefix : bytes) (mid : Z) (ps : list Payload) : Prop :=
  exists hash_p, find_payload ps payload.HASH = Some hash_p /\
    p_data hash_p = mac p ska (be_bytes 4 mid ++ prefix ++ encode_body (after_hash ps)).

Lemma parse_encrypted_bind data p ska k iv : parse_encrypted data p ska k iv =
  ('(h, ps, next) ← decrypt_payloads data k iv;
   hash_p ← ok_or (find_payload ps payload.HASH) (MissingPayload "HASH");
   if decide (p_data hash_p <> mac p ska (be_bytes 4 (message_id h) ++ encode_body (after_hash ps)))
   then Err AuthFailed else Ok (h, ps, next)).
Proof.
  unfold parse_encrypted, decrypt_payloads.
  destruct (IsakmpHeader_parse data) as [h| |]; [|done..]. cbn [mbind outcome_bind].
  destruct (slice_from data _) as [ct| |]; [|done..]. cbn [mbind outcome_bind].
  destruct (aes256_cbc_decrypt k iv ct) as [pt| |]; [|done..]. cbn [mbind outcome_bind].
  destruct (next_iv ct _) as [next| |]; [|done..]. cbn [mbind outcome_bind].
  by destruct (parse_payloads _ pt).
Qed.

Lemma parse_encrypted_Ok data p ska k iv h ps next :
  parse_encrypted data p ska k iv = Ok (h, ps, next) <->
  decrypt_payloads data k iv = Ok (h, ps, next) /\ hash_valid p ska [] (message_id h) ps.
Proof.
  rewrite parse_encrypted_bind. unfold hash_valid. split.
  - intros ([[h' ps'] next'] & E & Hr)%bind_Ok. apply bind_Ok in Hr as (hp & Hf%ok_or_Ok & Hr).
    case_decide as Hd; [done|]. injection Hr as <- <- <-. split; [done|]. exists hp.
    by split.
  - intros [-> (hp & Hf & Hd)]. cbn [mbind outcome_bind]. rewrite Hf. cbn [ok_or mbind outcome_bind].
    rewrite decide_False; [done|]. by intros [].
Qed.

Lemma parse_encrypted_safe data p ska k iv : bytes_ok data -> parse_encrypted data p ska k iv <> Panic.
Proof.
  intros Hd. rewrite parse_encrypted_bind. apply (wp_safe _ (fun _ => True)).
  apply wp_bind. eapply wp_mono; [|by apply decrypt_payloads_wp]. intros [[h ps] next] _.
  apply wp_bind, wp_ok_or. intros hp _. by case_decide.
Qed.
End opening.

(** ** The HASH of a message that is built here verifies *)
Section hashing.
Context `{!Primitives, !Legacy1, !CbcLaws, !HmacLaws, !HmacSha1Laws}.

Lemma mac_enc_wf p k d : enc_wf (payload.HASH, mac p k d).
Proof.
  split_and!; [done|done|apply mac_bytes|]. cbn [snd]. rewrite length_mac. destruct p; cbn; lia.
Qed.

Definition no_hash (ps : list (Z * bytes)) : Prop := Forall (fun p => p.1 <> payload.HASH) ps.

Lemma after_hash_built hash ps : no_hash ps ->
  after_hash (to_payload <$> ((payload.HASH, hash) :: ps)) = ps.
Proof.
  intros Hn. unfold after_hash. cbn [fmap list_fmap]. rewrite filter_cons_False by (by intros []).
  induction Hn as [|[t d] ps Hp _ IH]; [done|]. cbn [fmap list_fmap]. rewrite filter_cons_True by done.
  cbn [fmap list_fmap]. f_equal. exact IH.
Qed.

Lemma build_encrypted_prefixed_ok h p ska k iv prefix after :
  IsakmpHeader_wf h -> cipher_ok k iv -> Forall enc_wf after -> no_hash after ->
  exists msg next ps, build_encrypted_prefixed h p ska k iv prefix after = Ok (msg, next) /\
    bytes_ok msg /\ length next = AES_BLOCK /\ bytes_ok next /\
    ps = (to_payload <$>
      ((payload.HASH, mac p ska (be_bytes 4 (message_id h) ++ prefix ++ encode_body after)) :: after)) /\
    exists h', message_id h' = message_id h /\ exchange_type h' = exchange_type h /\
      init_cookie h' = init_cookie h /\ encrypted h' = true /\ IsakmpHeader_parse msg = Ok h' /\
      decrypt_payloads msg k iv = Ok (h', ps, next) /\ hash_valid p ska prefix (message_id h) ps.
Proof.
  intros Hh Hk Ha Hn. set (hash := mac p ska _).
  destruct (seal_payloads_ok h k iv ((payload.HASH, hash) :: after)) as (msg & next & E1 & Hm & Ln & Hnx & E2 & E3);
    [done|done|constructor; [apply mac_enc_wf|done]|done|].
  exists msg, next, (to_payload <$> ((payload.HASH, hash) :: after)).
  split_and!; [exact E1|done|done|done|done|]. eexists.
  split_and!; [| | | |exact E2|exact E3|]; try done; [apply sealed_encrypted, Hh|].
  eexists. split; [reflexivity|]. cbn [p_data to_payload snd]. by rewrite after_hash_built.
Qed.
End hashing.

(** ** Properties *)
Section properties.
Context `{!Primitives, !Legacy1, !CbcLaws, !HmacLaws, !HmacSha1Laws}.

(** C35: Encrypted IKEv1 messages are delivered and verified: what [build_encrypted]
    makes of payloads that fit their length fields (none of them a HASH) is opened by
    [parse_encrypted], under the same keys and IV, to the HASH followed by exactly these
    payloads, with the encryption flag set, the same message id, and the same IV for the
    next message of the conversation.  And whatever octets arrive, [parse_encrypted]
    does not panic, and it accepts exactly the messages that decrypt to a payload chain
    whose first HASH payload is the PRF, under SKEYID_a, of the message id and of all
    payloads that are not a HASH. *)
Theorem phase2_protection p ska k iv :
  (forall h after, IsakmpHeader_wf h -> cipher_ok k iv -> Forall enc_wf after -> no_hash after ->
     exists msg next h' hash, build_encrypted h p ska k iv after = Ok (msg, next) /\
       length next = AES_BLOCK /\ message_id h' = message_id h /\ encrypted h' = true /\
       parse_encrypted msg p ska k iv = Ok (h', mkPayload payload.HASH hash :: (to_payload <$> after), next)) /\
  (forall data, bytes_ok data -> parse_encrypted data p ska k iv <> Panic /\
     forall h ps next, parse_encrypted data p ska k iv = Ok (h, ps, next) <->
       decrypt_payloads data k iv = Ok (h, ps, next) /\
       exists hash, find_payload ps payload.HASH = Some (mkPayload payload.HASH hash) /\
         hash = mac p ska (be_bytes 4 (message_id h) ++ encode_body (after_hash ps))).
Proof.
  split.
  - intros h after Hh Hk Ha Hn.
    destruct (build_encrypted_prefixed_ok h p ska k iv [] after)
      as (msg & next & ps & E1 & _ & Ln & _ & Eps & h' & Em & _ & _ & Ee & _ & E2 & Hv); try done.
    eexists msg, next, h', _. split_and!; [exact E1|done|done|done|].
    subst ps. apply parse_encrypted_Ok. rewrite Em. split; [exact E2|exact Hv].
  - intros data Hd. split; [by apply parse_encrypted_safe|]. intros h ps next. rewrite parse_encrypted_Ok.
    unfold hash_valid. split; intros [E (hp & Hf & Hh)]; (split; [done|]).
    + pose proof (List.find_some _ _ Hf) as [_ Ht%Z.eqb_eq]. destruct hp as [t d]. cbn in Ht. subst t.
      exists d. split; [done|exact Hh].
    + eexists. split; [exact Hf|exact Hh].
Qed.
End properties.

Lemma phase2_protection_witness : exists msg next h' hash,
  build_encrypted example_isakmp Sha256 (replicate 32 1) (replicate 32 2) (replicate 16 3)
    [(payload.ATTRIBUTE, [1; 0; 0; 0])] = Ok (msg, next) /\
  parse_encrypted msg Sha256 (replicate 32 1) (replicate 32 2) (replicate 16 3) =
    Ok (h', [mkPayload payload.HASH hash; mkPayload payload.ATTRIBUTE [1; 0; 0; 0]], next).
Proof.
  destruct (phase2_protection Sha256 (replicate 32 1) (replicate 32 2) (replicate 16 3)) as [H _].
  destruct (H example_isakmp [(payload.ATTRIBUTE, [1; 0; 0; 0])] example_isakmp_wf)
    as (msg & next & h' & hash & E1 & _ & _ & _ & E2); [done|by repeat constructor|by repeat constructor|].
  exists msg, next, h', hash. exact (conj E1 E2).
Defined.
