(* ===== verification/Phase1.v ===== *)
(** * IKEv1 phase 1: Aggressive Mode with a pre-shared key ([src/src/ikev1/phase1.rs])

    Both roles.  The responder answers message 1 (SA, KE, Ni, IDi) with message 2 (SA,
    KE, Nr, IDr, HASH_R); the initiator checks HASH_R and sends HASH_I, which the
    responder verifies.  Functions that draw randomness are actions on the state of
    the generator, which keeps what was drawn when a later step fails. *)
From S2P Require Import Prelude Outcome Primitives Entropy Crypto Transport Isakmp Payloads1 Crypto1.

Definition XAUTH_VENDOR_ID : bytes := [0x09; 0x00; 0x26; 0x89; 0xdf; 0xd6; 0xb7; 0x12].

(** [(65001..=65010).contains(&method)] *)
Definition is_xauth_auth (method : Z) : bool := bool_decide (65001 <= method <= 65010).

Record Phase1Config := mkPhase1Config { c1_psk : bytes; c1_our_id : Id }.

Record Phase1State := mkPhase1State {
  p1_prf : Prf;
  p1_group : DhGroup;
  p1_cky_i : bytes;
  p1_cky_r : bytes;
  p1_skeyid : bytes;
  p1_skeyid_d : bytes;
  p1_skeyid_a : bytes;
  p1_skeyid_e : bytes;
  p1_enc_key : bytes;
  p1_iv : bytes;
  p1_gxi : bytes;
  p1_gxr : bytes;
  p1_ni : bytes;
  p1_nr : bytes;
  p1_sai_b : bytes;
  p1_idii_b : bytes }.

(** ** Selection of a transform *)

(** The body of the inner loop of [select_transform]; [None] is [continue]. *)
Definition try_transform (t : Transform) : option (Transform * Prf * DhGroup * nat) :=
  if decide (Transform_attr t attr.ENCRYPTION <> Some enc.AES_CBC \/
             Transform_attr t attr.KEY_LENGTH <> Some 256) then None else
  prf ← (if decide (Transform_attr t attr.HASH = Some hash.SHA2_256) then Some Sha256 else
         if decide (Transform_attr t attr.HASH = Some hash.SHA1) then Some Sha1 else None);
  group ← (if decide (Transform_attr t attr.GROUP_DESC = Some 2) then Some Modp1024 else
           if decide (Transform_attr t attr.GROUP_DESC = Some 14) then Some Modp2048 else None);
  if decide (Transform_attr t attr.AUTH_METHOD = Some auth.PSK \/
             Transform_attr t attr.AUTH_METHOD = Some auth.XAUTH_INIT_PSK)
  then Some (t, prf, group, 32%nat) else None.

Fixpoint select_in_proposal (ts : list Transform) : option (Transform * Prf * DhGroup * nat) :=
  match ts with
  | [] => None
  | t :: rest => match try_transform t with Some r => Some r | None => select_in_proposal rest end
  end.

Fixpoint select_in_proposals (ps : list Proposal) : option (Transform * Prf * DhGroup * nat) :=
  match ps with
  | [] => None
  | p :: rest => match select_in_proposal (transforms p) with Some r => Some r | None => select_in_proposals rest end
  end.

Definition select_transform (sa : SaPayload) : option (Transform * Prf * DhGroup * nat) :=
  select_in_proposals (proposals sa).

(** A header of an Aggressive Mode message; the first payload and the length are
    filled in by [build_message]. *)
Definition aggressive_header (cky_i cky_r : bytes) : IsakmpHeader :=
  {| init_cookie := cky_i; resp_cookie := cky_r; next_payload := payload.NONE; version := VERSION_1_0;
     exchange_type := exchange.AGGRESSIVE; hdr_flags := 0; message_id := 0; hdr_length := 0 |}.

Section phase1.
Context `{!Primitives, !Legacy1, Entropy G}.
Open Scope action_scope.

(** ** The responder *)

(** What [respond_aggressive] reads from message 1 before it draws its own values. *)
Record Message1 := mkMessage1 {
  m1_cky_i : bytes; m1_sai_b : bytes; m1_idii_b : bytes; m1_gxi : bytes; m1_ni : bytes; m1_sa : SaPayload;
  m1_chosen : Transform; m1_prf : Prf; m1_group : DhGroup; m1_key_len : nat }.

Definition read_message1 (msg1 : bytes) : outcome Message1 :=
  hdr ← IsakmpHeader_parse msg1;
  if decide (exchange_type hdr <> exchange.AGGRESSIVE)
  then Err (Crypto "not an Aggressive Mode message") else
  body ← slice_from msg1 IsakmpHeader_LEN;
  ps ← parse_payloads (next_payload hdr) body;
  sa_p ← ok_or (find_payload ps payload.SA) (MissingPayload "SA");
  ke_p ← ok_or (find_payload ps payload.KE) (MissingPayload "KE");
  nonce_p ← ok_or (find_payload ps payload.NONCE) (MissingPayload "NONCE");
  id_p ← ok_or (find_payload ps payload.ID) (MissingPayload "ID");
  sa ← SaPayload_parse (p_data sa_p);
  '(chosen, prf, group, key_len) ← ok_or (select_transform sa) NoProposalChosen;
  if decide (length (p_data ke_p) <> public_len group)
  then Err (BadKeyExchange (DhGroup_transform_id group) (length (p_data ke_p))) else
  Ok {| m1_cky_i := init_cookie hdr; m1_sai_b := p_data sa_p; m1_idii_b := p_data id_p;
        m1_gxi := p_data ke_p; m1_ni := p_data nonce_p; m1_sa := sa; m1_chosen := chosen;
        m1_prf := prf; m1_group := group; m1_key_len := key_len |}.

(** The rest of [respond_aggressive], with the values drawn. *)
Definition answer_message1 (cfg : Phase1Config) (m : Message1) (cky_r dh_private nr : bytes)
    : outcome (bytes * Phase1State) :=
  let prf := m1_prf m in
  let cky_i := m1_cky_i m in
  let gxi := m1_gxi m in
  let ni := m1_ni m in
  gxr ← DhGroup_public (m1_group m) dh_private;
  gxy ← DhGroup_shared (m1_group m) dh_private gxi;
  let skeyid := skeyid_psk prf (c1_psk cfg) ni nr in
  let skd := skeyid_d prf skeyid gxy cky_i cky_r in
  let ska := skeyid_a prf skeyid skd gxy cky_i cky_r in
  let ske := skeyid_e prf skeyid ska gxy cky_i cky_r in
  enc_key ← derive_cipher_key prf ske (m1_key_len m);
  let iv := phase1_iv prf gxi gxr AES_BLOCK in
  let idir_b := Id_to_bytes (c1_our_id cfg) in
  let hr := hash_r prf skeyid gxr gxi cky_r cky_i (m1_sai_b m) idir_b in
  let chosen_auth := default 0 (Transform_attr (m1_chosen m) attr.AUTH_METHOD) in
  let sar := {| doi := doi (m1_sa m); situation := situation (m1_sa m);
                proposals := [ {| prop_num := 1; protocol_id := protocol.ISAKMP; prop_spi := [];
                                  transforms := [m1_chosen m] |} ] |} in
  let out_payloads :=
    [(payload.SA, SaPayload_to_bytes sar); (payload.KE, gxr); (payload.NONCE, nr); (payload.ID, idir_b);
     (payload.HASH, hr)] ++
    (if is_xauth_auth chosen_auth then [(payload.VENDOR_ID, XAUTH_VENDOR_ID)] else []) in
  let msg2 := build_message (aggressive_header cky_i cky_r) out_payloads in
  Ok (msg2, {| p1_prf := prf; p1_group := m1_group m; p1_cky_i := cky_i; p1_cky_r := cky_r; p1_skeyid := skeyid;
               p1_skeyid_d := skd; p1_skeyid_a := ska; p1_skeyid_e := ske; p1_enc_key := enc_key; p1_iv := iv;
               p1_gxi := gxi; p1_gxr := gxr; p1_ni := ni; p1_nr := nr; p1_sai_b := m1_sai_b m;
               p1_idii_b := m1_idii_b m |}).

Definition respond_aggressive (cfg : Phase1Config) (msg1 : bytes) : action G (bytes * Phase1State) :=
  let! m := ike (read_message1 msg1) in
  let! cky_r := draw (fill 8) in
  let! dh_private := draw next_array32 in
  let! nr := draw (fill 16) in
  ike (answer_message1 cfg m cky_r dh_private nr).

Definition Phase1State_resume (prf : Prf) (group : DhGroup)
    (cky_i cky_r ska skd ske enc_key iv : bytes) : Phase1State :=
  {| p1_prf := prf; p1_group := group; p1_cky_i := cky_i; p1_cky_r := cky_r; p1_skeyid := [];
     p1_skeyid_d := skd; p1_skeyid_a := ska; p1_skeyid_e := ske; p1_enc_key := enc_key; p1_iv := iv;
     p1_gxi := []; p1_gxr := []; p1_ni := []; p1_nr := []; p1_sai_b := []; p1_idii_b := [] |}.

Definition verify_hash_i (st : Phase1State) (msg3 : bytes) : outcome unit :=
  hdr ← IsakmpHeader_parse msg3;
  body ← slice_from msg3 IsakmpHeader_LEN;
  payload_bytes ← (if encrypted hdr then aes256_cbc_decrypt (p1_enc_key st) (p1_iv st) body else Ok body);
  ps ← parse_payloads (next_payload hdr) payload_bytes;
  hash_p ← ok_or (find_payload ps payload.HASH) (MissingPayload "HASH");
  let expected := hash_i (p1_prf st) (p1_skeyid st) (p1_gxi st) (p1_gxr st) (p1_cky_i st) (p1_cky_r st)
                    (p1_sai_b st) (p1_idii_b st) in
  if decide (p_data hash_p = expected) then Ok tt else Err AuthFailed.

(** ** The initiator *)
Record InitiatorConfig := mkInitiatorConfig {
  i1_psk : bytes;
  i1_our_id : Id;
  i1_group : DhGroup;
  i1_xauth : bool;
  i1_ts_local : bytes * bytes;
  i1_ts_remote : bytes * bytes }.

Definition initiator_sa (group : DhGroup) (xauth : bool) : SaPayload :=
  let auth_method := if xauth then auth.XAUTH_INIT_PSK else auth.PSK in
  {| doi := IPSEC_DOI; situation := SIT_IDENTITY_ONLY;
     proposals := [ {| prop_num := 1; protocol_id := protocol.ISAKMP; prop_spi := [];
       transforms := [ {| t_num := 1; transform_id := 1; attributes :=
         [Attribute_short attr.ENCRYPTION enc.AES_CBC;
          Attribute_short attr.KEY_LENGTH 256;
          Attribute_short attr.HASH hash.SHA2_256;
          Attribute_short attr.GROUP_DESC (DhGroup_transform_id group);
          Attribute_short attr.AUTH_METHOD auth_method;
          Attribute_short attr.LIFE_TYPE life.SECONDS;
          Attribute_long_u32 attr.LIFE_DURATION 28800] |} ] |} ] |}.

Record AggressiveInitiator := mkAggressiveInitiator {
  ai_prf : Prf;
  ai_group : DhGroup;
  ai_psk : bytes;
  ai_cky_i : bytes;
  ai_dh_private : bytes;
  ai_gxi : bytes;
  ai_ni : bytes;
  ai_idi_b : bytes;
  ai_sai_b : bytes;
  ai_key_len : nat }.

Definition initiate_aggressive (cfg : InitiatorConfig) : action G (bytes * AggressiveInitiator) :=
  let! cky_i := draw (fill 8) in
  let! dh_private := draw next_array32 in
  let! gxi := ike (DhGroup_public (i1_group cfg) dh_private) in
  let! ni := draw (fill 16) in
  let sai_b := SaPayload_to_bytes (initiator_sa (i1_group cfg) (i1_xauth cfg)) in
  let idi_b := Id_to_bytes (i1_our_id cfg) in
  let msg1 := build_message (aggressive_header cky_i (replicate 8 0))
    [(payload.SA, sai_b); (payload.KE, gxi); (payload.NONCE, ni); (payload.ID, idi_b)] in
  act_ret (msg1, {| ai_prf := Sha256; ai_group := i1_group cfg; ai_psk := i1_psk cfg; ai_cky_i := cky_i;
                    ai_dh_private := dh_private; ai_gxi := gxi; ai_ni := ni; ai_idi_b := idi_b;
                    ai_sai_b := sai_b; ai_key_len := 32 |}).

Definition AggressiveInitiator_complete (ai : AggressiveInitiator) (msg2 : bytes)
    : outcome (bytes * Phase1State) :=
  hdr ← IsakmpHeader_parse msg2;
  if decide (exchange_type hdr <> exchange.AGGRESSIVE)
  then Err (Crypto "not an Aggressive Mode message") else
  let cky_r := resp_cookie hdr in
  body ← slice_from msg2 IsakmpHeader_LEN;
  ps ← parse_payloads (next_payload hdr) body;
  gxr ← p_data <$> ok_or (find_payload ps payload.KE) (MissingPayload "KE");
  nr ← p_data <$> ok_or (find_payload ps payload.NONCE) (MissingPayload "NONCE");
  hash_r_got ← p_data <$> ok_or (find_payload ps payload.HASH) (MissingPayload "HASH");
  idr_b ← p_data <$> ok_or (find_payload ps payload.ID) (MissingPayload "ID");
  if decide (length gxr <> public_len (ai_group ai))
  then Err (BadKeyExchange (DhGroup_transform_id (ai_group ai)) (length gxr)) else
  gxy ← DhGroup_shared (ai_group ai) (ai_dh_private ai) gxr;
  let prf := ai_prf ai in
  let skeyid := skeyid_psk prf (ai_psk ai) (ai_ni ai) nr in
  let expect_hr := hash_r prf skeyid gxr (ai_gxi ai) cky_r (ai_cky_i ai) (ai_sai_b ai) idr_b in
  if decide (hash_r_got <> expect_hr) then Err AuthFailed else
  let hi := hash_i prf skeyid (ai_gxi ai) gxr (ai_cky_i ai) cky_r (ai_sai_b ai) (ai_idi_b ai) in
  let msg3 := build_message (aggressive_header (ai_cky_i ai) cky_r) [(payload.HASH, hi)] in
  let skd := skeyid_d prf skeyid gxy (ai_cky_i ai) cky_r in
  let ska := skeyid_a prf skeyid skd gxy (ai_cky_i ai) cky_r in
  let ske := skeyid_e prf skeyid ska gxy (ai_cky_i ai) cky_r in
  enc_key ← derive_cipher_key prf ske (ai_key_len ai);
  let iv := phase1_iv prf (ai_gxi ai) gxr AES_BLOCK in
  Ok (msg3, {| p1_prf := prf; p1_group := ai_group ai; p1_cky_i := ai_cky_i ai; p1_cky_r := cky_r;
               p1_skeyid := skeyid; p1_skeyid_d := skd; p1_skeyid_a := ska; p1_skeyid_e := ske;
               p1_enc_key := enc_key; p1_iv := iv; p1_gxi := ai_gxi ai; p1_gxr := gxr; p1_ni := ai_ni ai;
               p1_nr := nr; p1_sai_b := ai_sai_b ai; p1_idii_b := ai_idi_b ai |}).
End phase1.

(** ** Which transforms are supported *)

(** AES-256-CBC with a supported hash, group and authentication method. *)
Definition supported (t : Transform) (prf : Prf) (group : DhGroup) : Prop :=
  Transform_attr t attr.ENCRYPTION = Some enc.AES_CBC /\
  Transform_attr t attr.KEY_LENGTH = Some 256 /\
  Transform_attr t attr.HASH = Some (match prf with Sha256 => hash.SHA2_256 | Sha1 => hash.SHA1 end) /\
  group <> X25519 /\ Transform_attr t attr.GROUP_DESC = Some (DhGroup_transform_id group) /\
  (Transform_attr t attr.AUTH_METHOD = Some auth.PSK \/ Transform_attr t attr.AUTH_METHOD = Some auth.XAUTH_INIT_PSK).

Lemma try_transform_Some t r : try_transform t = Some r <->
  exists prf group, supported t prf group /\ r = (t, prf, group, 32%nat).
Proof.
  unfold try_transform, supported. split.
  - case_decide as H1; [done|].
    assert (H2 : Transform_attr t attr.ENCRYPTION = Some enc.AES_CBC) by (apply dec_stable; tauto).
    assert (H3 : Transform_attr t attr.KEY_LENGTH = Some 256) by (apply dec_stable; tauto).
    intros (prf & Hp & Hr)%bind_Some. apply bind_Some in Hr as (g & Hg & Hr).
    repeat case_decide; simplify_eq; eexists _, _; (split; [|reflexivity]); split_and!; done.
  - intros (prf & g & (H1 & H2 & H3 & H4 & H5 & H6) & ->). rewrite H1, H2, H3, H5.
    rewrite decide_False by (intros [[]|[]]; done). destruct prf, g; repeat case_decide; naive_solver.
Qed.

Lemma try_transform_None t : try_transform t = None <-> forall prf group, ~ supported t prf group.
Proof.
  destruct (try_transform t) as [r|] eqn:E.
  - split; [done|]. apply try_transform_Some in E as (prf & g & Hs & _). intros Hn. by destruct (Hn prf g).
  - split; [|done]. intros _ prf g Hs.
    assert (E' : try_transform t = Some (t, prf, g, 32%nat)) by (apply try_transform_Some; eauto).
    by rewrite E in E'.
Qed.

Lemma select_in_proposal_omap ts : select_in_proposal ts = head (omap try_transform ts).
Proof. induction ts as [|t ts IH]; [done|]. cbn. destruct (try_transform t); [done|exact IH]. Qed.

(** The nested loops search the transforms of all proposals in order. *)
Lemma select_transform_omap sa :
  select_transform sa = head (omap try_transform (concat (transforms <$> proposals sa))).
Proof.
  unfold select_transform. induction (proposals sa) as [|p ps IH]; [done|].
  cbn [select_in_proposals fmap list_fmap concat]. rewrite omap_app, select_in_proposal_omap, IH.
  by destruct (omap try_transform (transforms p)).
Qed.

Lemma head_omap_Some (ts : list Transform) r : head (omap try_transform ts) = Some r <->
  exists l t k, ts = l ++ t :: k /\ try_transform t = Some r /\ Forall (fun t => try_transform t = None) l.
Proof.
  split.
  - induction ts as [|t ts IH]; [done|]. cbn. destruct (try_transform t) as [r'|] eqn:E.
    + intros [= <-]. by exists [], t, ts.
    + intros (l & t' & k & -> & Et & Hl)%IH. exists (t :: l), t', k. split_and!; [done|done|by constructor].
  - intros (l & t & k & -> & Et & Hl). induction Hl as [|x l Hx _ IH]; cbn; [by rewrite Et|by rewrite Hx].
Qed.

(** What the responder has read from message 1. *)
Record Message1_wf (m : Message1) : Prop := {
  wf_m1_cky_i : length (m1_cky_i m) = 8%nat /\ bytes_ok (m1_cky_i m);
  wf_m1_gxi : length (m1_gxi m) = public_len (m1_group m) /\ bytes_ok (m1_gxi m);
  wf_m1_supported : supported (m1_chosen m) (m1_prf m) (m1_group m);
  wf_m1_key_len : m1_key_len m = 32%nat }.

Lemma find_payload_wf ps t p : Forall payload_wf ps -> find_payload ps t = Some p ->
  payload_type p = t /\ bytes_ok (p_data p).
Proof.
  intros Hps Hf. apply List.find_some in Hf as [Hin%list_elem_of_In Ht%Z.eqb_eq].
  split; [done|]. by eapply Forall_forall in Hps as (_ & Hb & _).
Qed.

Lemma select_transform_supported sa t prf g n : select_transform sa = Some (t, prf, g, n) ->
  supported t prf g /\ n = 32%nat.
Proof.
  rewrite select_transform_omap, head_omap_Some. intros (l & t' & k & _ & Et & _).
  apply try_transform_Some in Et as (prf' & g' & Hs & [= <- <- <- <-]). done.
Qed.

Lemma read_message1_wp msg1 : bytes_ok msg1 -> wp (read_message1 msg1) Message1_wf.
Proof.
  intros Hm. unfold read_message1. apply wp_bind.
  eapply wp_mono; [|by apply IsakmpHeader_parse_wp]. intros h [Hh Hl]. case_decide; [done|].
  apply wp_bind, wp_slice_from; [done|]. apply wp_bind.
  eapply wp_mono; [|apply parse_payloads_wp; auto with ryke]. intros ps [Hps _].
  apply wp_bind, wp_ok_or. intros sa_p Esa. apply wp_bind, wp_ok_or. intros ke_p Eke.
  apply wp_bind, wp_ok_or. intros no_p Eno. apply wp_bind, wp_ok_or. intros id_p Eid.
  destruct (find_payload_wf _ _ _ Hps Esa) as [_ Bsa]. destruct (find_payload_wf _ _ _ Hps Eke) as [_ Bke].
  apply wp_bind. eapply wp_mono; [|by apply SaPayload_parse_wp]. intros sa Hsa.
  apply wp_bind, wp_ok_or. intros [[[t prf] g] n] [Hs Hn]%select_transform_supported.
  case_decide as Hk; [done|]. constructor; cbn; [apply Hh|done|done|done].
Qed.

(** ** States of phase 1 *)
Record Phase1State_wf (st : Phase1State) : Prop := {
  wf_p1_cky_i : length (p1_cky_i st) = 8%nat /\ bytes_ok (p1_cky_i st);
  wf_p1_cky_r : length (p1_cky_r st) = 8%nat /\ bytes_ok (p1_cky_r st);
  wf_p1_enc_key : length (p1_enc_key st) = 32%nat /\ bytes_ok (p1_enc_key st);
  wf_p1_iv : length (p1_iv st) = AES_BLOCK /\ bytes_ok (p1_iv st) }.

Section derivation.
Context `{!Primitives, !Legacy1}.

(** The keys of a state are derived, as RFC 2409 says, from the pre-shared key, the
    nonces, the cookies and a Diffie-Hellman secret of the two public values. *)
Record phase1_derived (psk : bytes) (st : Phase1State) (gxy : bytes) : Prop := {
  d_skeyid : p1_skeyid st = skeyid_psk (p1_prf st) psk (p1_ni st) (p1_nr st);
  d_skeyid_d : p1_skeyid_d st = skeyid_d (p1_prf st) (p1_skeyid st) gxy (p1_cky_i st) (p1_cky_r st);
  d_skeyid_a : p1_skeyid_a st =
    skeyid_a (p1_prf st) (p1_skeyid st) (p1_skeyid_d st) gxy (p1_cky_i st) (p1_cky_r st);
  d_skeyid_e : p1_skeyid_e st =
    skeyid_e (p1_prf st) (p1_skeyid st) (p1_skeyid_a st) gxy (p1_cky_i st) (p1_cky_r st);
  d_enc_key : derive_cipher_key (p1_prf st) (p1_skeyid_e st) 32 = Ok (p1_enc_key st);
  d_iv : p1_iv st = phase1_iv (p1_prf st) (p1_gxi st) (p1_gxr st) AES_BLOCK }.
End derivation.

(** The private value either role draws: the 32 octets after the cookie. *)
Definition drawn_private `{Entropy G} (g : G) : bytes := (fill 32 (fill 8 g).2).1.

Section lemmas.
Context `{!Primitives, !Legacy1, !HmacLaws, !HmacSha1Laws, !HashLaws, !BigUintLaws, !X25519Laws, !CbcLaws}.

Lemma ske_ok p sk a b c d : bytes_ok (skeyid_e p sk a b c d).
Proof. apply mac_bytes. Qed.

(** A responder's state belongs to message 1: its cookie, suite, public value, nonce, offer and
    identity. *)
Definition answers (m : Message1) (st : Phase1State) : Prop :=
  p1_cky_i st = m1_cky_i m /\ p1_group st = m1_group m /\ p1_prf st = m1_prf m /\ p1_gxi st = m1_gxi m /\
  p1_ni st = m1_ni m /\ p1_sai_b st = m1_sai_b m /\ p1_idii_b st = m1_idii_b m.

(** Its keys come from the pre-shared key and the Diffie-Hellman secret of its private value [x] with
    the initiator's public value. *)
Definition responder_derived (psk x : bytes) (st : Phase1State) : Prop :=
  exists gxy, DhGroup_public (p1_group st) x = Ok (p1_gxr st) /\
    DhGroup_shared (p1_group st) x (p1_gxi st) = Ok gxy /\ phase1_derived psk st gxy.

(** The answer to message 1: no panic, and a state derived from the key. *)
Lemma answer_message1_wp cfg m cky_r x nr : Message1_wf m -> length cky_r = 8%nat -> bytes_ok cky_r ->
  length x = 32%nat -> bytes_ok x ->
  wp (answer_message1 cfg m cky_r x nr) (fun '(_, st) => Phase1State_wf st /\
    DhGroup_public (m1_group m) x = Ok (p1_gxr st) /\
    (exists gxy, DhGroup_shared (m1_group m) x (p1_gxi st) = Ok gxy /\ phase1_derived (c1_psk cfg) st gxy) /\
    p1_cky_i st = m1_cky_i m /\ p1_gxi st = m1_gxi m /\ p1_ni st = m1_ni m /\
    p1_sai_b st = m1_sai_b m /\ p1_idii_b st = m1_idii_b m /\ p1_group st = m1_group m /\ p1_prf st = m1_prf m).
Proof.
  intros [Hc Hg Hs Hn] Lc Bc Lx Bx. unfold answer_message1.
  destruct (DhGroup_public_ok (m1_group m) x) as (gxr & Er & Lr & Br); [done|lia|].
  rewrite Er. cbn [mbind outcome_bind]. apply wp_bind.
  eapply wp_mono; [|apply wp_eq, DhGroup_shared_wp; [done|lia|apply Hg]]. intros gxy [[Bg Lg] Eg]. cbv zeta.
  set (ske := skeyid_e _ _ _ _ _ _). destruct (derive_cipher_key_ok (m1_prf m) ske (m1_key_len m)) as (k & Ek & Lk & Bk);
    [apply ske_ok|]. rewrite Hn in Ek, Lk |- *. rewrite Ek. cbn [mbind outcome_bind wp].
  split_and!; try done.
  - constructor; cbn; [done|done|done|apply iv_ok].
  - exists gxy. split; [exact Eg|]. by constructor.
Qed.

Lemma respond_aggressive_wp `{EntropyLaws G} cfg msg1 (g : G) : bytes_ok msg1 ->
  act_wp (respond_aggressive cfg msg1) (fun r _ => forall msg2 st, r = Done (msg2, st) ->
    Phase1State_wf st /\ exists m, read_message1 msg1 = Ok m /\
      answers m st /\ responder_derived (c1_psk cfg) (drawn_private g) st) g.
Proof.
  intros Hm. unfold respond_aggressive. apply act_wp_bind. eapply act_wp_ike; [by apply read_message1_wp| |by intros].
  intros m Hw Em. unfold act_wp, act_bind, draw, next_array32, ike.
  destruct (fill 8 g) as [cky_r g1] eqn:E1. destruct (fill 32 g1) as [x g2] eqn:E2.
  destruct (fill 16 g2) as [nr g3] eqn:E3.
  pose proof (fill_length 8 g) as L1. pose proof (fill_bytes 8 g) as B1. rewrite E1 in L1, B1.
  pose proof (fill_length 32 g1) as L2. pose proof (fill_bytes 32 g1) as B2. rewrite E2 in L2, B2.
  pose proof (answer_message1_wp cfg m cky_r x nr Hw L1 B1 L2 B2) as Ha.
  destruct (answer_message1 cfg m cky_r x nr) as [[msg2 st]| |]; [|done|done].
  split; [done|]. intros ? ? [= <- <-].
  destruct Ha as (Hst & Er & (gxy & Es & Hd) & Hi & Hgx & Hni & Hsa & Hid & Hgr & Hp).
  assert (Ex : drawn_private g = x) by (unfold drawn_private; by rewrite E1; cbn [snd]; rewrite E2).
  split; [done|]. exists m. split_and!; [done|by split_and!|]. exists gxy. by rewrite Ex, Hgr.
Qed.
End lemmas.

(** ** The initiator's offer *)
Definition initiator_transform (group : DhGroup) (xauth : bool) : Transform :=
  {| t_num := 1; transform_id := 1; attributes :=
       [Attribute_short attr.ENCRYPTION enc.AES_CBC;
        Attribute_short attr.KEY_LENGTH 256;
        Attribute_short attr.HASH hash.SHA2_256;
        Attribute_short attr.GROUP_DESC (DhGroup_transform_id group);
        Attribute_short attr.AUTH_METHOD (if xauth then auth.XAUTH_INIT_PSK else auth.PSK);
        Attribute_short attr.LIFE_TYPE life.SECONDS;
        Attribute_long_u32 attr.LIFE_DURATION 28800] |}.

Lemma initiator_sa_wf group xauth : SaPayload_wf (initiator_sa group xauth).
Proof. destruct group, xauth; repeat constructor; done. Qed.

Lemma initiator_sa_selected group xauth : group <> X25519 ->
  select_transform (initiator_sa group xauth) = Some (initiator_transform group xauth, Sha256, group, 32%nat).
Proof. intros. by destruct group, xauth. Qed.

Lemma aggressive_header_wf cky_i cky_r : length cky_i = 8%nat -> bytes_ok cky_i ->
  length cky_r = 8%nat -> bytes_ok cky_r -> IsakmpHeader_wf (aggressive_header cky_i cky_r).
Proof. intros. by constructor. Qed.

Definition id_fits (i : Id) : Prop := Id_wf i /\ fits (Id_to_bytes i).

(** The values an initiator keeps between messages 1 and 2. *)
Record AggressiveInitiator_wf (ai : AggressiveInitiator) : Prop := {
  wf_ai_cky_i : length (ai_cky_i ai) = 8%nat /\ bytes_ok (ai_cky_i ai);
  wf_ai_dh_private : length (ai_dh_private ai) = 32%nat /\ bytes_ok (ai_dh_private ai);
  wf_ai_key_len : ai_key_len ai = 32%nat }.

Lemma enc_wf_intro t d : byte_ok t -> t <> payload.NONE -> bytes_ok d -> fits d -> enc_wf (t, d).
Proof. by intros. Qed.

Lemma fits_small d n : length d = n -> 4 + Z.of_nat n < 2 ^ 16 -> fits d.
Proof. unfold fits. by intros ->. Qed.

Section agreement.
Context `{!Primitives, !Legacy1, !HmacLaws, !HmacSha1Laws, !HashLaws, !BigUintLaws, !X25519Laws, !CbcLaws}.

Lemma initiate_aggressive_ok `{EntropyLaws G} icfg (g : G) :
  let x := drawn_private g in exists cky_i gxi ni g', initiate_aggressive icfg g =
    (Done (build_message (aggressive_header cky_i (replicate 8 0))
        [(payload.SA, SaPayload_to_bytes (initiator_sa (i1_group icfg) (i1_xauth icfg))); (payload.KE, gxi);
         (payload.NONCE, ni); (payload.ID, Id_to_bytes (i1_our_id icfg))],
      {| ai_prf := Sha256; ai_group := i1_group icfg; ai_psk := i1_psk icfg; ai_cky_i := cky_i;
         ai_dh_private := x; ai_gxi := gxi; ai_ni := ni; ai_idi_b := Id_to_bytes (i1_our_id icfg);
         ai_sai_b := SaPayload_to_bytes (initiator_sa (i1_group icfg) (i1_xauth icfg)); ai_key_len := 32 |}), g') /\
    length cky_i = 8%nat /\ bytes_ok cky_i /\ length x = 32%nat /\ bytes_ok x /\ length ni = 16%nat /\ bytes_ok ni /\
    DhGroup_public (i1_group icfg) x = Ok gxi /\ length gxi = public_len (i1_group icfg) /\ bytes_ok gxi.
Proof.
  destruct (fill 8 g) as [cky_i g1] eqn:E1. destruct (fill 32 g1) as [x g2] eqn:E2.
  destruct (fill 16 g2) as [ni g3] eqn:E3.
  pose proof (fill_length 8 g) as L1. pose proof (fill_bytes 8 g) as B1. rewrite E1 in L1, B1.
  pose proof (fill_length 32 g1) as L2. pose proof (fill_bytes 32 g1) as B2. rewrite E2 in L2, B2.
  pose proof (fill_length 16 g2) as L3. pose proof (fill_bytes 16 g2) as B3. rewrite E3 in L3, B3.
  cbn [fst] in *. destruct (DhGroup_public_ok (i1_group icfg) x) as (gxi & Eg & Lg & Bg); [done|lia|].
  assert (Ex : drawn_private g = x) by (unfold drawn_private; rewrite E1; cbn [snd]; by rewrite E2).
  cbv zeta. rewrite Ex. exists cky_i, gxi, ni, g3. split_and!; try done.
  unfold initiate_aggressive, act_bind, draw, next_array32, ike. by rewrite E1, E2, Eg, E3.
Qed.

(** The payloads of message 1, and that the responder reads them back. *)
Definition message1_payloads (group : DhGroup) (xauth : bool) (gxi ni : bytes) (id : Id) : list (Z * bytes) :=
  [(payload.SA, SaPayload_to_bytes (initiator_sa group xauth)); (payload.KE, gxi);
   (payload.NONCE, ni); (payload.ID, Id_to_bytes id)].

Lemma public_fits g d : length d = public_len g -> fits d.
Proof. intros E. eapply fits_small; [exact E|]. by destruct g. Qed.

Lemma message1_enc_wf group xauth gxi ni id : bytes_ok gxi -> length gxi = public_len group ->
  bytes_ok ni -> length ni = 16%nat -> id_fits id -> Forall enc_wf (message1_payloads group xauth gxi ni id).
Proof.
  intros Bg Lg Bn Ln [Hi Hf]. unfold message1_payloads.
  repeat apply Forall_cons_2; [apply enc_wf_intro|apply enc_wf_intro|apply enc_wf_intro|apply enc_wf_intro|];
    try done; [apply SaPayload_to_bytes_ok, initiator_sa_wf|by eapply public_fits|by eapply fits_small|].
  by apply Id_to_bytes_ok.
Qed.

Lemma read_message1_built cky_i cky_r group xauth gxi ni id : length cky_i = 8%nat -> bytes_ok cky_i ->
  length cky_r = 8%nat -> bytes_ok cky_r ->
  group <> X25519 -> bytes_ok gxi -> length gxi = public_len group -> bytes_ok ni -> length ni = 16%nat -> id_fits id ->
  read_message1 (build_message (aggressive_header cky_i cky_r) (message1_payloads group xauth gxi ni id)) =
  Ok {| m1_cky_i := cky_i; m1_sai_b := SaPayload_to_bytes (initiator_sa group xauth); m1_idii_b := Id_to_bytes id;
        m1_gxi := gxi; m1_ni := ni; m1_sa := initiator_sa group xauth;
        m1_chosen := initiator_transform group xauth; m1_prf := Sha256; m1_group := group; m1_key_len := 32 |}.
Proof.
  intros Lc Bc Lr Br Hg Bg Lg Bn Ln Hi.
  pose proof (message1_enc_wf group xauth gxi ni id Bg Lg Bn Ln Hi) as He.
  destruct (build_message_parse (aggressive_header cky_i cky_r) _ (aggressive_header_wf _ _ Lc Bc Lr Br) He) as (E1 & E2 & E3).
  unfold read_message1. rewrite E1. cbn [mbind outcome_bind built_header put_length put_next_payload exchange_type aggressive_header].
  rewrite decide_False by (by intros []). rewrite E2. cbn [mbind outcome_bind].
  change (next_payload _) with (first_type (message1_payloads group xauth gxi ni id)). rewrite E3.
  cbn [mbind outcome_bind fmap list_fmap message1_payloads to_payload find_payload List.find payload_type fst snd
    Z.eqb payload.SA payload.KE payload.NONCE payload.ID Pos.eqb ok_or p_data].
  rewrite SaPayload_parse_write by apply initiator_sa_wf. cbn [mbind outcome_bind].
  rewrite initiator_sa_selected by done. cbn [mbind outcome_bind ok_or]. by rewrite decide_False by (by intros []).
Qed.

(** The state both ends compute. *)
Definition phase1_state (prf : Prf) (group : DhGroup) (psk cky_i cky_r gxi gxr gxy ni nr sai_b idii_b enc_key : bytes)
    : Phase1State :=
  let sk := skeyid_psk prf psk ni nr in
  let skd := skeyid_d prf sk gxy cky_i cky_r in
  let ska := skeyid_a prf sk skd gxy cky_i cky_r in
  let ske := skeyid_e prf sk ska gxy cky_i cky_r in
  {| p1_prf := prf; p1_group := group; p1_cky_i := cky_i; p1_cky_r := cky_r; p1_skeyid := sk; p1_skeyid_d := skd;
     p1_skeyid_a := ska; p1_skeyid_e := ske; p1_enc_key := enc_key; p1_iv := phase1_iv prf gxi gxr AES_BLOCK;
     p1_gxi := gxi; p1_gxr := gxr; p1_ni := ni; p1_nr := nr; p1_sai_b := sai_b; p1_idii_b := idii_b |}.

Definition message2_payloads (group : DhGroup) (xauth : bool) (gxr nr : bytes) (id : Id) (hr : bytes)
    : list (Z * bytes) :=
  [(payload.SA, SaPayload_to_bytes (initiator_sa group xauth)); (payload.KE, gxr); (payload.NONCE, nr);
   (payload.ID, Id_to_bytes id); (payload.HASH, hr)] ++
  (if xauth then [(payload.VENDOR_ID, XAUTH_VENDOR_ID)] else []).

Lemma message2_enc_wf group xauth gxr nr id p k d : bytes_ok gxr -> length gxr = public_len group ->
  bytes_ok nr -> length nr = 16%nat -> id_fits id ->
  Forall enc_wf (message2_payloads group xauth gxr nr id (mac p k d)).
Proof.
  intros Bg Lg Bn Ln Hi. pose proof (message1_enc_wf group xauth gxr nr id Bg Lg Bn Ln Hi) as Hm.
  unfold message2_payloads. change (?a :: ?b :: ?c :: ?d :: ?e :: nil) with ([a; b; c; d] ++ [e]).
  rewrite <- app_assoc. apply Forall_app. split; [exact Hm|].
  apply Forall_app. split; [|destruct xauth; by repeat constructor]. apply Forall_singleton, enc_wf_intro; try done.
  - apply mac_bytes.
  - eapply fits_small; [apply length_mac|]. by destruct p.
Qed.

Lemma answer_message1_built cfg cky_i cky_r group xauth gxi ni id x nr gxr gxy :
  DhGroup_public group x = Ok gxr -> DhGroup_shared group x gxi = Ok gxy ->
  let sk := skeyid_psk Sha256 (c1_psk cfg) ni nr in
  let sai_b := SaPayload_to_bytes (initiator_sa group xauth) in
  let hr := hash_r Sha256 sk gxr gxi cky_r cky_i sai_b (Id_to_bytes (c1_our_id cfg)) in
  exists enc_key, answer_message1 cfg {| m1_cky_i := cky_i; m1_sai_b := sai_b; m1_idii_b := Id_to_bytes id;
        m1_gxi := gxi; m1_ni := ni; m1_sa := initiator_sa group xauth;
        m1_chosen := initiator_transform group xauth; m1_prf := Sha256; m1_group := group; m1_key_len := 32 |}
      cky_r x nr =
    Ok (build_message (aggressive_header cky_i cky_r) (message2_payloads group xauth gxr nr (c1_our_id cfg) hr),
        phase1_state Sha256 group (c1_psk cfg) cky_i cky_r gxi gxr gxy ni nr sai_b (Id_to_bytes id) enc_key) /\
    derive_cipher_key Sha256 (p1_skeyid_e (phase1_state Sha256 group (c1_psk cfg) cky_i cky_r gxi gxr gxy ni nr
      sai_b (Id_to_bytes id) enc_key)) 32 = Ok enc_key.
Proof.
  intros Er Ey sk sai_b hr. set (ske := skeyid_e Sha256 sk
    (skeyid_a Sha256 sk (skeyid_d Sha256 sk gxy cky_i cky_r) gxy cky_i cky_r) gxy cky_i cky_r).
  destruct (derive_cipher_key_ok Sha256 ske 32) as (k & Ek & _); [apply ske_ok|].
  exists k. split; [|exact Ek]. unfold answer_message1.
  cbn [m1_cky_i m1_sai_b m1_idii_b m1_gxi m1_ni m1_sa m1_chosen m1_prf m1_group m1_key_len].
  rewrite Er. cbn [mbind outcome_bind]. rewrite Ey. cbn [mbind outcome_bind]. cbv zeta.
  fold sk. fold ske. rewrite Ek. cbn [mbind outcome_bind].
  assert (Ex : is_xauth_auth (default 0 (Transform_attr (initiator_transform group xauth) attr.AUTH_METHOD)) = xauth)
    by by destruct xauth.
  rewrite Ex. reflexivity.
Qed.

(** The initiator's side of message 2, whatever pre-shared key it holds. *)
Lemma complete_built ai cky_r gxr nr id hr gxy p k d : AggressiveInitiator_wf ai -> hr = mac p k d ->
  length cky_r = 8%nat -> bytes_ok cky_r -> bytes_ok gxr -> length gxr = public_len (ai_group ai) ->
  bytes_ok nr -> length nr = 16%nat -> id_fits id ->
  DhGroup_shared (ai_group ai) (ai_dh_private ai) gxr = Ok gxy -> forall xauth,
  let sk := skeyid_psk (ai_prf ai) (ai_psk ai) (ai_ni ai) nr in
  exists enc_key, AggressiveInitiator_complete ai (build_message (aggressive_header (ai_cky_i ai) cky_r)
      (message2_payloads (ai_group ai) xauth gxr nr id hr)) =
    (if decide (hr = hash_r (ai_prf ai) sk gxr (ai_gxi ai) cky_r (ai_cky_i ai) (ai_sai_b ai) (Id_to_bytes id)) then
       Ok (build_message (aggressive_header (ai_cky_i ai) cky_r) [(payload.HASH,
             hash_i (ai_prf ai) sk (ai_gxi ai) gxr (ai_cky_i ai) cky_r (ai_sai_b ai) (ai_idi_b ai))],
           phase1_state (ai_prf ai) (ai_group ai) (ai_psk ai) (ai_cky_i ai) cky_r (ai_gxi ai) gxr gxy (ai_ni ai) nr
             (ai_sai_b ai) (ai_idi_b ai) enc_key)
     else Err AuthFailed) /\
    derive_cipher_key (ai_prf ai) (p1_skeyid_e (phase1_state (ai_prf ai) (ai_group ai) (ai_psk ai) (ai_cky_i ai) cky_r
      (ai_gxi ai) gxr gxy (ai_ni ai) nr (ai_sai_b ai) (ai_idi_b ai) enc_key)) 32 = Ok enc_key.
Proof.
  intros [[Li Bi] _ Hl] Ehr Lr Br Bg Lg Bn Ln Hid Ey xauth sk.
  pose proof (message2_enc_wf (ai_group ai) xauth gxr nr id p k d Bg Lg Bn Ln Hid) as He. rewrite <- Ehr in He.
  destruct (build_message_parse (aggressive_header (ai_cky_i ai) cky_r) _ (aggressive_header_wf _ _ Li Bi Lr Br) He)
    as (E1 & E2 & E3).
  set (ske := skeyid_e (ai_prf ai) sk (skeyid_a (ai_prf ai) sk (skeyid_d (ai_prf ai) sk gxy (ai_cky_i ai) cky_r)
    gxy (ai_cky_i ai) cky_r) gxy (ai_cky_i ai) cky_r).
  destruct (derive_cipher_key_ok (ai_prf ai) ske 32) as (ek & Ek & _); [apply ske_ok|].
  exists ek. split; [|exact Ek]. unfold AggressiveInitiator_complete. rewrite E1. cbn [mbind outcome_bind].
  rewrite decide_False by (by intros []). rewrite E2. cbn [mbind outcome_bind].
  change (next_payload _) with (first_type (message2_payloads (ai_group ai) xauth gxr nr id hr)). rewrite E3.
  change (resp_cookie _) with cky_r.
  cbn [mbind outcome_bind fmap list_fmap outcome_fmap message2_payloads app to_payload find_payload List.find payload_type fst snd
    Z.eqb payload.SA payload.KE payload.NONCE payload.ID payload.HASH Pos.eqb ok_or p_data].
  rewrite decide_False by (by intros []). rewrite Ey. cbn [mbind outcome_bind]. cbv zeta. fold sk. fold ske.
  rewrite Hl, Ek. destruct (decide (hr = _)) as [Eh|Eh].
  - rewrite decide_False by (by intros []). reflexivity.
  - by rewrite decide_True.
Qed.

(** Message 3 is accepted when it carries the expected HASH_I. *)
Lemma verify_hash_i_built st cky_i cky_r p k d : length cky_i = 8%nat -> bytes_ok cky_i ->
  length cky_r = 8%nat -> bytes_ok cky_r ->
  verify_hash_i st (build_message (aggressive_header cky_i cky_r) [(payload.HASH, mac p k d)]) =
  if decide (mac p k d = hash_i (p1_prf st) (p1_skeyid st) (p1_gxi st) (p1_gxr st) (p1_cky_i st) (p1_cky_r st)
    (p1_sai_b st) (p1_idii_b st)) then Ok tt else Err AuthFailed.
Proof.
  intros Li Bi Lr Br.
  assert (He : Forall enc_wf [(payload.HASH, mac p k d)]).
  { apply Forall_singleton, enc_wf_intro; try done; [apply mac_bytes|].
    eapply fits_small; [apply length_mac|]. by destruct p. }
  destruct (build_message_parse (aggressive_header cky_i cky_r) _ (aggressive_header_wf _ _ Li Bi Lr Br) He)
    as (E1 & E2 & E3).
  unfold verify_hash_i. rewrite E1. cbn [mbind outcome_bind]. rewrite E2. cbn [mbind outcome_bind].
  change (encrypted _) with false. cbn [mbind outcome_bind].
  change (next_payload _) with (first_type [(payload.HASH, mac p k d)]). rewrite E3. reflexivity.
Qed.
End agreement.

(** The end of Aggressive Mode, given the responder's values. *)
Section finish.
Context `{!Primitives, !Legacy1, !HmacLaws, !HmacSha1Laws, !HashLaws, !BigUintLaws, !X25519Laws, !CbcLaws}.

Lemma phase1_state_wf prf group psk cky_i cky_r gxi gxr gxy ni nr sai_b idii_b ek :
  length cky_i = 8%nat -> bytes_ok cky_i -> length cky_r = 8%nat -> bytes_ok cky_r ->
  let st := phase1_state prf group psk cky_i cky_r gxi gxr gxy ni nr sai_b idii_b ek in
  derive_cipher_key prf (p1_skeyid_e st) 32 = Ok ek -> Phase1State_wf st.
Proof.
  intros Li Bi Lr Br st Ek. destruct (derive_cipher_key_ok prf (p1_skeyid_e st) 32) as (k & Ek' & Lk & Bk);
    [apply ske_ok|]. rewrite Ek in Ek'. injection Ek' as <-. constructor; [done|done|done|apply iv_ok].
Qed.

Lemma aggressive_finish ai psk cky_r gxr nr id gxy ek xauth : AggressiveInitiator_wf ai ->
  length cky_r = 8%nat -> bytes_ok cky_r -> bytes_ok gxr -> length gxr = public_len (ai_group ai) ->
  bytes_ok nr -> length nr = 16%nat -> id_fits id ->
  DhGroup_shared (ai_group ai) (ai_dh_private ai) gxr = Ok gxy ->
  let tail h := h gxr (ai_gxi ai) cky_r (ai_cky_i ai) (ai_sai_b ai) (Id_to_bytes id) in
  let hr := tail (hash_r (ai_prf ai) (skeyid_psk (ai_prf ai) psk (ai_ni ai) nr)) in
  let st := phase1_state (ai_prf ai) (ai_group ai) psk (ai_cky_i ai) cky_r (ai_gxi ai) gxr gxy (ai_ni ai) nr
    (ai_sai_b ai) (ai_idi_b ai) ek in
  let msg2 := build_message (aggressive_header (ai_cky_i ai) cky_r)
    (message2_payloads (ai_group ai) xauth gxr nr id hr) in
  derive_cipher_key (ai_prf ai) (p1_skeyid_e st) 32 = Ok ek ->
  (ai_psk ai = psk -> exists hi,
     let msg3 := build_message (aggressive_header (ai_cky_i ai) cky_r) [(payload.HASH, hi)] in
     AggressiveInitiator_complete ai msg2 = Ok (msg3, st) /\ verify_hash_i st msg3 = Ok tt /\
     enc_wf (payload.HASH, hi)) /\
  (tail (hash_r (ai_prf ai) (skeyid_psk (ai_prf ai) (ai_psk ai) (ai_ni ai) nr)) <> hr ->
   AggressiveInitiator_complete ai msg2 = Err AuthFailed).
Proof.
  intros Hai Lr Br Bg Lg Bn Ln Hid Ey tail hr st msg2 Ek.
  destruct (complete_built ai cky_r gxr nr id hr gxy (ai_prf ai) (skeyid_psk (ai_prf ai) psk (ai_ni ai) nr)
    (cat [gxr; ai_gxi ai; cky_r; ai_cky_i ai; ai_sai_b ai; Id_to_bytes id]) Hai eq_refl Lr Br Bg Lg Bn Ln Hid Ey xauth)
    as (ek' & Ec & Ek'). unfold msg2. split.
  - intros Hpsk. rewrite Hpsk in Ec, Ek'. rewrite decide_True in Ec by done.
    assert (ek' = ek) as -> by (unfold st in Ek; cbn in Ek, Ek'; congruence).
    eexists. cbv zeta. split_and!; [exact Ec| |].
    + destruct Hai as [[Li Bi] _ _].
      etransitivity; [exact (verify_hash_i_built st (ai_cky_i ai) cky_r (ai_prf ai) _ _ Li Bi Lr Br)|].
      by rewrite decide_True.
    + apply enc_wf_intro; [done|done|apply mac_bytes|]. eapply fits_small; [apply length_mac|]. by destruct (ai_prf ai).
  - intros Hne. rewrite Ec, decide_False; [done|]. intros E. by apply Hne.
Qed.
End finish.

(** ** A whole run of Aggressive Mode *)
Section run.
Context `{!Primitives, !Legacy1, !HmacLaws, !HmacSha1Laws, !HashLaws, !BigUintLaws, !X25519Laws, !CbcLaws,
  Entropy G, !EntropyLaws G, Entropy G2, !EntropyLaws G2}.

Lemma respond_aggressive_draws rcfg msg1 m (g : G2) : read_message1 msg1 = Ok m ->
  exists cky_r nr g', length cky_r = 8%nat /\ bytes_ok cky_r /\ length nr = 16%nat /\ bytes_ok nr /\
    respond_aggressive rcfg msg1 g = ike (answer_message1 rcfg m cky_r (drawn_private g) nr) g'.
Proof.
  intros Em. destruct (fill 8 g) as [cky_r g1] eqn:E1. destruct (fill 32 g1) as [x g2] eqn:E2.
  destruct (fill 16 g2) as [nr g3] eqn:E3.
  pose proof (fill_length 8 g) as L1. pose proof (fill_bytes 8 g) as B1. rewrite E1 in L1, B1.
  pose proof (fill_length 16 g2) as L3. pose proof (fill_bytes 16 g2) as B3. rewrite E3 in L3, B3.
  exists cky_r, nr, g3. split_and!; try done.
  unfold respond_aggressive, drawn_private, act_bind, draw, next_array32, ike.
  rewrite Em, E1. cbn [fst snd]. rewrite E2. cbn [fst snd]. by rewrite E3.
Qed.

Lemma aggressive_run icfg rcfg (g1 : G) (g2 : G2) gxi gxr : i1_group icfg <> X25519 ->
  id_fits (i1_our_id icfg) -> id_fits (c1_our_id rcfg) ->
  DhGroup_public (i1_group icfg) (drawn_private g1) = Ok gxi -> peer_acceptable (i1_group icfg) gxi ->
  DhGroup_public (i1_group icfg) (drawn_private g2) = Ok gxr -> peer_acceptable (i1_group icfg) gxr ->
  exists cky_i ni ai g1', let msg1 := build_message (aggressive_header cky_i (replicate 8 0))
      (message1_payloads (i1_group icfg) (i1_xauth icfg) gxi ni (i1_our_id icfg)) in
    initiate_aggressive icfg g1 = (Done (msg1, ai), g1') /\ bytes_ok msg1 /\
    length cky_i = 8%nat /\ bytes_ok cky_i /\
    Forall enc_wf (message1_payloads (i1_group icfg) (i1_xauth icfg) gxi ni (i1_our_id icfg)) /\
    ai_ni ai = ni /\
    (exists msg2 st g2', respond_aggressive rcfg msg1 g2 = (Done (msg2, st), g2') /\ bytes_ok msg2 /\
       Phase1State_wf st /\ p1_cky_i st = cky_i /\
       (i1_psk icfg = c1_psk rcfg -> exists hi,
          let msg3 := build_message (aggressive_header cky_i (p1_cky_r st)) [(payload.HASH, hi)] in
          AggressiveInitiator_complete ai msg2 = Ok (msg3, st) /\ verify_hash_i st msg3 = Ok tt /\
          enc_wf (payload.HASH, hi)) /\
       (let tail h := h gxr gxi (p1_cky_r st) cky_i (p1_sai_b st) (Id_to_bytes (c1_our_id rcfg)) in
        tail (hash_r Sha256 (skeyid_psk Sha256 (i1_psk icfg) ni (p1_nr st))) <>
          tail (hash_r Sha256 (skeyid_psk Sha256 (c1_psk rcfg) ni (p1_nr st))) ->
        AggressiveInitiator_complete ai msg2 = Err AuthFailed)).
Proof.
  intros Hg Hii Hir Ex Ai Er Ar.
  destruct (initiate_aggressive_ok icfg g1) as (cky_i & gxi' & ni & g1' & Ei & Lc & Bc & Lx & Bx & Ln & Bn & Ex' & Lg & Bg).
  set (x := drawn_private g1) in *. rewrite Ex in Ex'. injection Ex' as <-.
  pose proof (message1_enc_wf (i1_group icfg) (i1_xauth icfg) gxi ni (i1_our_id icfg) Bg Lg Bn Ln Hii) as He.
  assert (Hz : bytes_ok (replicate 8 0)) by (by apply Forall_replicate).
  exists cky_i, ni, (mkAggressiveInitiator Sha256 (i1_group icfg) (i1_psk icfg) cky_i x gxi ni
    (Id_to_bytes (i1_our_id icfg)) (SaPayload_to_bytes (initiator_sa (i1_group icfg) (i1_xauth icfg))) 32), g1'.
  cbv zeta. split_and!; [exact Ei| |done|done|exact He|done|].
  { apply build_message_ok; [by apply aggressive_header_wf|exact He]. }
  pose proof (read_message1_built cky_i (replicate 8 0) (i1_group icfg) (i1_xauth icfg) gxi ni (i1_our_id icfg)
    Lc Bc eq_refl Hz Hg Bg Lg Bn Ln Hii) as Em.
  destruct (respond_aggressive_draws rcfg _ _ g2 Em) as (cky_r & nr & g2' & Lr & Br & Lnr & Bnr & Eresp).
  assert (Ly : length (drawn_private g2) = 32%nat) by apply fill_length.
  assert (By : bytes_ok (drawn_private g2)) by apply fill_bytes. set (y := drawn_private g2) in *.
  destruct (DhGroup_public_ok (i1_group icfg) y) as (gxr' & Er' & Lgr & Bgr); [done|lia|].
  rewrite Er in Er'. injection Er' as <-.
  destruct (DhGroup_shared_ok (i1_group icfg) y gxi) as (s & Es & _); [done|lia|done|done|].
  destruct (DhGroup_shared_ok (i1_group icfg) x gxr) as (s' & Es' & _); [done|lia|done|done|].
  assert (s' = s) as -> by (by eapply (DhGroup_agree (i1_group icfg) x y)).
  destruct (answer_message1_built rcfg cky_i cky_r (i1_group icfg) (i1_xauth icfg) gxi ni (i1_our_id icfg) y nr gxr s Er Es)
    as (ek & Ea & Ek). rewrite Ea in Eresp.
  set (ai := mkAggressiveInitiator _ _ _ _ _ _ _ _ _ _).
  assert (Hai : AggressiveInitiator_wf ai) by by constructor.
  destruct (aggressive_finish ai (c1_psk rcfg) cky_r gxr nr (c1_our_id rcfg) s ek (i1_xauth icfg)
    Hai Lr Br Bgr Lgr Bnr Lnr Hir Es' Ek) as [F1 F2].
  eexists _, _, g2'. split_and!; [exact Eresp| |by apply phase1_state_wf|done|exact F1|exact F2].
  apply build_message_ok; [by apply aggressive_header_wf|]. by apply message2_enc_wf.
Qed.
End run.

(** ** Acceptance of arbitrary messages *)
Section soundness.
Context `{!Primitives, !Legacy1, !HmacLaws, !HmacSha1Laws, !HashLaws, !BigUintLaws, !X25519Laws, !CbcLaws}.

(** The payloads of a message, after decryption if its header asks for it. *)
Definition payloads_of (st : Phase1State) (msg : bytes) (ps : list Payload) : Prop :=
  exists hdr plain, IsakmpHeader_parse msg = Ok hdr /\
    (if encrypted hdr then aes256_cbc_decrypt (p1_enc_key st) (p1_iv st) (drop IsakmpHeader_LEN msg)
     else Ok (drop IsakmpHeader_LEN msg)) = Ok plain /\
    parse_payloads (next_payload hdr) plain = Ok ps.

(** The HASH_I that belongs to a state. *)
Definition expected_hash_i (st : Phase1State) : bytes :=
  hash_i (p1_prf st) (p1_skeyid st) (p1_gxi st) (p1_gxr st) (p1_cky_i st) (p1_cky_r st) (p1_sai_b st) (p1_idii_b st).

Lemma verify_hash_i_safe st msg3 : bytes_ok msg3 -> verify_hash_i st msg3 <> Panic.
Proof.
  intros Hm. apply (wp_safe _ (fun _ => True)). unfold verify_hash_i. apply wp_bind.
  eapply wp_mono; [|by apply IsakmpHeader_parse_wp]. intros h [Hh Hl]. apply wp_bind, wp_slice_from; [done|].
  apply wp_bind, (wp_mono _ bytes_ok).
  - intros b Hb. apply wp_bind. eapply wp_mono; [|by apply parse_payloads_wp]. intros ps _.
    apply wp_bind, wp_ok_or. intros hp _. by case_decide.
  - destruct (encrypted h); [|cbn; auto with ryke].
    eapply wp_mono; [|apply aes256_cbc_decrypt_wp]. by intros b [? _].
Qed.

Lemma verify_hash_i_Ok st msg3 : bytes_ok msg3 -> verify_hash_i st msg3 = Ok tt <->
  exists ps, payloads_of st msg3 ps /\
    find_payload ps payload.HASH = Some (mkPayload payload.HASH (expected_hash_i st)).
Proof.
  intros Hm. unfold verify_hash_i, payloads_of, expected_hash_i. split.
  - intros (h & Eh & Hr)%bind_Ok. apply bind_Ok in Hr as (b & Eb & Hr). apply bind_Ok in Hr as (pl & Epl & Hr).
    apply bind_Ok in Hr as (ps & Eps & Hr). apply bind_Ok in Hr as (hp & Ehp%ok_or_Ok & Hr).
    case_decide as Hd; [|done]. unfold slice_from in Eb. case_decide; [|done]. injection Eb as <-.
    exists ps. split; [by exists h, pl|]. rewrite Ehp, <- Hd. f_equal.
    apply List.find_some in Ehp as [_ Ht%Z.eqb_eq]. destruct hp; cbn in Ht. by subst.
  - intros (ps & (h & pl & Eh & Epl & Eps) & Ehp). rewrite Eh. cbn [mbind outcome_bind].
    destruct (wp_ok _ _ _ (IsakmpHeader_parse_wp msg3 Hm) Eh) as [_ Hl].
    rewrite slice_from_ok by done. cbn [mbind outcome_bind]. rewrite Epl. cbn [mbind outcome_bind].
    rewrite Eps. cbn [mbind outcome_bind]. rewrite Ehp. cbn [ok_or mbind outcome_bind p_data].
    by rewrite decide_True.
Qed.

Lemma complete_wp ai msg2 : AggressiveInitiator_wf ai -> bytes_ok msg2 ->
  wp (AggressiveInitiator_complete ai msg2) (fun '(_, st) => Phase1State_wf st /\
    (exists gxy, DhGroup_shared (ai_group ai) (ai_dh_private ai) (p1_gxr st) = Ok gxy /\
       phase1_derived (ai_psk ai) st gxy) /\
    p1_gxi st = ai_gxi ai /\ p1_cky_i st = ai_cky_i ai /\ p1_ni st = ai_ni ai /\ p1_prf st = ai_prf ai /\
    exists hdr ps id_p, IsakmpHeader_parse msg2 = Ok hdr /\ resp_cookie hdr = p1_cky_r st /\
      parse_payloads (next_payload hdr) (drop IsakmpHeader_LEN msg2) = Ok ps /\
      find_payload ps payload.ID = Some id_p /\
      p_data <$> find_payload ps payload.HASH = Some (hash_r (p1_prf st) (p1_skeyid st) (p1_gxr st) (p1_gxi st)
        (p1_cky_r st) (p1_cky_i st) (ai_sai_b ai) (p_data id_p))).
Proof.
  intros [[Li Bi] [Lx Bx] Hk] Hm. unfold AggressiveInitiator_complete. apply wp_bind.
  eapply wp_mono; [|by apply wp_eq, IsakmpHeader_parse_wp]. intros h [[Hh Hl] Eh]. case_decide; [done|]. cbv zeta.
  apply wp_bind, wp_slice_from; [done|]. apply wp_bind.
  eapply wp_mono; [|apply wp_eq, parse_payloads_wp; auto with ryke]. intros ps [[Hps _] Eps].
  apply wp_bind, wp_fmap, wp_ok_or. intros ke Eke. apply wp_bind, wp_fmap, wp_ok_or. intros no Eno.
  apply wp_bind, wp_fmap, wp_ok_or. intros hp Ehp. apply wp_bind, wp_fmap, wp_ok_or. intros idp Eid.
  destruct (find_payload_wf _ _ _ Hps Eke) as [_ Bke]. case_decide as Lke; [done|].
  apply wp_bind. eapply wp_mono; [|apply wp_eq, DhGroup_shared_wp; [done|lia|done]]. intros gxy [_ Ey].
  case_decide as Hhr; [done|]. set (ske := skeyid_e _ _ _ _ _ _).
  destruct (derive_cipher_key_ok (ai_prf ai) ske 32) as (k & Ek & Lk & Bk); [apply ske_ok|].
  rewrite Hk, Ek. cbn [mbind outcome_bind wp]. split_and!; try done.
  - constructor; cbn; [done|apply Hh|done|apply iv_ok].
  - exists gxy. split; [exact Ey|]. by constructor.
  - exists h, ps, idp. split_and!; try done. rewrite Ehp. cbn [fmap option_fmap option_map]. f_equal. exact Hhr.
Qed.
End soundness.

(** ** Properties *)
Section properties.
Context `{!Primitives, !Legacy1}.

(** The choice of the phase-1 transform is the RFC's: the responder takes the first
    transform, over all proposals in order, that it supports (AES-256-CBC with SHA-256
    or SHA-1, group 2 or 14, and a pre-shared key with or without XAUTH), with the hash
    and group that it names, and finds none exactly when no transform is supported. *)
Theorem select_transform_correct sa :
  let offered := concat (transforms <$> proposals sa) in
  (forall t prf group n, select_transform sa = Some (t, prf, group, n) <->
     n = 32%nat /\ supported t prf group /\ exists before after, offered = before ++ t :: after /\
       Forall (fun t => forall prf group, ~ supported t prf group) before) /\
  (select_transform sa = None <-> Forall (fun t => forall prf group, ~ supported t prf group) offered).
Proof.
  intros offered. rewrite select_transform_omap. fold offered.
  split.
  - intros t prf g n. rewrite head_omap_Some. split.
    + intros (l & t' & k & El & Et & Hl). apply try_transform_Some in Et as (prf' & g' & Hs & [= <- <- <- <-]).
      split_and!; [done|done|]. exists l, k. split; [done|]. eapply Forall_impl; [exact Hl|]. intros x Hx. by apply try_transform_None.
    + intros (-> & Hs & l & k & El & Hl). exists l, t, k. split_and!; [done| |].
      * apply try_transform_Some. eauto.
      * eapply Forall_impl; [exact Hl|]. intros x Hx. by apply try_transform_None.
  - split.
    + intros Hh. apply Forall_forall. intros t (l & k & El)%list_elem_of_split. rewrite El, omap_app in Hh. apply try_transform_None.
      cbn in Hh. destruct (try_transform t); [|done]. by destruct (omap try_transform l).
    + intros Hall. destruct (head _) as [r|] eqn:E; [|done]. apply head_omap_Some in E as (l & t & k & El & Et & _).
      rewrite El in Hall. apply Forall_app in Hall as [_ [Ht _]%Forall_cons]. apply try_transform_None in Ht. by rewrite Ht in Et.
Qed.
End properties.

Section claims.
Context `{!Primitives, !Legacy1, !HmacLaws, !HmacSha1Laws, !HashLaws, !BigUintLaws, !X25519Laws, !CbcLaws,
  Entropy G, !EntropyLaws G, Entropy G2, !EntropyLaws G2}.

(** C12: Aggressive Mode agrees: whatever the two ends draw, as long as both
    Diffie-Hellman values are in the range the group accepts, the responder answers
    message 1; with the same pre-shared key the initiator accepts message 2 and ends
    with exactly the responder's state (all keys, the IV, cookies, nonces and
    transcript), and its message 3 is accepted by the responder; with a key that gives
    another HASH_R it stops with an authentication failure. *)
Theorem aggressive_agreement icfg rcfg (g1 : G) (g2 : G2) gxi gxr :
  i1_group icfg <> X25519 -> id_fits (i1_our_id icfg) -> id_fits (c1_our_id rcfg) ->
  DhGroup_public (i1_group icfg) (drawn_private g1) = Ok gxi -> peer_acceptable (i1_group icfg) gxi ->
  DhGroup_public (i1_group icfg) (drawn_private g2) = Ok gxr -> peer_acceptable (i1_group icfg) gxr ->
  exists msg1 ai g1' msg2 st g2',
    initiate_aggressive icfg g1 = (Done (msg1, ai), g1') /\
    respond_aggressive rcfg msg1 g2 = (Done (msg2, st), g2') /\
    (i1_psk icfg = c1_psk rcfg -> exists msg3,
       AggressiveInitiator_complete ai msg2 = Ok (msg3, st) /\ verify_hash_i st msg3 = Ok tt) /\
    (let hash_r_under psk := hash_r Sha256 (skeyid_psk Sha256 psk (ai_ni ai) (p1_nr st)) gxr gxi (p1_cky_r st)
       (p1_cky_i st) (p1_sai_b st) (Id_to_bytes (c1_our_id rcfg)) in
     hash_r_under (i1_psk icfg) <> hash_r_under (c1_psk rcfg) ->
     AggressiveInitiator_complete ai msg2 = Err AuthFailed).
Proof.
  intros Hg Hi Hr Ei Ai Er Ar.
  destruct (aggressive_run icfg rcfg g1 g2 gxi gxr) as
    (cky_i & ni & ai & g1' & E1 & _ & _ & _ & _ & Hn & msg2 & st & g2' & E2 & _ & _ & Ec & F1 & F2); try done.
  eexists _, ai, g1', msg2, st, g2'. split_and!; [exact E1|exact E2| |].
  - intros Hp. destruct (F1 Hp) as (hi & F3 & F4 & _). eauto.
  - cbv zeta. rewrite Ec, Hn. exact F2.
Qed.

(** C13: Aggressive Mode accepts only proofs of the pre-shared key: on arbitrary octets
    neither role panics.  A state the initiator computes has keys derived, as RFC 2409
    prescribes, from its pre-shared key, the nonces, cookies and the Diffie-Hellman
    secret with the responder's value, and message 2 carried the HASH_R that this
    SKEYID gives over both public values, both cookies, the initiator's own offer and
    the responder's identity.  Every state the responder computes has the cookie, suite,
    public value, nonce, offer and identity of message 1, its own public value is that of the
    private value it drew, its keys are derived in the same way from its
    pre-shared key and the Diffie-Hellman secret of that private value with the initiator's
    value, and it accepts message 3 exactly when the message,
    decrypted if its header says so, carries as its first HASH payload the HASH_I of
    that state. *)
Theorem aggressive_auth_sound ai rcfg msg (g : G) : AggressiveInitiator_wf ai -> bytes_ok msg ->
  wp (AggressiveInitiator_complete ai msg) (fun '(_, st) =>
    (exists gxy, DhGroup_shared (ai_group ai) (ai_dh_private ai) (p1_gxr st) = Ok gxy /\
       phase1_derived (ai_psk ai) st gxy) /\
    exists hdr ps id_p, IsakmpHeader_parse msg = Ok hdr /\ resp_cookie hdr = p1_cky_r st /\
      parse_payloads (next_payload hdr) (drop IsakmpHeader_LEN msg) = Ok ps /\
      find_payload ps payload.ID = Some id_p /\
      p_data <$> find_payload ps payload.HASH = Some (hash_r (p1_prf st) (p1_skeyid st) (p1_gxr st) (ai_gxi ai)
        (p1_cky_r st) (ai_cky_i ai) (ai_sai_b ai) (p_data id_p))) /\
  (respond_aggressive rcfg msg g).1 <> Panicked /\
  (forall msg2 st g', respond_aggressive rcfg msg g = (Done (msg2, st), g') ->
     (exists m, read_message1 msg = Ok m /\ answers m st) /\
     responder_derived (c1_psk rcfg) (drawn_private g) st /\
     forall msg3, bytes_ok msg3 -> verify_hash_i st msg3 <> Panic /\
       (verify_hash_i st msg3 = Ok tt <-> exists ps, payloads_of st msg3 ps /\
          find_payload ps payload.HASH = Some (mkPayload payload.HASH (expected_hash_i st)))).
Proof.
  intros Hai Hm. pose proof (respond_aggressive_wp rcfg msg g Hm) as Hr. unfold act_wp in Hr.
  destruct (respond_aggressive rcfg msg g) as [r g''] eqn:Er. destruct Hr as [Hr1 Hr2]. split_and!.
  - eapply wp_mono; [|by apply complete_wp]. intros [m3 st] (_ & Hd & Eg & Ec & _ & _ & h & ps & i & H1' & H2' & H3' & H4' & H5').
    split; [exact Hd|]. exists h, ps, i. rewrite <- Eg, <- Ec. done.
  - done.
  - intros msg2 st g' [= -> ->]. destruct (Hr2 msg2 st eq_refl) as (_ & m & Em & Hans & Hd).
    split; [by exists m|]. split; [exact Hd|]. intros msg3 H3'. split; [by apply verify_hash_i_safe|by apply verify_hash_i_Ok].
Qed.
End claims.

(** A generator that counts, for examples with short private values. *)
Record Counting := mkCounting { count : Z }.
#[export] Instance Counting_fill : Entropy Counting := fun n g => (be_bytes n (count g), mkCounting (count g + 1)).
#[export] Instance Counting_laws : EntropyLaws Counting.
Proof. split; intros; [apply length_be_bytes|apply be_bytes_ok]. Qed.

Definition example_icfg : InitiatorConfig :=
  mkInitiatorConfig [1; 2; 3] (Id_ipv4 [10; 1; 1; 1]) Modp1024 false
    ([10; 0; 99; 0], [255; 255; 255; 0]) ([10; 0; 99; 0], [255; 255; 255; 0]).
Definition example_rcfg : Phase1Config := mkPhase1Config [1; 2; 3] (Id_ipv4 [192; 168; 0; 1]).

Lemma example_icfg_fits : id_fits (i1_our_id example_icfg).
Proof. split; [|done]. by repeat constructor. Qed.

Lemma example_rcfg_fits : id_fits (c1_our_id example_rcfg).
Proof. split; [|done]. by repeat constructor. Qed.

Lemma example_drawn_a : accepted_public Modp1024 (drawn_private (mkCounting 20)) = true.
Proof. vm_compute. reflexivity. Qed.

Lemma example_drawn_b : accepted_public Modp1024 (drawn_private (mkCounting 40)) = true.
Proof. vm_compute. reflexivity. Qed.

(** The public value of a drawn private value that the group accepts. *)
Lemma accepted_public_drawn `{Entropy G, !EntropyLaws G} group (g : G) :
  accepted_public group (drawn_private g) = true ->
  exists p, DhGroup_public group (drawn_private g) = Ok p /\ peer_acceptable group p.
Proof.
  intros Ha. assert (Ly : length (drawn_private g) = 32%nat) by apply fill_length.
  destruct (DhGroup_public_ok group (drawn_private g)) as (p & E & _); [apply fill_bytes|lia|].
  exists p. split; [done|]. by eapply accepted_public_acceptable.
Qed.

Lemma aggressive_agreement_witness : exists msg1 ai g1' msg2 st g2' msg3,
  initiate_aggressive example_icfg (mkCounting 20) = (Done (msg1, ai), g1') /\
  respond_aggressive example_rcfg msg1 (mkCounting 40) = (Done (msg2, st), g2') /\
  AggressiveInitiator_complete ai msg2 = Ok (msg3, st) /\ verify_hash_i st msg3 = Ok tt.
Proof.
  destruct (accepted_public_drawn _ _ example_drawn_a) as (gxi & E1 & A1).
  destruct (accepted_public_drawn _ _ example_drawn_b) as (gxr & E2 & A2).
  destruct (aggressive_agreement example_icfg example_rcfg (mkCounting 20) (mkCounting 40) gxi gxr)
    as (msg1 & ai & g1' & msg2 & st & g2' & H1 & H2 & H3 & _);
    [done|exact example_icfg_fits|exact example_rcfg_fits|exact E1|exact A1|exact E2|exact A2|].
  destruct (H3 eq_refl) as (msg3 & H4 & H5). exists msg1, ai, g1', msg2, st, g2', msg3. split_and!; assumption.
Defined.

Definition example_ai : AggressiveInitiator :=
  mkAggressiveInitiator Sha256 Modp1024 [1; 2; 3] (replicate 8 1) (replicate 32 2) [] [] [] [] 32.

Lemma example_ai_wf : AggressiveInitiator_wf example_ai.
Proof. by repeat constructor. Qed.

Lemma aggressive_auth_sound_witness : exists msg1 msg2 st g',
  respond_aggressive example_rcfg msg1 (mkCounting 40) = (Done (msg2, st), g') /\
  responder_derived [1; 2; 3] (drawn_private (mkCounting 40)) st.
Proof.
  destruct (accepted_public_drawn _ _ example_drawn_a) as (gxi & E1 & A1).
  destruct (accepted_public_drawn _ _ example_drawn_b) as (gxr & E2 & A2).
  destruct (aggressive_run example_icfg example_rcfg (mkCounting 20) (mkCounting 40) gxi gxr)
    as (cky_i & ni & ai & g1' & _ & Hm & _ & _ & _ & _ & msg2 & st & g2' & Er & _);
    [done|exact example_icfg_fits|exact example_rcfg_fits|exact E1|exact A1|exact E2|exact A2|].
  destruct (aggressive_auth_sound example_ai example_rcfg _ (mkCounting 40) example_ai_wf Hm) as (_ & _ & Hs).
  destruct (Hs msg2 st g2' Er) as (_ & Hd & _). eexists _, msg2, st, g2'. split; [exact Er|exact Hd].
Defined.
