(* ===== verification/Quick.v ===== *)
(** * IKEv1 Quick Mode ([src/src/ikev1/quick.rs])

    Both roles of the exchange that negotiates an ESP CHILD SA under the keys of
    phase 1: message 1 (HASH(1), SA, Ni, IDci, IDcr), message 2 (HASH(2), SA, Nr and the
    echoed identities) and message 3 (HASH(3)), encrypted with a chained IV. *)
From S2P Require Import Prelude Outcome Primitives Entropy Crypto Esp Transport Isakmp Payloads1 Crypto1 Phase2 Phase1.

Definition ESP_KEYMAT_LEN : nat := 36.
Definition ESP_AES_GCM_16 : Z := 20.

Module esp_attr.
Definition LIFE_TYPE : Z := 1.
Definition LIFE_DURATION : Z := 2.
Definition ENCAP_MODE : Z := 4.
Definition KEY_LENGTH : Z := 6.
End esp_attr.

Definition ENCAP_TUNNEL : Z := 1.
Definition LIFE_SECONDS : Z := 1.

Definition qm_header (cky_i cky_r : bytes) (msgid : Z) : IsakmpHeader :=
  {| init_cookie := cky_i; resp_cookie := cky_r; next_payload := payload.NONE; version := VERSION_1_0;
     exchange_type := exchange.QUICK; hdr_flags := 0; message_id := msgid; hdr_length := 0 |}.

Definition esp_sa (spi : Z) : SaPayload :=
  {| doi := IPSEC_DOI; situation := SIT_IDENTITY_ONLY;
     proposals := [ {| prop_num := 1; protocol_id := protocol.ESP; prop_spi := be_bytes 4 spi;
       transforms := [ {| t_num := 1; transform_id := ESP_AES_GCM_16; attributes :=
         [Attribute_short esp_attr.ENCAP_MODE ENCAP_TUNNEL;
          Attribute_short esp_attr.LIFE_TYPE LIFE_SECONDS;
          Attribute_long_u32 esp_attr.LIFE_DURATION 3600;
          Attribute_short esp_attr.KEY_LENGTH 256] |} ] |} ] |}.

Definition ts_id (addr mask : bytes) : bytes :=
  Id_to_bytes {| id_ty := id_type.IPV4_ADDR_SUBNET; id_protocol := 0; id_port := 0; id_data := addr ++ mask |}.

Definition peer_esp_spi (ps : list Payload) : outcome Z :=
  sa_p ← ok_or (find_payload ps payload.SA) (MissingPayload "SA");
  sa ← SaPayload_parse (p_data sa_p);
  prop ← ok_or (head (proposals sa)) NoProposalChosen;
  if decide (length (prop_spi prop) <> 4%nat) then Err NoProposalChosen else
  a ← idx (prop_spi prop) 0; b ← idx (prop_spi prop) 1; c ← idx (prop_spi prop) 2; d ← idx (prop_spi prop) 3;
  Ok (be_val [a; b; c; d]).

Section quick.
Context `{!Primitives, !Legacy1, Entropy G}.
Open Scope action_scope.

Definition hash3 (p : Prf) (ska : bytes) (msgid : Z) (ni nr : bytes) : bytes :=
  mac p ska ([0] ++ be_bytes 4 msgid ++ ni ++ nr).

Definition derive_child (p : Prf) (skd ni nr : bytes) (local_spi peer_spi : Z) : outcome ChildSa :=
  let km_local := keymat p skd protocol.ESP (be_bytes 4 local_spi) ni nr ESP_KEYMAT_LEN in
  let km_peer := keymat p skd protocol.ESP (be_bytes 4 peer_spi) ni nr ESP_KEYMAT_LEN in
  o ← EspSa_new peer_spi km_peer;
  i ← EspSa_new local_spi km_local;
  Ok {| outbound := o; inbound := i |}.

(** ** The initiator *)
Record QuickInitiator := mkQuickInitiator {
  qi_prf : Prf;
  qi_skeyid_a : bytes;
  qi_skeyid_d : bytes;
  qi_enc_key : bytes;
  qi_cky_i : bytes;
  qi_cky_r : bytes;
  qi_msgid : Z;
  qi_local_spi : Z;
  qi_ni : bytes;
  qi_iv1 : bytes }.

(** Message 1 with the values drawn *)
Definition quick_message1 (st : Phase1State) (local_spi msgid : Z) (ni : bytes) (ts_local ts_remote : bytes * bytes)
    : outcome (bytes * QuickInitiator) :=
  let iv0 := phase2_iv (p1_prf st) (p1_iv st) msgid AES_BLOCK in
  let after := [(payload.SA, SaPayload_to_bytes (esp_sa local_spi)); (payload.NONCE, ni);
                (payload.ID, ts_id ts_local.1 ts_local.2); (payload.ID, ts_id ts_remote.1 ts_remote.2)] in
  '(msg1, iv1) ← build_encrypted (qm_header (p1_cky_i st) (p1_cky_r st) msgid) (p1_prf st) (p1_skeyid_a st)
                   (p1_enc_key st) iv0 after;
  Ok (msg1, {| qi_prf := p1_prf st; qi_skeyid_a := p1_skeyid_a st; qi_skeyid_d := p1_skeyid_d st;
               qi_enc_key := p1_enc_key st; qi_cky_i := p1_cky_i st; qi_cky_r := p1_cky_r st; qi_msgid := msgid;
               qi_local_spi := local_spi; qi_ni := ni; qi_iv1 := iv1 |}).

Definition initiate_quick (st : Phase1State) (ts_local ts_remote : bytes * bytes)
    : action G (bytes * QuickInitiator) :=
  let! spi_b := draw (fill 4) in
  let local_spi := be_val spi_b in
  let! mid_b := draw (fill 4) in
  let msgid := Z.lor (be_val mid_b) 1 in
  let! ni := draw (fill 16) in
  ike (quick_message1 st local_spi msgid ni ts_local ts_remote).

Definition QuickInitiator_complete (qi : QuickInitiator) (msg2 : bytes) : outcome (bytes * ChildSa) :=
  '(_, ps, iv2) ← decrypt_payloads msg2 (qi_enc_key qi) (qi_iv1 qi);
  nr ← p_data <$> ok_or (find_payload ps payload.NONCE) (MissingPayload "NONCE");
  peer_spi ← peer_esp_spi ps;
  got ← p_data <$> ok_or (find_payload ps payload.HASH) (MissingPayload "HASH");
  let '(_, body) := encode_payloads (after_hash ps) in
  let hi := be_bytes 4 (qi_msgid qi) ++ qi_ni qi ++ body in
  if decide (got <> mac (qi_prf qi) (qi_skeyid_a qi) hi) then Err AuthFailed else
  let h3 := hash3 (qi_prf qi) (qi_skeyid_a qi) (qi_msgid qi) (qi_ni qi) nr in
  '(msg3, _) ← encrypt_payloads (qm_header (qi_cky_i qi) (qi_cky_r qi) (qi_msgid qi)) (qi_enc_key qi) iv2
                 [(payload.HASH, h3)];
  child ← derive_child (qi_prf qi) (qi_skeyid_d qi) (qi_ni qi) nr (qi_local_spi qi) peer_spi;
  Ok (msg3, child).

(** ** The responder *)
Record QuickResponder := mkQuickResponder {
  qr_prf : Prf;
  qr_skeyid_a : bytes;
  qr_skeyid_d : bytes;
  qr_enc_key : bytes;
  qr_msgid : Z;
  qr_local_spi : Z;
  qr_peer_spi : Z;
  qr_ni : bytes;
  qr_nr : bytes;
  qr_iv2 : bytes }.

(** What [respond_quick] reads from message 1 before it draws its own values: the
    message id, all payloads, the nonce, the peer's SPI and the next IV. *)
Definition read_quick1 (st : Phase1State) (msg1 : bytes) : outcome (Z * list Payload * bytes * Z * bytes) :=
  hdr ← IsakmpHeader_parse msg1;
  if decide (exchange_type hdr <> exchange.QUICK) then Err (Crypto "not a Quick Mode message") else
  let msgid := message_id hdr in
  let iv0 := phase2_iv (p1_prf st) (p1_iv st) msgid AES_BLOCK in
  '(_, ps, iv1) ← parse_encrypted msg1 (p1_prf st) (p1_skeyid_a st) (p1_enc_key st) iv0;
  ni ← p_data <$> ok_or (find_payload ps payload.NONCE) (MissingPayload "NONCE");
  peer_spi ← peer_esp_spi ps;
  Ok (msgid, ps, ni, peer_spi, iv1).

Definition answer_quick1 (st : Phase1State) (msgid : Z) (ps : list Payload) (ni : bytes) (peer_spi : Z) (iv1 : bytes)
    (local_spi : Z) (nr : bytes) : outcome (bytes * QuickResponder) :=
  let after := [(payload.SA, SaPayload_to_bytes (esp_sa local_spi)); (payload.NONCE, nr)] ++
               ((fun p => (payload.ID, p_data p)) <$> filter (fun p => payload_type p = payload.ID) ps) in
  '(msg2, iv2) ← build_encrypted_prefixed (qm_header (p1_cky_i st) (p1_cky_r st) msgid) (p1_prf st)
                   (p1_skeyid_a st) (p1_enc_key st) iv1 ni after;
  Ok (msg2, {| qr_prf := p1_prf st; qr_skeyid_a := p1_skeyid_a st; qr_skeyid_d := p1_skeyid_d st;
               qr_enc_key := p1_enc_key st; qr_msgid := msgid; qr_local_spi := local_spi; qr_peer_spi := peer_spi;
               qr_ni := ni; qr_nr := nr; qr_iv2 := iv2 |}).

Definition respond_quick (st : Phase1State) (msg1 : bytes) : action G (bytes * QuickResponder) :=
  let! '(msgid, ps, ni, peer_spi, iv1) := ike (read_quick1 st msg1) in
  let! spi_b := draw (fill 4) in
  let local_spi := be_val spi_b in
  let! nr := draw (fill 16) in
  ike (answer_quick1 st msgid ps ni peer_spi iv1 local_spi nr).

Definition QuickResponder_complete (qr : QuickResponder) (msg3 : bytes) : outcome ChildSa :=
  '(_, ps, _) ← decrypt_payloads msg3 (qr_enc_key qr) (qr_iv2 qr);
  got ← p_data <$> ok_or (find_payload ps payload.HASH) (MissingPayload "HASH");
  if decide (got <> hash3 (qr_prf qr) (qr_skeyid_a qr) (qr_msgid qr) (qr_ni qr) (qr_nr qr)) then Err AuthFailed else
  derive_child (qr_prf qr) (qr_skeyid_d qr) (qr_ni qr) (qr_nr qr) (qr_local_spi qr) (qr_peer_spi qr).
End quick.

(** ** The pieces of the messages *)
Lemma esp_sa_wf spi : SaPayload_wf (esp_sa spi).
Proof. repeat constructor; try done; apply byte_ok_mod. Qed.

Lemma esp_sa_fits spi : fits (SaPayload_to_bytes (esp_sa spi)).
Proof. done. Qed.

Lemma peer_esp_spi_sa ps spi : u32_ok spi ->
  find_payload ps payload.SA = Some (mkPayload payload.SA (SaPayload_to_bytes (esp_sa spi))) ->
  peer_esp_spi ps = Ok spi.
Proof.
  intros Hs Hf. unfold peer_esp_spi. rewrite Hf. cbn [ok_or mbind outcome_bind p_data].
  rewrite SaPayload_parse_write by apply esp_sa_wf. cbn [mbind outcome_bind].
  transitivity (Ok (be_val (be_bytes 4 spi))); [reflexivity|]. by rewrite be_val_be_bytes.
Qed.

Lemma peer_esp_spi_wp ps : Forall payload_wf ps -> wp (peer_esp_spi ps) u32_ok.
Proof.
  intros Hps. unfold peer_esp_spi. apply wp_bind, wp_ok_or. intros sa_p Esa.
  destruct (find_payload_wf _ _ _ Hps Esa) as [_ Bsa].
  apply wp_bind. eapply wp_mono; [|by apply SaPayload_parse_wp]. intros sa [_ _ [_ Hp]].
  apply wp_bind, wp_ok_or. intros prop Ep.
  assert (Hw : Proposal_wf prop) by (destruct (proposals sa); [done|]; injection Ep as ->; by apply Forall_cons in Hp as [? _]).
  destruct Hw as [_ _ [Bs _] _ _]. case_decide as Hl; [done|].
  destruct (prop_spi prop) as [|a [|b [|c [|d [|? ?]]]]]; try done. exact (be_val_bound _ Bs).
Qed.

(** The identities of traffic selectors: two arrays of four octets *)
Definition ts_ok (ts : bytes * bytes) : Prop :=
  length ts.1 = 4%nat /\ bytes_ok ts.1 /\ length ts.2 = 4%nat /\ bytes_ok ts.2.

Lemma ts_id_wf ts : ts_ok ts -> enc_wf (payload.ID, ts_id ts.1 ts.2).
Proof.
  intros (L1 & B1 & L2 & B2). apply enc_wf_intro; [done|done| |].
  - apply Id_to_bytes_ok. constructor; [done|done|done|]. cbn. auto with ryke.
  - eapply (fits_small _ 12); [|done]. unfold ts_id, Id_to_bytes. cbn [id_ty id_protocol id_port id_data].
    by rewrite !length_app, length_be_bytes, L1, L2.
Qed.

(** The payloads after the HASH of messages 1 and 2 *)
Definition quick_payloads (spi : Z) (nonce : bytes) (ids : list bytes) : list (Z * bytes) :=
  [(payload.SA, SaPayload_to_bytes (esp_sa spi)); (payload.NONCE, nonce)] ++ ((fun i => (payload.ID, i)) <$> ids).

Lemma quick_payloads_wf spi nonce ids : bytes_ok nonce -> length nonce = 16%nat ->
  Forall (fun i => enc_wf (payload.ID, i)) ids ->
  Forall enc_wf (quick_payloads spi nonce ids) /\ no_hash (quick_payloads spi nonce ids).
Proof.
  intros Bn Ln Hi. unfold quick_payloads, no_hash. split; apply Forall_app; split.
  - repeat apply Forall_cons_2; [apply enc_wf_intro; [done|done| |done]|apply enc_wf_intro; try done|constructor].
    + apply SaPayload_to_bytes_ok, esp_sa_wf.
    + by eapply fits_small.
  - by apply Forall_fmap.
  - repeat constructor; done.
  - apply Forall_fmap. eapply Forall_impl; [exact Hi|]. done.
Qed.

(** What is found in a message whose payloads follow the HASH *)
Lemma quick_find hash spi nonce ids :
  let ps := to_payload <$> ((payload.HASH, hash) :: quick_payloads spi nonce ids) in
  find_payload ps payload.SA = Some (mkPayload payload.SA (SaPayload_to_bytes (esp_sa spi))) /\
  find_payload ps payload.NONCE = Some (mkPayload payload.NONCE nonce) /\
  find_payload ps payload.HASH = Some (mkPayload payload.HASH hash) /\
  p_data <$> filter (fun p => payload_type p = payload.ID) ps = ids.
Proof.
  cbv zeta. split_and!; try reflexivity. unfold quick_payloads. cbn [app fmap list_fmap].
  rewrite !filter_cons_False by done. induction ids as [|i ids IH]; [done|].
  cbn [fmap list_fmap]. rewrite filter_cons_True by done. cbn [fmap list_fmap]. f_equal. exact IH.
Qed.

Lemma qm_header_wf st msgid : Phase1State_wf st -> u32_ok msgid ->
  IsakmpHeader_wf (qm_header (p1_cky_i st) (p1_cky_r st) msgid).
Proof. intros [] Hm. by constructor. Qed.

Section lemmas.
Context `{!Primitives, !Legacy1, !HmacLaws, !HmacSha1Laws, !HashLaws, !CbcLaws}.

(** The CHILD SA of one end; exchanging the SPIs exchanges the directions. *)
Definition esp_direction (p : Prf) (skd ni nr : bytes) (spi : Z) : EspSa :=
  let km := keymat p skd protocol.ESP (be_bytes 4 spi) ni nr ESP_KEYMAT_LEN in
  mkEspSa spi (take 32 km) (drop 32 km) 0.

Lemma derive_child_ok p skd ni nr local peer : derive_child p skd ni nr local peer =
  Ok {| outbound := esp_direction p skd ni nr peer; inbound := esp_direction p skd ni nr local |}.
Proof. unfold derive_child. by rewrite !EspSa_new_ok by apply length_keymat. Qed.

Lemma esp_direction_wf p skd ni nr spi : u32_ok spi -> EspSa_wf (esp_direction p skd ni nr spi).
Proof.
  intros Hs. constructor; cbn [esp_direction esp_spi esp_key esp_salt esp_seq];
    rewrite ?length_take, ?length_drop, ?length_keymat; [done|reflexivity|reflexivity|done].
Qed.

Lemma phase2_cipher_ok st msgid : Phase1State_wf st ->
  cipher_ok (p1_enc_key st) (phase2_iv (p1_prf st) (p1_iv st) msgid AES_BLOCK).
Proof. intros [_ _ [Hk _] _]. split; [done|apply iv_ok]. Qed.
End lemmas.

(** ** When the two ends accept *)
Section accept.
Context `{!Primitives, !Legacy1}.

Lemma QuickInitiator_complete_Ok qi msg2 msg3 child : QuickInitiator_complete qi msg2 = Ok (msg3, child) <->
  exists h ps iv2 nr spi iv3, decrypt_payloads msg2 (qi_enc_key qi) (qi_iv1 qi) = Ok (h, ps, iv2) /\
    p_data <$> find_payload ps payload.NONCE = Some nr /\ peer_esp_spi ps = Ok spi /\
    hash_valid (qi_prf qi) (qi_skeyid_a qi) (qi_ni qi) (qi_msgid qi) ps /\
    encrypt_payloads (qm_header (qi_cky_i qi) (qi_cky_r qi) (qi_msgid qi)) (qi_enc_key qi) iv2
      [(payload.HASH, hash3 (qi_prf qi) (qi_skeyid_a qi) (qi_msgid qi) (qi_ni qi) nr)] = Ok (msg3, iv3) /\
    derive_child (qi_prf qi) (qi_skeyid_d qi) (qi_ni qi) nr (qi_local_spi qi) spi = Ok child.
Proof.
  unfold QuickInitiator_complete, hash_valid. split.
  - intros ([[h ps] iv2] & Ed & Hr)%bind_Ok. apply bind_Ok in Hr as (nr & En & Hr).
    apply bind_Ok in Hr as (spi & Es & Hr). apply bind_Ok in Hr as (got & Eg & Hr). cbn [encode_payloads] in Hr.
    case_decide as Hd; [done|]. apply bind_Ok in Hr as ([m3 iv3] & Em & Hr). apply bind_Ok in Hr as (c & Ec & Hr).
    injection Hr as <- <-.
    destruct (find_payload ps payload.NONCE) as [n|] eqn:Ef; [|done]. injection En as <-.
    destruct (find_payload ps payload.HASH) as [hp|] eqn:Eh; [|done]. injection Eg as <-.
    exists h, ps, iv2, (p_data n), spi, iv3. split_and!; [done|by rewrite Ef|done| |done|done].
    by exists hp.
  - intros (h & ps & iv2 & nr & spi & iv3 & Ed & En & Es & (hp & Eh & Ehd) & Em & Ec).
    rewrite Ed. cbn [mbind outcome_bind]. destruct (find_payload ps payload.NONCE) as [n|]; [|done]. injection En as <-.
    cbn [ok_or fmap outcome_fmap mbind outcome_bind]. rewrite Es. cbn [mbind outcome_bind]. rewrite Eh.
    cbn [ok_or fmap outcome_fmap mbind outcome_bind encode_payloads]. rewrite decide_False by (by intros []).
    rewrite Em. cbn [mbind outcome_bind]. by rewrite Ec.
Qed.

Lemma QuickResponder_complete_Ok qr msg3 child : QuickResponder_complete qr msg3 = Ok child <->
  exists h ps iv, decrypt_payloads msg3 (qr_enc_key qr) (qr_iv2 qr) = Ok (h, ps, iv) /\
    p_data <$> find_payload ps payload.HASH =
      Some (hash3 (qr_prf qr) (qr_skeyid_a qr) (qr_msgid qr) (qr_ni qr) (qr_nr qr)) /\
    derive_child (qr_prf qr) (qr_skeyid_d qr) (qr_ni qr) (qr_nr qr) (qr_local_spi qr) (qr_peer_spi qr) = Ok child.
Proof.
  unfold QuickResponder_complete. split.
  - intros ([[h ps] iv] & Ed & Hr)%bind_Ok. apply bind_Ok in Hr as (got & Eg & Hr). case_decide as Hd; [done|].
    destruct (find_payload ps payload.HASH) as [hp|] eqn:Eh; [|done]. injection Eg as Eg.
    exists h, ps, iv. split_and!; [done| |done]. rewrite Eh. cbn. by rewrite Eg, Hd.
  - intros (h & ps & iv & Ed & Eh & Ec). rewrite Ed. cbn [mbind outcome_bind].
    destruct (find_payload ps payload.HASH) as [hp|]; [|done]. injection Eh as Eh.
    cbn [ok_or fmap outcome_fmap mbind outcome_bind]. rewrite Eh, decide_False by (by intros []). done.
Qed.
End accept.

(** ** A whole run of Quick Mode *)
Section run.
Context `{!Primitives, !Legacy1, !HmacLaws, !HmacSha1Laws, !HashLaws, !CbcLaws}.
Implicit Types (st : Phase1State).

Definition ts_ids (ts1 ts2 : bytes * bytes) : list bytes := [ts_id ts1.1 ts1.2; ts_id ts2.1 ts2.2].

Lemma ts_ids_wf ts1 ts2 : ts_ok ts1 -> ts_ok ts2 -> Forall (fun i => enc_wf (payload.ID, i)) (ts_ids ts1 ts2).
Proof. intros. repeat apply Forall_cons_2; [by apply ts_id_wf|by apply ts_id_wf|constructor]. Qed.

(** Message 1, and what the responder reads from it. *)
Lemma quick_message1_ok st spi msgid ni ts1 ts2 : Phase1State_wf st -> u32_ok spi -> u32_ok msgid ->
  bytes_ok ni -> length ni = 16%nat -> ts_ok ts1 -> ts_ok ts2 ->
  exists msg1 iv1 hash, quick_message1 st spi msgid ni ts1 ts2 =
      Ok (msg1, {| qi_prf := p1_prf st; qi_skeyid_a := p1_skeyid_a st; qi_skeyid_d := p1_skeyid_d st;
        qi_enc_key := p1_enc_key st; qi_cky_i := p1_cky_i st; qi_cky_r := p1_cky_r st; qi_msgid := msgid;
        qi_local_spi := spi; qi_ni := ni; qi_iv1 := iv1 |}) /\
    bytes_ok msg1 /\ length iv1 = AES_BLOCK /\
    (exists h, IsakmpHeader_parse msg1 = Ok h /\ exchange_type h = exchange.QUICK /\ init_cookie h = p1_cky_i st) /\
    read_quick1 st msg1 = Ok (msgid, to_payload <$> ((payload.HASH, hash) :: quick_payloads spi ni (ts_ids ts1 ts2)),
      ni, spi, iv1).
Proof.
  intros Hst Hs Hm Bn Ln H1' H2'.
  destruct (quick_payloads_wf spi ni (ts_ids ts1 ts2) Bn Ln (ts_ids_wf _ _ H1' H2')) as [He Hn].
  destruct (build_encrypted_prefixed_ok (qm_header (p1_cky_i st) (p1_cky_r st) msgid) (p1_prf st) (p1_skeyid_a st)
    (p1_enc_key st) (phase2_iv (p1_prf st) (p1_iv st) msgid AES_BLOCK) [] (quick_payloads spi ni (ts_ids ts1 ts2)))
    as (msg1 & iv1 & ps & E1 & Bm & Li & _ & Eps & h & Em & Ex & Ec & _ & Eh & Ed & Hv);
    [by apply qm_header_wf|by apply phase2_cipher_ok|done|done|].
  subst ps. set (hash := mac _ _ _) in *. exists msg1, iv1, hash. split_and!; [|done|done|by exists h|].
  - unfold quick_message1. cbv zeta.
    change (build_encrypted ?a ?b ?c ?d ?e ?f) with (build_encrypted_prefixed a b c d e [] f).
    change [_; _; _; _] with (quick_payloads spi ni (ts_ids ts1 ts2)). by rewrite E1.
  - destruct (quick_find hash spi ni (ts_ids ts1 ts2)) as (F1 & F2 & _).
    set (ps := to_payload <$> _) in *. clearbody ps. unfold read_quick1. rewrite Eh.
    cbn [mbind outcome_bind]. rewrite Ex. rewrite decide_False by (by intros []). cbv zeta. rewrite Em.
    change (message_id (qm_header _ _ _)) with msgid in *.
    rewrite (proj2 (parse_encrypted_Ok _ _ _ _ _ h _ iv1)) by (split; [exact Ed|by rewrite Em]).
    cbn [mbind outcome_bind]. rewrite F2. cbn [ok_or fmap outcome_fmap mbind outcome_bind p_data].
    by rewrite (peer_esp_spi_sa _ spi Hs F1).
Qed.

(** Message 2, read by the initiator, and message 3, read by the responder. *)
Lemma quick_finish st spi_i spi_r msgid ni nr ids iv1 hash : Phase1State_wf st -> u32_ok spi_i -> u32_ok spi_r ->
  u32_ok msgid -> bytes_ok nr -> length nr = 16%nat -> Forall (fun i => enc_wf (payload.ID, i)) ids ->
  length iv1 = AES_BLOCK ->
  let qi := {| qi_prf := p1_prf st; qi_skeyid_a := p1_skeyid_a st; qi_skeyid_d := p1_skeyid_d st;
        qi_enc_key := p1_enc_key st; qi_cky_i := p1_cky_i st; qi_cky_r := p1_cky_r st; qi_msgid := msgid;
        qi_local_spi := spi_i; qi_ni := ni; qi_iv1 := iv1 |} in
  let ps := to_payload <$> ((payload.HASH, hash) :: quick_payloads spi_i ni ids) in
  exists msg2 qr msg3 ci cr, answer_quick1 st msgid ps ni spi_i iv1 spi_r nr = Ok (msg2, qr) /\
    QuickInitiator_complete qi msg2 = Ok (msg3, ci) /\ QuickResponder_complete qr msg3 = Ok cr /\
    bytes_ok msg2 /\ bytes_ok msg3 /\
    (exists h, IsakmpHeader_parse msg3 = Ok h /\ exchange_type h = exchange.QUICK /\ init_cookie h = p1_cky_i st) /\
    ci = {| outbound := esp_direction (p1_prf st) (p1_skeyid_d st) ni nr spi_r;
            inbound := esp_direction (p1_prf st) (p1_skeyid_d st) ni nr spi_i |} /\
    cr = {| outbound := inbound ci; inbound := outbound ci |}.
Proof.
  intros Hst Hi Hr Hm Bn Ln Hids Li qi ps.
  assert (Hk : forall iv, length iv = AES_BLOCK -> cipher_ok (p1_enc_key st) iv) by (intros iv Hiv; by destruct Hst as [_ _ [? _] _]).
  destruct (quick_payloads_wf spi_r nr ids Bn Ln Hids) as [He Hn].
  destruct (build_encrypted_prefixed_ok (qm_header (p1_cky_i st) (p1_cky_r st) msgid) (p1_prf st) (p1_skeyid_a st)
    (p1_enc_key st) iv1 ni (quick_payloads spi_r nr ids))
    as (msg2 & iv2 & ps2 & E1 & Bm & Li2 & _ & Eps & h & Em & _ & _ & _ & _ & Ed & (hp & Hf & Hh));
    [by apply qm_header_wf|by apply Hk|done|done|].
  subst ps2. change (message_id (qm_header _ _ _)) with msgid in *. set (hash2 := mac _ _ _) in Hf, Ed, Hh.
  destruct (quick_find hash spi_i ni ids) as (_ & _ & _ & F4).
  destruct (quick_find hash2 spi_r nr ids) as (G1 & G2' & G3 & _).
  set (h3 := hash3 (p1_prf st) (p1_skeyid_a st) msgid ni nr).
  destruct (seal_payloads_ok (qm_header (p1_cky_i st) (p1_cky_r st) msgid) (p1_enc_key st) iv2 [(payload.HASH, h3)])
    as (msg3 & iv3 & S1 & Bm3 & _ & _ & S2 & S3);
    [by apply qm_header_wf|by apply Hk|apply Forall_singleton, mac_enc_wf|done|].
  eexists msg2, _, msg3, _, _. split_and!; [| | |done|done| |reflexivity|reflexivity].
  - unfold answer_quick1. cbv zeta.
    replace ((fun p => (payload.ID, p_data p)) <$> filter (fun p => payload_type p = payload.ID) ps)
      with ((fun i => (payload.ID, i)) <$> ids)
      by (etransitivity; [apply (f_equal (fmap (fun i => (payload.ID, i)))); symmetry; exact F4|by rewrite <- list_fmap_compose]).
    fold (quick_payloads spi_r nr ids). rewrite E1. reflexivity.
  - apply QuickInitiator_complete_Ok. eexists h, _, iv2, nr, spi_r, iv3. split_and!; [exact Ed| | | | |].
    + by rewrite G2'.
    + by apply peer_esp_spi_sa.
    + by exists hp.
    + exact S1.
    + apply derive_child_ok.
  - apply QuickResponder_complete_Ok. eexists _, _, iv3. split_and!; [exact S3|reflexivity|apply derive_child_ok].
  - by eexists.
Qed.
End run.

(** ** Arbitrary messages *)
Section sound.
Context `{!Primitives, !Legacy1, !HmacLaws, !HmacSha1Laws, !HashLaws, !CbcLaws}.
Implicit Types (st : Phase1State).

(** Message 1 authenticates: under the IV of its message id it decrypts to payloads
    whose first HASH is HASH(1), with a nonce and an ESP SPI of four octets. *)
Definition authentic1 st (msg1 : bytes) (msgid : Z) (ni : bytes) (spi : Z) : Prop :=
  exists h ps iv1, IsakmpHeader_parse msg1 = Ok h /\ exchange_type h = exchange.QUICK /\ message_id h = msgid /\
    decrypt_payloads msg1 (p1_enc_key st) (phase2_iv (p1_prf st) (p1_iv st) msgid AES_BLOCK) = Ok (h, ps, iv1) /\
    hash_valid (p1_prf st) (p1_skeyid_a st) [] msgid ps /\
    p_data <$> find_payload ps payload.NONCE = Some ni /\ peer_esp_spi ps = Ok spi.

(** Message 2 authenticates: its HASH covers the initiator's nonce too. *)
Definition authentic2 (qi : QuickInitiator) (msg2 nr : bytes) (spi : Z) : Prop :=
  exists h ps iv2, decrypt_payloads msg2 (qi_enc_key qi) (qi_iv1 qi) = Ok (h, ps, iv2) /\
    p_data <$> find_payload ps payload.NONCE = Some nr /\ peer_esp_spi ps = Ok spi /\
    hash_valid (qi_prf qi) (qi_skeyid_a qi) (qi_ni qi) (qi_msgid qi) ps.

(** Message 3 authenticates: its first HASH is HASH(3) over both nonces. *)
Definition authentic3 (qr : QuickResponder) (msg3 : bytes) : Prop :=
  exists h ps iv, decrypt_payloads msg3 (qr_enc_key qr) (qr_iv2 qr) = Ok (h, ps, iv) /\
    p_data <$> find_payload ps payload.HASH =
      Some (hash3 (qr_prf qr) (qr_skeyid_a qr) (qr_msgid qr) (qr_ni qr) (qr_nr qr)).

(** The state a responder keeps after an authentic message 1 under [st]. *)
Record quick_of st (msg1 : bytes) (qr : QuickResponder) : Prop := {
  q_prf : qr_prf qr = p1_prf st;
  q_skeyid_a : qr_skeyid_a qr = p1_skeyid_a st;
  q_skeyid_d : qr_skeyid_d qr = p1_skeyid_d st;
  q_enc_key : qr_enc_key qr = p1_enc_key st;
  q_message1 : authentic1 st msg1 (qr_msgid qr) (qr_ni qr) (qr_peer_spi qr);
  q_spis : u32_ok (qr_local_spi qr) /\ u32_ok (qr_peer_spi qr) }.

Lemma read_quick1_wp st msg1 : bytes_ok msg1 ->
  wp (read_quick1 st msg1) (fun '(msgid, ps, ni, spi, iv1) => authentic1 st msg1 msgid ni spi /\ u32_ok spi).
Proof.
  intros Hm. unfold read_quick1. apply wp_bind. eapply wp_mono; [|by apply wp_eq, IsakmpHeader_parse_wp].
  intros h [_ Eh]. case_decide as Hx; [done|]. cbv zeta. apply wp_bind.
  eapply wp_mono; [|by apply safe_wp, parse_encrypted_safe]. intros [[h' ps] iv1] E.
  apply parse_encrypted_Ok in E as [Ed Hv].
  destruct (wp_ok _ _ _ (decrypt_payloads_wp msg1 _ _ Hm) Ed) as (_ & Eh' & Hps & _).
  rewrite Eh in Eh'. injection Eh' as <-.
  apply wp_bind, wp_fmap, wp_ok_or. intros no Eno. apply wp_bind.
  eapply wp_mono; [|by apply wp_eq, peer_esp_spi_wp]. intros spi [Hs Es]. cbn [wp]. split; [|done].
  exists h, ps, iv1. split_and!; try done. by rewrite Eno.
Qed.

Lemma answer_quick1_wp st msgid ps ni spi iv1 local nr :
  wp (answer_quick1 st msgid ps ni spi iv1 local nr) (fun '(_, qr) =>
    qr_prf qr = p1_prf st /\ qr_skeyid_a qr = p1_skeyid_a st /\ qr_skeyid_d qr = p1_skeyid_d st /\
    qr_enc_key qr = p1_enc_key st /\ qr_msgid qr = msgid /\ qr_ni qr = ni /\ qr_peer_spi qr = spi /\
    qr_local_spi qr = local).
Proof.
  unfold answer_quick1. cbv zeta. apply wp_bind.
  eapply wp_mono; [|apply safe_wp; unfold build_encrypted_prefixed; apply seal_payloads_safe].
  by intros [msg2 iv2] _.
Qed.

Lemma fill_u32 b : length b = 4%nat -> bytes_ok b -> u32_ok (be_val b).
Proof. intros Hl Hb. apply be_val_bound in Hb. by rewrite Hl in Hb. Qed.

Lemma respond_quick_wp `{EntropyLaws G} st msg1 (g : G) : bytes_ok msg1 ->
  act_wp (respond_quick st msg1) (fun r _ => forall msg2 qr, r = Done (msg2, qr) -> quick_of st msg1 qr) g.
Proof.
  intros Hm. unfold respond_quick. apply act_wp_bind. eapply act_wp_ike; [by apply read_quick1_wp| |by intros].
  intros [[[[msgid ps] ni] spi] iv1] [Ha Hs] _. unfold act_wp, act_bind, draw.
  destruct (fill_ok 4 g) as (sb & g1 & -> & Ls & Bs). destruct (fill_ok 16 g1) as (nr & g2 & -> & _).
  pose proof (answer_quick1_wp st msgid ps ni spi iv1 (be_val sb) nr) as Hw. unfold ike.
  destruct (answer_quick1 _ _ _ _ _ _ _ _) as [[msg2 qr]| |]; [|done|done]. split; [done|].
  intros ? ? [= <- <-]. destruct Hw as (E1 & E2 & E3 & E4 & E5 & E6 & E7 & E8).
  constructor; rewrite ?E5, ?E6, ?E7, ?E8; try done. split; [by apply fill_u32|done].
Qed.

Lemma QuickInitiator_complete_safe qi msg2 : bytes_ok msg2 -> QuickInitiator_complete qi msg2 <> Panic.
Proof.
  intros Hm. apply (wp_safe _ (fun _ => True)). unfold QuickInitiator_complete. apply wp_bind.
  eapply wp_mono; [|by apply decrypt_payloads_wp]. intros [[h ps] iv2] (_ & _ & Hps & _).
  apply wp_bind, wp_fmap, wp_ok_or. intros no _. apply wp_bind.
  eapply wp_mono; [|by apply peer_esp_spi_wp]. intros spi _. apply wp_bind, wp_fmap, wp_ok_or. intros hp _.
  cbn [encode_payloads]. case_decide; [done|]. apply wp_bind.
  eapply wp_mono; [|apply safe_wp, seal_payloads_safe]. intros [msg3 iv3] _. by rewrite derive_child_ok.
Qed.

Lemma QuickResponder_complete_safe qr msg3 : bytes_ok msg3 -> QuickResponder_complete qr msg3 <> Panic.
Proof.
  intros Hm. apply (wp_safe _ (fun _ => True)). unfold QuickResponder_complete. apply wp_bind.
  eapply wp_mono; [|by apply decrypt_payloads_wp]. intros [[h ps] iv] _.
  apply wp_bind, wp_fmap, wp_ok_or. intros hp _. case_decide; [done|]. by rewrite derive_child_ok.
Qed.

(** The CHILD SA of an end that receives on [local] and sends to [peer] *)
Definition child_of (p : Prf) (skd ni nr : bytes) (local peer : Z) : ChildSa :=
  {| outbound := esp_direction p skd ni nr peer; inbound := esp_direction p skd ni nr local |}.

Lemma QuickResponder_complete_iff qr msg3 child : QuickResponder_complete qr msg3 = Ok child <->
  authentic3 qr msg3 /\
  child = child_of (qr_prf qr) (qr_skeyid_d qr) (qr_ni qr) (qr_nr qr) (qr_local_spi qr) (qr_peer_spi qr).
Proof.
  rewrite QuickResponder_complete_Ok, derive_child_ok. split.
  - intros (h & ps & iv & Ed & Eh & [= <-]). split; [by exists h, ps, iv|done].
  - intros [(h & ps & iv & Ed & Eh) ->]. by exists h, ps, iv.
Qed.
End sound.

(** The whole exchange, with what the drivers see of it *)
Section whole.
Context `{!Primitives, !Legacy1, !HmacLaws, !HmacSha1Laws, !HashLaws, !CbcLaws,
  Entropy G, !EntropyLaws G, Entropy G2, !EntropyLaws G2}.
Implicit Types (st : Phase1State).

(** A Quick Mode message of the session with the initiator's cookie of [st] *)
Definition quick_header st (msg : bytes) : Prop :=
  exists h, IsakmpHeader_parse msg = Ok h /\ exchange_type h = exchange.QUICK /\ init_cookie h = p1_cky_i st.

Lemma quick_run st ts1 ts2 (g1 : G) (g2 : G2) : Phase1State_wf st -> ts_ok ts1 -> ts_ok ts2 ->
  exists msg1 qi g1' msg2 qr g2' msg3 ci,
    initiate_quick st ts1 ts2 g1 = (Done (msg1, qi), g1') /\
    respond_quick st msg1 g2 = (Done (msg2, qr), g2') /\
    QuickInitiator_complete qi msg2 = Ok (msg3, ci) /\
    QuickResponder_complete qr msg3 = Ok {| outbound := inbound ci; inbound := outbound ci |} /\
    EspSa_wf (outbound ci) /\ EspSa_wf (inbound ci) /\ esp_seq (outbound ci) = 0 /\ esp_seq (inbound ci) = 0 /\
    bytes_ok msg1 /\ bytes_ok msg2 /\ bytes_ok msg3 /\ quick_header st msg1 /\ quick_header st msg3.
Proof.
  intros Hst T1 T2.
  destruct (fill_ok 4 g1) as (sb & ga & E1 & Ls & Bs). destruct (fill_ok 4 ga) as (mb & gb & E2 & Lm & Bm).
  destruct (fill_ok 16 gb) as (ni & gc & E3 & Ln & Bn). destruct (fill_ok 4 g2) as (rb & gd & E4 & Lr & Br).
  destruct (fill_ok 16 gd) as (nr & ge & E5 & Lnr & Bnr).
  assert (Hmid : u32_ok (Z.lor (be_val mb) 1)) by (apply (lor_bound 32); [done|by apply fill_u32|done]).
  destruct (quick_message1_ok st (be_val sb) (Z.lor (be_val mb) 1) ni ts1 ts2) as
    (msg1 & iv1 & hash & M1 & B1 & Li & Q1 & R1); [done|by apply fill_u32|done..|].
  destruct (quick_finish st (be_val sb) (be_val rb) (Z.lor (be_val mb) 1) ni nr (ts_ids ts1 ts2) iv1 hash) as
    (msg2 & qr & msg3 & ci & cr & A1 & C1 & C2 & B2 & B3 & Q3 & -> & ->);
    [done|by apply fill_u32|by apply fill_u32|done|done|done|by apply ts_ids_wf|done|].
  eexists msg1, _, gc, msg2, qr, ge, msg3, _. split_and!; [| |exact C1|exact C2| | | | |done|done|done|done|done].
  - unfold initiate_quick, act_bind, draw, ike. rewrite E1, E2, E3. by rewrite M1.
  - unfold respond_quick, act_bind, draw, ike. rewrite R1, E4, E5. by rewrite A1.
  - by apply esp_direction_wf, fill_u32.
  - by apply esp_direction_wf, fill_u32.
  - done.
  - done.
Qed.
End whole.

(** ** Properties *)
Section claims.
Context `{!Primitives, !Legacy1, !HmacLaws, !HmacSha1Laws, !HashLaws, !CbcLaws, !AeadLaws,
  Entropy G, !EntropyLaws G, Entropy G2, !EntropyLaws G2}.
Implicit Types (st : Phase1State).

(** C14: Quick Mode agrees: under the same phase-1 state, whatever the two ends draw and
    whatever traffic selectors are offered, all three messages are accepted, both ends
    establish a CHILD SA, each end's outbound direction is the other's inbound one, and
    so every packet sealed by one end is opened by the other to the same packet and
    next header. *)
Theorem quick_agreement st ts_local ts_remote (g1 : G) (g2 : G2) :
  Phase1State_wf st -> ts_ok ts_local -> ts_ok ts_remote ->
  exists msg1 qi g1' msg2 qr g2' msg3 ci cr,
    initiate_quick st ts_local ts_remote g1 = (Done (msg1, qi), g1') /\
    respond_quick st msg1 g2 = (Done (msg2, qr), g2') /\
    QuickInitiator_complete qi msg2 = Ok (msg3, ci) /\
    QuickResponder_complete qr msg3 = Ok cr /\
    outbound cr = inbound ci /\ inbound cr = outbound ci /\
    forall inner nh, Z.of_nat (length inner) + 5 <= 2 ^ 36 ->
      (exists p, (EspSa_seal (outbound ci) inner nh).1 = Ok p /\ EspSa_open (inbound cr) p = Ok (inner, nh)) /\
      (exists p, (EspSa_seal (outbound cr) inner nh).1 = Ok p /\ EspSa_open (inbound ci) p = Ok (inner, nh)).
Proof.
  intros Hst T1 T2. destruct (quick_run st ts_local ts_remote g1 g2 Hst T1 T2) as
    (msg1 & qi & g1' & msg2 & qr & g2' & msg3 & ci & E1 & E2 & E3 & E4 & W1 & W2 & S1 & S2 & _).
  exists msg1, qi, g1', msg2, qr, g2', msg3, ci, (mkChildSa (inbound ci) (outbound ci)).
  split_and!; try done. intros inner nh Hl. split.
  - destruct (seal_open (outbound ci) (outbound ci) inner nh) as (p & Ep & Eo & _); [done|lia|done..|]. by exists p.
  - destruct (seal_open (inbound ci) (inbound ci) inner nh) as (p & Ep & Eo & _); [done|lia|done..|]. by exists p.
Qed.

(** C15: Quick Mode accepts only authentic messages: on arbitrary octets neither role
    panics.  The responder answers message 1 only if it decrypts under the IV of its
    message id to payloads with the HASH(1) of RFC 2409, and keeps the phase-1 keys and
    the nonce and SPI it read; the initiator completes only on a message 2 with the
    HASH(2) that covers its own nonce; the responder completes exactly on a message 3
    with the HASH(3) of both nonces; and the CHILD SAs are those derived from SKEYID_d,
    the two nonces and the SPI of each direction. *)
Theorem quick_sound st qi qr msg (g : G) : bytes_ok msg ->
  ((respond_quick st msg g).1 <> Panicked /\
   forall msg2 qr' g', respond_quick st msg g = (Done (msg2, qr'), g') -> quick_of st msg qr') /\
  (QuickInitiator_complete qi msg <> Panic /\
   forall msg3 child, QuickInitiator_complete qi msg = Ok (msg3, child) -> exists nr spi,
     authentic2 qi msg nr spi /\
     child = child_of (qi_prf qi) (qi_skeyid_d qi) (qi_ni qi) nr (qi_local_spi qi) spi) /\
  (QuickResponder_complete qr msg <> Panic /\
   forall child, QuickResponder_complete qr msg = Ok child <-> authentic3 qr msg /\
     child = child_of (qr_prf qr) (qr_skeyid_d qr) (qr_ni qr) (qr_nr qr) (qr_local_spi qr) (qr_peer_spi qr)).
Proof.
  intros Hm. pose proof (respond_quick_wp st msg g Hm) as Hr. unfold act_wp in Hr.
  destruct (respond_quick st msg g) as [r g'']. destruct Hr as [Hr1 Hr2]. split_and!; [done| | | | |].
  - intros msg2 qr' g' [= -> ->]. by eapply Hr2.
  - by apply QuickInitiator_complete_safe.
  - intros msg3 child (h & ps & iv2 & nr & spi & iv3 & Ed & En & Es & Hv & _ & Ec)%QuickInitiator_complete_Ok.
    rewrite derive_child_ok in Ec. injection Ec as <-. exists nr, spi. split; [by exists h, ps, iv2|done].
  - by apply QuickResponder_complete_safe.
  - intros child. apply QuickResponder_complete_iff.
Qed.
End claims.

Definition example_phase1 : Phase1State :=
  {| p1_prf := Sha256; p1_group := Modp1024; p1_cky_i := replicate 8 1; p1_cky_r := replicate 8 2; p1_gxi := [];
     p1_gxr := []; p1_ni := []; p1_nr := []; p1_sai_b := []; p1_idii_b := []; p1_skeyid := []; p1_skeyid_d := [7];
     p1_skeyid_a := [8]; p1_skeyid_e := []; p1_enc_key := replicate 32 3; p1_iv := replicate 16 4 |}.

Lemma example_phase1_wf : Phase1State_wf example_phase1.
Proof. by repeat constructor. Qed.

Definition example_ts : bytes * bytes := ([10; 0; 99; 0], [255; 255; 255; 0]).
Lemma example_ts_ok : ts_ok example_ts.
Proof. by repeat constructor. Qed.

Lemma quick_agreement_witness : exists msg1 qi g1' msg2 qr g2' msg3 ci cr p,
  initiate_quick example_phase1 example_ts example_ts (mkCounting 1) = (Done (msg1, qi), g1') /\
  respond_quick example_phase1 msg1 (mkCounting 9) = (Done (msg2, qr), g2') /\
  QuickInitiator_complete qi msg2 = Ok (msg3, ci) /\ QuickResponder_complete qr msg3 = Ok cr /\
  (EspSa_seal (outbound ci) [1; 2; 3] 4).1 = Ok p /\ EspSa_open (inbound cr) p = Ok ([1; 2; 3], 4).
Proof.
  destruct (quick_agreement example_phase1 example_ts example_ts (mkCounting 1) (mkCounting 9)
    example_phase1_wf example_ts_ok example_ts_ok) as
    (msg1 & qi & g1' & msg2 & qr & g2' & msg3 & ci & cr & E1 & E2 & E3 & E4 & _ & _ & E5).
  destruct (E5 [1; 2; 3] 4) as [(p & E6 & E7) _]; [cbn; lia|].
  exists msg1, qi, g1', msg2, qr, g2', msg3, ci, cr, p. split_and!; assumption.
Defined.

Lemma quick_sound_witness : exists msg3 qr child, QuickResponder_complete qr msg3 = Ok child /\ authentic3 qr msg3.
Proof.
  destruct (quick_run example_phase1 example_ts example_ts (mkCounting 1) (mkCounting 9)
    example_phase1_wf example_ts_ok example_ts_ok) as
    (msg1 & qi & g1' & msg2 & qr & g2' & msg3 & ci & E1 & E2 & E3 & E4 & _ & _ & _ & _ & _ & _ & B3 & _).
  destruct (quick_sound example_phase1 qi qr msg3 (mkCounting 9) B3) as (_ & _ & _ & Hc).
  exists msg3, qr. eexists. split; [exact E4|]. by apply (Hc _) in E4 as [? _].
Defined.
