(* ===== verification/Server1.v ===== *)
(** * The IKEv1 client and server drivers ([src/src/ikev1/server.rs], [src/src/ikev1/client.rs])

    The blocking responder, whose sessions and CHILD SAs are kept under the initiator's
    cookie, and the initiator, as actions over any socket and randomness source.
    Reachability of server states is a relation that records the datagrams heard. *)
From stdpp Require Import gmap.
From S2P Require Import Prelude Outcome Primitives Entropy Crypto Natt Esp Payload Transport Isakmp Payloads1 Crypto1 Phase2 Phase1 Quick.

(** [enum ServerEvent] *)
Inductive ServerEvent :=
| Phase1SaInit
| Phase1Established
| QuickSaInit
| ChildSaEstablished (cky_i : bytes)
| Ignored.

Record Session := mkSession { s_phase1 : option Phase1State; s_quick : option QuickResponder }.

(** [o.unwrap()] *)
Definition unwrap {S A} (o : option A) : action S A :=
  ike (match o with Some a => Ok a | None => Panic end).

(** ** [struct Server] *)
Section server.
Context `{!Primitives, !Legacy1, Transport Sock, Entropy G}.
Open Scope action_scope.

Record Server := mkServer {
  transport : Sock;
  entropy : G;
  srv_cfg : Phase1Config;
  sessions : gmap bytes Session;
  children : gmap bytes ChildSa }.

Definition put_transport (n : Sock) (s : Server) : Server :=
  mkServer n (entropy s) (srv_cfg s) (sessions s) (children s).
Definition put_entropy (g : G) (s : Server) : Server :=
  mkServer (transport s) g (srv_cfg s) (sessions s) (children s).

(** [self.sessions.insert(cky_i, s)] and [self.children.insert(cky_i, child)] *)
Definition insert_session (c : bytes) (x : Session) (s : Server) : Server :=
  mkServer (transport s) (entropy s) (srv_cfg s) (<[c := x]> (sessions s)) (children s).
Definition insert_child (c : bytes) (ch : ChildSa) (s : Server) : Server :=
  mkServer (transport s) (entropy s) (srv_cfg s) (sessions s) (<[c := ch]> (children s)).

Definition Server_bind (socket : Sock) (g : G) (cfg : Phase1Config) : Server := mkServer socket g cfg ∅ ∅.

Definition child (s : Server) (cky_i : bytes) : option ChildSa := children s !! cky_i.
Definition take_child (cky_i : bytes) (s : Server) : option ChildSa * Server :=
  (children s !! cky_i,
   mkServer (transport s) (entropy s) (srv_cfg s) (sessions s) (delete cky_i (children s))).

(** [self.sessions.get(&cky_i).unwrap()], also through [get_mut] *)
Definition get_session (c : bytes) : action Server Session :=
  let! o := gets (fun s => sessions s !! c) in unwrap o.

(** [self.sessions.get_mut(&cky_i).unwrap().quick = q] *)
Definition set_quick (c : bytes) (q : option QuickResponder) : action Server unit :=
  let! x := get_session c in
  modify (insert_session c (mkSession (s_phase1 x) q)).

(** [self.sessions.get_mut(&cky_i).unwrap().quick.take().unwrap()] *)
Definition take_quick (c : bytes) : action Server QuickResponder :=
  let! x := get_session c in
  let! _ := modify (insert_session c (mkSession (s_phase1 x) None)) in
  unwrap (s_quick x).

(** [|t| ps.iter().any(|p| p.payload_type == t)] *)
Definition has (ps : list Payload) (t : Z) : bool := List.existsb (fun p => payload_type p =? t) ps.

(** The arm of [exchange::AGGRESSIVE] *)
Definition handle_aggressive (hdr : IsakmpHeader) (data : bytes) (from : SocketAddr) : action Server ServerEvent :=
  let cky_i := init_cookie hdr in
  let! ps := ike (body ← slice_from data IsakmpHeader_LEN; parse_payloads (next_payload hdr) body) in
  if has ps payload.SA then
    let! cfg := gets srv_cfg in
    let! '(msg2, st) := zoom entropy put_entropy (respond_aggressive cfg data) in
    let! _ := zoom transport put_transport (send msg2 from) in
    let! _ := modify (insert_session cky_i (mkSession (Some st) None)) in
    act_ret Phase1SaInit
  else if has ps payload.HASH then
    let! o := gets (fun s => x ← sessions s !! cky_i; s_phase1 x) in
    match o with
    | None => act_ret Ignored
    | Some st =>
        let! _ := ike (verify_hash_i st data) in
        act_ret Phase1Established
    end
  else act_ret Ignored.

(** The arm of [exchange::QUICK] *)
Definition handle_quick (hdr : IsakmpHeader) (data : bytes) (from : SocketAddr) : action Server ServerEvent :=
  let cky_i := init_cookie hdr in
  let! o := gets (fun s => sessions s !! cky_i) in
  match o with
  | None => act_ret Ignored
  | Some x =>
      let has_phase1 := bool_decide (is_Some (s_phase1 x)) in
      let quick_started := bool_decide (is_Some (s_quick x)) in
      if negb has_phase1 then act_ret Ignored else
      if negb quick_started then
        let! y := get_session cky_i in
        let! st := unwrap (s_phase1 y) in
        let! '(msg2, qr) := zoom entropy put_entropy (respond_quick st data) in
        let! _ := zoom transport put_transport (send msg2 from) in
        let! _ := set_quick cky_i (Some qr) in
        act_ret QuickSaInit
      else
        let! qr := take_quick cky_i in
        let! ch := ike (QuickResponder_complete qr data) in
        let! _ := modify (insert_child cky_i ch) in
        act_ret (ChildSaEstablished cky_i)
  end.

Definition handle_one : action Server ServerEvent :=
  let! '(data, from) := zoom transport put_transport recv in
  let! hdr := ike (IsakmpHeader_parse data) in
  if decide (exchange_type hdr = exchange.AGGRESSIVE) then handle_aggressive hdr data from else
  if decide (exchange_type hdr = exchange.QUICK) then handle_quick hdr data from else
  act_ret Ignored.
End server.
Arguments Server Sock G : clear implicits.

(** ** [struct Client] *)
Record Established := mkEstablished { est_phase1 : Phase1State; est_child : ChildSa }.

Section client.
Context `{!Primitives, !Legacy1, Transport Sock, Entropy G}.
Open Scope action_scope.

Record Client := mkClient { cl_transport : Sock; cl_entropy : G }.

Definition put_cl_transport (n : Sock) (c : Client) : Client := mkClient n (cl_entropy c).
Definition put_cl_entropy (g : G) (c : Client) : Client := mkClient (cl_transport c) g.

Definition cl_send (data : bytes) (to : SocketAddr) : action Client unit :=
  zoom cl_transport put_cl_transport (send data to).
Definition cl_recv : action Client (bytes * SocketAddr) := zoom cl_transport put_cl_transport recv.

(** The pause of 200 ms after message 3 has no effect on the state. *)
Definition connect (server : SocketAddr) (cfg : InitiatorConfig) : action Client Established :=
  let! '(msg1, ai) := zoom cl_entropy put_cl_entropy (initiate_aggressive cfg) in
  let! _ := cl_send msg1 server in
  let! '(msg2, _) := cl_recv in
  let! '(msg3, phase1) := ike (AggressiveInitiator_complete ai msg2) in
  let! _ := cl_send msg3 server in
  let! '(qm1, qi) := zoom cl_entropy put_cl_entropy (initiate_quick phase1 (i1_ts_local cfg) (i1_ts_remote cfg)) in
  let! _ := cl_send qm1 server in
  let! '(qm2, _) := cl_recv in
  let! '(qm3, ch) := ike (QuickInitiator_complete qi qm2) in
  let! _ := cl_send qm3 server in
  act_ret {| est_phase1 := phase1; est_child := ch |}.
End client.
Arguments Client Sock G : clear implicits.

(** ** Effect of one datagram *)
Section effect.
Context `{!Primitives, !Legacy1, !HmacLaws, !HmacSha1Laws, !HashLaws, !BigUintLaws, !X25519Laws, !CbcLaws,
  Transport Sock, !TransportLaws Sock, Entropy G, !EntropyLaws G}.
Implicit Types (s : Server Sock G) (st : Phase1State) (qr : QuickResponder).

(** The state message 1 creates under the cookie [c]: its keys are those of RFC 2409
    for the server's pre-shared key and the Diffie-Hellman secret of a private value of its own
    with the public value in message 1. *)
Definition fresh_phase1 (cfg : Phase1Config) (data c : bytes) st : Prop :=
  Phase1State_wf st /\ p1_cky_i st = c /\ (exists m, read_message1 data = Ok m /\ answers m st) /\
  exists x, responder_derived (c1_psk cfg) x st.

(** The CHILD SA an authentic message 3 creates. *)
Definition child_from (qr : QuickResponder) (data : bytes) (ch : ChildSa) : Prop :=
  authentic3 qr data /\
  ch = child_of (qr_prf qr) (qr_skeyid_d qr) (qr_ni qr) (qr_nr qr) (qr_local_spi qr) (qr_peer_spi qr).

(** Message 3 of Quick Mode is pending in a session, and taken out of it. *)
Definition taken s s' (c : bytes) qr : Prop := exists x, sessions s !! c = Some x /\ s_quick x = Some qr /\
  sessions s' = <[c := mkSession (s_phase1 x) None]> (sessions s).

Definition step_effect s (data : bytes) (r : driver ServerEvent) s' : Prop :=
  srv_cfg s' = srv_cfg s /\
  match r with
  | Done Phase1SaInit => exists c st, fresh_phase1 (srv_cfg s) data c st /\
      sessions s' = <[c := mkSession (Some st) None]> (sessions s) /\ children s' = children s
  | Done Phase1Established => (exists c x st, sessions s !! c = Some x /\ s_phase1 x = Some st /\
        verify_hash_i st data = Ok tt) /\
      sessions s' = sessions s /\ children s' = children s
  | Done QuickSaInit => exists c x st qr, sessions s !! c = Some x /\ s_phase1 x = Some st /\ s_quick x = None /\
      quick_of st data qr /\
      sessions s' = <[c := mkSession (Some st) (Some qr)]> (sessions s) /\ children s' = children s
  | Done (ChildSaEstablished c) => exists qr ch, taken s s' c qr /\ child_from qr data ch /\
      children s' = <[c := ch]> (children s)
  | Done Ignored => sessions s' = sessions s /\ children s' = children s
  | Failed _ => (sessions s' = sessions s \/ exists c qr, taken s s' c qr) /\ children s' = children s
  | Panicked => False
  end.

Lemma read_message1_cookie msg m h : read_message1 msg = Ok m -> IsakmpHeader_parse msg = Ok h ->
  m1_cky_i m = init_cookie h.
Proof.
  unfold read_message1. intros Hm Eh. rewrite Eh in Hm. cbn [mbind outcome_bind] in Hm. case_decide; [done|].
  apply bind_Ok in Hm as (b & _ & Hm). apply bind_Ok in Hm as (ps & _ & Hm). apply bind_Ok in Hm as (sap & _ & Hm).
  apply bind_Ok in Hm as (kep & _ & Hm). apply bind_Ok in Hm as (nop & _ & Hm). apply bind_Ok in Hm as (idp & _ & Hm).
  apply bind_Ok in Hm as (sa & _ & Hm). apply bind_Ok in Hm as ([[[t p] g] n] & _ & Hm). case_decide; [done|].
  by injection Hm as <-.
Qed.

Lemma step_failed s data e s' : srv_cfg s' = srv_cfg s -> sessions s' = sessions s -> children s' = children s ->
  step_effect s data (Failed e) s'.
Proof. intros E1 E2 E3. split; [done|]. split; [by left|done]. Qed.

(** Run the protocol code on the entropy field. *)
Lemma act_wp_zoom_entropy {A} (m : action G A) (P : driver A -> Prop) (Q : driver A -> Server Sock G -> Prop) s :
  act_wp m (fun r _ => P r) (entropy s) -> (forall r g, r <> Panicked -> P r -> Q r (put_entropy g s)) ->
  act_wp (zoom entropy put_entropy m) Q s.
Proof. unfold act_wp, zoom. destruct (m (entropy s)) as [r g]. intros [? ?] HQ. auto. Qed.

Lemma handle_aggressive_effect s h data from : bytes_ok data -> IsakmpHeader_parse data = Ok h ->
  act_wp (handle_aggressive h data from) (step_effect s data) s.
Proof.
  intros Hd Eh. destruct (wp_ok _ _ _ (IsakmpHeader_parse_wp data Hd) Eh) as [_ Hl].
  unfold handle_aggressive. apply act_wp_bind. eapply act_wp_ike.
  { apply wp_bind, wp_slice_from; [done|]. apply (parse_payloads_wp (next_payload h)). auto with ryke. }
  2: { intros e _. by apply step_failed. }
  intros ps _ _. destruct (has ps payload.SA).
  - apply act_wp_bind, act_wp_gets, act_wp_bind. eapply act_wp_zoom_entropy; [by apply respond_aggressive_wp|].
    intros [[msg2 st]|e|] g Hp Hr; [|by apply step_failed|done].
    destruct (Hr msg2 st eq_refl) as (Hw & m & Em & Ha & Hk). pose proof Ha as [Ec _].
    apply act_wp_bind, act_wp_send; [intros n; by apply step_failed|]. intros n.
    split; [done|]. split; [done|]. exists (init_cookie h), st. split_and!; [|done|done].
    split_and!; [done|by rewrite Ec; apply (read_message1_cookie data)|by exists m|by eexists].
  - destruct (has ps payload.HASH); [|done]. apply act_wp_bind, act_wp_gets.
    destruct (sessions s !! init_cookie h) as [x|] eqn:Ex; [|done]. cbn [mbind option_bind].
    destruct (s_phase1 x) as [st|] eqn:Es; [|done]. apply act_wp_bind.
    eapply act_wp_ike; [by apply safe_wp, verify_hash_i_safe| |].
    + intros [] Hv _. split; [done|]. split; [done|]. split_and!; [|done|done]. by exists (init_cookie h), x, st.
    + intros e _. by apply step_failed.
Qed.

(** The session found, for an action that unwraps it. *)
Lemma get_session_found s c x : sessions s !! c = Some x -> get_session c s = (Done x, s).
Proof. intros E. unfold get_session, act_bind, gets. by rewrite E. Qed.

Lemma set_quick_found s c x q : sessions s !! c = Some x ->
  set_quick c q s = (Done tt, insert_session c (mkSession (s_phase1 x) q) s).
Proof. intros E. unfold set_quick, act_bind. by rewrite (get_session_found s c x E). Qed.

Lemma take_quick_found s c p1 qr : sessions s !! c = Some (mkSession p1 (Some qr)) ->
  take_quick c s = (Done qr, insert_session c (mkSession p1 None) s).
Proof. intros E. unfold take_quick, act_bind. by rewrite (get_session_found s c _ E). Qed.

Lemma handle_quick_effect s h data from : bytes_ok data -> act_wp (handle_quick h data from) (step_effect s data) s.
Proof.
  intros Hd. unfold handle_quick. set (c := init_cookie h). apply act_wp_bind, act_wp_gets.
  destruct (sessions s !! c) as [[p1 q]|] eqn:Ex; [|done]. cbv zeta. cbn [s_phase1 s_quick].
  destruct p1 as [st|]; [|done]. rewrite bool_decide_true by done. cbn [negb].
  destruct q as [qr|].
  - rewrite bool_decide_true by done. cbn [negb]. apply act_wp_bind. unfold act_wp at 1.
    rewrite (take_quick_found s c _ _ Ex). split; [done|]. apply act_wp_bind.
    eapply act_wp_ike; [by apply safe_wp, QuickResponder_complete_safe| |].
    + intros ch Hc _. apply QuickResponder_complete_iff in Hc. split; [done|]. split; [done|].
      exists qr, ch. split_and!; [|done|done]. by eexists.
    + intros e _. split; [done|]. split; [|done]. right. exists c, qr. by eexists.
  - rewrite bool_decide_false by (by intros []). cbn [negb]. apply act_wp_bind. unfold act_wp at 1.
    rewrite (get_session_found s c _ Ex). split; [done|]. apply act_wp_bind. split; [done|].
    apply act_wp_bind. eapply act_wp_zoom_entropy; [by apply respond_quick_wp|].
    intros [[msg2 qr]|e|] g Hp Hr; [|by apply step_failed|done]. specialize (Hr msg2 qr eq_refl).
    apply act_wp_bind, act_wp_send; [intros n; by apply step_failed|]. intros n.
    apply act_wp_bind. unfold act_wp at 1. rewrite (set_quick_found (put_transport n (put_entropy g s)) c _ _ Ex).
    split; [done|]. split; [done|]. split; [done|].
    exists c, (mkSession (Some st) None), st, qr. by split_and!.
Qed.

Lemma handle_one1_effect s :
  match recv_from (transport s) with
  | (None, n) => handle_one s = (Failed Io, put_transport n s)
  | (Some (data, from), n) => act_wp handle_one (step_effect s data) s
  end.
Proof.
  destruct (recv_from (transport s)) as [[[data from]|] n] eqn:Hr.
  2: { unfold handle_one, act_bind, zoom, recv. by rewrite Hr. }
  pose proof (recv_bytes _ _ _ _ Hr) as Hd.
  unfold handle_one. apply act_wp_bind, act_wp_recv; [intros ? E; by rewrite Hr in E|].
  intros [d f] n' E. rewrite Hr in E. injection E as <- <- <-.
  apply act_wp_bind. eapply act_wp_ike; [by apply IsakmpHeader_parse_wp| |intros; by apply step_failed].
  intros h _ Eh. case_decide; [by apply (handle_aggressive_effect (put_transport n s))|].
  case_decide; [by apply (handle_quick_effect (put_transport n s))|done].
Qed.
End effect.

(** ** Reachable server states, with the datagrams heard.  Between two calls the
    network may change the socket's state in any way ([reach_arrive]). *)
Inductive reachable `{!Primitives, !Legacy1, Transport Sock, Entropy G} : list bytes -> Server Sock G -> Prop :=
| reach_bind n g cfg : reachable [] (Server_bind n g cfg)
| reach_silence heard s n : reachable heard s -> recv_from (transport s) = (None, n) ->
    reachable heard (handle_one s).2
| reach_handle heard s data from n : reachable heard s ->
    recv_from (transport s) = (Some (data, from), n) ->
    reachable (heard ++ [data]) (handle_one s).2
| reach_take heard s c : reachable heard s -> reachable heard (take_child c s).2
| reach_arrive heard s n : reachable heard s -> reachable heard (put_transport n s).

Section invariant.
Context `{!Primitives, !Legacy1, !HmacLaws, !HmacSha1Laws, !HashLaws, !BigUintLaws, !X25519Laws, !CbcLaws,
  Transport Sock, !TransportLaws Sock, Entropy G, !EntropyLaws G}.

(** A session comes from a message 1 of phase 1 that was heard under its cookie, and a
    pending Quick Mode from an authentic message 1 that was heard under its keys. *)
Definition session_of (cfg : Phase1Config) (heard : list bytes) (c : bytes) (x : Session) : Prop :=
  exists st msg1, s_phase1 x = Some st /\ msg1 ∈ heard /\ fresh_phase1 cfg msg1 c st /\
    forall qr, s_quick x = Some qr -> exists qm1, qm1 ∈ heard /\ quick_of st qm1 qr.

(** A CHILD SA comes from a completed Quick Mode under such a phase 1. *)
Definition child_established (cfg : Phase1Config) (heard : list bytes) (c : bytes) (ch : ChildSa) : Prop :=
  exists st msg1 qr qm1 qm3, msg1 ∈ heard /\ qm1 ∈ heard /\ qm3 ∈ heard /\
    fresh_phase1 cfg msg1 c st /\ quick_of st qm1 qr /\ child_from qr qm3 ch.

Record server_inv (heard : list bytes) (s : Server Sock G) : Prop := {
  inv_sessions : map_Forall (session_of (srv_cfg s) heard) (sessions s);
  inv_children : map_Forall (child_established (srv_cfg s) heard) (children s) }.

Lemma session_of_more cfg heard data c x : session_of cfg heard c x -> session_of cfg (heard ++ [data]) c x.
Proof.
  intros (st & m & ? & ? & ? & Hq). exists st, m. split_and!; [done|set_solver|done|].
  intros qr [qm1 [? ?]]%Hq. exists qm1. split; [set_solver|done].
Qed.

Lemma server_inv1_more heard data s : server_inv heard s -> server_inv (heard ++ [data]) s.
Proof.
  intros [I1 I2]. split.
  - eapply map_Forall_impl; [exact I1|]. intros c x. apply session_of_more.
  - eapply map_Forall_impl; [exact I2|]. intros c x (st & m1 & qr & q1 & q3 & ? & ? & ? & ? & ? & ?).
    exists st, m1, qr, q1, q3. split_and!; [set_solver..|done|done|done].
Qed.

Lemma taken_sessions heard s s' c qr : server_inv heard s -> srv_cfg s' = srv_cfg s -> taken s s' c qr ->
  map_Forall (session_of (srv_cfg s') heard) (sessions s') /\
  exists st msg1 qm1, msg1 ∈ heard /\ qm1 ∈ heard /\ fresh_phase1 (srv_cfg s) msg1 c st /\ quick_of st qm1 qr.
Proof.
  intros [I1 _] Ec (x & Ex & Eq & ->). rewrite Ec. destruct (I1 c x Ex) as (st & m & Es & Hm & Hf & Hq). split.
  - apply map_Forall_insert_2; [|done]. exists st, m. by split_and!.
  - destruct (Hq qr Eq) as (q1 & ? & ?). by exists st, m, q1.
Qed.

Lemma server_inv1_step heard s data r s' : server_inv heard s -> step_effect s data r s' ->
  server_inv (heard ++ [data]) s'.
Proof.
  intros Hinv [Ec Hr]. pose proof (server_inv1_more heard data s Hinv) as Hm.
  assert (Hin : data ∈ heard ++ [data]) by set_solver. destruct Hm as [I1 I2].
  destruct r as [[| | |c|]|e|]; [| | | | | |done].
  - destruct Hr as (c & st & Hf & Es & Ech). split; rewrite Ec, ?Es, ?Ech; [|done].
    apply map_Forall_insert_2; [|done]. by exists st, data.
  - destruct Hr as (_ & Es & Ech). by split; rewrite Ec, ?Es, ?Ech.
  - destruct Hr as (c & x & st & qr & Ex & Ep & _ & Hq & Es & Ech). split; rewrite Ec, ?Es, ?Ech; [|done].
    apply map_Forall_insert_2; [|done]. destruct (I1 c x Ex) as (st' & m & Ep' & ? & ? & _).
    rewrite Ep in Ep'. injection Ep' as <-. exists st, m. split_and!; try done. intros ? [= <-]. by exists data.
  - destruct Hr as (qr & ch & Ht & Hc & Ech).
    destruct (taken_sessions _ s s' c qr (Build_server_inv _ _ I1 I2) Ec Ht) as (H1' & st & m & q1 & ? & ? & ? & ?).
    split; [done|]. rewrite Ech, Ec. apply map_Forall_insert_2; [|done]. by exists st, m, qr, q1, data.
  - destruct Hr as (Es & Ech). by split; rewrite Ec, ?Es, ?Ech.
  - destruct Hr as ([Es|(c & qr & Ht)] & Ech); [by split; rewrite Ec, ?Es, ?Ech|].
    destruct (taken_sessions _ s s' c qr (Build_server_inv _ _ I1 I2) Ec Ht) as (H1' & _).
    split; [done|by rewrite Ech, Ec].
Qed.

Lemma reachable_inv1 heard s : reachable heard s -> server_inv heard s.
Proof.
  induction 1 as [n g cfg|heard s n _ IH Hr|heard s data from n _ IH Hr|heard s c _ IH|heard s n _ IH].
  - split; apply map_Forall_empty.
  - pose proof (handle_one1_effect s) as E. rewrite Hr in E. rewrite E. by destruct IH.
  - pose proof (handle_one1_effect s) as E. rewrite Hr in E. unfold act_wp in E.
    destruct (handle_one s) as [r s']. destruct E as [_ E]. by eapply server_inv1_step.
  - destruct IH as [I1 I2]. split; [done|]. by apply map_Forall_delete.
  - destruct IH as [I1 I2]. by split.
Qed.
End invariant.

(** ** The protocol the server follows, without keys and payloads *)

(** A session is open, or has answered message 1 of Quick Mode and waits for message 3. *)
Inductive Phase := Open | Pending.

#[export] Instance Phase_eq_dec : EqDecision Phase.
Proof. solve_decision. Defined.

Definition phase_of (x : Session) : Phase := match s_quick x with Some _ => Pending | None => Open end.
Definition phases {Sock G} (s : Server Sock G) : gmap bytes Phase := phase_of <$> sessions s.

(** What a step may report and do to the phases of the sessions. *)
Inductive protocol_step (m : gmap bytes Phase) : driver ServerEvent -> gmap bytes Phase -> Prop :=
| ps_message1 c : protocol_step m (Done Phase1SaInit) (<[c := Open]> m)
| ps_hash_i c p : m !! c = Some p -> protocol_step m (Done Phase1Established) m
| ps_quick1 c : m !! c = Some Open -> protocol_step m (Done QuickSaInit) (<[c := Pending]> m)
| ps_quick3 c : m !! c = Some Pending -> protocol_step m (Done (ChildSaEstablished c)) (<[c := Open]> m)
| ps_ignored : protocol_step m (Done Ignored) m
| ps_failed e : protocol_step m (Failed e) m
| ps_dropped e c : m !! c = Some Pending -> protocol_step m (Failed e) (<[c := Open]> m).

(** The server's runs, with what [handle_one] reported *)
Inductive events `{!Primitives, !Legacy1, Transport Sock, Entropy G} : list (driver ServerEvent) -> Server Sock G -> Prop :=
| ev_bind n g cfg : events [] (Server_bind n g cfg)
| ev_handle evs s : events evs s -> events (evs ++ [(handle_one s).1]) (handle_one s).2
| ev_take evs s c : events evs s -> events evs (take_child c s).2
| ev_arrive evs s n : events evs s -> events evs (put_transport n s).

(** The CHILD SAs and the answers of Quick Mode among the events *)
Definition is_child (r : driver ServerEvent) : bool := match r with Done (ChildSaEstablished _) => true | _ => false end.
Definition is_quick (r : driver ServerEvent) : bool := match r with Done QuickSaInit => true | _ => false end.
Definition count (f : driver ServerEvent -> bool) (evs : list (driver ServerEvent)) : nat :=
  length (List.filter f evs).
Definition pending (m : gmap bytes Phase) : nat := size (filter (fun '(_, p) => p = Pending) m).

Lemma count_snoc f evs r : count f (evs ++ [r]) = (count f evs + if f r then 1 else 0)%nat.
Proof. unfold count. rewrite List.filter_app, length_app. cbn. by destruct (f r). Qed.

Lemma pending_open m c : (pending (<[c := Open]> m) <= pending m)%nat /\
  (m !! c = Some Pending -> (pending (<[c := Open]> m) < pending m)%nat).
Proof.
  unfold pending. rewrite map_filter_insert, decide_False by done. rewrite map_filter_delete. split.
  - apply map_subseteq_size, delete_subseteq.
  - intros Hc. apply map_subset_size, delete_subset. exists Pending. by apply map_lookup_filter_Some.
Qed.

Lemma pending_quick m c : (pending (<[c := Pending]> m) <= S (pending m))%nat.
Proof.
  unfold pending. rewrite map_filter_insert, decide_True by done.
  destruct (filter (fun '(_, p) => p = Pending) m !! c) eqn:E; [rewrite map_size_insert_Some by (by eexists); lia|].
  by rewrite map_size_insert_None.
Qed.

Lemma protocol_step_count m r m' : protocol_step m r m' ->
  (pending m' + (if is_child r then 1 else 0) <= pending m + if is_quick r then 1 else 0)%nat.
Proof.
  destruct 1 as [c|c p Hc|c Hc|c Hc| |e|e c Hc]; cbn.
  - pose proof (proj1 (pending_open m c)). lia.
  - lia.
  - pose proof (pending_quick m c). lia.
  - pose proof (proj2 (pending_open m c) Hc). lia.
  - lia.
  - lia.
  - pose proof (proj1 (pending_open m c)). lia.
Qed.

Section protocol.
Context `{!Primitives, !Legacy1, !HmacLaws, !HmacSha1Laws, !HashLaws, !BigUintLaws, !X25519Laws, !CbcLaws,
  Transport Sock, !TransportLaws Sock, Entropy G, !EntropyLaws G}.

Lemma taken_phases (s s' : Server Sock G) c qr : taken s s' c qr ->
  phases s !! c = Some Pending /\ phases s' = <[c := Open]> (phases s).
Proof.
  intros (x & Ex & Eq & Es). unfold phases. rewrite lookup_fmap, Ex, Es, fmap_insert. split; [|done].
  cbn. unfold phase_of. by rewrite Eq.
Qed.

Lemma handle_one_protocol (s : Server Sock G) : protocol_step (phases s) (handle_one s).1 (phases (handle_one s).2).
Proof.
  pose proof (handle_one1_effect s) as E. destruct (recv_from (transport s)) as [[[data from]|] n]; [|rewrite E; apply ps_failed].
  unfold act_wp in E. destruct (handle_one s) as [r s']. destruct E as [_ [_ E]]. cbn [fst snd].
  destruct r as [[| | |c|]|e|]; [| | | | | |done].
  - destruct E as (c & st & _ & Es & _). unfold phases. rewrite Es, fmap_insert. apply ps_message1.
  - destruct E as ((c & x & st & Ex & _) & Es & _). unfold phases. rewrite Es. apply (ps_hash_i _ c (phase_of x)).
    by rewrite lookup_fmap, Ex.
  - destruct E as (c & x & st & qr & Ex & _ & Eq & _ & Es & _). unfold phases. rewrite Es, fmap_insert.
    apply ps_quick1. rewrite lookup_fmap, Ex. cbn. unfold phase_of. by rewrite Eq.
  - destruct E as (qr & ch & [Hp ->]%taken_phases & _). by apply ps_quick3.
  - destruct E as [Es _]. unfold phases. rewrite Es. apply ps_ignored.
  - destruct E as ([Es|(c & qr & [Hp ->]%taken_phases)] & _); [|by apply ps_dropped].
    unfold phases. rewrite Es. apply ps_failed.
Qed.

Lemma events_count evs (s : Server Sock G) : events evs s ->
  (count is_child evs + pending (phases s) <= count is_quick evs)%nat.
Proof.
  induction 1 as [n g cfg|evs s _ IH|evs s c _ IH|evs s n _ IH]; [|rewrite !count_snoc|exact IH|exact IH].
  - unfold phases, pending. cbn [Server_bind sessions]. by rewrite fmap_empty, map_filter_empty, map_size_empty.
  - pose proof (protocol_step_count _ _ _ (handle_one_protocol s)). lia.
Qed.
End protocol.

(** ** An ideal network between a client and a server *)

(** What the client sends is handled by the server at once; the server's answers
    queue up for the client. *)
Record Link (G : Type) := mkLink { far : Server Mailbox G; near : list (bytes * SocketAddr) }.
Arguments mkLink {G} far near.
Arguments far {G} _.
Arguments near {G} _.

Definition client_addr : SocketAddr := mkSocketAddr (V4 (mkIpv4 10 0 0 2)) 500.

(** The server with one datagram waiting *)
Definition deliver {G} (data : bytes) (s : Server Mailbox G) : Server Mailbox G :=
  put_transport (mkMailbox [(data, client_addr)] []) s.

#[export] Instance Link_transport `{!Primitives, !Legacy1, Entropy G} : Transport (Link G) := {
  recv_from l := match near l with
    | [] => (None, l)
    | d :: rest => (Some d, mkLink (far l) rest) end;
  send_to data to l :=
    let s' := (handle_one (deliver data (far l))).2 in
    (true, mkLink s' (near l ++ ((fun '(d, _) => (d, to)) <$> outbox (transport s')))) }.

Section handshake.
Context `{!Primitives, !Legacy1, !HmacLaws, !HmacSha1Laws, !HashLaws, !BigUintLaws, !X25519Laws, !CbcLaws,
  Entropy G, !EntropyLaws G, Entropy G2, !EntropyLaws G2}.
Implicit Types (s : Server Mailbox G).

(** The server after it answered [out] *)
Definition after s (out : list bytes) (g : G) (ss : gmap bytes Session) (cs : gmap bytes ChildSa) : Server Mailbox G :=
  mkServer (mkMailbox [] ((fun d => (d, client_addr)) <$> out)) g (srv_cfg s) ss cs.

(** A waiting datagram with a header is dispatched on its exchange type. *)
Lemma deliver_dispatch s data h : bytes_ok data -> IsakmpHeader_parse data = Ok h ->
  handle_one (deliver data s) =
    (if decide (exchange_type h = exchange.AGGRESSIVE) then handle_aggressive h data client_addr else
     if decide (exchange_type h = exchange.QUICK) then handle_quick h data client_addr else act_ret Ignored)
    (put_transport (mkMailbox [] []) s).
Proof.
  intros Hd Eh. unfold handle_one, act_bind, zoom, recv, deliver. cbn [recv_from Mailbox_transport inbox outbox transport put_transport].
  rewrite octets_id by done. unfold ike. by rewrite Eh.
Qed.

(** The arm of Aggressive Mode on a message that is built here. *)
Lemma deliver_aggressive s cky_i cky_r ps : length cky_i = 8%nat -> bytes_ok cky_i -> length cky_r = 8%nat ->
  bytes_ok cky_r -> Forall enc_wf ps ->
  let msg := build_message (aggressive_header cky_i cky_r) ps in
  exists h, init_cookie h = cky_i /\
    (body ← slice_from msg IsakmpHeader_LEN; parse_payloads (next_payload h) body) = Ok (to_payload <$> ps) /\
    handle_one (deliver msg s) = handle_aggressive h msg client_addr (put_transport (mkMailbox [] []) s).
Proof.
  intros Li Bi Lr Br He msg. pose proof (aggressive_header_wf _ _ Li Bi Lr Br) as Hh.
  destruct (build_message_parse (aggressive_header cky_i cky_r) ps Hh He) as (E1 & E2 & E3).
  exists (built_header (aggressive_header cky_i cky_r) ps). split_and!; [reflexivity| |].
  - unfold msg. rewrite E2. exact E3.
  - erewrite deliver_dispatch; [|by apply build_message_ok|exact E1]. reflexivity.
Qed.

Lemma serve_message1 s cky_i cky_r ps msg2 st g : length cky_i = 8%nat -> bytes_ok cky_i -> length cky_r = 8%nat ->
  bytes_ok cky_r -> Forall enc_wf ps -> has (to_payload <$> ps) payload.SA = true ->
  let msg := build_message (aggressive_header cky_i cky_r) ps in
  respond_aggressive (srv_cfg s) msg (entropy s) = (Done (msg2, st), g) ->
  handle_one (deliver msg s) =
    (Done Phase1SaInit, after s [msg2] g (<[cky_i := mkSession (Some st) None]> (sessions s)) (children s)).
Proof.
  intros Li Bi Lr Br He Hh msg Er. destruct (deliver_aggressive s cky_i cky_r ps) as (h & <- & Ep & Eh); [done..|].
  unfold msg in *. rewrite Eh. unfold handle_aggressive. act_step (apply ike_ok; exact Ep). rewrite Hh.
  unfold act_bind, gets, zoom. cbn [put_transport srv_cfg entropy]. by rewrite Er.
Qed.

Lemma serve_message3 s cky_i cky_r hi st q : length cky_i = 8%nat -> bytes_ok cky_i -> length cky_r = 8%nat ->
  bytes_ok cky_r -> enc_wf (payload.HASH, hi) -> sessions s !! cky_i = Some (mkSession (Some st) q) ->
  let msg := build_message (aggressive_header cky_i cky_r) [(payload.HASH, hi)] in
  verify_hash_i st msg = Ok tt ->
  handle_one (deliver msg s) = (Done Phase1Established, after s [] (entropy s) (sessions s) (children s)).
Proof.
  intros Li Bi Lr Br He Es msg Ev.
  destruct (deliver_aggressive s cky_i cky_r [(payload.HASH, hi)]) as (h & Eh & Ep & E); [done..|by apply Forall_singleton|].
  unfold msg in *. rewrite E. unfold handle_aggressive. act_step (apply ike_ok; exact Ep).
  change (has _ payload.SA) with false. change (has _ payload.HASH) with true. cbv iota.
  rewrite Eh. unfold act_bind, gets. cbn [put_transport sessions]. rewrite Es. cbn [mbind option_bind s_phase1].
  unfold ike. by rewrite Ev.
Qed.

Lemma serve_quick1 s st msg msg2 qr g : sessions s !! p1_cky_i st = Some (mkSession (Some st) None) ->
  bytes_ok msg -> quick_header st msg -> respond_quick st msg (entropy s) = (Done (msg2, qr), g) ->
  handle_one (deliver msg s) =
    (Done QuickSaInit, after s [msg2] g (<[p1_cky_i st := mkSession (Some st) (Some qr)]> (sessions s)) (children s)).
Proof.
  intros Es Bm (h & Eh & Ex & Ec) Er. erewrite deliver_dispatch by done. rewrite Ex.
  rewrite decide_False by done. rewrite decide_True by done. unfold handle_quick. rewrite Ec.
  act_step reflexivity. cbn [put_transport sessions]. rewrite Es. cbv zeta.
  cbn [s_phase1 s_quick]. rewrite bool_decide_true by done. rewrite bool_decide_false by (by intros []). cbn [negb].
  act_step (apply get_session_found; exact Es). act_step reflexivity.
  act_step (apply zoom_done; exact Er). act_step reflexivity.
  act_step (apply set_quick_found; exact Es). reflexivity.
Qed.

Lemma serve_quick3 s st msg qr ch : sessions s !! p1_cky_i st = Some (mkSession (Some st) (Some qr)) ->
  bytes_ok msg -> quick_header st msg -> QuickResponder_complete qr msg = Ok ch ->
  handle_one (deliver msg s) = (Done (ChildSaEstablished (p1_cky_i st)),
    after s [] (entropy s) (<[p1_cky_i st := mkSession (Some st) None]> (sessions s))
      (<[p1_cky_i st := ch]> (children s))).
Proof.
  intros Es Bm (h & Eh & Ex & Ec) Er. erewrite deliver_dispatch by done. rewrite Ex.
  rewrite decide_False by done. rewrite decide_True by done. unfold handle_quick. rewrite Ec.
  act_step reflexivity. cbn [put_transport sessions]. rewrite Es.
  cbn [s_phase1 s_quick]. rewrite !bool_decide_true by done. cbn [negb].
  act_step (apply take_quick_found; exact Es). by act_step (apply ike_ok; exact Er).
Qed.
End handshake.

Section client_runs.
Context `{!Primitives, !Legacy1, !HmacLaws, !HmacSha1Laws, !HashLaws, !BigUintLaws, !X25519Laws, !CbcLaws,
  Entropy G, !EntropyLaws G, Entropy G2, !EntropyLaws G2}.
Implicit Types (s : Server Mailbox G).

(** One message over the link *)
Lemma link_send s (g : G2) data to r out g' ss cs : handle_one (deliver data s) = (r, after s out g' ss cs) ->
  cl_send data to (mkClient (mkLink s []) g) =
    (Done tt, mkClient (mkLink (after s out g' ss cs) ((fun d => (d, to)) <$> out)) g).
Proof.
  intros E. unfold cl_send, zoom, send. cbn [cl_transport send_to Link_transport far near]. rewrite E. cbn [snd app].
  unfold put_cl_transport. cbn [cl_entropy after transport outbox]. by rewrite <- list_fmap_compose.
Qed.

Lemma link_recv s (g : G2) d to : cl_recv (mkClient (mkLink s [(d, to)]) g) = (Done (d, to), mkClient (mkLink s []) g).
Proof. done. Qed.

(** A run of Aggressive Mode against the server, without and with message 3 *)
Lemma phase1_served s (g : G2) icfg gxi gxr : i1_group icfg <> X25519 ->
  id_fits (i1_our_id icfg) -> id_fits (c1_our_id (srv_cfg s)) -> i1_psk icfg = c1_psk (srv_cfg s) ->
  DhGroup_public (i1_group icfg) (drawn_private g) = Ok gxi -> peer_acceptable (i1_group icfg) gxi ->
  DhGroup_public (i1_group icfg) (drawn_private (entropy s)) = Ok gxr -> peer_acceptable (i1_group icfg) gxr ->
  exists msg1 ai g1 msg2 msg3 st g2,
    let s1 := after s [msg2] g2 (<[p1_cky_i st := mkSession (Some st) None]> (sessions s)) (children s) in
    initiate_aggressive icfg g = (Done (msg1, ai), g1) /\ Phase1State_wf st /\ bytes_ok msg1 /\
    handle_one (deliver msg1 s) = (Done Phase1SaInit, s1) /\
    AggressiveInitiator_complete ai msg2 = Ok (msg3, st) /\
    handle_one (deliver msg3 s1) = (Done Phase1Established, after s [] g2 (sessions s1) (children s)).
Proof.
  intros Hg Hi Hr Hp Ei Ai Er Ar.
  destruct (aggressive_run icfg (srv_cfg s) g (entropy s) gxi gxr) as
    (cky_i & ni & ai & g1 & E1 & Bm & Lc & Bc & He & _ & msg2 & st & g2 & E2 & _ & Hw & Ec & F1 & _); try done.
  destruct (F1 Hp) as (hi & F2 & F3 & F4). subst cky_i. destruct Hw as [Hi' [Lr Br] Hk Hv].
  assert (Hz : bytes_ok (replicate 8 0)) by (by apply Forall_replicate).
  eexists _, ai, g1, msg2, _, st, g2. cbv zeta. split_and!; [exact E1|done|exact Bm| |exact F2|].
  - apply serve_message1; try done.
  - erewrite (serve_message3 _ _ _ _ st None); try done. apply lookup_insert_eq.
Qed.

(** A run of Quick Mode against a server with the phase-1 state *)
Lemma quick_served s (g : G2) st ts1 ts2 : Phase1State_wf st -> ts_ok ts1 -> ts_ok ts2 ->
  sessions s !! p1_cky_i st = Some (mkSession (Some st) None) ->
  exists qm1 qi g1 qm2 qm3 ci g2 ss1,
    let s1 := after s [qm2] g2 ss1 (children s) in
    initiate_quick st ts1 ts2 g = (Done (qm1, qi), g1) /\ bytes_ok qm1 /\ bytes_ok qm3 /\
    handle_one (deliver qm1 s) = (Done QuickSaInit, s1) /\
    QuickInitiator_complete qi qm2 = Ok (qm3, ci) /\
    handle_one (deliver qm3 s1) = (Done (ChildSaEstablished (p1_cky_i st)),
      after s [] g2 (sessions s) (<[p1_cky_i st := mkChildSa (inbound ci) (outbound ci)]> (children s))) /\
    EspSa_wf (outbound ci) /\ EspSa_wf (inbound ci) /\ esp_seq (outbound ci) = 0 /\ esp_seq (inbound ci) = 0.
Proof.
  intros Hw T1 T2 Es. destruct (quick_run st ts1 ts2 g (entropy s) Hw T1 T2) as
    (qm1 & qi & g1 & qm2 & qr & g2 & qm3 & ci & E1 & E2 & E3 & E4 & W1 & W2 & S1 & S2 & B1 & _ & B3 & Q1 & Q3).
  eexists qm1, qi, g1, qm2, qm3, ci, g2, _. cbv zeta.
  split_and!; [exact E1|done|done|by apply serve_quick1|exact E3| |done..].
  erewrite (serve_quick3 _ st _ qr); try done; [|apply lookup_insert_eq].
  unfold after. cbn [sessions children srv_cfg entropy]. do 2 f_equal. rewrite insert_insert_eq. by apply insert_id.
Qed.
End client_runs.

(** ** Properties *)
Section properties.
Context `{!Primitives, !Legacy1, !HmacLaws, !HmacSha1Laws, !HashLaws, !BigUintLaws, !X25519Laws, !CbcLaws,
  Entropy G, !EntropyLaws G, Entropy G2, !EntropyLaws G2, Transport Sock, !TransportLaws Sock}.

(** C8: The IKEv1 handshake completes: a client that runs [connect] against a server, in
    any state, that holds the same pre-shared key, obtains a phase-1 state and a CHILD
    SA, whatever both sides draw as long as the group accepts the public values; the
    server is left with exactly the client's phase-1 state under the client's cookie,
    no Quick Mode pending, and the mirror image of the client's CHILD SA. *)
Theorem ikev1_handshake_completes (s : Server Mailbox G) (g : G2) icfg gxi gxr addr :
  i1_group icfg <> X25519 -> id_fits (i1_our_id icfg) -> id_fits (c1_our_id (srv_cfg s)) ->
  i1_psk icfg = c1_psk (srv_cfg s) -> ts_ok (i1_ts_local icfg) -> ts_ok (i1_ts_remote icfg) ->
  DhGroup_public (i1_group icfg) (drawn_private g) = Ok gxi -> peer_acceptable (i1_group icfg) gxi ->
  DhGroup_public (i1_group icfg) (drawn_private (entropy s)) = Ok gxr -> peer_acceptable (i1_group icfg) gxr ->
  exists est cl ch, connect addr icfg (mkClient (mkLink s []) g) = (Done est, cl) /\
    let cky_i := p1_cky_i (est_phase1 est) in
    let server := far (cl_transport cl) in
    sessions server !! cky_i = Some (mkSession (Some (est_phase1 est)) None) /\
    child server cky_i = Some ch /\
    outbound ch = inbound (est_child est) /\ inbound ch = outbound (est_child est).
Proof.
  intros Hg Hi Hr Hp T1 T2 Ei Ai Er Ar.
  destruct (phase1_served s g icfg gxi gxr) as (msg1 & ai & g1 & msg2 & msg3 & st & g2 & E1 & Hw & _ & E2 & E3 & E4); try done.
  set (s1 := after s [msg2] _ _ _) in *. set (s2 := after s [] g2 (sessions s1) (children s)) in *.
  destruct (quick_served s2 g1 st (i1_ts_local icfg) (i1_ts_remote icfg)) as
    (qm1 & qi & g3 & qm2 & qm3 & ci & g4 & ss1 & Q1 & _ & _ & Q2 & Q3 & Q4 & _); [done..|apply lookup_insert_eq|].
  eexists (mkEstablished st ci), _, (mkChildSa (inbound ci) (outbound ci)). split.
  - unfold connect. act_step (apply zoom_done; exact E1). act_step (eapply link_send; exact E2).
    act_step apply link_recv. act_step (apply ike_ok; exact E3). act_step (eapply link_send; exact E4).
    act_step (apply zoom_done; exact Q1). act_step (eapply link_send; exact Q2). act_step apply link_recv.
    act_step (apply ike_ok; exact Q3). act_step (eapply link_send; exact Q4). reflexivity.
  - cbn [est_phase1 est_child cl_transport far]. split_and!; [apply lookup_insert_eq|apply lookup_insert_eq|done|done].
Qed.

(** C9: No IKEv1 CHILD SA without the pre-shared key: in every state the server can
    reach from an empty one, under any sequence of datagrams, socket errors, changes of
    the socket's state and removals, each session holds a phase-1 state derived from
    the server's pre-shared key for a message 1 that was heard under its cookie, a
    pending Quick Mode answers an authentic message 1 heard under the keys of its
    session, and each CHILD SA was derived, after an authentic message 3 was heard, for
    such a Quick Mode of such a phase 1.  Handling the next datagram never panics. *)
Theorem ikev1_children_authenticated heard (s : Server Sock G) : reachable heard s ->
  (forall c x, sessions s !! c = Some x -> session_of (srv_cfg s) heard c x) /\
  (forall c ch, child s c = Some ch -> child_established (srv_cfg s) heard c ch) /\
  (handle_one s).1 <> Panicked.
Proof.
  intros [I1 I2]%reachable_inv1. split_and!; [exact I1|exact I2|].
  pose proof (handle_one1_effect s) as E. destruct (recv_from (transport s)) as [[[data from]|] n]; [|by rewrite E].
  unfold act_wp in E. destruct (handle_one s). by destruct E.
Qed.

(** C10: The IKEv1 server implements the protocol: whatever arrives, what [handle_one]
    reports and does to its sessions is a step of the abstract protocol, in which a
    message 1 opens a session, message 1 of Quick Mode moves an open session to a
    pending one, message 3 completes only a pending session, and errors leave the
    sessions as they are or drop a pending Quick Mode.  Hence in every run the CHILD
    SAs established are at most as many as the Quick Modes answered: a repeated
    message 3 establishes nothing. *)
Theorem ikev1_server_refines (s : Server Sock G) evs :
  protocol_step (phases s) (handle_one s).1 (phases (handle_one s).2) /\
  (events evs s -> (count is_child evs + pending (phases s) <= count is_quick evs)%nat).
Proof. split; [apply handle_one_protocol|apply events_count]. Qed.

(** Quick Mode does not wait for HASH_I: a server that answered message 1 of
    Aggressive Mode, and never heard the message 3 that authenticates the initiator,
    answers Quick Mode and establishes the CHILD SA. *)
Theorem quick_without_hash_i (s : Server Mailbox G) (g : G2) icfg gxi gxr :
  i1_group icfg <> X25519 -> id_fits (i1_our_id icfg) -> id_fits (c1_our_id (srv_cfg s)) ->
  i1_psk icfg = c1_psk (srv_cfg s) -> ts_ok (i1_ts_local icfg) -> ts_ok (i1_ts_remote icfg) ->
  DhGroup_public (i1_group icfg) (drawn_private g) = Ok gxi -> peer_acceptable (i1_group icfg) gxi ->
  DhGroup_public (i1_group icfg) (drawn_private (entropy s)) = Ok gxr -> peer_acceptable (i1_group icfg) gxr ->
  exists msg1 qm1 qm3 s1 s2 s3 c,
    handle_one (deliver msg1 s) = (Done Phase1SaInit, s1) /\
    handle_one (deliver qm1 s1) = (Done QuickSaInit, s2) /\
    handle_one (deliver qm3 s2) = (Done (ChildSaEstablished c), s3) /\ is_Some (child s3 c).
Proof.
  intros Hg Hi Hr Hp T1 T2 Ei Ai Er Ar.
  destruct (phase1_served s g icfg gxi gxr) as (msg1 & ai & g1 & msg2 & msg3 & st & g2 & _ & Hw & _ & E2 & _); try done.
  set (s1 := after s [msg2] _ _ _) in *.
  destruct (quick_served s1 g1 st (i1_ts_local icfg) (i1_ts_remote icfg)) as
    (qm1 & qi & g3 & qm2 & qm3 & ci & g4 & ss1 & _ & _ & _ & Q2 & _ & Q4 & _); [done..|apply lookup_insert_eq|].
  eexists msg1, qm1, qm3, s1, _, _, (p1_cky_i st). split_and!; [exact E2|exact Q2|exact Q4|].
  eexists. apply lookup_insert_eq.
Qed.

(** C38: An unauthenticated datagram ends a pending Quick Mode: whoever knows the cookie
    of a session, which travels in the clear, can send the server a bare header that
    makes it drop the responder state that message 3 needs. *)
Theorem quick_dropped_by_header (s : Server Mailbox G) st qr h : IsakmpHeader_wf h ->
  exchange_type h = exchange.QUICK -> sessions s !! init_cookie h = Some (mkSession (Some st) (Some qr)) ->
  exists e s', handle_one (deliver (IsakmpHeader_to_bytes h) s) = (Failed (Ike e), s') /\
    sessions s' = <[init_cookie h := mkSession (Some st) None]> (sessions s) /\ children s' = children s.
Proof.
  intros Hh Ex Es. pose proof (IsakmpHeader_parse_app h [] Hh) as Eh. rewrite app_nil_r in Eh.
  assert (Ec : QuickResponder_complete qr (IsakmpHeader_to_bytes h) = Err (Crypto "CBC ciphertext not block-aligned")).
  { unfold QuickResponder_complete, decrypt_payloads. rewrite Eh. cbn [mbind outcome_bind].
    rewrite slice_from_ok by (by rewrite length_IsakmpHeader_to_bytes). cbn [mbind outcome_bind].
    by rewrite drop_ge by (by rewrite length_IsakmpHeader_to_bytes). }
  eexists (Crypto "CBC ciphertext not block-aligned"), _. split; [|split].
  - erewrite deliver_dispatch; [|by apply IsakmpHeader_to_bytes_ok|exact Eh].
    rewrite Ex, decide_False, decide_True by done. unfold handle_quick. act_step reflexivity.
    cbn [put_transport sessions]. rewrite Es. cbn [s_phase1 s_quick]. rewrite !bool_decide_true by done. cbn [negb].
    act_step (apply take_quick_found; exact Es). unfold act_bind, ike. rewrite Ec. reflexivity.
  - reflexivity.
  - reflexivity.
Qed.
End properties.

(** A server with the example configuration, and its clients *)
Definition example_server1 : Server Mailbox Counting :=
  Server_bind (mkMailbox [] []) (mkCounting 40) example_rcfg.

Lemma example_icfg_ts : ts_ok (i1_ts_local example_icfg) /\ ts_ok (i1_ts_remote example_icfg).
Proof. split; exact example_ts_ok. Qed.

Lemma ikev1_handshake_completes_witness : exists est cl ch,
  connect client_addr example_icfg (mkClient (mkLink example_server1 []) (mkCounting 20)) = (Done est, cl) /\
  child (far (cl_transport cl)) (p1_cky_i (est_phase1 est)) = Some ch.
Proof.
  destruct (accepted_public_drawn _ _ example_drawn_a) as (gxi & E1 & A1).
  destruct (accepted_public_drawn _ _ example_drawn_b) as (gxr & E2 & A2).
  destruct (ikev1_handshake_completes example_server1 (mkCounting 20) example_icfg gxi gxr client_addr)
    as (est & cl & ch & H1 & _ & H3 & _);
    [done|exact example_icfg_fits|exact example_rcfg_fits|done|apply example_icfg_ts|apply example_icfg_ts|
     exact E1|exact A1|exact E2|exact A2|].
  exists est, cl, ch. split; assumption.
Defined.

(** A server that hears message 1, message 1 of Quick Mode and message 3 of Quick Mode *)
Lemma example_run1 : exists msg1 qm1 qm3 (s1 s2 s3 : Server Mailbox Counting) c ch,
  handle_one (deliver msg1 example_server1) = (Done Phase1SaInit, s1) /\
  handle_one (deliver qm1 s1) = (Done QuickSaInit, s2) /\
  handle_one (deliver qm3 s2) = (Done (ChildSaEstablished c), s3) /\ child s3 c = Some ch.
Proof.
  destruct (accepted_public_drawn _ _ example_drawn_a) as (gxi & E1 & A1).
  destruct (accepted_public_drawn _ _ example_drawn_b) as (gxr & E2 & A2).
  destruct (phase1_served example_server1 (mkCounting 20) example_icfg gxi gxr) as
    (msg1 & ai & g1 & msg2 & msg3 & st & g2 & _ & Hw & _ & S1 & _);
    [done|exact example_icfg_fits|exact example_rcfg_fits|done|exact E1|exact A1|exact E2|exact A2|].
  set (s1 := after example_server1 [msg2] _ _ _) in *.
  destruct (quick_served s1 g1 st example_ts example_ts) as
    (qm1 & qi & g3 & qm2 & qm3 & ci & g4 & ss1 & _ & _ & _ & Q2 & _ & Q4 & _);
    [done|exact example_ts_ok|exact example_ts_ok|apply lookup_insert_eq|].
  eexists msg1, qm1, qm3, s1, _, _, (p1_cky_i st), _. split_and!; [exact S1|exact Q2|exact Q4|apply lookup_insert_eq].
Qed.

Lemma example_established1 : exists heard (s : Server Mailbox Counting) c ch,
  reachable heard s /\ child s c = Some ch.
Proof.
  destruct example_run1 as (msg1 & qm1 & qm3 & s1 & s2 & s3 & c & ch & S1 & S2 & S3 & Hc).
  eexists _, s3, c, ch. split; [|exact Hc].
  change s3 with (Done (ChildSaEstablished c), s3).2. rewrite <- S3. eapply reach_handle, eq_refl.
  apply reach_arrive. change s2 with (Done QuickSaInit, s2).2. rewrite <- S2. eapply reach_handle, eq_refl.
  apply reach_arrive. change s1 with (Done Phase1SaInit, s1).2. rewrite <- S1. eapply reach_handle, eq_refl.
  apply reach_arrive, reach_bind.
Qed.

Lemma example_events1 : exists (s : Server Mailbox Counting) c,
  events [Done Phase1SaInit; Done QuickSaInit; Done (ChildSaEstablished c)] s.
Proof.
  destruct example_run1 as (msg1 & qm1 & qm3 & s1 & s2 & s3 & c & ch & S1 & S2 & S3 & _).
  pose proof (ev_handle _ _ (ev_arrive _ _ (mkMailbox [(msg1, client_addr)] [])
    (ev_bind (mkMailbox [] []) (mkCounting 40) example_rcfg))) as R1.
  change (put_transport _ _) with (deliver msg1 example_server1) in R1. rewrite S1 in R1.
  pose proof (ev_handle _ _ (ev_arrive _ _ (mkMailbox [(qm1, client_addr)] []) R1)) as R2.
  change (put_transport _ _) with (deliver qm1 s1) in R2. rewrite S2 in R2.
  pose proof (ev_handle _ _ (ev_arrive _ _ (mkMailbox [(qm3, client_addr)] []) R2)) as R3.
  change (put_transport _ _) with (deliver qm3 s2) in R3. rewrite S3 in R3. by exists s3, c.
Qed.

Lemma ikev1_server_refines_witness : exists (s : Server Mailbox Counting) c,
  let evs := [Done Phase1SaInit; Done QuickSaInit; Done (ChildSaEstablished c)] in
  events evs s /\ count is_child evs = 1%nat /\ (count is_child evs + pending (phases s) <= count is_quick evs)%nat.
Proof.
  destruct example_events1 as (s & c & He). exists s, c. cbv zeta. split; [exact He|]. split; [reflexivity|].
  exact (proj2 (ikev1_server_refines s _) He).
Defined.

Lemma ikev1_children_authenticated_witness : exists heard (s : Server Mailbox Counting) c ch,
  child s c = Some ch /\ child_established (srv_cfg s) heard c ch.
Proof.
  destruct example_established1 as (heard & s & c & ch & Hr & Hc). exists heard, s, c, ch. split; [exact Hc|].
  exact (proj1 (proj2 (ikev1_children_authenticated heard s Hr)) c ch Hc).
Defined.

Lemma quick_without_hash_i_witness : exists msg1 qm1 qm3 s1 s2 s3 c,
  handle_one (deliver msg1 example_server1) = (Done Phase1SaInit, s1) /\
  handle_one (deliver qm1 s1) = (Done QuickSaInit, s2) /\
  handle_one (deliver qm3 s2) = (Done (ChildSaEstablished c), s3).
Proof.
  destruct (accepted_public_drawn _ _ example_drawn_a) as (gxi & E1 & A1).
  destruct (accepted_public_drawn _ _ example_drawn_b) as (gxr & E2 & A2).
  destruct (quick_without_hash_i example_server1 (mkCounting 20) example_icfg gxi gxr)
    as (msg1 & qm1 & qm3 & s1 & s2 & s3 & c & H1 & H2 & H3 & _);
    [done|exact example_icfg_fits|exact example_rcfg_fits|done|apply example_icfg_ts|apply example_icfg_ts|
     exact E1|exact A1|exact E2|exact A2|].
  exists msg1, qm1, qm3, s1, s2, s3, c. split_and!; assumption.
Defined.

Definition example_qr : QuickResponder :=
  {| qr_prf := Sha256; qr_skeyid_a := [8]; qr_skeyid_d := [7]; qr_enc_key := replicate 32 3; qr_msgid := 5;
     qr_local_spi := 1; qr_peer_spi := 2; qr_ni := []; qr_nr := []; qr_iv2 := replicate 16 4 |}.

Lemma quick_dropped_by_header_witness : exists e s',
  handle_one (deliver (IsakmpHeader_to_bytes (qm_header (replicate 8 1) (replicate 8 2) 5))
    (insert_session (replicate 8 1) (mkSession (Some example_phase1) (Some example_qr)) example_server1)) =
  (Failed (Ike e), s').
Proof.
  destruct (quick_dropped_by_header
    (insert_session (replicate 8 1) (mkSession (Some example_phase1) (Some example_qr)) example_server1)
    example_phase1 example_qr (qm_header (replicate 8 1) (replicate 8 2) 5)) as (e & s' & H & _);
    [by repeat constructor|reflexivity|apply lookup_insert_eq|]. exists e, s'. exact H.
Defined.
