(* ===== verification/Digest.v ===== *)
(** * Message digests: SHA-256, SHA-1, MD4 and HMAC

    The digests that the crates [sha2], [sha1], [md4] and [hmac] compute, from FIPS
    180-4, RFC 1320 and RFC 2104.  They are not code of ryke: they instantiate the
    parameters [Primitives], [Legacy1] and [LegacyCrypto] by the real functions, so
    that the published test vectors can be evaluated on the model. *)
From S2P Require Import Prelude.

(** ** Words of 32 bits *)
Definition low32 (x : Z) : Z := Z.land x 0xffffffff.
Definition add32 (x y : Z) : Z := low32 (x + y).
Definition rotl (n x : Z) : Z := Z.lor (low32 (Z.shiftl x n)) (Z.shiftr x (32 - n)).
Definition rotr (n x : Z) : Z := rotl (32 - n) x.
Definition not32 (x : Z) : Z := 2 ^ 32 - 1 - x.
Definition ch (x y z : Z) : Z := Z.lxor (Z.land x y) (Z.land (not32 x) z).
Definition maj (x y z : Z) : Z := Z.lxor (Z.lxor (Z.land x y) (Z.land x z)) (Z.land y z).
Definition parity (x y z : Z) : Z := Z.lxor (Z.lxor x y) z.

(** ** Padding and blocks *)

(** A 1 bit, zeros, and the length in bits ([enc]), up to a multiple of 64 octets. *)
Definition md_pad (enc : Z -> bytes) (m : bytes) : bytes :=
  let n := Z.of_nat (length m) in
  m ++ [0x80] ++ replicate (Z.to_nat ((55 - n) mod 64)) 0 ++ enc (8 * n).

Fixpoint chunks (fuel n : nat) (l : bytes) : list bytes :=
  match fuel with
  | O => []
  | S f => match l with [] => [] | _ => take n l :: chunks f n (drop n l) end
  end.

Definition words (val : bytes -> Z) (block : bytes) : list Z := val <$> chunks 16 4 block.

(** Fold the compression function over the blocks of the padded message. *)
Definition md_hash {S} (enc : Z -> bytes) (val : bytes -> Z) (compress : S -> list Z -> S) (iv : S) (m : bytes) : S :=
  let p := md_pad enc m in
  foldl (fun st b => compress st (words val b)) iv (chunks (length p) 64 p).

Definition le_bytes (n : nat) (x : Z) : bytes := reverse (be_bytes n x).
Definition le_val (l : bytes) : Z := be_val (reverse l).

(** ** SHA-256 *)
Record regs8 := R8 { r0 : Z; r1 : Z; r2 : Z; r3 : Z; r4 : Z; r5 : Z; r6 : Z; r7 : Z }.

(** The round constants, sixteen words to a number *)
Definition sha256_K : list Z := Eval vm_compute in
  [ 0x428a2f9871374491b5c0fbcfe9b5dba53956c25b59f111f1923f82a4ab1c5ed5d807aa9812835b01243185be550c7dc372be5d7480deb1fe9bdc06a7c19bf174;
    0xe49b69c1efbe47860fc19dc6240ca1cc2de92c6f4a7484aa5cb0a9dc76f988da983e5152a831c66db00327c8bf597fc7c6e00bf3d5a7914706ca635114292967;
    0x27b70a852e1b21384d2c6dfc53380d13650a7354766a0abb81c2c92e92722c85a2bfe8a1a81a664bc24b8b70c76c51a3d192e819d6990624f40e3585106aa070;
    0x19a4c1161e376c082748774c34b0bcb5391c0cb34ed8aa4a5b9cca4f682e6ff3748f82ee78a5636f84c878148cc7020890befffaa4506cebbef9a3f7c67178f2 ]
  ≫= (fun x => be_val <$> chunks 16 4 (be_bytes 64 x)).

Definition sha256_iv : regs8 :=
  R8 0x6a09e667 0xbb67ae85 0x3c6ef372 0xa54ff53a 0x510e527f 0x9b05688c 0x1f83d9ab 0x5be0cd19.

Definition big0 x := parity (rotr 2 x) (rotr 13 x) (rotr 22 x).
Definition big1 x := parity (rotr 6 x) (rotr 11 x) (rotr 25 x).
Definition small0 x := parity (rotr 7 x) (rotr 18 x) (Z.shiftr x 3).
Definition small1 x := parity (rotr 17 x) (rotr 19 x) (Z.shiftr x 10).

(** The next sixteen words of the message schedule from the last sixteen *)
Definition sha256_next (w : list Z) : list Z :=
  match w with
  | w0 :: (w1 :: _) as tl =>
      tl ++ [low32 (small1 (nth 14 w 0) + nth 9 w 0 + small0 w1 + w0)]
  | _ => w
  end.

Definition sha256_round (s : list Z * regs8) (k : Z) : list Z * regs8 :=
  let '(w, R8 a b c d e f g h) := s in
  let t1 := h + big1 e + ch e f g + k + nth 0 w 0 in
  (sha256_next w, R8 (low32 (t1 + big0 a + maj a b c)) a b c (low32 (d + t1)) e f g).

Definition sha256_compress (st : regs8) (block : list Z) : regs8 :=
  let '(_, R8 a b c d e f g h) := foldl sha256_round (block, st) sha256_K in
  R8 (add32 a (r0 st)) (add32 b (r1 st)) (add32 c (r2 st)) (add32 d (r3 st))
     (add32 e (r4 st)) (add32 f (r5 st)) (add32 g (r6 st)) (add32 h (r7 st)).

Definition sha256_digest (m : bytes) : bytes :=
  let '(R8 a b c d e f g h) := md_hash (be_bytes 8) be_val sha256_compress sha256_iv m in
  concat (be_bytes 4 <$> [a; b; c; d; e; f; g; h]).

(** ** HMAC *)
Definition hmac (digest : bytes -> bytes) (key data : bytes) : bytes :=
  let k := if decide (64 < length key)%nat then digest key else key in
  let k := k ++ replicate (64 - length k) 0 in
  digest ((Z.lxor 0x5c <$> k) ++ digest ((Z.lxor 0x36 <$> k) ++ data)).

(** ** SHA-1 *)
Record regs5 := R5 { s0 : Z; s1 : Z; s2 : Z; s3 : Z; s4 : Z }.

Definition sha1_iv : regs5 := R5 0x67452301 0xefcdab89 0x98badcfe 0x10325476 0xc3d2e1f0.

Definition sha1_next (w : list Z) : list Z :=
  match w with
  | w0 :: tl => tl ++ [rotl 1 (Z.lxor (parity (nth 13 w 0) (nth 8 w 0) (nth 2 w 0)) w0)]
  | _ => w
  end.

Definition sha1_round (f : Z -> Z -> Z -> Z) (k : Z) (s : list Z * regs5) : list Z * regs5 :=
  let '(w, R5 a b c d e) := s in
  (sha1_next w, R5 (low32 (rotl 5 a + f b c d + e + k + nth 0 w 0)) a (rotl 30 b) c d).

Definition sha1_compress (st : regs5) (block : list Z) : regs5 :=
  let twenty f k s := Nat.iter 20 (sha1_round f k) s in
  let '(_, R5 a b c d e) :=
    twenty parity 0xca62c1d6 (twenty maj 0x8f1bbcdc (twenty parity 0x6ed9eba1 (twenty ch 0x5a827999 (block, st)))) in
  R5 (add32 a (s0 st)) (add32 b (s1 st)) (add32 c (s2 st)) (add32 d (s3 st)) (add32 e (s4 st)).

Definition sha1_digest (m : bytes) : bytes :=
  let '(R5 a b c d e) := md_hash (be_bytes 8) be_val sha1_compress sha1_iv m in
  concat (be_bytes 4 <$> [a; b; c; d; e]).

(** ** MD4 *)
Record regs4 := R4 { q0 : Z; q1 : Z; q2 : Z; q3 : Z }.

Definition md4_iv : regs4 := R4 0x67452301 0xefcdab89 0x98badcfe 0x10325476.

(** One operation: which word, and by how much to rotate; the registers turn. *)
Definition md4_op (f : Z -> Z -> Z -> Z) (k : Z) (w : list Z) (st : regs4) (op : nat * Z) : regs4 :=
  let '(R4 a b c d) := st in
  R4 d (rotl op.2 (low32 (a + f b c d + nth op.1 w 0 + k))) b c.

(** The sixteen operations of a round: the order of the words and four rotations *)
Definition md4_round (f : Z -> Z -> Z -> Z) (k : Z) (order : list nat) (rots : list Z) (w : list Z) (st : regs4) : regs4 :=
  foldl (md4_op f k w) st (zip order (rots ++ rots ++ rots ++ rots)).

Definition md4_compress (st : regs4) (w : list Z) : regs4 :=
  let s1 := md4_round ch 0 [0;1;2;3;4;5;6;7;8;9;10;11;12;13;14;15]%nat [3;7;11;19] w st in
  let s2 := md4_round maj 0x5a827999 [0;4;8;12;1;5;9;13;2;6;10;14;3;7;11;15]%nat [3;5;9;13] w s1 in
  let '(R4 a b c d) := md4_round parity 0x6ed9eba1 [0;8;4;12;2;10;6;14;1;9;5;13;3;11;7;15]%nat [3;9;11;15] w s2 in
  R4 (add32 a (q0 st)) (add32 b (q1 st)) (add32 c (q2 st)) (add32 d (q3 st)).

Definition md4_digest (m : bytes) : bytes :=
  let '(R4 a b c d) := md_hash (le_bytes 8) le_val md4_compress md4_iv m in
  concat (le_bytes 4 <$> [a; b; c; d]).

(** ** Sizes *)
Lemma concat_words_ok n (ws : list Z) : length (concat (be_bytes n <$> ws)) = (n * length ws)%nat /\
  bytes_ok (concat (be_bytes n <$> ws)).
Proof.
  induction ws as [|w ws [IH1 IH2]]; cbn; [split; [lia|constructor]|].
  rewrite length_app, length_be_bytes, IH1. split; [lia|]. apply bytes_ok_app; [apply be_bytes_ok|done].
Qed.

Lemma le_bytes_ok n x : bytes_ok (le_bytes n x).
Proof. unfold bytes_ok, le_bytes. rewrite Forall_reverse. apply be_bytes_ok. Qed.

Lemma sha256_digest_ok m : length (sha256_digest m) = 32%nat /\ bytes_ok (sha256_digest m).
Proof. unfold sha256_digest. destruct (md_hash _ _ _ _ _). apply (concat_words_ok 4). Qed.

Lemma sha1_digest_ok m : length (sha1_digest m) = 20%nat /\ bytes_ok (sha1_digest m).
Proof. unfold sha1_digest. destruct (md_hash _ _ _ _ _). apply (concat_words_ok 4). Qed.

Lemma md4_digest_ok m : length (md4_digest m) = 16%nat /\ bytes_ok (md4_digest m).
Proof.
  unfold md4_digest. destruct (md_hash _ _ _ _ _) as [a b c d]. cbn [fmap list_fmap concat]. split.
  - unfold le_bytes. by rewrite !length_app, !length_reverse, !length_be_bytes.
  - repeat (apply bytes_ok_app; [apply le_bytes_ok|]). constructor.
Qed.

Lemma hmac_ok digest n key data : (forall m, length (digest m) = n /\ bytes_ok (digest m)) ->
  length (hmac digest key data) = n /\ bytes_ok (hmac digest key data).
Proof. intros Hd. apply Hd. Qed.

(** ** Published vectors: FIPS 180-4 and RFC 1320, of [abc] *)
Example sha256_abc : sha256_digest [97; 98; 99] =
  be_bytes 32 0xba7816bf8f01cfea414140de5dae2223b00361a396177a9cb410ff61f20015ad.
Proof. vm_compute. reflexivity. Qed.

Example sha1_abc : sha1_digest [97; 98; 99] = be_bytes 20 0xa9993e364706816aba3e25717850c26c9cd0d89d.
Proof. vm_compute. reflexivity. Qed.

Example md4_abc : md4_digest [97; 98; 99] = be_bytes 16 0xa448017aaf21d8525fc10ae87aa6729d.
Proof. vm_compute. reflexivity. Qed.
