(* ===== verification/Standard.v ===== *)
(** * The standard primitives

    The parameters of the model instantiated by the published algorithms of [Digest] and
    [Cipher]: SHA-256, SHA-1, HMAC, AES-256-GCM, AES-256-CBC, MD4 and DES.  Every law the
    theorems assume of these crates is proved of the algorithm here, the authenticity of
    GCM included ([AeadAuthentic]: what decrypts is what was encrypted to it).  Only
    X25519 stays the group of [toy]: a prime-field group, not the curve. *)
From S2P Require Import Prelude Outcome Primitives Crypto1 Eap Digest Cipher.

Definition std : Primitives := {|
  hmac_sha256 := hmac sha256_digest;
  sha256 := sha256_digest;
  sha1 := sha1_digest;
  gcm_encrypt := aes_gcm_encrypt;
  gcm_decrypt := aes_gcm_decrypt;
  x25519_base := @x25519_base toy;
  x25519_dh := @x25519_dh toy;
  biguint_from_bytes_be := @biguint_from_bytes_be toy;
  biguint_modpow := @biguint_modpow toy;
  biguint_to_bytes_be := @biguint_to_bytes_be toy |}.

Definition std1 : Legacy1 := {|
  hmac_sha1 := hmac sha1_digest;
  cbc_new := aes_cbc_new;
  cbc_encrypt := aes_cbc_encrypt;
  cbc_decrypt := aes_cbc_decrypt |}.

Definition std_legacy : LegacyCrypto := {| md4 := md4_digest; des_block := des_cipher |}.

(** ** The laws hold *)
Lemma std_hmac : @HmacLaws std.
Proof. split; intros; apply (hmac_ok _ 32), sha256_digest_ok. Qed.

Lemma std_hash : @HashLaws std.
Proof. split; intros; (apply sha256_digest_ok || apply sha1_digest_ok). Qed.

Lemma std_aead : @AeadLaws std.
Proof.
  split; cbn [gcm_encrypt gcm_decrypt std].
  - intros k n a m Hk Hn Hm. unfold aes_gcm_encrypt, gcm_sizes. rewrite Hk, Hn, !Nat.eqb_refl.
    rewrite (proj2 (Z.leb_le _ _) Hm). by eexists.
  - intros k n a m c. unfold aes_gcm_encrypt. destruct (gcm_sizes _ _ _); [|done]. intros [= <-].
    by rewrite length_app, length_gcm_xor, length_gcm_tag.
  - intros k n a m c Hm. unfold aes_gcm_encrypt. destruct (gcm_sizes _ _ _); [|done]. intros [= <-].
    apply bytes_ok_app; [by apply gcm_xor_bytes|apply be_bytes_ok].
  - intros k n a m c Hc. unfold aes_gcm_decrypt. destruct (_ && _); [|done]. intros [= <-].
    by apply gcm_xor_bytes, bytes_ok_take.
  - intros. by apply aes_gcm_decrypt_encrypt.
Qed.

Lemma std_authentic : @AeadAuthentic std.
Proof. split. intros k n a m c. apply aes_gcm_encrypt_decrypt. Qed.

Lemma std_x25519 : @X25519Laws std.
Proof. destruct toy_x25519. by split. Qed.

Lemma std_biguint : @BigUintLaws std.
Proof. destruct toy_biguint. by split. Qed.

Lemma std1_hmac : @HmacSha1Laws std1.
Proof. split; intros; apply (hmac_ok _ 20), sha1_digest_ok. Qed.

Lemma aes_cbc_new_spec k iv : aes_cbc_new k iv = true <-> length k = 32%nat /\ length iv = 16%nat.
Proof. unfold aes_cbc_new. rewrite andb_true_iff, !Nat.eqb_eq. done. Qed.

Lemma iv_block iv : length iv = 16%nat -> block (as_u8 <$> iv).
Proof. intros Hl. split; [by rewrite length_fmap|apply as_u8_bytes]. Qed.

Section aes.
Context (k iv : bytes) (H_new : aes_cbc_new k iv = true).

Lemma encrypt_block b : block b -> block (aes256 k b).
Proof using H_new. apply aes_cbc_new_spec in H_new as [Hk _]. intros Hb. by apply aes256_inverse. Qed.

Lemma aes_cbc_encrypt_unfold m : aes_cbc_encrypt k iv m = cbc_enc (aes256 k) (as_u8 <$> iv) (blocks16 m).
Proof using H_new. unfold aes_cbc_encrypt. by rewrite H_new. Qed.

Lemma aes_cbc_length m : (length m mod 16 = 0)%nat -> length (aes_cbc_encrypt k iv m) = length m.
Proof using H_new.
  intros Hm. rewrite aes_cbc_encrypt_unfold. destruct (blocks16_ok m) as [Hl Hb]. apply aes_cbc_new_spec in H_new as Hn.
  rewrite (proj1 (cbc_enc_spec _ encrypt_block _ _ (iv_block iv (proj2 Hn)) Hb)), Hl.
  by rewrite (aligned16 m Hm) at 2; rewrite Nat.mul_comm.
Qed.

Lemma aes_cbc_inverse m : (length m mod 16 = 0)%nat -> bytes_ok m ->
  aes_cbc_decrypt k iv (aes_cbc_encrypt k iv m) = Some m.
Proof using H_new.
  intros Hm Hb. unfold aes_cbc_decrypt. rewrite H_new, aes_cbc_length, Hm by done. cbn [andb Nat.eqb]. f_equal.
  rewrite aes_cbc_encrypt_unfold. destruct (blocks16_ok m) as [Hl Hbl].
  destruct (proj1 (aes_cbc_new_spec k iv) H_new) as [Hk Hiv].
  destruct (cbc_enc_spec (aes256 k) encrypt_block _ _ (iv_block iv Hiv) Hbl) as [Hlc Hbc].
  unfold blocks16 at 1. rewrite (as_u8_id (cbc_enc _ _ _)), Hlc, Nat.mul_comm, Nat.div_mul by done.
  rewrite cbc_dec_enc; [|exact encrypt_block| |by apply iv_block|done].
  - unfold blocks16. rewrite chunks_concat by (rewrite ?length_fmap; (lia || by apply aligned16)). by apply as_u8_id.
  - intros b Hbb. by apply aes256_inverse.
Qed.
End aes.

Lemma aes_cbc_decrypt_spec k iv c p : aes_cbc_decrypt k iv c = Some p ->
  length p = (16 * (length c / 16))%nat /\ bytes_ok p.
Proof.
  unfold aes_cbc_decrypt. destruct (aes_cbc_new k iv) eqn:Hn; [|done]. destruct (_ =? _)%nat; [|done]. intros [= <-].
  apply aes_cbc_new_spec in Hn as [Hk Hiv]. destruct (blocks16_ok c) as [Hl Hb]. rewrite <- Hl.
  apply cbc_dec_spec; [|by apply iv_block|done]. intros b Hbb. by apply decrypt_block; [apply aes256_keys_ok|].
Qed.

Lemma std1_cbc : @CbcLaws std1.
Proof.
  split; unfold aligned, AES_BLOCK; cbn [cbc_new cbc_encrypt cbc_decrypt std1].
  - apply aes_cbc_new_spec.
  - intros k iv p Hn. by apply aes_cbc_length.
  - intros k iv p. unfold aes_cbc_encrypt. destruct (aes_cbc_new k iv) eqn:Hn; [|constructor].
    pose proof (encrypt_block k iv Hn) as He. apply aes_cbc_new_spec in Hn as [_ Hiv].
    by apply cbc_enc_spec; [|apply iv_block|apply blocks16_ok].
  - intros k iv c Hn Hc. destruct (aes_cbc_decrypt k iv c) as [p|] eqn:E.
    + exists p. split; [done|]. apply aes_cbc_decrypt_spec in E as [-> _]. symmetry.
      rewrite Nat.mul_comm. by apply aligned16.
    + unfold aes_cbc_decrypt in E. by rewrite Hn, Hc in E.
  - intros k iv c p E. by apply aes_cbc_decrypt_spec in E as [_ ?].
  - intros k iv p Hn. by apply aes_cbc_inverse.
Qed.

Lemma std1_mode : @CbcMode std1.
Proof.
  intros k iv a b Hn Ha Hne Hb. unfold aligned, AES_BLOCK in *. cbn [cbc_new cbc_encrypt std1] in *.
  pose proof (encrypt_block k iv Hn) as He. pose proof Hn as Hn0. apply aes_cbc_new_spec in Hn0 as [Hk Hiv].
  pose proof (aes_cbc_length k iv Hn a Ha) as Hlc. set (ca := aes_cbc_encrypt k iv a) in *.
  assert (Ha0 : length a <> 0%nat) by (by destruct a). pose proof (aligned16 a Ha) as Hal.
  assert (Hca : bytes_ok ca) by apply (@cbc_encrypt_bytes _ std1_cbc).
  assert (Hd : length (drop (length ca - 16) ca) = 16%nat) by (rewrite length_drop; lia).
  rewrite !aes_cbc_encrypt_unfold by (done || by apply aes_cbc_new_spec). rewrite blocks16_app by done.
  rewrite (as_u8_id (drop _ _)) by (by apply bytes_ok_drop).
  unfold ca. rewrite (aes_cbc_encrypt_unfold k iv Hn a). apply cbc_enc_app; [done|by apply iv_block|apply blocks16_ok|].
  intros E. pose proof (proj1 (blocks16_ok a)) as Hbl. rewrite E in Hbl. cbn [length] in Hbl. lia.
Qed.

Lemma std_legacy_laws : @LegacyLaws std_legacy.
Proof. split; intros; [apply md4_digest_ok|apply md4_digest_ok|apply length_be_bytes|apply be_bytes_ok]. Qed.
