(* ===== verification/Icmp.v ===== *)
(** * ICMP echo packets ([src/examples/ike_client.rs], [ike_client_natt.rs], [rekey_e2e.rs])

    The Internet checksum and the echo request that the example programs tunnel.  The
    checksum's loops run on a [u32] whose additions are checked; the specification is a
    closed form of one's-complement arithmetic. *)
From S2P Require Import Prelude Outcome Payload.

(** [+=] on a [u32]: an overflow panics. *)
Definition add_u32 (x y : Z) : outcome Z := if decide (x + y < 2 ^ 32) then Ok (x + y) else Panic.

(** The first loop of [checksum] and the odd octet at its end *)
Fixpoint sum_words (data : bytes) (sum : Z) : outcome Z :=
  match data with
  | a :: b :: rest => sum ← add_u32 sum (be_val [a; b]); sum_words rest sum
  | [a] => add_u32 sum (Z.shiftl a 8)
  | [] => Ok sum
  end.

(** [while (sum >> 16) != 0]: a [u32] is folded in at most two passes. *)
Fixpoint fold_carries (fuel : nat) (sum : Z) : Z :=
  match fuel with
  | O => sum
  | S f => if decide (Z.shiftr sum 16 = 0) then sum
           else fold_carries f (Z.land sum 0xffff + Z.shiftr sum 16)
  end.

(** [fn checksum]; [!(sum as u16)] is the bitwise complement. *)
Definition checksum (data : bytes) : outcome Z :=
  sum ← sum_words data 0;
  Ok (2 ^ 16 - 1 - as_u16 (fold_carries 2 sum)).

(** [p[i..i + n].copy_from_slice(&b)] for [n] octets within [p] *)
Definition put (i : nat) (b p : bytes) : bytes := take i p ++ b ++ drop (i + length b) p.

(** The IPv4 header of the three [icmp_echo] functions, its checksum included *)
Definition ip_header (src dst : Ipv4Addr) : outcome bytes :=
  let p := replicate 28 0 in
  let p := put 0 [0x45] p in
  let p := put 2 (be_bytes 2 28) p in
  let p := put 8 [64] p in
  let p := put 9 [1] p in
  let p := put 12 (octets src) p in
  let p := put 16 (octets dst) p in
  head ← slice p 0 20;
  ck ← checksum head;
  Ok (put 10 (be_bytes 2 ck) p).

(** The ICMP checksum over [p[20..]] *)
Definition seal_icmp (p : bytes) : outcome bytes :=
  body ← slice_from p 20;
  ick ← checksum body;
  Ok (put 22 (be_bytes 2 ick) p).

(** [fn icmp_echo] of ike_client.rs *)
Definition icmp_echo (src dst : Ipv4Addr) (id seq : Z) : outcome bytes :=
  p ← ip_header src dst;
  let p := put 20 [8] p in
  let p := put 24 (be_bytes 2 id) p in
  let p := put 26 (be_bytes 2 seq) p in
  seal_icmp p.

(** [fn icmp_echo] of ike_client_natt.rs, which leaves the identifier at zero *)
Definition icmp_echo_natt (src dst : Ipv4Addr) (seq : Z) : outcome bytes :=
  p ← ip_header src dst;
  let p := put 20 [8] p in
  let p := put 26 (be_bytes 2 seq) p in
  seal_icmp p.

(** [fn icmp_echo] of rekey_e2e.rs, with a fixed identifier *)
Definition icmp_echo_e2e (src dst : Ipv4Addr) (seq : Z) : outcome bytes :=
  p ← ip_header src dst;
  let p := put 20 [8] p in
  let p := put 24 (be_bytes 2 0x1234) p in
  let p := put 26 (be_bytes 2 seq) p in
  seal_icmp p.

(** [inner.len() >= 28 && inner[9] == 1 && inner[20] == 0] *)
Definition is_echo_reply (inner : bytes) : bool :=
  bool_decide (28 <= length inner)%nat && bool_decide (inner !! 9%nat = Some 1) && bool_decide (inner !! 20%nat = Some 0).

(** ** Specification *)

(** The sum of the big-endian words, a last odd octet being the high one *)
Fixpoint word_sum (data : bytes) : Z :=
  match data with
  | a :: b :: rest => be_val [a; b] + word_sum rest
  | [a] => a * 256
  | [] => 0
  end.

(** The one's-complement value of a sum: 0 for 0, otherwise 1 to 65535 *)
Definition ones_complement (s : Z) : Z := if decide (s = 0) then 0 else (s - 1) mod 65535 + 1.

Lemma list_ind2 {A} (P : list A -> Prop) : P [] -> (forall a, P [a]) ->
  (forall a b l, P l -> P (a :: b :: l)) -> forall l, P l.
Proof.
  intros H0 H1 H2 l. enough (P l /\ forall a, P (a :: l)) by tauto.
  induction l as [|x l [IH1 IH2]]; [by split|]. split; [apply IH2|]. intros a. by apply H2.
Qed.

Lemma bytes_ok_ind2 (P : bytes -> Prop) : P [] -> (forall a, byte_ok a -> P [a]) ->
  (forall a b l, byte_ok a -> byte_ok b -> bytes_ok l -> P l -> P (a :: b :: l)) -> forall l, bytes_ok l -> P l.
Proof.
  intros H0 H1 H2 l. induction l as [|a|a b l IH] using list_ind2; intros Hl; [done| |].
  - apply H1. by apply Forall_cons in Hl as [? _].
  - apply Forall_cons in Hl as [? Hl]. apply Forall_cons in Hl as [? Hl]. by apply H2; [..|apply IH].
Qed.

Lemma word_sum_bound data : bytes_ok data -> 0 <= word_sum data <= 65535 * Z.of_nat ((length data + 1) / 2).
Proof.
  revert data. apply bytes_ok_ind2; [done| |].
  - unfold byte_ok. intros a Ha. cbn. lia.
  - intros a b l Ha Hb _ IH. cbn [length word_sum]. unfold byte_ok in *.
    replace (S (S (length l)) + 1)%nat with (1 * 2 + (length l + 1))%nat by lia.
    rewrite Nat.div_add_l by done. unfold be_val. cbn [foldl]. lia.
Qed.

Lemma sum_words_spec data : bytes_ok data -> forall s, 0 <= s < 2 ^ 32 ->
  sum_words data s = if decide (s + word_sum data < 2 ^ 32) then Ok (s + word_sum data) else Panic.
Proof.
  revert data. apply (bytes_ok_ind2 (fun data => forall s, _ -> _)).
  - intros s Hs. cbn. rewrite decide_True by lia. f_equal. lia.
  - intros a _ s Hs. cbn [sum_words word_sum]. unfold add_u32. by rewrite Z.shiftl_mul_pow2.
  - intros a b l Ha Hb Hl IH s Hs. cbn [sum_words word_sum]. unfold add_u32.
    pose proof (word_sum_bound l Hl) as Hw. unfold byte_ok in *.
    assert (He : 0 <= be_val [a; b]) by (unfold be_val; cbn [foldl]; lia).
    case_decide; cbn [mbind outcome_bind]; [|rewrite decide_False by lia; done].
    rewrite IH by lia. rewrite Z.add_assoc. done.
Qed.

(** One pass keeps the value modulo 65535, and two passes end below 2^16. *)
Lemma fold_pass s : 0 <= s -> s = 65535 * Z.shiftr s 16 + (Z.land s 0xffff + Z.shiftr s 16) /\
  0 <= Z.land s 0xffff < 2 ^ 16 /\ 0 <= Z.shiftr s 16.
Proof.
  intros Hs. change (Z.land s 0xffff) with (Z.land s (Z.ones 16)). rewrite Z.land_ones, Z.shiftr_div_pow2 by lia.
  pose proof (Z.div_mod s (2 ^ 16) ltac:(lia)). pose proof (Z.mod_pos_bound s (2 ^ 16) ltac:(lia)).
  pose proof (Z.div_pos s (2 ^ 16) ltac:(lia) ltac:(lia)). lia.
Qed.

Lemma ones_complement_unique s v : 0 <= v < 2 ^ 16 -> (exists k, 0 <= k /\ s = 65535 * k + v) -> 0 <= s -> (v = 0 -> s = 0) ->
  v = ones_complement s.
Proof.
  intros Hv (k & Hk0 & Hk) Hs H0. unfold ones_complement. case_decide as E.
  - subst s. lia.
  - assert (v <> 0) by lia. rewrite Hk. replace (65535 * k + v - 1) with (v - 1 + k * 65535) by lia.
    rewrite Z.mod_add, Z.mod_small by lia. lia.
Qed.

Lemma fold_carries_spec s : u32_ok s ->
  fold_carries 2 s = ones_complement s /\ Z.shiftr (fold_carries 2 s) 16 = 0.
Proof.
  intros Hs. unfold u32_ok in Hs. destruct (fold_pass s) as (E1 & B1 & C1); [lia|].
  cbn [fold_carries]. case_decide as D1.
  { split; [|done]. apply ones_complement_unique; [|exists 0|..]; lia. }
  set (s1 := Z.land s 0xffff + Z.shiftr s 16) in *. destruct (fold_pass s1) as (E2 & B2 & C2); [lia|].
  assert (Hh : Z.shiftr s 16 < 2 ^ 16) by (rewrite Z.shiftr_div_pow2 by lia; apply Z.div_lt_upper_bound; lia).
  case_decide as D2.
  { split; [|done]. apply ones_complement_unique; [|exists (Z.shiftr s 16)|..]; lia. }
  set (s2 := Z.land s1 0xffff + Z.shiftr s1 16) in *.
  assert (H2 : 0 <= s2 < 2 ^ 16) by (assert (Z.shiftr s1 16 = 1) by lia; lia).
  split.
  - apply ones_complement_unique; [lia|exists (Z.shiftr s 16 + Z.shiftr s1 16); lia|lia|lia].
  - rewrite Z.shiftr_div_pow2 by lia. by apply Z.div_small.
Qed.

Lemma ones_complement_bound s : 0 <= ones_complement s < 2 ^ 16.
Proof. unfold ones_complement. case_decide; [lia|]. pose proof (Z.mod_pos_bound (s - 1) 65535 ltac:(lia)). lia. Qed.

Lemma checksum_value data : bytes_ok data -> word_sum data < 2 ^ 32 ->
  checksum data = Ok (65535 - ones_complement (word_sum data)).
Proof.
  intros Hd Hw. pose proof (word_sum_bound data Hd) as Hb. unfold checksum.
  rewrite sum_words_spec by (done || lia). rewrite decide_True by lia. rewrite Z.add_0_l. cbn [mbind outcome_bind].
  destruct (fold_carries_spec (word_sum data)) as [-> _]; [unfold u32_ok; lia|].
  unfold as_u16. rewrite Z.mod_small by apply ones_complement_bound. done.
Qed.

Lemma word_sum_app l k : Nat.even (length l) = true -> word_sum (l ++ k) = word_sum l + word_sum k.
Proof.
  induction l as [|a|a b l IH] using list_ind2; intros He; [done|done|]. cbn [app word_sum].
  rewrite IH by exact He. lia.
Qed.

(** The longest input whose words cannot overflow the [u32] *)
Definition checksum_max : Z := 131074.

Lemma word_sum_small data : bytes_ok data -> Z.of_nat (length data) <= checksum_max -> word_sum data < 2 ^ 32.
Proof.
  intros Hd Hl. pose proof (word_sum_bound data Hd) as [_ Hb]. unfold checksum_max in Hl.
  assert (Z.of_nat ((length data + 1) / 2) < 65538).
  { rewrite Nat2Z.inj_div, Nat2Z.inj_add. apply Z.div_lt_upper_bound; cbn; lia. }
  lia.
Qed.

Lemma ones_complement_zero s : 0 < s -> (ones_complement s = 65535 <-> s mod 65535 = 0).
Proof.
  intros Hs. unfold ones_complement. rewrite decide_False by lia.
  pose proof (Z.div_mod (s - 1) 65535 ltac:(lia)) as E. pose proof (Z.mod_pos_bound (s - 1) 65535 ltac:(lia)).
  split; intros Hz.
  - apply Z.mod_divide; [lia|]. exists ((s - 1) / 65535 + 1). lia.
  - apply Z.mod_divide in Hz as [k Hk]; [|lia]. assert (k = (s - 1) / 65535 + 1) by nia. lia.
Qed.

(** A word inserted at an even place of a sum *)
Lemma word_sum_mid l ck r : Nat.even (length l) = true -> u16_ok ck ->
  word_sum (l ++ be_bytes 2 ck ++ r) = word_sum l + ck + word_sum r.
Proof.
  intros He Hc. rewrite word_sum_app by done. cbn [be_bytes app word_sum].
  change [_; _] with (be_bytes 2 ck). rewrite be_val_be_bytes by exact Hc. lia.
Qed.

Lemma checksum_inserted l r : Nat.even (length l) = true -> bytes_ok l -> bytes_ok r ->
  Z.of_nat (length l + 2 + length r) <= checksum_max ->
  exists ck, checksum (l ++ [0; 0] ++ r) = Ok ck /\ u16_ok ck /\ checksum (l ++ be_bytes 2 ck ++ r) = Ok 0.
Proof.
  intros He Hl Hr Hn. set (s := word_sum l + word_sum r).
  assert (H0 : bytes_ok (l ++ [0; 0] ++ r)) by (apply bytes_ok_app; [done|]; by repeat constructor).
  assert (E0 : word_sum (l ++ [0; 0] ++ r) = s).
  { change [0; 0] with (be_bytes 2 0). rewrite word_sum_mid by done. lia. }
  pose proof (word_sum_small _ H0 ltac:(rewrite !length_app; cbn [length]; lia)) as B0. rewrite E0 in B0.
  pose proof (word_sum_bound _ H0) as [P0 _]. rewrite E0 in P0.
  pose proof (ones_complement_bound s) as Hb. set (ck := 65535 - ones_complement s).
  assert (Hck : u16_ok ck) by (unfold u16_ok, ck; lia). exists ck.
  split; [rewrite checksum_value, E0 by (done || by rewrite E0); done|]. split; [done|].
  assert (H1 : bytes_ok (l ++ be_bytes 2 ck ++ r)) by auto using bytes_ok_app, be_bytes_ok.
  rewrite checksum_value; [|done|apply word_sum_small; [done|rewrite !length_app, length_be_bytes; lia]].
  rewrite word_sum_mid by done. do 2 f_equal. replace (word_sum l + ck + word_sum r) with (s + ck) by lia.
  apply Z.sub_move_0_r. symmetry. apply ones_complement_zero.
  - unfold ck, ones_complement in *. case_decide; lia.
  - unfold ck, ones_complement. case_decide as E; [by rewrite E|].
    replace (s + (65535 - ((s - 1) mod 65535 + 1))) with (1 + (s - 1) - (s - 1) mod 65535 - 1 + 65535) by lia.
    pose proof (Z.div_mod (s - 1) 65535 ltac:(lia)) as Ed. apply Z.mod_divide; [lia|].
    exists ((s - 1) / 65535 + 1). lia.
Qed.

Lemma word_sum_change l a b r :
  word_sum (l ++ [b] ++ r) = word_sum (l ++ [a] ++ r) + (b - a) * (if Nat.even (length l) then 256 else 1).
Proof.
  induction l as [|x|x y l IH] using list_ind2.
  - destruct r as [|c r]; cbn; lia.
  - cbn. lia.
  - cbn [app word_sum] in *. rewrite IH. cbn [length Nat.even]. lia.
Qed.

Lemma checksum_zero data : bytes_ok data -> word_sum data < 2 ^ 32 ->
  checksum data = Ok 0 <-> 0 < word_sum data /\ word_sum data mod 65535 = 0.
Proof.
  intros Hd Hw. pose proof (word_sum_bound data Hd) as [Hp _]. rewrite checksum_value by done. split.
  - intros [= E]. assert (word_sum data <> 0) by (intros E0; rewrite E0 in E; done).
    split; [lia|]. apply ones_complement_zero; lia.
  - intros [H1 H2]. apply ones_complement_zero in H2; [|done]. by rewrite H2.
Qed.

Lemma checksum_detects l a r b : bytes_ok (l ++ [a] ++ r) -> checksum (l ++ [a] ++ r) = Ok 0 -> byte_ok b -> b <> a ->
  Z.of_nat (length (l ++ [a] ++ r)) <= checksum_max -> exists ck, checksum (l ++ [b] ++ r) = Ok ck /\ ck <> 0.
Proof.
  intros Hd E Hb Hab Hn. apply bytes_ok_app_inv in Hd as Hd'. destruct Hd' as [Hl Hr].
  apply (bytes_ok_app_inv [a]) in Hr as [Ha Hr]. apply Forall_cons in Ha as [Ha _].
  assert (Hd2 : bytes_ok (l ++ [b] ++ r)) by (apply bytes_ok_app; [done|by constructor]).
  assert (Hw2 : word_sum (l ++ [b] ++ r) < 2 ^ 32)
    by (apply word_sum_small; [done|]; rewrite !length_app in *; exact Hn).
  apply checksum_zero in E as [Hp Hm]; [|done|by apply word_sum_small].
  eexists. split; [by apply checksum_value|]. intros E2.
  assert (E3 : checksum (l ++ [b] ++ r) = Ok 0) by (rewrite checksum_value by done; by rewrite E2).
  apply checksum_zero in E3 as [_ Hm2]; [|done|done]. rewrite (word_sum_change l a b r) in Hm2.
  apply Z.mod_divide in Hm as [x Hx]; [|lia]. apply Z.mod_divide in Hm2 as [y Hy]; [|lia].
  unfold byte_ok in *. destruct (Nat.even (length l)); nia.
Qed.

(** The checksum is the one's complement of the one's-complement sum of the big-endian
    words, an odd last octet being padded with zero: the loops compute that closed form
    whenever the words fit the [u32] accumulator (which they do for every input of at most
    131,074 octets) and panic otherwise; the carry loop ends in at most two passes with no carry left.
    Written into a zeroed field at an even offset, it makes the checksum of the whole zero,
    and then changing any one octet makes it differ from zero. *)
Theorem checksum_correct data : bytes_ok data ->
  checksum data = (if decide (word_sum data < 2 ^ 32)
    then Ok (65535 - ones_complement (word_sum data)) else Panic) /\
  (Z.of_nat (length data) <= checksum_max -> word_sum data < 2 ^ 32) /\
  (forall s, u32_ok s -> Z.shiftr (fold_carries 2 s) 16 = 0) /\
  (forall l r, data = l ++ [0; 0] ++ r -> Nat.even (length l) = true -> Z.of_nat (length data) <= checksum_max ->
     exists ck, checksum data = Ok ck /\ checksum (l ++ be_bytes 2 ck ++ r) = Ok 0) /\
  (forall l a r b, data = l ++ [a] ++ r -> checksum data = Ok 0 -> byte_ok b -> b <> a ->
     Z.of_nat (length data) <= checksum_max -> exists ck, checksum (l ++ [b] ++ r) = Ok ck /\ ck <> 0).
Proof.
  intros Hd. split_and!.
  - case_decide as E; [by apply checksum_value|]. unfold checksum.
    rewrite sum_words_spec by (done || lia). by rewrite decide_False by lia.
  - by apply word_sum_small.
  - intros s Hs. by apply fold_carries_spec.
  - intros l r -> He Hn. apply bytes_ok_app_inv in Hd as [Hl Hr]. apply (bytes_ok_app_inv [0; 0]) in Hr as [_ Hr].
    rewrite !length_app in Hn. cbn [length] in Hn.
    destruct (checksum_inserted l r) as (ck & E1 & _ & E2); [done..|lia|]. by exists ck.
  - intros l a r b -> E0 Hb Hab Hn. by apply (checksum_detects l a r b).
Qed.

(** ** The echo request *)
Definition ip_start : bytes := [0x45; 0; 0; 28; 0; 0; 0; 0; 64; 1].

Lemma ip_header_form src dst : bytes_ok (octets src) -> bytes_ok (octets dst) ->
  exists ck, u16_ok ck /\ checksum (ip_start ++ be_bytes 2 ck ++ octets src ++ octets dst) = Ok 0 /\
    ip_header src dst = Ok (ip_start ++ be_bytes 2 ck ++ octets src ++ octets dst ++ replicate 8 0).
Proof.
  intros Hs Hd. destruct (checksum_inserted ip_start (octets src ++ octets dst)) as (ck & E1 & Hck & E2);
    [done|by repeat constructor|by apply bytes_ok_app|unfold checksum_max; cbn; lia|].
  exists ck. split; [done|]. split; [done|]. unfold ip_header.
  rewrite (slice_ok _ 0 20) by (cbn; lia). cbn [mbind outcome_bind].
  change (take (20 - 0) _) with (ip_start ++ [0; 0] ++ octets src ++ octets dst). by rewrite E1.
Qed.

(** The ICMP part: type 8, code 0, checksum, identifier, sequence number *)
Lemma seal_icmp_form h id seq : length h = 20%nat -> u16_ok id -> u16_ok seq ->
  exists ck, u16_ok ck /\ checksum ([8; 0] ++ be_bytes 2 ck ++ be_bytes 2 id ++ be_bytes 2 seq) = Ok 0 /\
    seal_icmp (h ++ [8; 0; 0; 0] ++ be_bytes 2 id ++ be_bytes 2 seq) =
      Ok (h ++ [8; 0] ++ be_bytes 2 ck ++ be_bytes 2 id ++ be_bytes 2 seq).
Proof.
  intros Hh Hi Hs. destruct (checksum_inserted [8; 0] (be_bytes 2 id ++ be_bytes 2 seq)) as (ck & E1 & Hck & E2);
    [done|by repeat constructor|apply bytes_ok_app; apply be_bytes_ok|unfold checksum_max; cbn; lia|].
  exists ck. split; [done|]. split; [done|]. unfold seal_icmp.
  rewrite slice_from_app by done. cbn [mbind outcome_bind].
  assert (E3 : checksum ([8; 0; 0; 0] ++ be_bytes 2 id ++ be_bytes 2 seq) = Ok ck) by exact E1.
  rewrite E3. cbn [mbind outcome_bind]. f_equal. unfold put. rewrite length_be_bytes.
  rewrite (take_app_ge h), (drop_app_ge h), Hh by lia. rewrite <- !app_assoc. reflexivity.
Qed.

Lemma icmp_echo_form src dst id seq : bytes_ok (octets src) -> bytes_ok (octets dst) -> u16_ok id -> u16_ok seq ->
  exists p, icmp_echo src dst id seq = Ok p /\ length p = 28%nat.
Proof.
  intros Hs Hd Hi Hq. destruct (ip_header_form src dst Hs Hd) as (ck & _ & _ & E1).
  set (h := ip_start ++ be_bytes 2 ck ++ octets src ++ octets dst).
  destruct (seal_icmp_form h id seq) as (ick & _ & _ & E2); [done..|].
  exists (h ++ [8; 0] ++ be_bytes 2 ick ++ be_bytes 2 id ++ be_bytes 2 seq). split; [|done].
  unfold icmp_echo. rewrite E1. exact E2.
Qed.

(** The echo request is a valid packet: for any addresses, identifier and sequence
    number [icmp_echo] returns, without a panic, 28 octets: an IPv4 header of version 4 and
    five words, total length 28, protocol 1 with the two addresses, then an ICMP echo request
    with the identifier and sequence number, and the checksums of the header and of the ICMP part
    are both zero as a receiver computes them.  The variants of the other two programs
    are the same function with identifier 0 and 0x1234; a request is never taken for
    the reply the programs wait for. *)
Theorem icmp_echo_valid src dst id seq :
  bytes_ok (octets src) -> bytes_ok (octets dst) -> u16_ok id -> u16_ok seq ->
  exists p, icmp_echo src dst id seq = Ok p /\ length p = 28%nat /\ bytes_ok p /\
    take 4 p = [0x45; 0; 0; 28] /\ p !! 9%nat = Some 1 /\
    take 4 (drop 12 p) = octets src /\ take 4 (drop 16 p) = octets dst /\
    take 2 (drop 20 p) = [8; 0] /\ drop 24 p = be_bytes 2 id ++ be_bytes 2 seq /\
    checksum (take 20 p) = Ok 0 /\ checksum (drop 20 p) = Ok 0 /\ is_echo_reply p = false /\
    icmp_echo_natt src dst seq = icmp_echo src dst 0 seq /\
    icmp_echo_e2e src dst seq = icmp_echo src dst 0x1234 seq.
Proof.
  intros Hs Hd Hi Hq. destruct (ip_header_form src dst Hs Hd) as (ck & Hck & C1 & E1).
  set (h := ip_start ++ be_bytes 2 ck ++ octets src ++ octets dst).
  destruct (seal_icmp_form h id seq) as (ick & Hick & C2 & E2); [done..|].
  exists (h ++ [8; 0] ++ be_bytes 2 ick ++ be_bytes 2 id ++ be_bytes 2 seq).
  assert (Hb : bytes_ok h) by (repeat apply bytes_ok_app; [by repeat constructor|apply be_bytes_ok|done|done]).
  assert (Hb' : bytes_ok (h ++ [8; 0] ++ be_bytes 2 ick ++ be_bytes 2 id ++ be_bytes 2 seq)).
  { apply bytes_ok_app; [exact Hb|]. apply bytes_ok_app; [by repeat constructor|].
    repeat apply bytes_ok_app; apply be_bytes_ok. }
  split_and!; try reflexivity; [|exact Hb'|exact C1|exact C2|..].
  - unfold icmp_echo. rewrite E1. cbn [mbind outcome_bind]. exact E2.
  - unfold icmp_echo, icmp_echo_natt. by rewrite E1.
Qed.

Lemma icmp_echo_valid_witness : exists p, icmp_echo (mkIpv4 10 0 0 7) (mkIpv4 1 1 1 1) 0x1234 1 = Ok p /\
  checksum (take 20 p) = Ok 0 /\ checksum (drop 20 p) = Ok 0.
Proof.
  destruct (icmp_echo_valid (mkIpv4 10 0 0 7) (mkIpv4 1 1 1 1) 0x1234 1) as (p & E & H);
    [repeat constructor; done| repeat constructor; done|split; done|split; done|].
  exists p. repeat split; [exact E|apply H|apply H].
Defined.

Lemma checksum_correct_witness : checksum [0x12; 0x34; 0; 0; 0xff] = Ok 0xeeca.
Proof.
  rewrite (proj1 (checksum_correct [0x12; 0x34; 0; 0; 0xff] ltac:(repeat constructor; done))). reflexivity.
Defined.
