(* ===== verification/Addr.v ===== *)
(** * Addresses in text ([std::net], as the programs under [src/examples] use it)

    [str::parse] of [Ipv4Addr] and [SocketAddr] in the standard library, which the
    programs apply to their arguments and to [format!("{host}:500")].  A parser takes the
    input and returns a value with the rest; failing restores the input. *)
From S2P Require Import Prelude Outcome Payload Natt.

Definition parser (A : Type) : Type := bytes -> option (A * bytes).

(** [c.to_digit(radix)], for a radix of 10 or 16 *)
Definition to_digit (radix c : Z) : option Z :=
  let v := if decide (48 <= c <= 57) then c - 48
           else if decide (97 <= c <= 102) then c - 87
           else if decide (65 <= c <= 70) then c - 55 else radix in
  if decide (v < radix) then Some v else None.

(** The digit loop of [read_number]: checked arithmetic below [limit], at most [max]
    digits when a bound is given; returns the number and how many digits it had. *)
Fixpoint read_digits (radix limit : Z) (max : option nat) (count : nat) (acc : Z) (l : bytes)
    : option (Z * nat * bytes) :=
  match l with
  | c :: rest =>
      match to_digit radix c with
      | Some d =>
          if (acc * radix + d <? limit) && match max with Some m => (count <? m)%nat | None => true end
          then read_digits radix limit max (S count) (acc * radix + d) rest else None
      | None => Some (acc, count, l)
      end
  | [] => Some (acc, count, l)
  end.

(** [read_number] *)
Definition read_number (radix limit : Z) (max : option nat) (allow_zero_prefix : bool) : parser Z := fun l =>
  let has_leading_zero := bool_decide (head l = Some 48) in
  match read_digits radix limit max 0 0 l with
  | Some (v, count, rest) =>
      if decide (count = 0%nat) then None
      else if negb allow_zero_prefix && has_leading_zero && bool_decide (1 < count)%nat then None
      else Some (v, rest)
  | None => None
  end.

Definition read_given_char (c : Z) : parser unit := fun l =>
  match l with x :: rest => if decide (x = c) then Some (tt, rest) else None | [] => None end.

(** [read_separator(sep, index, inner)] *)
Definition read_separator {A} (sep : Z) (index : nat) (inner : parser A) : parser A := fun l =>
  if decide (index = 0%nat) then inner l
  else match read_given_char sep l with Some (_, rest) => inner rest | None => None end.

Definition read_octet (i : nat) : parser Z := read_separator 46 i (read_number 10 256 (Some 3%nat) false).

(** [read_ipv4_addr] *)
Definition read_ipv4 : parser Ipv4Addr := fun l =>
  '(a, l) ← read_octet 0 l; '(b, l) ← read_octet 1 l; '(c, l) ← read_octet 2 l; '(d, l) ← read_octet 3 l;
  Some (mkIpv4 a b c d, l).

(** [read_groups] of [read_ipv6_addr]: at most [limit - i] more groups; returns the groups and
    whether they end in an embedded IPv4 address. *)
Fixpoint read_groups (left i : nat) (l : bytes) : list Z * bool * bytes :=
  match left with
  | O => ([], false, l)
  | S left' =>
      match (if decide (0 < left')%nat then read_separator 58 i read_ipv4 l else None) with
      | Some (v4, rest) => ([be_val (take 2 (octets v4)); be_val (drop 2 (octets v4))], true, rest)
      | None =>
          match read_separator 58 i (read_number 16 (2 ^ 16) (Some 4%nat) true) l with
          | Some (g, rest) =>
              let '(gs, v4, rest') := read_groups left' (S i) rest in (g :: gs, v4, rest')
          | None => ([], false, l)
          end
      end
  end.

(** [read_ipv6_addr], by its sixteen octets *)
Definition read_ipv6 : parser bytes := fun l =>
  let '(head, head_ipv4, l) := read_groups 8 0 l in
  let out gs rest := Some (concat (be_bytes 2 <$> gs), rest) in
  if decide (length head = 8%nat) then out head l
  else if (head_ipv4 : bool) then None else
  '(_, l) ← read_given_char 58 l; '(_, l) ← read_given_char 58 l;
  let '(tail, _, l) := read_groups (8 - (length head + 1)) 0 l in
  out (head ++ replicate (8 - length head - length tail) 0 ++ tail) l.

(** [read_port]: [read_given_char(':')] and a number of a [u16] *)
Definition read_port : parser Z := fun l =>
  '(_, l) ← read_given_char 58 l; read_number 10 (2 ^ 16) None true l.

Definition read_socket_v4 : parser SocketAddr := fun l =>
  '(ip, l) ← read_ipv4 l; '(port, l) ← read_port l; Some (mkSocketAddr (V4 ip) port, l).

(** An optional scope, [%] and a number, is read; the model keeps no scope. *)
Definition read_scope (l : bytes) : bytes :=
  match read_given_char 37 l with
  | Some (_, rest) => match read_number 10 (2 ^ 32) None true rest with Some (_, rest') => rest' | None => l end
  | None => l
  end.

Definition read_socket_v6 : parser SocketAddr := fun l =>
  '(_, l) ← read_given_char 91 l; '(ip, l) ← read_ipv6 l;
  '(_, l) ← read_given_char 93 (read_scope l); '(port, l) ← read_port l;
  Some (mkSocketAddr (V6 ip) port, l).

(** [parse_with]: nothing may be left. *)
Definition parse_whole {A} (p : parser A) (l : bytes) : option A :=
  match p l with Some (a, []) => Some a | _ => None end.

(** [s.parse::<Ipv4Addr>()]: at most fifteen characters *)
Definition parse_ipv4 (s : bytes) : option Ipv4Addr :=
  if decide (15 < length s)%nat then None else parse_whole read_ipv4 s.

(** [s.parse::<SocketAddr>()] *)
Definition parse_socket_addr (s : bytes) : option SocketAddr :=
  match parse_whole read_socket_v4 s with Some a => Some a | None => parse_whole read_socket_v6 s end.

(** [format!("{host}:500")] and [format!("{host}:4500")] *)
Definition with_port_500 (host : bytes) : bytes := host ++ [58; 53; 48; 48].
Definition with_port_4500 (host : bytes) : bytes := host ++ [58; 52; 53; 48; 48].

(** ** [Display]: what [Ipv4Addr] prints *)
Definition show_octet (x : Z) : bytes :=
  if decide (x < 10) then [48 + x]
  else if decide (x < 100) then [48 + x / 10; 48 + x mod 10]
  else [48 + x / 100; 48 + (x / 10) mod 10; 48 + x mod 10].

Definition show_ipv4 (a : Ipv4Addr) : bytes :=
  show_octet (oct0 a) ++ [46] ++ show_octet (oct1 a) ++ [46] ++ show_octet (oct2 a) ++ [46] ++ show_octet (oct3 a).

Example parse_v4 : parse_socket_addr (with_port_500 [49; 46; 50; 46; 51; 46; 52]) = Some (mkSocketAddr (V4 (mkIpv4 1 2 3 4)) 500).
Proof. reflexivity. Qed.

(** [[fe80::1%7]:4500] *)
Example parse_v6 : parse_socket_addr (with_port_4500 [91; 102; 101; 56; 48; 58; 58; 49; 37; 55; 93]) =
  Some (mkSocketAddr (V6 (be_bytes 2 0xfe80 ++ be_bytes 14 1)) 4500).
Proof. vm_compute. reflexivity. Qed.

(** [[::ffff:1.2.3.4]:500] *)
Example parse_v6_mapped :
  parse_socket_addr (with_port_500 [91; 58; 58; 102; 102; 102; 102; 58; 49; 46; 50; 46; 51; 46; 52; 93]) =
  Some (mkSocketAddr (V6 (be_bytes 16 0xffff01020304)) 500).
Proof. vm_compute. reflexivity. Qed.

(** An octet with a leading zero is rejected, as are five groups and a bare IPv6 host. *)
Example parse_octal : parse_ipv4 [49; 46; 50; 46; 51; 46; 48; 52] = None.
Proof. reflexivity. Qed.
Example parse_bare_v6 : parse_socket_addr (with_port_500 [58; 58; 49]) = None.
Proof. vm_compute. reflexivity. Qed.

(** ** Round trip *)
Definition not_digit (l : bytes) : Prop := match l with c :: _ => to_digit 10 c = None | [] => True end.

(** The octet's digits are read back, whatever non-digit follows. *)
Lemma read_shown x rest : byte_ok x -> not_digit rest ->
  read_number 10 256 (Some 3%nat) false (show_octet x ++ rest) = Some (x, rest).
Proof.
  intros Hx Hr. assert (Hd : forall m acc n, (0 < n)%nat -> read_digits 10 256 m n acc rest = Some (acc, n, rest)).
  { intros m acc n _. destruct rest as [|c rest]; [done|]. cbn [read_digits not_digit] in *. by rewrite Hr. }
  assert (H1 : forall d, 0 <= d < 10 -> to_digit 10 (48 + d) = Some d).
  { intros d Hd'. unfold to_digit. cbv zeta. repeat case_decide; try lia; f_equal; lia. }
  unfold byte_ok in Hx. unfold read_number, show_octet.
  pose proof (Z.div_mod x 10 ltac:(lia)). pose proof (Z.mod_pos_bound x 10 ltac:(lia)).
  pose proof (Z.div_mod (x / 10) 10 ltac:(lia)). pose proof (Z.mod_pos_bound (x / 10) 10 ltac:(lia)).
  assert (Hh : x / 100 = x / 10 / 10) by (by rewrite Z.div_div by lia).
  case_decide as C1; [|case_decide as C2]; cbn [app read_digits head].
  - rewrite H1 by lia. rewrite (proj2 (Z.ltb_lt _ _)) by lia. cbn [andb Nat.ltb Nat.leb]. rewrite Hd by lia.
    rewrite decide_False by lia. rewrite (bool_decide_eq_false_2 (1 < 1)%nat) by lia.
    by rewrite andb_false_r.
  - rewrite !H1 by lia. cbn [andb Nat.ltb Nat.leb]. rewrite !(proj2 (Z.ltb_lt _ _)) by lia. cbn [andb].
    rewrite Hd by lia.
    rewrite decide_False by lia. rewrite (bool_decide_eq_false_2 (Some (48 + x / 10) = _)) by (intros [= E]; lia).
    f_equal; f_equal; lia.
  - rewrite !H1 by lia. cbn [andb Nat.ltb Nat.leb]. rewrite !(proj2 (Z.ltb_lt _ _)) by lia. cbn [andb].
    rewrite Hd by lia.
    rewrite decide_False by lia. rewrite (bool_decide_eq_false_2 (Some (48 + x / 100) = _)) by (intros [= E]; lia).
    f_equal; f_equal; lia.
Qed.

Lemma read_ipv4_shown a rest : bytes_ok (octets a) -> not_digit rest -> read_ipv4 (show_ipv4 a ++ rest) = Some (a, rest).
Proof.
  destruct a as [a b c d]. intros Hb Hr. unfold bytes_ok, octets in Hb. cbn [oct0 oct1 oct2 oct3] in Hb.
  repeat (apply Forall_cons in Hb as [? Hb]). unfold show_ipv4, read_ipv4. cbn [oct0 oct1 oct2 oct3]. rewrite <- !app_assoc.
  unfold read_octet, read_separator. cbn [decide].
  rewrite decide_True by done. rewrite read_shown by done. cbn [mbind option_bind app].
  do 3 (rewrite decide_False by done; cbn [read_given_char]; rewrite decide_True by done;
        rewrite read_shown by done; cbn [mbind option_bind app]).
  done.
Qed.

(** Addresses are read as they are printed: an IPv4 address in its printed form parses to itself,
    and the programs' [format!("{host}:500")] and [":4500"] of it to the socket addresses
    with ports 500 and 4500. *)
Theorem parse_shown a : bytes_ok (octets a) ->
  parse_ipv4 (show_ipv4 a) = Some a /\
  parse_socket_addr (with_port_500 (show_ipv4 a)) = Some (mkSocketAddr (V4 a) 500) /\
  parse_socket_addr (with_port_4500 (show_ipv4 a)) = Some (mkSocketAddr (V4 a) 4500).
Proof.
  intros Ha. assert (Hl : (length (show_ipv4 a) <= 15)%nat).
  { assert (Ho : forall x, (length (show_octet x) <= 3)%nat) by (intros x; unfold show_octet; repeat case_decide; cbn; lia).
    unfold show_ipv4. rewrite !length_app. cbn [length].
    pose proof (Ho (oct0 a)). pose proof (Ho (oct1 a)). pose proof (Ho (oct2 a)). pose proof (Ho (oct3 a)). lia. }
  split_and!.
  - unfold parse_ipv4, parse_whole. rewrite decide_False by lia.
    rewrite <- (app_nil_r (show_ipv4 a)), read_ipv4_shown; done.
  - unfold parse_socket_addr, parse_whole, read_socket_v4, with_port_500.
    by rewrite read_ipv4_shown.
  - unfold parse_socket_addr, parse_whole, read_socket_v4, with_port_4500. by rewrite read_ipv4_shown.
Qed.
