(* ===== verification/Programs.v ===== *)
(** * The example programs ([src/examples/*.rs])

    Seven command-line programs built on the library: the PSK client with a tunnelled
    ping, the same behind a NAT, the EAP client, and the four probes.  A program is an
    action on the machine it runs on ([World]): its sockets, its randomness, its clock and
    its files.  The result is the exit status; [unwrap] and [expect] panic. *)
From S2P Require Import Prelude Outcome Wire Primitives Entropy Message Payload Crypto Sk Negotiate Esp Natt Exchange Informational Sign IkeAuth Transport Rekey Server Eap EapAuth Icmp Addr.

(** ** The machine *)

(** [sockets n] is the [n]-th socket the program binds; [bind_udp n] is
    [UdpSocket::bind("0.0.0.0:0")] with its (non-zero) read timeout set.  [clock] is
    [Instant::now()] in nanoseconds, [unix_time] the seconds since the epoch, if it is past. *)
Class World (W G : Type) := {
  sockets : nat -> Transport W;
  bind_udp : nat -> W -> bool * W;
  os_entropy : W -> option G * W;
  clock : W -> Z * W;
  unix_time : W -> option Z * W;
  read_file : bytes -> W -> option bytes * W }.

(** [[0u8; 2048]], [[0u8; 2000]] and [[0u8; 4096]]: the receive buffers *)
Definition probe_buf : nat := Z.to_nat 2048.
Definition ping_buf : nat := Z.to_nat 2000.
Definition client_buf : nat := Z.to_nat 4096.

(** [String::into_bytes]: UTF-8 *)
Definition char_utf8 (c : Z) : bytes :=
  if decide (c < 0x80) then [c]
  else if decide (c < 0x800) then [Z.lor 0xc0 (Z.shiftr c 6); Z.lor 0x80 (Z.land c 0x3f)]
  else if decide (c < 0x10000) then
    [Z.lor 0xe0 (Z.shiftr c 12); Z.lor 0x80 (Z.land (Z.shiftr c 6) 0x3f); Z.lor 0x80 (Z.land c 0x3f)]
  else [Z.lor 0xf0 (Z.shiftr c 18); Z.lor 0x80 (Z.land (Z.shiftr c 12) 0x3f);
        Z.lor 0x80 (Z.land (Z.shiftr c 6) 0x3f); Z.lor 0x80 (Z.land c 0x3f)].
Definition utf8 (s : str) : bytes := s ≫= char_utf8.

Section programs.
Context `{!Primitives, !Pki, !LegacyCrypto, World W G, Entropy G}.
Open Scope action_scope.

(** [.unwrap()] and [.expect(..)] on a result and on an option *)
Definition expecting {S A} (m : action S A) : action S A := fun s =>
  match m s with (Failed _, s') => (Panicked, s') | r => r end.
Definition must {S A} (o : option A) : action S A := fun s =>
  match o with Some a => (Done a, s) | None => (Panicked, s) end.

(** The arguments [a[1]], ..., whose number has been checked *)
Definition arg (a : list str) (i : nat) : bytes := utf8 (nth i a []).

Definition ike_500 {S} (host : bytes) : action S SocketAddr := must (parse_socket_addr (with_port_500 host)).
Definition esp_4500 {S} (host : bytes) : action S SocketAddr := must (parse_socket_addr (with_port_4500 host)).

(** *** Sockets *)
Definition bind_socket (n : nat) : action (Client W G) unit := fun c =>
  match bind_udp n (cl_transport c) with
  | (true, w) => (Done tt, put_cl_transport w c)
  | (false, w) => (Panicked, put_cl_transport w c)
  end.

(** [OsEntropy::new().unwrap()], and the rest of the program with it *)
Definition with_entropy {A} (m : action (Client W G) A) : action W A := fun w =>
  match os_entropy w with
  | (Some g, w') => let '(r, c) := m (mkClient w' g) in (r, cl_transport c)
  | (None, w') => (Panicked, w')
  end.

(** [sock.send_to(&data, to).unwrap()] *)
Definition send_on (n : nat) (data : bytes) (to : SocketAddr) : action (Client W G) unit :=
  expecting (zoom cl_transport put_cl_transport (@send W (sockets n) data to)).

(** [sock.recv_from(&mut buf)] with a buffer of [size] octets: a longer datagram is cut. *)
Definition recv_on (n size : nat) : action (Client W G) (option bytes) := fun c =>
  match @recv_from W (sockets n) (cl_transport c) with
  | (Some (d, _), w) => (Done (Some (take size d)), put_cl_transport w c)
  | (None, w) => (Done None, put_cl_transport w c)
  end.

(** The library's [Client] on the first socket *)
Definition connect_psk (ike_addr : SocketAddr) (psk client_id : bytes) (child_spi : Z)
    : action (Client W G) (CompletedSaInit * Identification * ChildSa * option Ipv4Addr) :=
  expecting (@connect _ _ W (sockets 0) G _ ike_addr (AuthConfig_psk (Identification_fqdn client_id) psk) child_spi).

(** *** Pinging through a CHILD SA *)

(** [child.outbound.seal(&pkt, 4).unwrap()] *)
Definition seal_ping (child : ChildSa) (pkt : bytes) : action (Client W G) (bytes * ChildSa) :=
  let '(r, out) := EspSa_seal (outbound child) pkt 4 in
  let! sealed := expecting (ike r) in
  act_ret (sealed, mkChildSa out (inbound child)).

(** [if let Ok((inner, _)) = child.inbound.open(..)] and the test of the packet *)
Definition opens_to_reply (child : ChildSa) (d : bytes) : action (Client W G) bool :=
  let! r := ike (ok (EspSa_open (inbound child) d)) in
  act_ret (match r with Some (inner, _) => is_echo_reply inner | None => false end).

(** One attempt per sequence number: seal, send, and wait for one datagram. *)
Fixpoint ping (echo : Z -> outcome bytes) (sock : nat) (esp_addr : SocketAddr) (seqs : list Z) (child : ChildSa)
    : action (Client W G) (bool * ChildSa) :=
  match seqs with
  | [] => act_ret (false, child)
  | seq :: rest =>
      let! pkt := ike (echo seq) in
      let! '(sealed, child) := seal_ping child pkt in
      let! _ := send_on sock sealed esp_addr in
      let! r := recv_on sock ping_buf in
      let! replied := match r with Some d => opens_to_reply child d | None => act_ret false end in
      if (replied : bool) then act_ret (true, child) else ping echo sock esp_addr rest child
  end.

(** *** [ike_client] *)

(** After the handshake: the inner address, the ESP socket and the pings *)
Definition ike_client_ping (esp_addr : SocketAddr) (dst : Ipv4Addr) (override assigned : option Ipv4Addr)
    (child : ChildSa) : action (Client W G) Z :=
  let! inner_src := must (match assigned with Some ip => Some ip | None => override end) in
  let! _ := bind_socket 1 in
  let! '(replied, _) := ping (fun seq => icmp_echo inner_src dst 0x1234 seq) 1 esp_addr [1; 2; 3; 4; 5] child in
  act_ret (if (replied : bool) then 0 else 1).

Definition ike_client (a : list str) : action W Z :=
  if decide (length a < 5)%nat then act_ret 2 else
  let override := a !! 5%nat ≫= (fun s => parse_ipv4 (utf8 s)) in
  let! dst := must (match a !! 6%nat with Some s => parse_ipv4 (utf8 s) | None => Some (mkIpv4 1 1 1 1) end) in
  let! ike_addr := ike_500 (arg a 1) in
  let! esp_addr := esp_4500 (arg a 1) in
  with_entropy (
    let! _ := bind_socket 0 in
    let! '(sa, got_server_id, child, assigned) := connect_psk ike_addr (arg a 2) (arg a 3) 0xCAFEBABE in
    ike_client_ping esp_addr dst override assigned child).

(** *** [dpd_probe] *)

(** After the handshake: an empty INFORMATIONAL request with message id 2 *)
Definition dpd_check (ike_addr : SocketAddr) (sa : CompletedSaInit) : action (Client W G) Z :=
  let! _ := bind_socket 1 in
  let! req := expecting (ike (dpd_request sa 2 (replicate 8 0x11))) in
  let! _ := send_on 1 req ike_addr in
  let! r := recv_on 1 probe_buf in
  match r with
  | Some d =>
      let! opened := ike (ok (open_informational sa d)) in
      act_ret (match opened with Some _ => 0 | None => 1 end)
  | None => act_ret 1
  end.

Definition dpd_probe (a : list str) : action W Z :=
  if decide (length a < 5)%nat then act_ret 2 else
  let! ike_addr := ike_500 (arg a 1) in
  with_entropy (
    let! _ := bind_socket 0 in
    let! '(sa, _, _, _) := connect_psk ike_addr (arg a 2) (arg a 3) 0xCAFED00D in
    dpd_check ike_addr sa).

(** *** [rekey_probe] *)
Definition rekey_check (ike_addr : SocketAddr) (sa : CompletedSaInit) : action (Client W G) Z :=
  let! _ := bind_socket 1 in
  let n := replicate 32 0x37 in
  let! req := expecting (ike (build_rekey_request sa 2 0xDEADBEEF 0x12345678 n (replicate 8 5))) in
  let! _ := send_on 1 req ike_addr in
  let! r := recv_on 1 probe_buf in
  match r with
  | Some d =>
      let! done := ike (ok (initiator_complete_rekey sa n 0x12345678 d)) in
      act_ret (match done with Some _ => 0 | None => 1 end)
  | None => act_ret 1
  end.

Definition rekey_probe (a : list str) : action W Z :=
  if decide (length a < 5)%nat then act_ret 2 else
  let! ike_addr := ike_500 (arg a 1) in
  with_entropy (
    let! _ := bind_socket 0 in
    let! '(sa, _, _, _) := connect_psk ike_addr (arg a 2) (arg a 3) 0xCAFE1234 in
    rekey_check ike_addr sa).

(** *** [rekey_e2e] *)

(** After the handshake: ping, rekey, ping again on the new CHILD SA *)
Definition rekey_e2e_run (ike_addr esp_addr : SocketAddr) (sa : CompletedSaInit) (child : ChildSa)
    (assigned : option Ipv4Addr) : action (Client W G) Z :=
  let! src := must assigned in
  let echo := icmp_echo_e2e src (mkIpv4 1 1 1 1) in
  let! _ := bind_socket 1 in
  let! _ := ping echo 1 esp_addr [1; 2; 3; 4; 5] child in
  let! _ := bind_socket 2 in
  let n := replicate 32 0x71 in
  let! req := expecting (ike (build_rekey_request sa 2 0xDEADBEEF 0x0BADF00D n (replicate 8 3))) in
  let! _ := send_on 2 req ike_addr in
  let! r := recv_on 2 probe_buf in
  let! d := must r in
  let! new_child := expecting (ike (initiator_complete_rekey sa n 0x0BADF00D d)) in
  let! '(replied, _) := ping echo 1 esp_addr [1; 2; 3; 4; 5] new_child in
  act_ret (if (replied : bool) then 0 else 1).

Definition rekey_e2e (a : list str) : action W Z :=
  if decide (length a < 5)%nat then act_ret 2 else
  let! ike_addr := ike_500 (arg a 1) in
  let! esp_addr := esp_4500 (arg a 1) in
  with_entropy (
    let! _ := bind_socket 0 in
    let! '(sa, _, child, assigned) := connect_psk ike_addr (arg a 2) (arg a 3) 0xCAFE2468 in
    rekey_e2e_run ike_addr esp_addr sa child assigned).

(** *** [retransmit_probe] *)

(** After the handshake: the same datagram twice; no answer exits with 1. *)
Definition retransmit_check (ike_addr : SocketAddr) (sa : CompletedSaInit) : action (Client W G) Z :=
  let! _ := bind_socket 1 in
  let! req := expecting (ike (dpd_request sa 2 (replicate 8 0x5a))) in
  let! _ := send_on 1 req ike_addr in
  let! r1 := recv_on 1 probe_buf in
  match r1 with
  | None => act_ret 1
  | Some first =>
      let! _ := send_on 1 req ike_addr in
      let! r2 := recv_on 1 probe_buf in
      match r2 with
      | None => act_ret 1
      | Some second => act_ret (if decide (first = second) then 0 else 1)
      end
  end.

Definition retransmit_probe (a : list str) : action W Z :=
  if decide (length a < 5)%nat then act_ret 2 else
  let! ike_addr := ike_500 (arg a 1) in
  with_entropy (
    let! _ := bind_socket 0 in
    let! '(sa, _, _, _) := connect_psk ike_addr (arg a 2) (arg a 3) 0xCAFEF00D in
    retransmit_check ike_addr sa).
(** *** [ike_client_natt] *)

(** The loop of [has_nat_detection]: a payload error ends it. *)
Fixpoint nat_detection_loop (items : list (outcome RawPayload)) (st : bool * bool) : outcome (bool * bool) :=
  match items with
  | [] | Err _ :: _ => Ok st
  | Panic :: _ => Panic
  | Ok p :: rest =>
      if decide (payload_type p = PNotify) then
        n ← ok (Notify_parse (data p));
        nat_detection_loop rest (match n with
          | Some n => (st.1 || (n_type n =? notify_type.NAT_DETECTION_SOURCE_IP),
                       st.2 || (n_type n =? notify_type.NAT_DETECTION_DESTINATION_IP))
          | None => st end)
      else nat_detection_loop rest st
  end.

Definition has_nat_detection (response : bytes) : outcome bool :=
  h ← ok (IkeHeader_parse response);
  match h with
  | None => Ok false
  | Some hdr =>
      body ← slice_from response IkeHeader_LEN;
      '(src, dst) ← nat_detection_loop (payload_items (next_payload hdr) body) (false, false);
      Ok (src && dst)
  end.

(** [Duration::from_secs(2)] in nanoseconds *)
Definition two_seconds : Z := 2 * 10 ^ 9.

Definition read_clock : action (Client W G) Z := zoom cl_transport put_cl_transport (draw clock).

(** [while Instant::now() < deadline]: [None] when [fuel] datagrams were not enough. *)
Fixpoint await_reply (fuel : nat) (child : ChildSa) (deadline : Z) : action (Client W G) (option bool) :=
  match fuel with
  | O => act_ret None
  | S f =>
      let! t := read_clock in
      if decide (t < deadline) then
        let! r := recv_on 0 client_buf in
        match r with
        | None => act_ret (Some false)
        | Some d =>
            if is_ike_on_4500 d then await_reply f child deadline else
            let! replied := opens_to_reply child d in
            if (replied : bool) then act_ret (Some true) else await_reply f child deadline
        end
      else act_ret (Some false)
  end.

Fixpoint natt_ping (fuel : nat) (echo : Z -> outcome bytes) (esp_addr : SocketAddr) (seqs : list Z) (child : ChildSa)
    : action (Client W G) (option bool) :=
  match seqs with
  | [] => act_ret (Some false)
  | seq :: rest =>
      let! pkt := ike (echo seq) in
      let! '(sealed, child) := seal_ping child pkt in
      let! _ := send_on 0 sealed esp_addr in
      let! t := read_clock in
      let! r := await_reply fuel child (t + two_seconds) in
      match r with
      | Some false => natt_ping fuel echo esp_addr rest child
      | _ => act_ret r
      end
  end.

(** IKE_SA_INIT to port 500 on the program's own socket *)
Definition sa_init_500 (ike_addr : SocketAddr) : action (Client W G) (LocalSecret * bytes * bytes) :=
  let! local := zoom cl_entropy put_cl_entropy (draw (fun g => LocalSecret_generate g 32)) in
  let! req := ike (initiator_request local default_offer) in
  let! _ := send_on 0 req ike_addr in
  let! r := recv_on 0 client_buf in
  let! sa_resp := must r in
  act_ret (local, req, sa_resp).

(** IKE_AUTH to port 4500, behind the non-ESP marker *)
Definition auth_4500 (esp_addr : SocketAddr) (sa : CompletedSaInit) (auth : AuthConfig) (child_spi : Z)
    : action (Client W G) (Identification * Z * option Ipv4Addr) :=
  let! iv := zoom cl_entropy put_cl_entropy (draw (fill 8)) in
  let! auth_req := expecting (ike (initiator_auth_request sa auth child_spi iv)) in
  let! _ := send_on 0 (wrap_ike_4500 auth_req) esp_addr in
  let! r := recv_on 0 client_buf in
  let! d := must r in
  let! auth_resp := must (unwrap_ike_4500 d) in
  expecting (ike (initiator_verify_auth sa auth_resp auth)).

Definition ike_client_natt (fuel : nat) (a : list str) : action W (option Z) :=
  if decide (length a < 5)%nat then act_ret (Some 2) else
  let! dst := must (match a !! 5%nat with Some s => parse_ipv4 (utf8 s) | None => Some (mkIpv4 1 1 1 1) end) in
  let! ike_addr := ike_500 (arg a 1) in
  let! esp_addr := esp_4500 (arg a 1) in
  with_entropy (
    let! _ := bind_socket 0 in
    let! '(local, req, sa_resp) := sa_init_500 ike_addr in
    let! _ := ike (has_nat_detection sa_resp) in
    let! sa := expecting (ike (initiator_complete local req sa_resp)) in
    let auth := AuthConfig_psk (Identification_fqdn (arg a 3)) (arg a 2) in
    let! '(_, peer_child_spi, assigned) := auth_4500 esp_addr sa auth 0xBEEF0042 in
    let! inner_src := must assigned in
    let! child := ike (ChildSa_derive (sk_d (keys sa)) (ni sa) (nr sa) Initiator 0xBEEF0042 peer_child_spi) in
    let! r := natt_ping fuel (icmp_echo_natt inner_src dst) esp_addr [1; 2; 3; 4; 5] child in
    act_ret ((fun replied : bool => if replied then 0 else 1) <$> r)).

(** *** [ike_client_eap] *)

(** [init.handle(&buf[..n], &mut entropy)] *)
Definition eap_handle (init : EapInitiator) (message : bytes) : action (Client W G) (EapEvent * EapInitiator) := fun c =>
  let '(r, (init', g)) := EapInitiator_handle message (init, cl_entropy c) in
  match r with
  | Done e => (Done (e, init'), put_cl_entropy g c)
  | Failed e => (Failed e, put_cl_entropy g c)
  | Panicked => (Panicked, put_cl_entropy g c)
  end.

(** [for step in 0..12]: [steps] more messages *)
Fixpoint eap_steps (steps : nat) (ike_addr : SocketAddr) (init : EapInitiator) (msg : bytes) : action (Client W G) Z :=
  match steps with
  | O => act_ret 1
  | S n =>
      let! _ := send_on 0 msg ike_addr in
      let! r := recv_on 0 client_buf in
      let! d := must r in
      let! '(e, init) := expecting (eap_handle init d) in
      match e with
      | Reply next => eap_steps n ike_addr init next
      | EapEstablished _ => act_ret 0
      | EapFailed => act_ret 1
      end
  end.

(** [--certreq], anywhere on the command line *)
Definition certreq_flag : str := [45; 45; 99; 101; 114; 116; 114; 101; 113].

Definition ike_client_eap (a : list str) : action W Z :=
  if decide (length a < 6)%nat then act_ret 2 else
  let! ca := (fun w => let '(r, w) := read_file (arg a 5) w in must r w) in
  let! ike_addr := ike_500 (arg a 1) in
  with_entropy (
    let! _ := bind_socket 0 in
    let! '(local, req, sa_resp) := sa_init_500 ike_addr in
    let! sa := expecting (ike (initiator_complete local req sa_resp)) in
    let! t := zoom cl_transport put_cl_transport (draw unix_time) in
    let! now := must t in
    let verify := TrustedCas [ca] (arg a 4) now in
    let init := EapInitiator_new sa (Identification_fqdn (arg a 2)) (arg a 2) (nth 3 a []) 0xEA90001 verify in
    let init := if existsb (fun x => bool_decide (x = certreq_flag)) a then set_send_certreq true init else init in
    let! msg := expecting (zoom cl_entropy put_cl_entropy (EapInitiator_start init)) in
    eap_steps 12 ike_addr init msg).
End programs.
