(* ===== verification/Runs.v ===== *)
(** * Runs of the example programs

    What the programs of [Programs] do: their exit status as a function of what arrives,
    the composition with the library's own responder functions and with its server, the
    soundness of the ping and of the EAP client, and the termination of the timed loop. *)
From stdpp Require Import gmap.
From S2P Require Import Prelude Outcome Wire Primitives Entropy Message Payload Crypto Sk Negotiate Esp Natt Exchange Informational Sign IkeAuth Transport Rekey Server Eap EapAuth Icmp Addr Programs.

(** A machine whose local calls succeed: sockets can be bound and datagrams handed over.
    What arrives, if anything does, is up to the network. *)
Class Working (W G : Type) `{World W G} : Prop := {
  bind_works n w : (bind_udp n w).1 = true;
  send_works n data to w : (@send_to W (sockets n) data to w).1 = true }.

(** Datagrams are octets. *)
Class Delivering (W G : Type) `{World W G} : Prop := recv_works n : @TransportLaws W (sockets n).

Section steps.
Context `{!Primitives, !Pki, World W G, !Working W G, !Delivering W G, Entropy G}.
Implicit Types (c : Client W G) (w : W).

(** The machine after binding, sending and receiving, and what a receive returns *)
Definition bound (n : nat) (w : W) : W := (bind_udp n w).2.
Definition sent (n : nat) (data : bytes) (to : SocketAddr) (w : W) : W := (@send_to W (sockets n) data to w).2.
Definition received (n : nat) (w : W) : W := (@recv_from W (sockets n) w).2.
Definition arrives (n : nat) (w : W) : option bytes := fst <$> (@recv_from W (sockets n) w).1.

Lemma bind_step n c : bind_socket n c = (Done tt, put_cl_transport (bound n (cl_transport c)) c).
Proof.
  unfold bind_socket, bound. pose proof (bind_works n (cl_transport c)) as E.
  destruct (bind_udp n (cl_transport c)) as [b w]. cbn in E. by subst b.
Qed.

Lemma send_step n data to c : send_on n data to c = (Done tt, put_cl_transport (sent n data to (cl_transport c)) c).
Proof.
  unfold send_on, expecting, zoom, send, sent. pose proof (send_works n data to (cl_transport c)) as E.
  destruct (send_to data to (cl_transport c)) as [b w]. cbn in E. by subst b.
Qed.

Lemma recv_step n size c : recv_on n size c =
  (Done (take size <$> arrives n (cl_transport c)), put_cl_transport (received n (cl_transport c)) c).
Proof. unfold recv_on, arrives, received. by destruct (recv_from (cl_transport c)) as [[[d from]|] w]. Qed.

Lemma arrives_bytes n w d : arrives n w = Some d -> bytes_ok d.
Proof.
  unfold arrives. destruct (recv_from w) as [[[x from]|] w'] eqn:E; [|done]. intros [= <-].
  pose proof (recv_works n) as Hl. by apply (Hl w x from w').
Qed.

Lemma expecting_done {S A} (m : action S A) s a s' : m s = (Done a, s') -> expecting m s = (Done a, s').
Proof. unfold expecting. by intros ->. Qed.
End steps.

(** Run the next step of a program on a working machine. *)
Ltac run_step :=
  first [ act_step (apply bind_step) | act_step (apply send_step) | act_step (apply recv_step) ];
  cbn [put_cl_transport cl_transport].

Section probes.
Context `{!Primitives, !Pki, !HmacLaws, !AeadLaws, World W G, !Working W G, !Delivering W G, Entropy G}.
Implicit Types (c : Client W G).

Lemma dpd_request_built sa mid iv : gcm_sa sa -> u32_ok mid -> bytes_ok iv -> length iv = 8%nat ->
  exists req, dpd_request sa mid iv = Ok req.
Proof.
  intros Hs Hm Hiv Hl. unfold dpd_request, build_informational.
  destruct (seal_chain_open (informational_header sa mid false) [] (our_sk_e sa) iv) as (m & E & _); try done;
    [by apply informational_header_wf; [apply Hs|]|by apply chain_fits_intro; [constructor|simpl; lia]|by apply our_sk_e_length|].
  by exists m.
Qed.

Lemma open_informational_wp sa m : bytes_ok m -> wp (open_informational sa m) (fun _ => True).
Proof.
  intros Hm. unfold open_informational. apply wp_bind.
  eapply wp_mono; [|by apply open_encrypted_wp]. intros [t inner] [Ht Hi].
  apply for_each_wp; [by apply payload_items_wp|done|done].
Qed.

(** [if let Ok(..) = m] when [m] does not panic *)
Lemma ok_done {S A} (m : outcome A) Q (s : S) : wp m Q ->
  ike (ok m) s = (Done (match m with Ok a => Some a | _ => None end), s).
Proof. by destruct m. Qed.

(** The exit status of [dpd_probe] after the handshake *)
Lemma dpd_check_run addr sa c : gcm_sa sa ->
  exists req, dpd_request sa 2 (replicate 8 0x11) = Ok req /\
    let w := sent 1 req addr (bound 1 (cl_transport c)) in
    (dpd_check addr sa c).1 = Done (match arrives 1 w with
      | Some d => if is_ok (open_informational sa (take probe_buf d)) then 0 else 1
      | None => 1 end).
Proof.
  intros Hs. destruct (dpd_request_built sa 2 (replicate 8 0x11)) as [req E]; [done|by split|by apply Forall_replicate|done|].
  exists req. split; [done|]. cbv zeta. unfold dpd_check. run_step.
  act_step (apply expecting_done, ike_ok; exact E). run_step. run_step.
  set (w := sent 1 req addr _). destruct (arrives 1 w) as [d|] eqn:Ed; cbn [fmap option_fmap option_map]; [|done].
  act_step (eapply ok_done, open_informational_wp; apply bytes_ok_take; by eapply arrives_bytes).
  by destruct (open_informational sa (take probe_buf d)).
Qed.

Lemma rekey_request_built sa mid rekeyed spi n iv : gcm_sa sa -> u32_ok mid -> nonce_fits n ->
  bytes_ok iv -> length iv = 8%nat -> exists req, build_rekey_request sa mid rekeyed spi n iv = Ok req.
Proof.
  intros Hs Hm Hn Hiv Hl. unfold build_rekey_request.
  destruct (seal_chain_open (create_child_header sa mid false) (rekey_request_chain rekeyed spi n) (our_sk_e sa) iv)
    as (m & E & _); try done;
    [by apply create_child_header_wf; [apply Hs|]|by apply rekey_request_fits|by apply our_sk_e_length|].
  by exists m.
Qed.

(** The exit status of [rekey_probe] after the handshake *)
Lemma rekey_check_run addr sa c : gcm_sa sa ->
  exists req, build_rekey_request sa 2 0xDEADBEEF 0x12345678 (replicate 32 0x37) (replicate 8 5) = Ok req /\
    let w := sent 1 req addr (bound 1 (cl_transport c)) in
    (rekey_check addr sa c).1 = Done (match arrives 1 w with
      | Some d => if is_ok (initiator_complete_rekey sa (replicate 32 0x37) 0x12345678 (take probe_buf d)) then 0 else 1
      | None => 1 end).
Proof.
  intros Hs. destruct (rekey_request_built sa 2 0xDEADBEEF 0x12345678 (replicate 32 0x37) (replicate 8 5))
    as [req E]; [done|by split|by split; [apply Forall_replicate|]|by apply Forall_replicate|done|].
  exists req. split; [done|]. cbv zeta. unfold rekey_check. run_step.
  act_step (apply expecting_done, ike_ok; exact E). run_step. run_step.
  set (w := sent 1 req addr _). destruct (arrives 1 w) as [d|] eqn:Ed; cbn [fmap option_fmap option_map]; [|done].
  act_step (eapply ok_done, initiator_complete_rekey_wp; apply bytes_ok_take; by eapply arrives_bytes).
  by destruct (initiator_complete_rekey sa _ _ (take probe_buf d)).
Qed.

(** The exit status of [retransmit_probe] after the handshake *)
Lemma retransmit_check_run addr sa c : gcm_sa sa ->
  exists req, dpd_request sa 2 (replicate 8 0x5a) = Ok req /\
    let w1 := sent 1 req addr (bound 1 (cl_transport c)) in
    let w2 := sent 1 req addr (received 1 w1) in
    (retransmit_check addr sa c).1 = Done (match arrives 1 w1 with
      | Some d1 => match arrives 1 w2 with
          | Some d2 => if decide (take probe_buf d1 = take probe_buf d2) then 0 else 1
          | None => 1 end
      | None => 1 end).
Proof.
  intros Hs. destruct (dpd_request_built sa 2 (replicate 8 0x5a)) as [req E]; [done|by split|by apply Forall_replicate|done|].
  exists req. split; [done|]. cbv zeta. unfold retransmit_check. run_step.
  act_step (apply expecting_done, ike_ok; exact E). run_step. run_step.
  set (w := sent 1 req addr _). destruct (arrives 1 w) as [d|] eqn:Ed; cbn [fmap option_fmap option_map]; [|done].
  run_step. run_step. by destruct (arrives 1 (sent 1 req addr (received 1 w))).
Qed.

(** Two INFORMATIONAL messages that differ only in the IV differ in their first 40 octets. *)
Lemma informational_iv b mid r ps iv iv' m m' n : gcm_sa b -> chain_fits ps ->
  length iv = 8%nat -> length iv' = 8%nat -> (40 <= n)%nat ->
  build_informational b mid r ps iv = Ok m -> build_informational b mid r ps iv' = Ok m' ->
  take n m = take n m' -> iv = iv'.
Proof.
  intros Hb [_ Hf] Hl Hl' Hn. unfold build_informational.
  destruct (build_encrypted_ok (informational_header b mid r) (first_payload_type ps) (encode_payload_chain ps)
    (our_sk_e b) iv) as (ct & -> & _); [by apply our_sk_e_length|done|done|].
  destruct (build_encrypted_ok (informational_header b mid r) (first_payload_type ps) (encode_payload_chain ps)
    (our_sk_e b) iv') as (ct' & -> & _); [by apply our_sk_e_length|done|done|].
  set (aad := sk_aad _ _ _). assert (La : length aad = 32%nat) by (unfold aad, sk_aad; by rewrite length_app, length_IkeHeader_to_bytes).
  clearbody aad. intros [= <-] [= <-] E. apply (f_equal (fun l => take 8 (drop 32 l))) in E.
  rewrite !skipn_firstn_comm, !firstn_firstn, !(drop_app_length' aad) in E by done.
  rewrite Nat.min_l in E by lia. by rewrite !take_app_length' in E by done.
Qed.
End probes.

(** ** Properties *)
Section probe_properties.
Context `{!Primitives, !Pki, !HmacLaws, !AeadLaws, !BigUintLaws, !X25519Laws, World W G, !Working W G, !Delivering W G, Entropy G}.

(** The program has handed its request over; the peer's next datagram is [m]. *)
Definition answered (w : W) (req : bytes) (addr : SocketAddr) (m : bytes) : Prop :=
  arrives 1 (sent 1 req addr (bound 1 w)) = Some m.

(** The liveness probe decides whether the peer holds the SA: once established, on a
    machine whose local socket calls succeed, [dpd_probe] exits with 0 when the answer to its
    request opens under the SA and with 1 otherwise (no answer, or one that does not
    open), and never panics on an answer.  Whatever INFORMATIONAL response the other end of the SA seals
    gives 0 - also one that carries payloads, although the program's description asks
    for an empty one. *)
Theorem dpd_probe_decides addr sa (c : Client W G) : gcm_sa sa ->
  exists req, dpd_request sa 2 (replicate 8 0x11) = Ok req /\
    (dpd_check addr sa c).1 = Done (match arrives 1 (sent 1 req addr (bound 1 (cl_transport c))) with
      | Some d => if is_ok (open_informational sa (take probe_buf d)) then 0 else 1
      | None => 1 end) /\
    forall b mid ps iv m, gcm_sa b -> same_sa b sa -> u32_ok mid -> chain_fits ps -> bytes_ok iv -> length iv = 8%nat ->
      build_informational b mid true ps iv = Ok m -> (length m <= probe_buf)%nat ->
      answered (cl_transport c) req addr m -> (dpd_check addr sa c).1 = Done 0.
Proof.
  intros Hs. destruct (dpd_check_run addr sa c Hs) as (req & E1 & E2). exists req. split_and!; [done|done|].
  intros b mid ps iv m Hb Hbs Hmid Hps Hiv Hl Em Hm Ha. rewrite E2, Ha, firstn_all2 by done.
  destruct (informational_sent b sa mid true ps iv) as (m' & h & Em' & _ & _ & _ & _ & _ & _ & _ & Eo); try done.
  rewrite Em in Em'. injection Em' as <-. by rewrite Eo.
Qed.

(** The rekey probe succeeds against the library's own responder: once
    established, [rekey_probe] exits with 0 when the answer to its CREATE_CHILD_SA request completes
    the rekey and with 1 otherwise; and if the peer holds the same SA and answers the request that the
    program sent with what [responder_process_rekey] returns, whatever SPI, nonce, IV and
    inner address it chooses, the exit status is 0. *)
Theorem rekey_probe_decides addr sa (c : Client W G) : gcm_sa sa ->
  exists req, build_rekey_request sa 2 0xDEADBEEF 0x12345678 (replicate 32 0x37) (replicate 8 5) = Ok req /\
    (rekey_check addr sa c).1 = Done (match arrives 1 (sent 1 req addr (bound 1 (cl_transport c))) with
      | Some d => if is_ok (initiator_complete_rekey sa (replicate 32 0x37) 0x12345678 (take probe_buf d)) then 0 else 1
      | None => 1 end) /\
    forall b spi n iv assigned m child, gcm_sa b -> same_sa sa b -> u32_ok spi -> nonce_fits n ->
      bytes_ok iv -> length iv = 8%nat -> (forall ip, assigned = Some ip -> Ipv4_wf ip) ->
      responder_process_rekey b req spi n iv assigned = Ok (m, child) -> (length m <= probe_buf)%nat ->
      answered (cl_transport c) req addr m -> (rekey_check addr sa c).1 = Done 0.
Proof.
  intros Hs. destruct (rekey_check_run addr sa c Hs) as (req & E1 & E2). exists req. split_and!; [done|done|].
  intros b spi n iv assigned m child Hb Hbs Hspi Hn Hiv Hl Has Em Hm Ha. rewrite E2, Ha, firstn_all2 by done.
  destruct (rekey_agree sa b 2 0xDEADBEEF 0x12345678 spi (replicate 32 0x37) n (replicate 8 5) iv assigned)
    as (req' & m' & ca & cb & h & first & inner & R1 & R2 & R3 & _); try done;
    [by split; [apply Forall_replicate|]|by apply Forall_replicate|].
  rewrite E1 in R1. injection R1 as <-. rewrite Em in R2. injection R2 as <- <-. by rewrite R3.
Qed.

(** The retransmission probe tells a cached answer from a recomputed one: once
    established, [retransmit_probe] exits with 0 exactly when both copies of its request are
    answered with the same octets (of which it reads 2048); a responder that seals its answer
    again under another IV, the same payloads and all, gives 1. *)
Theorem retransmit_probe_decides addr sa (c : Client W G) : gcm_sa sa ->
  exists req, dpd_request sa 2 (replicate 8 0x5a) = Ok req /\
    let w1 := sent 1 req addr (bound 1 (cl_transport c)) in
    let w2 := sent 1 req addr (received 1 w1) in
    (exists code, (retransmit_check addr sa c).1 = Done code /\ (code = 0 \/ code = 1) /\
       (code = 0 <-> exists d1 d2, arrives 1 w1 = Some d1 /\ arrives 1 w2 = Some d2 /\ take probe_buf d1 = take probe_buf d2)) /\
    forall b mid r ps iv iv' m m', gcm_sa b -> chain_fits ps -> length iv = 8%nat -> length iv' = 8%nat -> iv <> iv' ->
      build_informational b mid r ps iv = Ok m -> build_informational b mid r ps iv' = Ok m' ->
      arrives 1 w1 = Some m -> arrives 1 w2 = Some m' -> (retransmit_check addr sa c).1 = Done 1.
Proof.
  intros Hs. destruct (retransmit_check_run addr sa c Hs) as (req & E1 & E2). exists req. split; [done|].
  cbv zeta in *. rewrite E2. set (w1 := sent 1 req addr _) in *. set (w2 := sent 1 req addr (received 1 w1)) in *. clearbody w2. split.
  - destruct (arrives 1 w1) as [d1|]; [|exists 1; split_and!; [done|by right|by split; [|intros (? & ? & ? & ?)]]].
    destruct (arrives 1 w2) as [d2|]; [|exists 1; split_and!; [done|by right|by split; [|intros (? & ? & _ & ? & _)]]].
    eexists. split; [reflexivity|]. case_decide as Hd; (split; [auto|]); split; try done.
    + intros _. by exists d1, d2.
    + by intros (? & ? & [= <-] & [= <-] & ?).
  - intros b mid r ps iv iv' m m' Hb Hps Hl Hl' Hne Em Em' -> ->. rewrite decide_False; [done|].
    intros E. apply Hne. eapply (informational_iv b mid r ps iv iv' m m' probe_buf); try done. unfold probe_buf. lia.
Qed.
End probe_properties.

(** ** A scripted network *)

(** What each successive receive of the program returns ([None] is a timeout), and what the
    program has sent.  As a program receives in sequence, one list describes any network. *)
Record Script (G : Type) := mkScript {
  sc_in : list (option bytes);
  sc_out : list (bytes * SocketAddr);
  sc_seed : option G;
  sc_unix : option Z;
  sc_file : option bytes }.
Arguments mkScript {G} _ _ _ _ _.
Arguments sc_in {G} _.
Arguments sc_out {G} _.
Arguments sc_seed {G} _.
Arguments sc_unix {G} _.
Arguments sc_file {G} _.

Definition set_in {G} (i : list (option bytes)) (s : Script G) : Script G :=
  mkScript i (sc_out s) (sc_seed s) (sc_unix s) (sc_file s).
Definition log_out {G} (o : list (bytes * SocketAddr)) (s : Script G) : Script G :=
  mkScript (sc_in s) (sc_out s ++ o) (sc_seed s) (sc_unix s) (sc_file s).

#[export] Instance Script_world G : World (Script G) G := {|
  sockets _ := {|
    recv_from s := match sc_in s with
      | [] => (None, s)
      | Some d :: rest => (Some (as_u8 <$> d, example_addr), set_in rest s)
      | None :: rest => (None, set_in rest s) end;
    send_to data to s := (true, log_out [(data, to)] s) |};
  bind_udp _ s := (true, s);
  os_entropy s := (sc_seed s, s);
  clock s := (0, s);
  unix_time s := (sc_unix s, s);
  read_file _ s := (sc_file s, s) |}.

#[export] Instance Script_working G : Working (Script G) G.
Proof. by split. Qed.

#[export] Instance Script_delivering G : Delivering (Script G) G.
Proof.
  intros n [[|[d|] rest] out seed u f] data from s' Hr; try done.
  injection Hr as <- _ _. apply Forall_fmap, Forall_true. intros x. by apply Z.mod_pos_bound.
Qed.

Section ping.
Context `{!Primitives, !AeadLaws, Entropy G}.

(** The [i]-th receive yields [d]. *)
Definition arrived (s : Script G) (i : nat) (d : bytes) : Prop :=
  exists x, sc_in s !! i = Some (Some x) /\ d = as_u8 <$> x.

(** The datagram opens under the CHILD SA to an echo reply. *)
Definition echo_answer (child : ChildSa) (d : bytes) : bool :=
  match EspSa_open (inbound child) (take ping_buf d) with Ok (inner, _) => is_echo_reply inner | _ => false end.

(** Requests small enough for ESP *)
Definition echo_ok (echo : Z -> outcome bytes) (q : Z) : Prop :=
  exists e, echo q = Ok e /\ Z.of_nat (length e) + 5 <= 2 ^ 36.

Lemma seal_ping_step child pkt peer (c : Client (Script G) G) : EspSa_wf (outbound child) ->
  esp_seq (outbound child) + 1 < 2 ^ 32 -> Z.of_nat (length pkt) + 5 <= 2 ^ 36 -> same_esp (outbound child) peer ->
  exists p, EspSa_open peer p = Ok (pkt, 4) /\
    seal_ping child pkt c = (Done (p, mkChildSa (esp_next (outbound child)) (inbound child)), c).
Proof.
  intros Hwf Hs Hl (E1 & E2 & E3).
  destruct (seal_open (outbound child) peer pkt 4) as (p & Ep & Eo & _); try done.
  exists p. split; [done|]. unfold seal_ping. pose proof (seal_state (outbound child) pkt 4 Hs) as Es.
  destruct (EspSa_seal (outbound child) pkt 4) as [r o]. cbn [fst snd] in *. by subst.
Qed.

Lemma opens_to_reply_step child d (c : Client (Script G) G) : bytes_ok d ->
  opens_to_reply child (take ping_buf d) c = (Done (echo_answer child d), c).
Proof.
  intros Hd. unfold opens_to_reply, echo_answer.
  pose proof (esp_open_wp (inbound child) (take ping_buf d) (bytes_ok_take _ _ Hd)) as Hw.
  by destruct (EspSa_open (inbound child) (take ping_buf d)) as [[inner nh]| |].
Qed.
End ping.

Section ping_run.
Context `{!Primitives, !AeadLaws, Entropy G}.

(** What a receive returns is the head of the script. *)
Definition head_answer (s : Script G) : option bytes :=
  match sc_in s with Some x :: _ => Some (as_u8 <$> x) | _ => None end.

Lemma script_recv n (s : Script G) : arrives n s = head_answer s /\ received n s = set_in (tail (sc_in s)) s.
Proof. by destruct s as [[|[x|] rest] out seed u f]. Qed.

(** The datagram of one attempt is an echo reply. *)
Definition head_replies (child : ChildSa) (s : Script G) : bool :=
  match head_answer s with Some d => echo_answer child d | None => false end.

Lemma head_replies_spec child s : head_replies child s = true <-> exists d, arrived s 0 d /\ echo_answer child d = true.
Proof.
  unfold head_replies, head_answer, arrived. destruct (sc_in s) as [|[x|] l]; cbn [lookup list_lookup]; split; try done.
  - by intros (d & (x & ? & _) & _).
  - intros Hx. eexists. split; [|exact Hx]. by exists x.
  - by intros (d & (y & [= <-] & ->) & Hx).
  - by intros (d & (x & ? & _) & _).
Qed.

Lemma head_replies_step child s (c : Client (Script G) G) :
  (match take ping_buf <$> head_answer s with Some d => opens_to_reply child d | None => act_ret false end) c =
  (Done (head_replies child s), c).
Proof.
  unfold head_replies, head_answer. destruct (sc_in s) as [|[x|] l]; [done| |done].
  apply (opens_to_reply_step child (as_u8 <$> x)). apply Forall_fmap, Forall_true. intros y. by apply Z.mod_pos_bound.
Qed.

Lemma arrived_tail (s s' : Script G) i d : sc_in s' = tail (sc_in s) -> arrived s' i d <-> arrived s (S i) d.
Proof. unfold arrived. intros ->. by destruct (sc_in s). Qed.

(** The run of [ping]: the datagrams sent, the CHILD SA afterwards, and when it succeeds *)
Lemma ping_run echo sock addr peer seqs : forall child (s : Script G) g,
  EspSa_wf (outbound child) -> esp_seq (outbound child) + Z.of_nat (length seqs) < 2 ^ 32 ->
  same_esp (outbound child) peer -> Forall (echo_ok echo) seqs ->
  exists b child' s' pkts, ping echo sock addr seqs child (mkClient s g) = (Done (b, child'), mkClient s' g) /\
    sc_out s' = sc_out s ++ ((fun p => (p, addr)) <$> pkts) /\
    inbound child' = inbound child /\ same_esp (outbound child') (outbound child) /\
    esp_seq (outbound child') = esp_seq (outbound child) + Z.of_nat (length pkts) /\
    (length pkts <= length seqs)%nat /\ (b = false -> length pkts = length seqs) /\
    (forall j p, pkts !! j = Some p -> exists q e, seqs !! j = Some q /\ echo q = Ok e /\ EspSa_open peer p = Ok (e, 4)) /\
    (b = true <-> exists i d, (i < length seqs)%nat /\ arrived s i d /\ echo_answer child d = true).
Proof.
  induction seqs as [|q seqs IH]; intros child s g Hwf Hs Hp He.
  - exists false, child, s, []. cbn [ping act_ret length fmap list_fmap]. split_and!; try done;
      [by rewrite app_nil_r|lia|]. split; [done|]. intros (i & d & Hi & _). lia.
  - apply Forall_cons in He as [(e & Ee & Le) He]. cbn [length] in Hs.
    destruct (seal_ping_step child e peer (mkClient s g)) as (p & Ho & Ep); [done|lia|done|done|].
    cbn [ping]. act_step (apply ike_ok; exact Ee). act_step (exact Ep). run_step. run_step.
    set (child1 := mkChildSa (esp_next (outbound child)) (inbound child)).
    destruct (script_recv sock (sent sock p addr s)) as [-> ->].
    set (s1 := set_in (tail (sc_in s)) (sent sock p addr s)). change (head_answer (sent sock p addr s)) with (head_answer s).
    act_step (apply head_replies_step). change (head_replies child1 s) with (head_replies child s).
    pose proof (head_replies_spec child s) as Hb.
    destruct (head_replies child s).
    + exists true, child1, s1, [p]. split_and!; try done; [cbn; lia|..].
      * intros [|j] p' Hj; [|done]. injection Hj as <-. by exists q, e.
      * split; [|done]. intros _. destruct (proj1 Hb eq_refl) as (d & Hd & Hx). exists 0%nat, d. split; [cbn; lia|done].
    + destruct (IH child1 s1 g) as (b & child' & s' & pkts & E & Eo & Ei & Eq & Es & Hl & Hf & Hk & Hb'); [|cbn; lia|done|done|].
      { apply esp_next_wf; [done|lia]. }
      exists b, child', s', (p :: pkts). split_and!; [exact E|..].
      * rewrite Eo. cbn [s1 set_in sc_out sent]. unfold sent. cbn. by rewrite <- app_assoc.
      * by rewrite Ei.
      * exact Eq.
      * rewrite Es. cbn [child1 outbound esp_next esp_seq length]. lia.
      * cbn. lia.
      * intros Hbf. cbn. by rewrite Hf.
      * intros [|j] p' Hj; [injection Hj as <-; by exists q, e|]. by apply Hk.
      * rewrite Hb'. split.
        -- intros (i & d & Hi & Hx & Ha). exists (S i), d. split; [cbn; lia|]. by rewrite <- (arrived_tail s s1).
        -- intros ([|i] & d & Hi & Hx & Ha); [by assert (false = true) by (apply Hb; by exists d)|].
           exists i, d. split; [cbn in Hi; lia|]. by rewrite (arrived_tail s s1).
Qed.
End ping_run.

Section ping_properties.
Context `{!Primitives, !AeadLaws, Entropy G}.

(** C16: The PSK client's verdict is sound and complete: whatever the network delivers, once
    [ike_client] has its CHILD SA and an inner address (the assigned one before the one given
    on the command line; with neither it panics) it exits with 0 exactly when one of the datagrams
    it receives in its five attempts opens under the CHILD SA to an ICMP echo reply, and with 1
    otherwise; it sends at most five ESP packets, with consecutive sequence numbers, and
    the [j]-th opens at the other end to the echo request with that number. *)
Theorem ike_client_ping_decides esp_addr dst override assigned child (s : Script G) g peer :
  EspSa_wf (outbound child) -> esp_seq (outbound child) = 0 -> same_esp (outbound child) peer -> Ipv4_wf dst ->
  (forall ip, assigned = Some ip \/ override = Some ip -> Ipv4_wf ip) ->
  match (match assigned with Some ip => Some ip | None => override end) with
  | None => (ike_client_ping esp_addr dst override assigned child (mkClient s g)).1 = Panicked
  | Some src => exists code s' pkts,
      ike_client_ping esp_addr dst override assigned child (mkClient s g) = (Done code, mkClient s' g) /\
      (code = 0 \/ code = 1) /\
      (code = 0 <-> exists i d, (i < 5)%nat /\ arrived s i d /\ echo_answer child d = true) /\
      sc_out s' = sc_out s ++ ((fun p => (p, esp_addr)) <$> pkts) /\ (length pkts <= 5)%nat /\
      forall j p, pkts !! j = Some p -> exists e,
        icmp_echo src dst 0x1234 (Z.of_nat j + 1) = Ok e /\ EspSa_open peer p = Ok (e, 4)
  end.
Proof.
  intros Hwf Hs Hp Hd Hip. set (o := match assigned with Some ip => Some ip | None => override end).
  assert (Ho : forall ip, o = Some ip -> Ipv4_wf ip) by (intros ip E; apply Hip; unfold o in E; destruct assigned; auto).
  unfold ike_client_ping. fold o. destruct o as [src|]; [|done]. act_step reflexivity. act_step reflexivity.
  assert (He : Forall (echo_ok (fun seq => icmp_echo src dst 0x1234 seq)) [1; 2; 3; 4; 5]).
  { assert (Hq : forall q, u16_ok q -> echo_ok (fun seq => icmp_echo src dst 0x1234 seq) q).
    { intros q Hq. destruct (icmp_echo_form src dst 0x1234 q) as (e & E & L); [by apply Ho|done|by split|done|].
      exists e. split; [done|]. rewrite L. lia. }
    repeat constructor; by apply Hq. }
  destruct (ping_run (fun seq => icmp_echo src dst 0x1234 seq) 1 esp_addr peer [1; 2; 3; 4; 5] child s g)
    as (b & child' & s' & pkts & E & Eo & _ & _ & _ & Hl & _ & Hk & Hb); [done|cbn; lia|done|done|].
  exists (if b then 0 else 1), s', pkts. act_step (exact E). split_and!; try done.
  - by destruct b; auto.
  - rewrite <- Hb. by destruct b.
  - intros j p Hj. destruct (Hk j p Hj) as (q & e & Eq & Ee & Eop). exists e.
    assert (Hq : q = Z.of_nat j + 1); [|by subst q].
    do 5 (destruct j as [|j]; [by injection Eq as <-|]). done.
Qed.
End ping_properties.

Section eap_client.
Context `{!Primitives, !Pki, !LegacyCrypto, Entropy G}.

(** The [i]-th receive into the client's buffer yields [d]. *)
Definition client_heard (s : Script G) (d : bytes) : Prop := exists i x, arrived s i x /\ d = take client_buf x.

(** The SA of a run: from the secrets drawn first, the own request and the first datagram *)
Definition run_sa (s : Script G) (sa : CompletedSaInit) : Prop := exists g req d,
  sc_seed s = Some g /\ initiator_request (LocalSecret_generate g 32).1 default_offer = Ok req /\ arrived s 0 d /\
  initiator_complete (LocalSecret_generate g 32).1 req (take client_buf d) = Ok sa.

Lemma client_heard_tail (s s' : Script G) d : sc_in s' = tail (sc_in s) -> client_heard s' d -> client_heard s d.
Proof. intros E (i & x & Hx & ->). exists (S i), x. by rewrite <- (arrived_tail s s'). Qed.

Lemma eap_steps_sound n addr cas dns now : forall init msg (s : Script G) g c,
  ei_verify init = TrustedCas cas dns now -> eap_steps n addr init msg (mkClient s g) = (Done 0, c) ->
  ei_server_verified init = true \/ exists d, client_heard s d /\ server_proved (ei_sa init) cas dns now d.
Proof.
  intros init msg s g c Hv E. destruct n as [|n]; [done|]. cbn [eap_steps] in E. revert E.
  run_step. run_step. destruct (script_recv 0 (sent 0 msg addr s)) as [-> ->].
  set (s1 := set_in (tail (sc_in s)) (sent 0 msg addr s)). change (head_answer (sent 0 msg addr s)) with (head_answer s).
  destruct (head_answer s) as [x|] eqn:Ex; cbn [fmap option_fmap option_map]; [|by unfold act_bind].
  act_step reflexivity. assert (Hx : client_heard s (take client_buf x)).
  { exists 0%nat, x. split; [|done]. unfold head_answer, arrived in *. destruct (sc_in s) as [|[y|] l]; try done.
    injection Ex as <-. by exists y. }
  unfold act_bind, expecting, eap_handle. cbn [cl_entropy put_cl_transport].
  pose proof (initiator_handle_effect (take client_buf x) init g cas dns now Hv) as He.
  destruct (EapInitiator_handle (take client_buf x) (init, g)) as [r [init' g']]. destruct He as (E1 & E2 & E3 & E4).
  assert (Hd : discloses r -> ei_server_verified init = true \/
    exists d, client_heard s d /\ server_proved (ei_sa init) cas dns now d).
  { intros Hr. destruct (E3 (E4 Hr)) as [Ht|Hp]; [by left|]. right. by exists (take client_buf x). }
  destruct r as [[next|o| ]|e|]; try done; intros E; by apply Hd.
Qed.
Lemma act_bind_inv {S A B} (m : action S A) (k : A -> action S B) s b s' : act_bind m k s = (Done b, s') ->
  exists a s1, m s = (Done a, s1) /\ k a s1 = (Done b, s').
Proof. unfold act_bind. destruct (m s) as [[a|e|] s1]; try done. intros E. by exists a, s1. Qed.

Lemma expecting_inv {S A} (m : action S A) s a s' : expecting m s = (Done a, s') -> m s = (Done a, s').
Proof. unfold expecting. by destruct (m s) as [[x|e|] s1]. Qed.

Lemma ike_inv {S A} (m : outcome A) (s : S) a s' : ike m s = (Done a, s') -> m = Ok a /\ s' = s.
Proof. unfold ike. by destruct m; intros [= <- <-]. Qed.

Lemma must_inv {S A} (o : option A) (s : S) a s' : must o s = (Done a, s') -> o = Some a /\ s' = s.
Proof. unfold must. by destruct o; intros [= <- <-]. Qed.

(** What the program reads first *)
Lemma head_arrived (s : Script G) d : head_answer s = Some d -> arrived s 0 d.
Proof.
  unfold head_answer, arrived. destruct (sc_in s) as [|[y|] l]; try done. intros [= <-]. by exists y.
Qed.

(** IKE_SA_INIT draws the secrets from the seed and uses up one datagram. *)
Lemma sa_init_500_script addr (s : Script G) g local req resp c :
  sa_init_500 addr (mkClient s g) = (Done (local, req, resp), c) ->
  local = (LocalSecret_generate g 32).1 /\ initiator_request local default_offer = Ok req /\
  (exists d, arrived s 0 d /\ resp = take client_buf d) /\
  sc_in (cl_transport c) = tail (sc_in s) /\ sc_unix (cl_transport c) = sc_unix s.
Proof.
  unfold sa_init_500. intros E. apply act_bind_inv in E as (local' & c1 & E1 & E).
  unfold zoom, draw in E1. cbn [cl_entropy] in E1. destruct (LocalSecret_generate g 32) as [l g'].
  injection E1 as <- <-.
  apply act_bind_inv in E as (req' & c2 & [Ereq ->]%ike_inv & E). revert E. unfold put_cl_entropy. cbn [cl_transport].
  run_step. run_step. destruct (script_recv 0 (sent 0 req' addr s)) as [-> ->].
  intros E. apply act_bind_inv in E as (d & c3 & [Ed ->]%must_inv & E). injection E as <- <- <- <-.
  change (head_answer (sent 0 req' addr s)) with (head_answer s) in Ed.
  split_and!; [done|done| |done|done]. destruct (head_answer s) as [x|] eqn:Ex; [|done].
  exists x. split; [by apply head_arrived|]. by injection Ed as <-.
Qed.
End eap_client.

Section eap_client_properties.
Context `{!Primitives, !Pki, !LegacyCrypto, Entropy G}.

(** C17: The EAP client succeeds only against a server that proved itself: whatever the network
    delivers, if the program [ike_client_eap] exits with 0 then it was given a CA file, and one of
    the datagrams it received carried a certificate chain to that CA for the expected
    server name, valid at the machine's time, with a signature over the transcript of
    this run's SA, that is, the SA which the client computes from the secrets it draws from the machine's
    randomness, its own IKE_SA_INIT request and the first datagram it receives. *)
Theorem ike_client_eap_sound a (s s' : Script G) : ike_client_eap a s = (Done 0, s') ->
  exists ca now sa d, sc_file s = Some ca /\ sc_unix s = Some now /\ run_sa s sa /\ client_heard s d /\
    server_proved sa [ca] (arg a 4) now d.
Proof.
  unfold ike_client_eap. case_decide; [done|]. intros E.
  apply act_bind_inv in E as (ca & s1 & [Hca ->]%must_inv & E).
  apply act_bind_inv in E as (addr & s2 & [_ ->]%must_inv & E). unfold with_entropy in E. cbn [os_entropy Script_world] in E.
  destruct (sc_seed s) as [g|] eqn:Eseed; [|done].
  destruct (act_bind (bind_socket 0) _ (mkClient s g)) as [r c] eqn:Er. injection E as -> _.
  revert Er. run_step. change (bound 0 s) with s. intros E.
  apply act_bind_inv in E as ([[local req] resp] & c1 & E1 & E).
  apply sa_init_500_script in E1 as (El & Ereq & (d0 & Hd0 & Er0) & Ein & Eu).
  apply act_bind_inv in E as (sa & c2 & [Esa ->]%expecting_inv%ike_inv & E).
  apply act_bind_inv in E as (t & c3 & E2 & E). unfold zoom, draw in E2. cbn [unix_time Script_world] in E2.
  injection E2 as <- <-. apply act_bind_inv in E as (now & c4 & [Hnow ->]%must_inv & E).
  apply act_bind_inv in E as (msg & c5 & E3%expecting_inv & E). unfold zoom in E3.
  destruct (EapInitiator_start _ _) as [rs g5]. injection E3 as -> <-.
  set (init := if existsb _ a then _ else _) in E.
  assert (Hi : ei_verify init = TrustedCas [ca] (arg a 4) now /\ ei_server_verified init = false /\ ei_sa init = sa)
    by (unfold init; by destruct (existsb _ a)). destruct Hi as (Hi1 & Hi2 & Hi3).
  destruct (eap_steps_sound _ addr [ca] (arg a 4) now init _ _ _ _ Hi1 E) as [Hv|(d & Hd & Hp)];
    [by rewrite Hi2 in Hv|]. rewrite Hi3 in Hp.
  exists ca, now, sa, d. split_and!; [done|by rewrite <- Eu| |by eapply client_heard_tail|done].
  cbn [cl_entropy] in El. exists g, req, d0. rewrite <- El. split_and!; [done|done|done|by rewrite <- Er0].
Qed.
End eap_client_properties.

(** ** The programs against the library's own server *)

(** Every socket of the machine reaches the same server; [g0] is what the system's
    randomness starts from. *)
Definition Link_world `{!Primitives, !Pki, Entropy G} {G2} (g0 : G2) : World (Link G) G2 := {|
  sockets _ := Link_transport;
  bind_udp _ l := (true, l);
  os_entropy l := (Some g0, l);
  clock l := (0, l);
  unix_time l := (Some 0, l);
  read_file _ l := (None, l) |}.

Section own_server.
Context `{!Primitives, !Pki, !LegacyCrypto, !HmacLaws, !HashLaws, !AeadLaws, !BigUintLaws, !X25519Laws,
  Entropy G, !EntropyLaws G, Entropy G2, !EntropyLaws G2}.
Context (g0 : G2).
#[local] Instance own_world : World (Link G) G2 := Link_world g0.
#[local] Instance own_working : Working (Link G) G2.
Proof. by split. Qed.

(** The server ignores a message of another exchange: nothing comes back. *)
Lemma ignored_link n data to (s : Server Mailbox G) h : bytes_ok data -> IkeHeader_parse data = Ok h ->
  exchange_type h <> IkeSaInit -> exchange_type h <> IkeAuth ->
  exists s', sent n data to (mkLink s []) = mkLink s' [] /\ arrives n (mkLink s' []) = None.
Proof.
  intros Hd Eh Hni Hna. eexists. split; [|reflexivity]. unfold sent. cbn [send_to sockets own_world Link_world Link_transport far near].
  assert (E : handle_one (put_transport (mkMailbox [(data, client_addr)] []) s) =
    (Done EvIgnored, put_transport (mkMailbox [] []) s)).
  { unfold handle_one, act_bind, zoom, recv. cbn [transport put_transport recv_from Mailbox_transport inbox outbox].
    rewrite octets_id by done. unfold ike at 1. rewrite Eh. by destruct (exchange_type h). }
  rewrite E. cbn [snd transport put_transport outbox fmap list_fmap app]. reflexivity.
Qed.

(** The handshake of a program whose arguments name the server's key *)
Lemma connect_psk_run (s : Server Mailbox G) addr psk id_r cid spi :
  srv_auth s = AuthConfig_psk id_r psk -> id_fits (Identification_fqdn cid) -> id_fits id_r -> u32_ok spi ->
  exists sa ca sr cb s2 g2,
    connect_psk addr psk cid spi (mkClient (mkLink s []) g0) = (Done (sa, id_r, ca, None), mkClient (mkLink s2 []) g2) /\
    gcm_sa sa /\ session s2 (spi_i sa) (spi_r sa) = Some sr /\ same_sa sa sr /\
    child s2 (spi_i sa) (spi_r sa) = Some cb /\ child_pair ca cb.
Proof.
  intros Hau Hi Hr Hs. destruct (connect_run s g0 addr (Identification_fqdn cid) id_r psk spi)
    as (sa & ca & sr & cb & s2 & g2 & E & Hrest); try done.
  exists sa, ca, sr, cb, s2, g2. split; [|done]. by apply expecting_done.
Qed.

(** A request the server ignores is not answered. *)
Lemma unanswered n size data to (s : Server Mailbox G) g h A (k : option bytes -> action (Client (Link G) G2) A) :
  bytes_ok data -> IkeHeader_parse data = Ok h -> exchange_type h <> IkeSaInit -> exchange_type h <> IkeAuth ->
  exists s', act_bind (send_on n data to) (fun _ => act_bind (recv_on n size) k) (mkClient (mkLink s []) g) =
    k None (mkClient (mkLink s' []) g).
Proof.
  intros Hd Eh Hni Hna. destruct (ignored_link n data to s h) as (s' & E & Ea); try done. exists s'.
  run_step. run_step. rewrite E, Ea. reflexivity.
Qed.

(** The three probes after the handshake *)
Lemma probes_unanswered addr sa sr (s : Server Mailbox G) g : gcm_sa sa -> same_sa sa sr ->
  (dpd_check addr sa (mkClient (mkLink s []) g)).1 = Done 1 /\
  (retransmit_check addr sa (mkClient (mkLink s []) g)).1 = Done 1 /\
  (rekey_check addr sa (mkClient (mkLink s []) g)).1 = Done 1.
Proof.
  intros Hs Hsr.
  assert (Hd : forall iv, bytes_ok iv -> length iv = 8%nat -> exists m h, dpd_request sa 2 iv = Ok m /\ bytes_ok m /\
    IkeHeader_parse m = Ok h /\ exchange_type h = Informational).
  { intros iv Hiv Hl. destruct (informational_sent sa sr 2 false [] iv) as (m & h & E & Om & Eh & _ & Et & _);
      try done; [by apply chain_fits_intro; [constructor|simpl; lia]|]. by exists m, h. }
  split_and!.
  - destruct (Hd (replicate 8 0x11)) as (m & h & E & Om & Eh & Et); [by apply Forall_replicate|done|].
    unfold dpd_check. run_step. act_step (apply expecting_done, ike_ok; exact E).
    edestruct (unanswered 1 probe_buf m addr s g h) as [s' ->]; [done|done|by rewrite Et..|done].
  - destruct (Hd (replicate 8 0x5a)) as (m & h & E & Om & Eh & Et); [by apply Forall_replicate|done|].
    unfold retransmit_check. run_step. act_step (apply expecting_done, ike_ok; exact E).
    edestruct (unanswered 1 probe_buf m addr s g h) as [s' ->]; [done|done|by rewrite Et..|done].
  - set (n := replicate 32 0x37).
    destruct (seal_chain_open (create_child_header sa 2 false) (rekey_request_chain 0xDEADBEEF 0x12345678 n)
      (our_sk_e sa) (replicate 8 5)) as (m & E & Om & Eh & _); try done;
      [by apply create_child_header_wf; [apply Hs|]|by apply rekey_request_fits; split; [apply Forall_replicate|]
      |by apply Forall_replicate|by apply our_sk_e_length|].
    unfold rekey_check. run_step. act_step (apply expecting_done, ike_ok; exact E).
    edestruct (unanswered 1 probe_buf m addr s g) as [s' ->]; [done|exact Eh|done|done|done].
Qed.

(** Arguments that name the server: program, host, key and identities *)
Definition names_server (a : list str) (addr esp_addr : SocketAddr) (psk : bytes) : Prop :=
  length a = 5%nat /\ parse_socket_addr (with_port_500 (arg a 1)) = Some addr /\
  parse_socket_addr (with_port_4500 (arg a 1)) = Some esp_addr /\ arg a 2 = psk /\
  id_fits (Identification_fqdn (arg a 3)).

(** The start of a program, entropy, socket and handshake, and the rest of it *)
Lemma program_start {A} (s : Server Mailbox G) addr psk cid spi x c
    (k : CompletedSaInit * Identification * ChildSa * option Ipv4Addr -> action (Client (Link G) G2) A) :
  connect_psk addr psk cid spi (mkClient (mkLink s []) g0) = (Done x, c) ->
  with_entropy (act_bind (bind_socket 0) (fun _ => act_bind (connect_psk addr psk cid spi) k)) (mkLink s []) =
    ((k x c).1, cl_transport (k x c).2).
Proof.
  intros E. unfold with_entropy. cbn [os_entropy own_world Link_world]. erewrite act_bind_done by apply bind_step.
  change (put_cl_transport (bound 0 _) (mkClient (mkLink s []) g0)) with (mkClient (mkLink s []) g0).
  erewrite act_bind_done by exact E. by destruct (k x c).
Qed.

(** A program that probes the server after the handshake *)
Lemma probe_fails (s : Server Mailbox G) a addr esp_addr psk id_r spi
    (check : SocketAddr -> CompletedSaInit -> action (Client (Link G) G2) Z) :
  names_server a addr esp_addr psk -> srv_auth s = AuthConfig_psk id_r psk -> id_fits id_r -> u32_ok spi ->
  (forall sa sr s2 g2, gcm_sa sa -> same_sa sa sr -> (check addr sa (mkClient (mkLink s2 []) g2)).1 = Done 1) ->
  (with_entropy (act_bind (bind_socket 0) (fun _ =>
     act_bind (connect_psk addr psk (arg a 3) spi) (fun '(sa, _, _, _) => check addr sa))) (mkLink s [])).1 = Done 1.
Proof.
  intros (_ & _ & _ & _ & Hid) Hau Hr Hs Hk.
  destruct (connect_psk_run s addr psk id_r (arg a 3) spi) as (sa & ca & sr & cb & s2 & g2 & E & Hg & _ & Hsa & _); try done.
  erewrite program_start by exact E. by eapply Hk.
Qed.
End own_server.

Section own_server_properties.
Context `{!Primitives, !Pki, !LegacyCrypto, !HmacLaws, !HashLaws, !AeadLaws, !BigUintLaws, !X25519Laws,
  Entropy G, !EntropyLaws G, Entropy G2, !EntropyLaws G2}.

(** C18: The programs against the library's own server: with the right key and a host in the
    arguments, on any randomness and with a server in any state, the handshake succeeds, whatever ESP
    SPI the program chooses: the client learns the server's identity, is assigned no inner address, and
    the server holds the same SA and the mirror image of the client's CHILD SA.  But the
    server answers neither INFORMATIONAL nor CREATE_CHILD_SA, so that [dpd_probe], [rekey_probe] and
    [retransmit_probe] exit with 1; and [rekey_e2e], and [ike_client] when it is given no inner
    address, panic for want of one in the very state their handshake led to.  With too few arguments
    (fewer than five words with the program's name) each of the five programs exits with 2 and touches nothing. *)
Theorem programs_on_own_server (g0 : G2) (s : Server Mailbox G) a addr esp_addr psk id_r :
  names_server a addr esp_addr psk -> srv_auth s = AuthConfig_psk id_r psk -> id_fits id_r ->
  let W := Link_world g0 in let l := mkLink s [] in
  let handshake spi := @connect_psk _ _ _ G2 W _ addr psk (arg a 3) spi (mkClient l g0) in
  (forall spi, u32_ok spi -> exists sa ca sr cb c, handshake spi = (Done (sa, id_r, ca, None), c) /\
     session (far (cl_transport c)) (spi_i sa) (spi_r sa) = Some sr /\ same_sa sa sr /\
     child (far (cl_transport c)) (spi_i sa) (spi_r sa) = Some cb /\ child_pair ca cb) /\
  (@dpd_probe _ _ _ G2 W _ a l).1 = Done 1 /\ (@rekey_probe _ _ _ G2 W _ a l).1 = Done 1 /\
  (@retransmit_probe _ _ _ G2 W _ a l).1 = Done 1 /\
  @rekey_e2e _ _ _ G2 W _ a l = (Panicked, cl_transport (handshake 0xCAFE2468).2) /\
  @ike_client _ _ _ G2 W _ a l = (Panicked, cl_transport (handshake 0xCAFEBABE).2) /\
  (forall few, (length few < 5)%nat ->
     @dpd_probe _ _ _ G2 W _ few l = (Done 2, l) /\ @rekey_probe _ _ _ G2 W _ few l = (Done 2, l) /\
     @retransmit_probe _ _ _ G2 W _ few l = (Done 2, l) /\ @rekey_e2e _ _ _ G2 W _ few l = (Done 2, l) /\
     @ike_client _ _ _ G2 W _ few l = (Done 2, l)).
Proof.
  intros Ha Hau Hr W l handshake. pose proof Ha as (Hl & E1 & E2 & E3 & Hid).
  assert (Hn : ~ (length a < 5)%nat) by lia.
  unfold dpd_probe, rekey_probe, retransmit_probe, rekey_e2e, ike_client, ike_500, esp_4500.
  rewrite !(decide_False (P := (length a < 5)%nat)) by done. rewrite E1, E2, E3. split_and!.
  - intros spi Hs. destruct (connect_psk_run g0 s addr psk id_r (arg a 3) spi)
      as (sa & ca & sr & cb & s2 & g2 & E & _ & Hrest); try done. by eexists sa, ca, sr, cb, _.
  - act_step reflexivity. eapply (probe_fails g0); try done. intros sa sr s2 g2 Hg Hsa.
    exact (proj1 (probes_unanswered g0 addr sa sr s2 g2 Hg Hsa)).
  - act_step reflexivity. eapply (probe_fails g0); try done. intros sa sr s2 g2 Hg Hsa.
    exact ((fun x => proj2 (proj2 x)) (probes_unanswered g0 addr sa sr s2 g2 Hg Hsa)).
  - act_step reflexivity. eapply (probe_fails g0); try done. intros sa sr s2 g2 Hg Hsa.
    exact ((fun x => proj1 (proj2 x)) (probes_unanswered g0 addr sa sr s2 g2 Hg Hsa)).
  - act_step reflexivity. act_step reflexivity.
    destruct (connect_psk_run g0 s addr psk id_r (arg a 3) 0xCAFE2468) as (sa & ca & sr & cb & s2 & g2 & E & _); try done.
    assert (Eh : handshake 0xCAFE2468 = _) by exact E. rewrite Eh. by refine (eq_trans (program_start g0 s _ _ _ _ _ _ _ E) _).
  - rewrite !(lookup_ge_None_2 a) by lia. act_step reflexivity. act_step reflexivity. act_step reflexivity.
    destruct (connect_psk_run g0 s addr psk id_r (arg a 3) 0xCAFEBABE) as (sa & ca & sr & cb & s2 & g2 & E & _); try done.
    assert (Eh : handshake 0xCAFEBABE = _) by exact E. rewrite Eh. by refine (eq_trans (program_start g0 s _ _ _ _ _ _ _ E) _).
  - intros few Hf. by rewrite !decide_True by done.
Qed.
End own_server_properties.

(** ** NAT detection and the timed loop *)
Section natt.
Context `{!Primitives, !HmacLaws, !HashLaws, !BigUintLaws, !X25519Laws}.

Lemma nat_detection_loop_safe items : Forall (fun r => wp r RawPayload_wf) items ->
  forall st, wp (nat_detection_loop items st) (fun _ => True).
Proof.
  induction 1 as [|r items Hr _ IH]; intros st; [done|]. destruct r as [p|e|]; cbn [nat_detection_loop]; try done.
  case_decide; [|apply IH]. apply wp_bind, wp_opt; [|apply IH].
  eapply wp_mono; [|apply Notify_parse_wp, Hr]. intros n _. apply IH.
Qed.

Lemma has_nat_detection_safe response : bytes_ok response -> has_nat_detection response <> Panic.
Proof.
  intros Hr. apply (wp_safe _ (fun _ => True)). unfold has_nat_detection. apply wp_bind, wp_opt; [|done].
  eapply wp_mono; [|by apply IkeHeader_parse_wp_len]. intros h [Hh Hl]. apply wp_bind, wp_slice_from; [done|].
  apply wp_bind. eapply wp_mono; [|apply nat_detection_loop_safe, payload_items_wp; [apply Hh|auto with ryke]].
  by intros [].
Qed.

(** The loop over well-formed notifies *)
Lemma nat_detection_notifies ns st : Forall Notify_wf ns ->
  nat_detection_loop (Ok <$> (raw <$> ((fun n => (PNotify, Notify_to_bytes n)) <$> ns))) st =
  Ok (foldl (fun st n => (st.1 || (n_type n =? notify_type.NAT_DETECTION_SOURCE_IP),
                          st.2 || (n_type n =? notify_type.NAT_DETECTION_DESTINATION_IP))) st ns).
Proof.
  intros Hn. revert st. induction Hn as [|n ns Hn _ IH]; intros st; [done|].
  cbn [fmap list_fmap raw fst snd nat_detection_loop payload_type data foldl]. rewrite decide_True by done.
  rewrite Notify_roundtrip by done. cbn [ok mbind outcome_bind]. apply IH.
Qed.

(** A built IKE_SA_INIT message is recognised by its notifies. *)
Lemma has_nat_detection_built h sa g public nonce extra : sa_init_wf h sa g public nonce extra ->
  Forall extra_notify_wf extra ->
  has_nat_detection (build_sa_init h sa g public nonce extra) =
    Ok (existsb (fun n => n_type n =? notify_type.NAT_DETECTION_SOURCE_IP) extra &&
        existsb (fun n => n_type n =? notify_type.NAT_DETECTION_DESTINATION_IP) extra).
Proof.
  intros Hwf He. rewrite build_sa_init_eq. destruct (build_parse _ (sa_init_chain_wf _ _ _ _ _ _ Hwf)) as (P1 & P2 & P3).
  unfold has_nat_detection. rewrite P1. cbn [ok mbind outcome_bind]. rewrite P2. cbn [mbind outcome_bind]. rewrite P3.
  cbn [mb_payloads]. unfold sa_init_chain. rewrite !fmap_app. cbn [fmap list_fmap app nat_detection_loop raw payload_type fst].
  rewrite !decide_False by done. rewrite decide_True by done. cbn [data raw snd].
  change (Notify_parse (Notify_to_bytes sighash_notify)) with (Ok sighash_notify). cbn [ok mbind outcome_bind].
  rewrite nat_detection_notifies by (eapply Forall_impl; [exact He|]; by intros n [? _]).
  cbn [mbind outcome_bind sighash_notify n_type Notify_status fst snd].
  set (st := (_, _)). assert (Hst : st = (false, false)) by reflexivity. rewrite Hst. clear Hst st.
  assert (Hf : forall ns st, foldl (fun st n => (st.1 || (n_type n =? notify_type.NAT_DETECTION_SOURCE_IP),
      st.2 || (n_type n =? notify_type.NAT_DETECTION_DESTINATION_IP))) st ns =
    (st.1 || existsb (fun n => n_type n =? notify_type.NAT_DETECTION_SOURCE_IP) ns,
     st.2 || existsb (fun n => n_type n =? notify_type.NAT_DETECTION_DESTINATION_IP) ns)).
  { induction ns as [|n ns IH]; intros st; cbn [foldl existsb]; [by rewrite !orb_false_r; destruct st|].
    rewrite IH. cbn [fst snd]. by rewrite !orb_assoc. }
  by rewrite Hf.
Qed.

(** A client behind a NAT recognises the responder's NAT detection: [has_nat_detection] panics
    on no response; the response of [responder_respond_natt] to any request it accepts
    carries both notifies, and that of [responder_respond] does not. *)
Theorem nat_detection_recognised request l natt cookie resp c :
  bytes_ok request -> LocalSecret_wf l ->
  responder_respond_inner request l natt cookie = Ok (Established resp c) ->
  has_nat_detection resp = Ok (bool_decide (natt <> None)) /\
  forall response, bytes_ok response -> has_nat_detection response <> Panic.
Proof.
  intros Hr Hl He. split; [|intros; by apply has_nat_detection_safe].
  unfold responder_respond_inner in He. apply bind_Ok in He as (h & Eh & He).
  apply bind_Ok in He as (body & Eb & He). apply bind_Ok in He as (ps & Ep & He).
  destruct (cookie_challenge cookie h ps); [done|].
  assert (Hh : IkeHeader_wf h) by (by apply (wp_ok _ _ _ (IkeHeader_parse_wp _ Hr))).
  assert (Hps : SaInitPayloads_wf ps).
  { eapply wp_ok; [|exact Ep]. apply parse_sa_init_wp; [done|].
    unfold slice_from in Eb. case_decide; [|done]. injection Eb as <-. by apply Forall_drop. }
  apply responder_accept_Ok in He as (g & pub & sh & _ & Hs & Hg & _ & _ & _ & Op & Lp & _ & _ & -> & _); try done.
  rewrite has_nat_detection_built; [|apply (response_wf l (suite c) (initiator_spi h) g pub natt); try done; apply Hh
    |apply natt_notifies_extra].
  by destruct natt as [[a b]|].
Qed.
End natt.

(** A machine whose clock moves: readings never go back, and a receive takes at least a
    nanosecond. *)
Class Ticking (W G : Type) `{World W G} := {
  time : W -> Z;
  clock_reads w : exists w', clock w = (time w, w') /\ time w <= time w';
  recv_takes n w : time w + 1 <= time (@recv_from W (sockets n) w).2 }.

Section timed.
Context `{!Primitives, World W G, !Ticking W G, Entropy G}.
Implicit Types (c : Client W G).

Lemma read_clock_step c : exists w, read_clock c = (Done (time (cl_transport c)), put_cl_transport w c) /\
  time (cl_transport c) <= time w.
Proof.
  destruct (clock_reads (cl_transport c)) as (w & E & Hw). exists w. split; [|done].
  unfold read_clock, zoom, draw. by rewrite E.
Qed.

Lemma opens_to_reply_state child d c : exists r, opens_to_reply child d c = (r, c).
Proof. unfold opens_to_reply, act_bind, ike. destruct (ok _); by eexists. Qed.

(** One turn of the loop, when the clock is read in the state [w] *)
Lemma await_reply_step child deadline c w f : read_clock c = (Done (time (cl_transport c)), put_cl_transport w c) ->
  await_reply (S f) child deadline c =
    if decide (time (cl_transport c) < deadline) then
      let c1 := put_cl_transport (received 0 w) c in
      match take client_buf <$> arrives 0 w with
      | None => (Done (Some false), c1)
      | Some d => if is_ike_on_4500 d then await_reply f child deadline c1 else
          match (opens_to_reply child d c1).1 with
          | Done true => (Done (Some true), c1) | Done false => await_reply f child deadline c1
          | Failed e => (Failed e, c1) | Panicked => (Panicked, c1) end
      end
    else (Done (Some false), put_cl_transport w c).
Proof.
  intros E. cbn [await_reply]. act_step (exact E). case_decide; [|done]. act_step (apply recv_step).
  cbn [cl_transport put_cl_transport]. change (put_cl_transport ?x (put_cl_transport w c)) with (put_cl_transport x c).
  cbv zeta. destruct (take client_buf <$> arrives 0 w) as [d|]; [|done]. destruct (is_ike_on_4500 d); [done|].
  unfold act_bind. destruct (opens_to_reply_state child d (put_cl_transport (received 0 w) c)) as [r ->].
  by destruct r as [[]|e|].
Qed.

(** Fuel for the time left is enough, and any more changes nothing. *)
Lemma await_reply_fuel child deadline : forall fuel c, deadline - time (cl_transport c) <= Z.of_nat fuel ->
  (await_reply (S fuel) child deadline c).1 <> Done None /\
  forall extra, await_reply (S (fuel + extra)) child deadline c = await_reply (S fuel) child deadline c.
Proof.
  induction fuel as [|fuel IH]; intros c Hf; destruct (read_clock_step c) as (w & E & Hw).
  - split; [|intros extra]; rewrite !(await_reply_step _ _ _ _ _ E), !decide_False by lia; done.
  - assert (Hrec : deadline - time (cl_transport (put_cl_transport (received 0 w) c)) <= Z.of_nat fuel).
    { cbn [cl_transport put_cl_transport]. pose proof (recv_takes 0 w). unfold received. lia. }
    destruct (IH _ Hrec) as [IH1 IH2].
    split; [|intros extra; change (S fuel + extra)%nat with (S (fuel + extra))];
      rewrite !(await_reply_step _ _ _ _ _ E); cbv zeta; [|by rewrite IH2].
    case_decide; [|done]. destruct (take client_buf <$> arrives 0 w) as [d|]; [|done].
    destruct (is_ike_on_4500 d); [done|]. by destruct (opens_to_reply _ _ _).1 as [[]|e|].
Qed.

(** Fuel for every nanosecond until the deadline of one ping *)
Definition deadline_fuel (fuel : nat) : Prop := two_seconds <= Z.of_nat fuel.

(** C19: The timed ping ends: on a machine whose clock moves, the program [ike_client_natt] waits
    for replies to an echo request in a loop that is bounded by its two-second deadline - with
    fuel for that many nanoseconds the pings end with a verdict, an I/O error or a panic,
    never for lack of fuel, and more fuel changes neither the result nor the machine's
    state - whatever sequence of datagrams arrives. *)
Theorem natt_ping_terminates echo addr seqs fuel : deadline_fuel fuel -> forall child c,
  (natt_ping (S fuel) echo addr seqs child c).1 <> Done None /\
  forall extra, natt_ping (S (fuel + extra)) echo addr seqs child c = natt_ping (S fuel) echo addr seqs child c.
Proof.
  unfold deadline_fuel. intros Hf. induction seqs as [|q seqs IH]; intros child c; [done|]. cbn [natt_ping]. unfold act_bind.
  destruct (ike (echo q) c) as [[pkt|e|] c1]; try done.
  destruct (seal_ping child pkt c1) as [[[sealed child1]|e|] c2]; try done.
  destruct (send_on 0 sealed addr c2) as [[[]|e|] c3]; try done. destruct (read_clock_step c3) as (w & E & Hw).
  rewrite E.
  destruct (await_reply_fuel child1 (time (cl_transport c3) + two_seconds) fuel (put_cl_transport w c3)) as [A1 A2];
    [cbn [cl_transport put_cl_transport]; lia|].
  split; [|intros extra; rewrite A2]; destruct (await_reply _ _ _ _) as [[[[]|]|e|] c4]; try done; apply IH.
Qed.
End timed.

(** ** Witnesses *)
Definition example_script (received : list (option bytes)) : Script SeedEntropy :=
  mkScript received [] (Some (SeedEntropy_new 5)) (Some 50) None.
Definition example_machine (received : list (option bytes)) : Client (Script SeedEntropy) SeedEntropy :=
  mkClient (example_script received) (SeedEntropy_new 5).

(** An answer of the other end, with payloads although the probe asks for none *)
Definition example_chain : PayloadChain := [(PNotify, Notify_to_bytes mobike_supported)].
Definition example_answer (iv : bytes) : bytes :=
  unwrap_or [] (build_informational (example_completed Responder) 2 true example_chain iv).

Lemma example_chain_fits : chain_fits example_chain.
Proof.
  apply chain_fits_intro; [|simpl; lia]. apply Forall_singleton, notify_entry_wf; [|simpl; lia].
  apply Notify_status_wf; [by split|constructor].
Qed.

Lemma example_answer_ok iv : bytes_ok iv -> length iv = 8%nat ->
  build_informational (example_completed Responder) 2 true example_chain iv = Ok (example_answer iv) /\
  bytes_ok (example_answer iv).
Proof.
  intros Hiv Hl. destruct (informational_sent (example_completed Responder) (example_completed Initiator) 2 true
    example_chain iv) as (m & h & E & Om & _); try done;
    [apply example_gcm_sa|apply example_chain_fits|].
  unfold example_answer. by rewrite E.
Qed.

Lemma dpd_probe_decides_witness :
  (dpd_check example_addr (example_completed Initiator) (example_machine [])).1 = Done 1 /\
  (dpd_check example_addr (example_completed Initiator) (example_machine [Some (example_answer example_iv)])).1 = Done 0.
Proof.
  destruct (example_answer_ok example_iv example_iv_ok eq_refl) as [Em Om]. split.
  - destruct (dpd_probe_decides example_addr (example_completed Initiator) (example_machine []) (example_gcm_sa _))
      as (req & _ & E & _). exact E.
  - destruct (dpd_probe_decides example_addr (example_completed Initiator)
      (example_machine [Some (example_answer example_iv)]) (example_gcm_sa _)) as (req & _ & _ & E).
    refine (E (example_completed Responder) 2 example_chain example_iv (example_answer example_iv) (example_gcm_sa _)
      (same_sa_sym _ _ example_same_sa) _ example_chain_fits example_iv_ok eq_refl Em _ _); [by split|..].
    + apply Nat.leb_le. vm_compute. reflexivity.
    + unfold answered. change (arrives 1 _) with (Some (as_u8 <$> example_answer example_iv)). by rewrite octets_id.
Defined.

Lemma retransmit_probe_decides_witness :
  (retransmit_check example_addr (example_completed Initiator)
     (example_machine [Some (example_answer example_iv); Some (example_answer (replicate 8 7))])).1 = Done 1.
Proof.
  assert (Hiv : bytes_ok (replicate 8 7)) by (by apply Forall_replicate).
  destruct (example_answer_ok example_iv example_iv_ok eq_refl) as [E1 O1].
  destruct (example_answer_ok (replicate 8 7) Hiv eq_refl) as [E2 O2].
  destruct (retransmit_probe_decides example_addr (example_completed Initiator)
    (example_machine [Some (example_answer example_iv); Some (example_answer (replicate 8 7))]) (example_gcm_sa _))
    as (req & _ & _ & E).
  apply (E (example_completed Responder) 2 true example_chain example_iv (replicate 8 7)
    (example_answer example_iv) (example_answer (replicate 8 7)) (example_gcm_sa _) example_chain_fits eq_refl eq_refl ltac:(done) E1 E2).
  - change (arrives 1 _) with (Some (as_u8 <$> example_answer example_iv)). by rewrite octets_id.
  - change (arrives 1 _) with (Some (as_u8 <$> example_answer (replicate 8 7))). by rewrite octets_id.
Defined.

(** The library's responder answers the rekey request. *)
Definition example_rekey_answer : bytes :=
  unwrap_or [] (req ← build_rekey_request (example_completed Initiator) 2 0xDEADBEEF 0x12345678 (replicate 32 0x37) (replicate 8 5);
    '(m, _) ← responder_process_rekey (example_completed Responder) req 200 (replicate 16 2) example_iv None; Ok m).

Lemma rekey_probe_decides_witness :
  (rekey_check example_addr (example_completed Initiator) (example_machine [Some example_rekey_answer])).1 = Done 0.
Proof.
  destruct (rekey_probe_decides example_addr (example_completed Initiator) (example_machine [Some example_rekey_answer])
    (example_gcm_sa _)) as (req & Er & _ & E).
  assert (Hn : nonce_fits (replicate 32 0x37)) by (split; [by apply Forall_replicate|done]).
  assert (Hn2 : nonce_fits (replicate 16 2)) by (by apply example_nonce_fits).
  assert (Hiv : bytes_ok (replicate 8 5)) by (by apply Forall_replicate).
  destruct (rekey_agree (example_completed Initiator) (example_completed Responder) 2 0xDEADBEEF 0x12345678 200
    (replicate 32 0x37) (replicate 16 2) (replicate 8 5) example_iv None (example_gcm_sa _) (example_gcm_sa _) example_same_sa
    ltac:(by split) ltac:(by split) ltac:(by split) Hn Hn2 Hiv eq_refl example_iv_ok eq_refl ltac:(done))
    as (req' & m & ca & cb & h & first & inner & R1 & R2 & _).
  rewrite Er in R1. injection R1 as <-.
  assert (Em : example_rekey_answer = m) by (unfold example_rekey_answer; rewrite Er; cbn [mbind outcome_bind]; by rewrite R2).
  assert (Om : forallb (fun x => (0 <=? x) && (x <? 256)) example_rekey_answer = true) by (vm_compute; reflexivity).
  assert (Hm : (length example_rekey_answer <= probe_buf)%nat) by (apply Nat.leb_le; vm_compute; reflexivity).
  rewrite <- Em in R2.
  refine (E (example_completed Responder) 200 (replicate 16 2) example_iv None example_rekey_answer cb (example_gcm_sa _)
    example_same_sa _ Hn2 example_iv_ok eq_refl _ R2 Hm _); [by split|done|].
  unfold answered. change (arrives 1 _) with (Some (as_u8 <$> example_rekey_answer)). rewrite octets_id; [done|].
  apply Forall_forall. intros x Hx. rewrite forallb_forall in Om. apply list_elem_of_In, Om in Hx. unfold byte_ok. lia.
Defined.

(** A CHILD SA at the start of its life, and a datagram that opens to an echo reply *)
Definition example_child : ChildSa := mkChildSa (mkEspSa 7 (replicate 32 1) [9; 9; 9; 9] 0) (mkEspSa 8 (replicate 32 2) [9; 9; 9; 9] 0).
Definition example_reply : bytes :=
  put 20 [0] (unwrap_or [] (icmp_echo (mkIpv4 1 1 1 1) (mkIpv4 10 0 0 7) 0x1234 1)).
Definition example_esp_reply : bytes := unwrap_or [] (EspSa_seal (inbound example_child) example_reply 4).1.

Lemma ike_client_ping_decides_witness : exists s',
  ike_client_ping example_addr (mkIpv4 1 1 1 1) (Some (mkIpv4 10 0 0 7)) None example_child
    (example_machine [None; Some example_esp_reply]) = (Done 0, mkClient s' (SeedEntropy_new 5)).
Proof.
  destruct (ike_client_ping_decides example_addr (mkIpv4 1 1 1 1) (Some (mkIpv4 10 0 0 7)) None example_child
    (example_script [None; Some example_esp_reply]) (SeedEntropy_new 5) (outbound example_child))
    as (code & s' & pkts & E & _ & Hc & _).
  - constructor; [by split|done|done|by split].
  - done.
  - done.
  - repeat constructor; done.
  - intros ip [?|[= <-]]; [done|]. repeat constructor; done.
  - exists s'. rewrite (proj2 Hc) in E; [exact E|]. exists 1%nat, (as_u8 <$> example_esp_reply).
    split; [lia|]. split; [exists example_esp_reply; split; reflexivity|]. vm_compute. reflexivity.
Defined.

(** A network that never stops sending, on a machine that takes a nanosecond for each datagram *)
#[local] Instance Flood_world : World Z SeedEntropy := {|
  sockets _ := {| recv_from t := (Some ([1; 2; 3; 4], example_addr), t + 1); send_to _ _ t := (true, t) |};
  bind_udp _ t := (true, t);
  os_entropy t := (Some (SeedEntropy_new 5), t);
  clock t := (t, t);
  unix_time t := (Some (t / 10 ^ 9), t);
  read_file _ t := (None, t) |}.

#[local] Instance Flood_ticking : Ticking Z SeedEntropy.
Proof. refine {| time t := t |}; [intros w; by exists w|]. intros n w. cbn. lia. Defined.

Lemma natt_ping_terminates_witness :
  (natt_ping (S (Z.to_nat two_seconds)) (icmp_echo_natt (mkIpv4 10 0 0 7) (mkIpv4 1 1 1 1)) example_addr [1; 2; 3; 4; 5]
     example_child (mkClient 0 (SeedEntropy_new 5))).1 <> Done None.
Proof.
  refine (proj1 (natt_ping_terminates (icmp_echo_natt (mkIpv4 10 0 0 7) (mkIpv4 1 1 1 1)) example_addr [1; 2; 3; 4; 5]
    (Z.to_nat two_seconds) _ example_child (mkClient 0 (SeedEntropy_new 5)))).
  unfold deadline_fuel. rewrite Z2Nat.id; [reflexivity|]. unfold two_seconds. lia.
Defined.

Lemma nat_detection_recognised_witness : exists request l resp c,
  responder_respond_inner request l (Some (example_addr, client_addr)) None = Ok (Established resp c) /\
  has_nat_detection resp = Ok true.
Proof.
  destruct (LocalSecret_generate_wf (SeedEntropy_new 5) NONCE_LEN) as (Hli & _); [done|].
  destruct (LocalSecret_generate_wf (SeedEntropy_new 7) NONCE_LEN) as (Hlr & _); [done|].
  destruct (sa_init_default _ _ (Some (example_addr, client_addr)) Hli Hlr) as (request & resp & ci & cr & E1 & E2 & _).
  destruct (initiator_request_parse _ default_offer request Hli default_offer_wf E1) as (h & _ & _ & _ & _ & _ & Om & _).
  exists request, (LocalSecret_generate (SeedEntropy_new 7) NONCE_LEN).1, resp, cr. split; [exact E2|].
  destruct (nat_detection_recognised request _ (Some (example_addr, client_addr)) None resp cr Om Hlr E2) as [E _].
  rewrite E. reflexivity.
Defined.

(** [dpd_probe 1.2.3.4 psk ab cd], the key being that of the example server *)
Definition example_args : list str := [[100]; [49; 46; 50; 46; 51; 46; 52]; [1; 2; 3]; [97; 98]; [99; 100]].

Lemma programs_on_own_server_witness :
  (@dpd_probe _ _ _ SeedEntropy (Link_world (SeedEntropy_new 5)) _ example_args (mkLink (example_server []) [])).1 = Done 1.
Proof.
  refine (proj1 (proj2 (programs_on_own_server (SeedEntropy_new 5) (example_server []) example_args
    (mkSocketAddr (V4 (mkIpv4 1 2 3 4)) 500) (mkSocketAddr (V4 (mkIpv4 1 2 3 4)) 4500) [1; 2; 3] example_id_r _ eq_refl
    example_id_r_fits))).
  split_and!; [reflexivity|reflexivity|reflexivity|reflexivity|exact example_id_i_fits].
Defined.

(** For a whole EAP run, an instance of the primitives that evaluates quickly *)
Definition quick_digest (n : nat) (l : bytes) : bytes := be_bytes n (foldl (fun acc b => 3 + acc + b) 7 l).
Definition quick_tag (k n a m : bytes) : bytes := quick_digest 16 (k ++ n ++ a ++ m).

#[local] Instance quick : Primitives := {|
  hmac_sha256 k d := quick_digest 32 (k ++ d);
  sha256 := quick_digest 32;
  sha1 := quick_digest 20;
  gcm_encrypt k n a m := Some (m ++ quick_tag k n a m);
  gcm_decrypt k n a c := let m := take (length c - 16) c in
    if decide (c = m ++ quick_tag k n a m) then Some m else None;
  x25519_base := @x25519_base toy;
  x25519_dh := @x25519_dh toy;
  biguint_from_bytes_be := @biguint_from_bytes_be toy;
  biguint_modpow := @biguint_modpow toy;
  biguint_to_bytes_be := @biguint_to_bytes_be toy |}.

#[local] Instance quick_legacy : LegacyCrypto := {|
  md4 := quick_digest 16; des_block k b := quick_digest 8 (k ++ b) |}.

Definition quick_cert (hd : bytes) (issuer_key : Z) : bytes := hd ++ [issuer_key] ++ quick_digest 32 hd.
Definition quick_anchor : bytes := quick_cert [1; 1; 0; 99; 1; 11] 11.
Definition quick_chain : list bytes := [quick_cert [3; 2; 0; 99; 0; 13] 12; quick_cert [2; 1; 0; 99; 1; 12] 11].

(** The messages of a responder with the example certificates, in answer to the client *)
Fixpoint eap_answers (fuel : nat) (si : EapInitiator * SeedEntropy) (sr : EapResponder * SeedEntropy) (m : bytes) : list bytes :=
  match fuel with
  | O => []
  | S f =>
      match EapResponder_handle m sr with
      | (Done (Reply m'), sr') =>
          m' :: match EapInitiator_handle m' si with (Done (Reply m''), si') => eap_answers f si' sr' m'' | _ => [] end
      | (Done (EapEstablished (Some m')), _) => [m']
      | _ => []
      end
  end.

(** [ike_client_eap 1.2.3.4 U pw <name> ca.der] *)
Definition example_eap_args : list str := [[101]; [49; 46; 50; 46; 51; 46; 52]; [85]; [112; 119]; [3]; [99]].

(** IKE_SA_INIT and the EAP exchange of this client, as the other end computes them *)
Definition example_eap_run : list bytes :=
  let '(li, g) := LocalSecret_generate (SeedEntropy_new 5) 32 in
  let lr := (LocalSecret_generate (SeedEntropy_new 7) 32).1 in
  unwrap_or [] (
    req ← initiator_request li default_offer;
    '(resp, cr) ← responder_respond req lr;
    ci ← initiator_complete li req resp;
    let i := EapInitiator_new ci (Identification_fqdn [85]) [85] [112; 119] 0xEA90001 (TrustedCas [quick_anchor] [3] 50) in
    let r := EapResponder_new cr example_id_r
      (ServerCert (SkEcdsaP256 ([13] : EcSigningKey (Pki := toy_pki))) quick_chain) [85] [112; 119] 200 in
    match EapInitiator_start i g with
    | (Done m, g') => Ok (resp :: eap_answers 8 (i, g') (r, SeedEntropy_new 2) m)
    | _ => Ok [resp]
    end).

Definition example_eap_script : Script SeedEntropy :=
  mkScript (Some <$> example_eap_run) [] (Some (SeedEntropy_new 5)) (Some 50) (Some quick_anchor).

Lemma ike_client_eap_sound_witness :
  exists now sa d, run_sa example_eap_script sa /\ client_heard example_eap_script d /\
    server_proved sa [quick_anchor] [3] now d.
Proof.
  assert (E : (ike_client_eap example_eap_args example_eap_script).1 = Done 0) by (vm_compute; reflexivity).
  destruct (ike_client_eap example_eap_args example_eap_script) as [r s'] eqn:Er. cbn [fst] in E. subst r.
  destruct (ike_client_eap_sound example_eap_args example_eap_script s' Er) as (ca & now & sa & d & Hca & _ & Hsa & Hd & Hp).
  injection Hca as <-. exists now, sa, d. exact (conj Hsa (conj Hd Hp)).
Defined.
