(* ===== verification/Testing.v ===== *)
(** * The unit tests' assertions

    The [#[cfg(test)]] modules of the crate are translated too, in the files [Tests*].  A
    test is an [outcome unit]: a failed assertion or [unwrap] panics, so that a test passes
    when its value is [Ok tt]. *)
From S2P Require Import Prelude Outcome.

Abbreviation test := (outcome unit).

(** [assert!], [assert_eq!] and [assert_ne!] *)
Definition assert (b : bool) : test := if b then Ok tt else Panic.
Definition assert_eq {A} `{!EqDecision A} (x y : A) : test := assert (bool_decide (x = y)).
Definition assert_ne {A} `{!EqDecision A} (x y : A) : test := assert (bool_decide (x <> y)).

(** [.unwrap()] on a [Result] and on an [Option], and [.unwrap_err()] *)
Definition unwrap {A} (m : outcome A) : outcome A := match m with Ok a => Ok a | _ => Panic end.
Definition unwrap_some {A} (o : option A) : outcome A := match o with Some a => Ok a | None => Panic end.
Definition unwrap_err {A} (m : outcome A) : outcome IkeError := match m with Err e => Ok e | _ => Panic end.

(** [.is_err()] *)
Definition is_err {A} (m : outcome A) : bool := match m with Err _ => true | _ => false end.

(** [v[i]] for a vector of any type *)
Definition nth_of {A} (l : list A) (i : nat) : outcome A := match l !! i with Some a => Ok a | None => Panic end.

(** Exclusive or of the last octet, as the tests that tamper with a message do *)
Definition flip_at (i : nat) (x : Z) (l : bytes) : bytes := alter (Z.lxor x) i l.

Definition passes (t : test) : bool := bool_decide (t = Ok tt).

(** The result of a run of tests: the numbers of those that fail *)
Definition failures (ts : list test) : list nat :=
  (fun p => p.1) <$> filter (fun p => passes p.2 = false) (imap pair ts).

Lemma failures_none ts : failures ts = [] -> Forall (fun t => t = Ok tt) ts.
Proof.
  intros E. apply Forall_lookup. intros i t Ht.
  assert (Hn : (i, t) ∉ filter (fun p => passes p.2 = false) (imap pair ts)).
  { intros Hin. unfold failures in E. apply fmap_nil_inv in E. rewrite E in Hin. by apply not_elem_of_nil in Hin. }
  rewrite list_elem_of_filter in Hn. destruct (passes t) eqn:Ep.
  - unfold passes in Ep. by apply bool_decide_eq_true in Ep.
  - destruct Hn. split; [done|]. apply list_elem_of_lookup. exists i. rewrite list_lookup_imap, Ht. done.
Qed.
