(* ===== verification/ServerSpec.v ===== *)
(** * What the IKEv2 server promises

    An abstract server without keys, messages and randomness: a map from SPI pairs to the stage
    of their handshake, advanced by the events that [handle_one] reports.  The server of
    [Server] refines it, whatever arrives, and its tables can be read off the log of
    its events. *)
From stdpp Require Import gmap.
From S2P Require Import Prelude Outcome Primitives Entropy Message Payload Crypto Sk Negotiate Esp Natt Exchange Informational Sign IkeAuth Transport Rekey Server.

(** ** The abstract server *)

(** IKE_SA_INIT has been answered; or IKE_AUTH too, and the CHILD SA has not been taken. *)
Inductive Stage := HalfOpen | Up.

#[export] Instance Stage_eq_dec : EqDecision Stage.
Proof. solve_decision. Defined.

Abbreviation stages := (gmap (Z * Z) Stage).

(** The operations of a server's life, with what they reported *)
Inductive log_entry := Handled (r : driver ServerEvent) | Taken (key : Z * Z).

(** When an operation may happen, and what it does to the stages *)
Definition permitted (e : log_entry) (m : stages) : Prop :=
  match e with
  | Handled (Done (EvEstablished i r _)) => is_Some (m !! (i, r))
  | Handled Panicked => False
  | _ => True
  end.

Definition advance (e : log_entry) (m : stages) : stages :=
  match e with
  | Handled (Done (EvSaInit i r)) => <[(i, r) := default HalfOpen (m !! (i, r))]> m
  | Handled (Done (EvEstablished i r _)) => <[(i, r) := Up]> m
  | Taken key => alter (fun _ => HalfOpen) key m
  | _ => m
  end.

(** The runs of the abstract server *)
Inductive follows : list log_entry -> stages -> Prop :=
| fol_start : follows [] ∅
| fol_step log m e : follows log m -> permitted e m -> follows (log ++ [e]) (advance e m).

(** The SPI pair an operation is about *)
Definition about (e : log_entry) (k : Z * Z) : Prop :=
  match e with
  | Handled (Done (EvSaInit i r)) | Handled (Done (EvEstablished i r _)) => k = (i, r)
  | Taken key => k = key
  | _ => False
  end.

(** ** The abstraction of a server's state *)
Section abstraction.
Context `{!Pki} {Sock G : Type}.
Implicit Types (s : Server Sock G).

Definition stage_at s (k : Z * Z) (_ : CompletedSaInit) : option Stage :=
  Some (if children s !! k is Some _ then Up else HalfOpen).

Definition stages_of s : stages := map_imap (stage_at s) (sessions s).

(** A CHILD SA belongs to a session. *)
Definition children_owned s : Prop := dom (children s) ⊆ dom (sessions s).

Lemma lookup_stages s k : stages_of s !! k =
  (fun _ => if children s !! k is Some _ then Up else HalfOpen) <$> sessions s !! k.
Proof. unfold stages_of. rewrite map_lookup_imap. by destruct (sessions s !! k). Qed.

Lemma size_stages s : size (stages_of s) = size (sessions s).
Proof.
  assert (E : dom (stages_of s) = dom (sessions s) :> gset (Z * Z)).
  { apply set_eq. intros k. by rewrite !elem_of_dom, lookup_stages, fmap_is_Some. }
  pose proof (size_dom (D := gset (Z * Z)) (stages_of s)) as E1.
  pose proof (size_dom (D := gset (Z * Z)) (sessions s)) as E2. congruence.
Qed.

Lemma owned_session s k : children_owned s -> is_Some (children s !! k) -> is_Some (sessions s !! k).
Proof. intros Ho. rewrite <- !elem_of_dom. apply Ho. Qed.
End abstraction.

(** ** Simulation *)

(** The runs of the server, with the log of its operations; the network may change the
    socket between them. *)
Inductive logged `{!Primitives, !Pki, Transport Sock, Entropy G} : list log_entry -> Server Sock G -> Prop :=
| log_bind n g auth : logged [] (Server_bind n g auth)
| log_handle log s : logged log s -> logged (log ++ [Handled (handle_one s).1]) (handle_one s).2
| log_take log s i r : logged log s -> logged (log ++ [Taken (i, r)]) (take_child i r s).2
| log_arrive log s n : logged log s -> logged log (put_transport n s).

Section simulation.
Context `{!Primitives, !Pki, !HmacLaws, !HashLaws, !AeadLaws, !BigUintLaws, !X25519Laws,
  Transport Sock, !TransportLaws Sock, Entropy G, !EntropyLaws G}.
Implicit Types (s : Server Sock G).

(** What an operation leaves as it was *)
Definition untouched s s' (e : log_entry) : Prop :=
  forall k, ~ about e k -> sessions s' !! k = sessions s !! k /\ children s' !! k = children s !! k.

Record simulates s s' (e : log_entry) : Prop := {
  sim_permitted : permitted e (stages_of s);
  sim_advance : stages_of s' = advance e (stages_of s);
  sim_owned : children_owned s -> children_owned s';
  sim_untouched : untouched s s' e }.

Lemma simulates_same s s' e : sessions s' = sessions s -> children s' = children s ->
  permitted e (stages_of s) -> advance e (stages_of s) = stages_of s -> simulates s s' e.
Proof.
  intros Es Ec Hp Ha. constructor.
  - done.
  - rewrite Ha. apply map_eq. intros k. by rewrite !lookup_stages, Es, Ec.
  - unfold children_owned. by rewrite Es, Ec.
  - intros k _. by rewrite Es, Ec.
Qed.

Lemma simulates_sa_init s s' i r sa : children_owned s -> sessions s' = <[(i, r) := sa]> (sessions s) ->
  children s' = children s -> simulates s s' (Handled (Done (EvSaInit i r))).
Proof.
  intros Ho Es Ec. constructor.
  - done.
  - apply map_eq. intros k. cbn [advance]. rewrite lookup_stages, Es, Ec.
    destruct (decide (k = (i, r))) as [->|Hk]; [rewrite !lookup_insert_eq|by rewrite !lookup_insert_ne, lookup_stages by done].
    rewrite lookup_stages. destruct (sessions s !! (i, r)) eqn:E; [done|]. cbn.
    destruct (children s !! (i, r)) eqn:Ech; [|done].
    destruct (owned_session s (i, r) Ho) as [x Hx]; [by eexists|by rewrite E in Hx].
  - unfold children_owned. rewrite Es, Ec, dom_insert. set_solver.
  - intros k Hk. cbn in Hk. by rewrite Es, Ec, lookup_insert_ne by done.
Qed.

Lemma simulates_established s s' i r id sa ch : sessions s !! (i, r) = Some sa -> sessions s' = sessions s ->
  children s' = <[(i, r) := ch]> (children s) -> simulates s s' (Handled (Done (EvEstablished i r id))).
Proof.
  intros Hs Es Ec. constructor.
  - cbn. rewrite lookup_stages, Hs. by eexists.
  - apply map_eq. intros k. cbn [advance]. rewrite lookup_stages, Es, Ec.
    destruct (decide (k = (i, r))) as [->|Hk]; [rewrite !lookup_insert_eq; by rewrite Hs|by rewrite !lookup_insert_ne, lookup_stages by done].
  - unfold children_owned. rewrite Es, Ec, dom_insert. intros Ho.
    assert ((i, r) ∈ dom (sessions s)) by (apply elem_of_dom; by eexists). set_solver.
  - intros k Hk. cbn in Hk. by rewrite Es, Ec, lookup_insert_ne by done.
Qed.

Lemma handle_one_simulates s : children_owned s -> simulates s (handle_one s).2 (Handled (handle_one s).1).
Proof.
  intros Ho. pose proof (handle_one_effect s) as E. destruct (recv_from (transport s)) as [[[data from]|] n].
  2: { rewrite E. by apply simulates_same. }
  unfold act_wp in E. destruct (handle_one s) as [x s']. destruct E as [Hx [_ E]]. cbn [fst snd].
  destruct x as [[i r|i r id|]|e|]; [| |by destruct E; apply simulates_same|by destruct E; apply simulates_same|done].
  - destruct E as (sa & _ & Es & Ec). by eapply simulates_sa_init.
  - destruct E as (sa & ch & Hs & _ & Es & Ec). by eapply simulates_established.
Qed.

Lemma take_child_simulates s i r : simulates s (take_child i r s).2 (Taken (i, r)).
Proof.
  constructor.
  - done.
  - apply map_eq. intros k. cbn [advance take_child snd]. rewrite lookup_stages. cbn [sessions children].
    destruct (decide (k = (i, r))) as [->|Hk].
    + rewrite lookup_alter_eq, lookup_stages, lookup_delete_eq. by destruct (sessions s !! (i, r)).
    + by rewrite lookup_alter_ne, lookup_stages, lookup_delete_ne by done.
  - unfold children_owned. cbn [take_child snd sessions children]. rewrite dom_delete_L. set_solver.
  - intros k Hk. cbn in Hk. cbn [take_child snd sessions children]. by rewrite lookup_delete_ne by done.
Qed.

Lemma logged_follows log s : logged log s -> follows log (stages_of s) /\ children_owned s.
Proof.
  induction 1 as [n g auth|log s _ [IH Ho]|log s i r _ [IH Ho]|log s n _ IH].
  - split; [|done]. assert (E : stages_of (Server_bind n g auth) = ∅); [|rewrite E; apply fol_start].
    apply map_eq. intros k. by rewrite lookup_stages, !lookup_empty.
  - destruct (handle_one_simulates s Ho) as [Hp Ha Hw _]. split; [|by apply Hw]. rewrite Ha. by apply fol_step.
  - destruct (take_child_simulates s i r) as [Hp Ha Hw _]. split; [|by apply Hw]. rewrite Ha. by apply fol_step.
  - exact IH.
Qed.
End simulation.

(** ** What the abstract server guarantees *)

(** No session is forgotten: a SPI pair that was ever half open keeps its stage or a later one. *)
Lemma advance_mono e m k : is_Some (m !! k) -> is_Some (advance e m !! k).
Proof.
  intros Hk. destruct e as [[[i r|i r id|]|?|]|key]; cbn [advance]; try done.
  - destruct (decide (k = (i, r))) as [->|]; [by rewrite lookup_insert_eq|by rewrite lookup_insert_ne].
  - destruct (decide (k = (i, r))) as [->|]; [by rewrite lookup_insert_eq|by rewrite lookup_insert_ne].
  - by apply lookup_alter_is_Some.
Qed.

(** The log of a pair that is up: IKE_SA_INIT, later IKE_AUTH, and no removal since *)
Definition went_up (log : list log_entry) (i r : Z) : Prop :=
  exists l1 l2 l3 id, log = l1 ++ [Handled (Done (EvSaInit i r))] ++ l2 ++
      [Handled (Done (EvEstablished i r id))] ++ l3 /\ Taken (i, r) ∉ l3.

Definition is_sa_init (e : log_entry) : bool := match e with Handled (Done (EvSaInit _ _)) => true | _ => false end.

Lemma follows_opened log m i r : follows log m -> is_Some (m !! (i, r)) -> Handled (Done (EvSaInit i r)) ∈ log.
Proof.
  induction 1 as [|log m e _ IH Hp]; [rewrite lookup_empty; by intros []|]. intros Hk. apply elem_of_app.
  destruct e as [[[i' r'|i' r' id|]|?|]|key]; cbn [advance permitted] in *; try (left; by apply IH).
  - destruct (decide ((i', r') = (i, r))) as [[= -> ->]|]; [right; set_solver|].
    left. apply IH. by rewrite lookup_insert_ne in Hk.
  - destruct (decide ((i', r') = (i, r))) as [[= -> ->]|]; [left; by apply IH|].
    left. apply IH. by rewrite lookup_insert_ne in Hk.
  - left. apply IH. by apply lookup_alter_is_Some in Hk.
Qed.

Lemma went_up_snoc log i r e : went_up log i r -> e <> Taken (i, r) -> went_up (log ++ [e]) i r.
Proof.
  intros (l1 & l2 & l3 & id & -> & Hn) He. exists l1, l2, (l3 ++ [e]), id.
  split; [by rewrite <- !app_assoc|]. set_solver.
Qed.

Lemma follows_up log m i r : follows log m -> m !! (i, r) = Some Up -> went_up log i r.
Proof.
  induction 1 as [|log m e Hf IH Hp]; [done|]. intros Hk.
  destruct e as [[[i' r'|i' r' id|]|?|]|key]; cbn [advance permitted] in *;
    try (apply went_up_snoc; [by apply IH|done]).
  - apply went_up_snoc; [apply IH|done]. destruct (decide ((i', r') = (i, r))) as [[= -> ->]|].
    + rewrite lookup_insert_eq in Hk. by destruct (m !! (i, r)) as [[]|].
    + by rewrite lookup_insert_ne in Hk.
  - destruct (decide ((i', r') = (i, r))) as [[= -> ->]|].
    + pose proof (follows_opened _ _ _ _ Hf Hp) as (l1 & l2 & ->)%list_elem_of_split.
      exists l1, l2, [], id. split; [by rewrite <- !app_assoc|set_solver].
    + apply went_up_snoc; [apply IH|done]. by rewrite lookup_insert_ne in Hk.
  - destruct (decide (key = (i, r))) as [->|].
    + rewrite lookup_alter_eq in Hk. by destruct (m !! (i, r)).
    + apply went_up_snoc; [apply IH|by intros [=]]. by rewrite lookup_alter_ne in Hk.
Qed.

Lemma size_insert_le {V} (m : gmap (Z * Z) V) k x : (size (<[k := x]> m) <= S (size m))%nat.
Proof.
  rewrite map_size_insert. by destruct (m !! k); simpl; lia.
Qed.

Lemma follows_size log m : follows log m -> (size m <= length (List.filter is_sa_init log))%nat.
Proof.
  induction 1 as [|log m e _ IH Hp]; [by rewrite map_size_empty|].
  rewrite List.filter_app, length_app. destruct e as [[[i r|i r id|]|?|]|key]; cbn [advance permitted List.filter is_sa_init length] in *; try lia.
  - pose proof (size_insert_le m (i, r) (default HalfOpen (m !! (i, r)))). lia.
  - destruct Hp as [x Hx]. rewrite map_size_insert_Some by (by eexists). lia.
  - assert (E : size (alter (fun _ => HalfOpen) key m) = size m); [|lia].
    by rewrite <- !(size_dom (D := gset (Z * Z))), dom_alter_L.
Qed.

(** ** The runs of the server are logged *)
Section runs.
Context `{!Primitives, !Pki, !HmacLaws, !HashLaws, !AeadLaws, !BigUintLaws, !X25519Laws}.

Lemma reachable_logged `{Transport Sock, Entropy G} heard (s : Server Sock G) :
  reachable heard s -> exists log, logged log s.
Proof.
  induction 1 as [n g auth|heard s n _ [log IH] _|heard s data from n _ [log IH] _|heard s i r _ [log IH]|heard s n _ [log IH]];
    eexists; eauto using logged.
Qed.

Lemma initiator_complete_spi l request response c :
  initiator_complete l request response = Ok c -> spi_i c = ls_spi l.
Proof. unfold initiator_complete. intros Hc. ok_inv. done. Qed.

Context `{Entropy G, !EntropyLaws G}.

(** The secrets of a stranger who opens SPI [k] *)
Definition stranger (k : nat) : LocalSecret := mkLocalSecret (replicate 32 7) (replicate 32 1) (Z.of_nat k).

Lemma stranger_wf k : Z.of_nat k < 2 ^ 64 -> LocalSecret_wf (stranger k).
Proof. intros Hk. constructor; cbn [stranger dh_private ls_nonce ls_spi]; [done|by repeat constructor..|done|split; lia]. Qed.

Definition stranger_request (k : nat) : bytes :=
  match initiator_request (stranger k) default_offer with Ok m => m | _ => [] end.

(** One request of a stranger, and the first [n] of them *)
Definition flood_step (s : Server Mailbox G) (k : nat) : driver ServerEvent * Server Mailbox G :=
  handle_one (put_transport (mkMailbox [(stranger_request k, client_addr)] []) s).

Fixpoint flood (n : nat) (s : Server Mailbox G) : Server Mailbox G :=
  match n with O => s | S k => (flood_step (flood k s) k).2 end.

(** One more request opens one more session. *)
Lemma stranger_opens (s : Server Mailbox G) k : Z.of_nat k < 2 ^ 64 ->
  exists r cr, (flood_step s k).1 = Done (EvSaInit (Z.of_nat k) r) /\
    sessions (flood_step s k).2 = <[(Z.of_nat k, r) := cr]> (sessions s) /\
    children (flood_step s k).2 = children s /\
    exists resp, outbox (transport (flood_step s k).2) = [(resp, client_addr)].
Proof.
  intros Hk. pose proof (stranger_wf k Hk) as Hw. unfold flood_step, stranger_request.
  destruct (initiator_request_ok (stranger k) default_offer Hw default_offer_wf)
    as (pub & _ & _ & _ & _ & _ & Ereq & _).
  set (m := build_sa_init _ _ _ _ _ _) in Ereq. rewrite Ereq.
  destruct (serve_sa_init (put_transport (mkMailbox [(m, client_addr)] []) s) (stranger k) m client_addr)
    as (resp & ci & cr & g & E & Hc & Hs & _); try done.
  rewrite E. exists (spi_r cr), cr. apply initiator_complete_spi in Hc. destruct Hs as (_ & Hi & _).
  rewrite <- Hi, Hc. split_and!; [done..|by exists resp].
Qed.

Lemma flood_opens (s : Server Mailbox G) n : Z.of_nat n <= 2 ^ 64 ->
  children (flood n s) = children s /\
  forall k, (k < n)%nat -> exists r, is_Some (session (flood n s) (Z.of_nat k) r).
Proof.
  induction n as [|n IH]; intros Hn; [split; [done|lia]|]. destruct IH as [Hc IH]; [lia|].
  destruct (stranger_opens (flood n s) n) as (r & cr & _ & Es & Ec & _); [lia|]. cbn [flood]. split; [congruence|].
  intros k Hk. unfold session. rewrite Es. destruct (decide (k = n)) as [->|].
  - exists r. by rewrite lookup_insert_eq.
  - destruct (IH k) as [r' Hr]; [lia|]. exists r'. rewrite lookup_insert_ne; [done|]. intros [= ? _]. lia.
Qed.

(** A table with a key for each of [n] first components has at least [n] entries. *)
Lemma size_by_first {V} (m : gmap (Z * Z) V) n :
  (forall k, (k < n)%nat -> exists r, is_Some (m !! (Z.of_nat k, r))) -> (n <= size m)%nat.
Proof.
  intros Hm. assert (Hsub : (Z.of_nat <$> seq 0 n) ⊆+ ((fun x => x.1.1) <$> map_to_list m)).
  { apply NoDup_submseteq; [apply NoDup_fmap_2; [apply _|apply NoDup_seq]|].
    intros x (k & -> & Hk%elem_of_seq)%list_elem_of_fmap. destruct (Hm k) as (r & v & Hv); [lia|].
    apply list_elem_of_fmap. exists ((Z.of_nat k, r), v). split; [done|]. by apply elem_of_map_to_list. }
  apply submseteq_length in Hsub. by rewrite !length_fmap, length_seq, length_map_to_list in Hsub.
Qed.
End runs.

(** ** Properties *)
Section properties.
Context `{!Primitives, !Pki, !HmacLaws, !HashLaws, !AeadLaws, !BigUintLaws, !X25519Laws,
  Transport Sock, !TransportLaws Sock, Entropy G, !EntropyLaws G}.

(** C3: The IKEv2 server refines the abstract table of stages, whatever arrives.  Every
    call of [handle_one] and every removal of a CHILD SA, from any state the server
    reaches, is an allowed step of the abstract server, changes the abstract
    table as that step does, and leaves the entries of all other SPI pairs as they were.
    So after every run the tables can be read off the log of the events: the log is a run of
    the abstract server that ends in the abstraction of the tables; a pair has a session exactly
    when it has a stage and a CHILD SA exactly when it is up; a pair is up only after the
    server reported its IKE_SA_INIT, then its IKE_AUTH, and no removal since; there are at
    most as many sessions as reported IKE_SA_INIT exchanges; and no call forgets a session. *)
Theorem ikev2_server_refines log (s : Server Sock G) : logged log s ->
  simulates s (handle_one s).2 (Handled (handle_one s).1) /\
  (forall i r, simulates s (take_child i r s).2 (Taken (i, r))) /\
  follows log (stages_of s) /\
  (forall i r, is_Some (session s i r) <-> is_Some (stages_of s !! (i, r))) /\
  (forall i r, is_Some (child s i r) <-> stages_of s !! (i, r) = Some Up) /\
  (forall i r, is_Some (child s i r) -> went_up log i r) /\
  (size (sessions s) <= length (List.filter is_sa_init log))%nat /\
  (forall i r, is_Some (session s i r) -> is_Some (session (handle_one s).2 i r)).
Proof.
  intros [Hf Ho]%logged_follows.
  assert (Hup : forall i r, is_Some (child s i r) <-> stages_of s !! (i, r) = Some Up).
  { intros i r. rewrite lookup_stages. unfold child. split.
    - intros Hc. destruct (owned_session s _ Ho Hc) as [sa ->]. by destruct Hc as [ch ->].
    - destruct (sessions s !! (i, r)), (children s !! (i, r)); done. }
  assert (Hst : forall (t : Server Sock G) i r, is_Some (session t i r) <-> is_Some (stages_of t !! (i, r))).
  { intros t i r. unfold session. by rewrite lookup_stages, fmap_is_Some. }
  destruct (handle_one_simulates s Ho) as [Hp Ha Hw Hu].
  split_and!; [done|intros; apply take_child_simulates|done|done|done| | |].
  - intros i r Hc. by apply (follows_up log _ i r Hf), Hup.
  - rewrite <- (size_stages s). by apply follows_size.
  - intros i r. rewrite !Hst, Ha. apply advance_mono.
Qed.

(** C29: The server's memory is not bounded by what it authenticates: a peer without credentials
    that sends [n] IKE_SA_INIT requests with different SPIs (for every [n] that the 64-bit SPI
    allows) to any server, in any state, leaves it with a session for each of them, so with at
    least [n] sessions, and with the CHILD SAs it had; each request is reported as an
    IKE_SA_INIT event and answered by one datagram, whatever the requests before it, and none is asked for a cookie. *)
Theorem half_open_sessions_unbounded (s : Server Mailbox G) (n : nat) : Z.of_nat n <= 2 ^ 64 ->
  (forall k, (k < n)%nat -> exists r, (flood_step (flood k s) k).1 = Done (EvSaInit (Z.of_nat k) r) /\
     exists response, outbox (transport (flood (S k) s)) = [(response, client_addr)]) /\
  (forall k, (k < n)%nat -> exists r, is_Some (session (flood n s) (Z.of_nat k) r)) /\
  (n <= size (sessions (flood n s)))%nat /\
  children (flood n s) = children s.
Proof.
  intros Hn. destruct (flood_opens s n Hn) as [Hc Hs]. split_and!; [|done|by apply size_by_first|done].
  intros k Hk. destruct (stranger_opens (flood k s) k) as (r & cr & E & _ & _ & Ho); [lia|]. by exists r.
Qed.
End properties.

Lemma ikev2_server_refines_witness : exists log (s : Server Mailbox SeedEntropy) i r,
  is_Some (child s i r) /\ went_up log i r /\ stages_of s !! (i, r) = Some Up.
Proof.
  destruct example_established as (heard & s & i & r & ch & Hreach & Hch).
  destruct (reachable_logged heard s Hreach) as [log Hl].
  destruct (ikev2_server_refines log s Hl) as (_ & _ & _ & _ & Hup & Hwent & _).
  assert (Hc : is_Some (child s i r)) by (exists ch; exact Hch).
  exists log, s, i, r. exact (conj Hc (conj (Hwent i r Hc) (proj1 (Hup i r) Hc))).
Defined.

Lemma half_open_sessions_unbounded_witness :
  (Z.to_nat 1000000 <= size (sessions (flood (Z.to_nat 1000000) (example_server []))))%nat /\
  children (flood (Z.to_nat 1000000) (example_server [])) = ∅.
Proof.
  destruct (half_open_sessions_unbounded (example_server []) (Z.to_nat 1000000)) as (_ & _ & Hs & Hc);
    [rewrite Z2Nat.id; lia|]. exact (conj Hs Hc).
Defined.
