(* ===== verification/Os.v ===== *)
(** * The operating system under the drivers ([src/src/transport.rs], [src/src/entropy.rs])

    Sockets and files of the operating system are interfaces; [UdpTransport] and [OsEntropy]
    are the crate's layers on top of them, and instances of the classes the drivers are
    written against.  The constructors and socket settings of both servers, both clients and
    the tunnel are here.  The drivers are parametric in the socket: related sockets give the
    same results ([act_sim]), so that what is shown of a driver over an ideal socket holds
    over [UdpTransport]. *)
From stdpp Require Import gmap.
From Stdlib Require Import String.
From S2P Require Import Prelude Outcome Primitives Entropy Payload Crypto Natt Esp Exchange Sign IkeAuth Transport Server Isakmp Crypto1 Phase1 Quick Server1.
#[local] Open Scope Z_scope.
#[local] Open Scope list_scope.

(** ** [std::net::UdpSocket] and [std::fs::File] *)

(** [Duration] in nanoseconds *)
Definition Duration : Type := Z.

(** [Os] is the system's state, [Addr] an [impl ToSocketAddrs], [K] an open socket.  [None] is
    an [io::Error].  [sock_recv_from] writes into the buffer it is given and returns how much. *)
Class UdpSocket (Os Addr K : Type) := {
  sock_bind : Addr -> Os -> option K * Os;
  sock_local_addr : K -> option SocketAddr;
  sock_set_read_timeout : option Duration -> K -> option unit * K;
  sock_recv_from : bytes -> K -> option (nat * SocketAddr) * bytes * K;
  sock_send_to : bytes -> SocketAddr -> K -> option nat * K }.

(** The next datagram that arrives ([None] when the timeout passes first), with its length
    bounded by the 16-bit length field of the UDP header (8 octets).  Receiving copies as much of
    it as the buffer holds to the front of the buffer and drops the rest. *)
Class UdpSocketLaws (Os Addr K : Type) `{!UdpSocket Os Addr K} := {
  datagram : K -> option (bytes * SocketAddr) * K;
  datagram_bytes k d from k' : datagram k = (Some (d, from), k') -> bytes_ok d;
  datagram_fits k d from k' : datagram k = (Some (d, from), k') -> Z.of_nat (length d) <= 2 ^ 16 - 1 - 8;
  sock_recv_spec buf k : sock_recv_from buf k =
    match datagram k with
    | (None, k') => (None, buf, k')
    | (Some (d, from), k') =>
        let n := Nat.min (length d) (length buf) in
        (Some (n, from), take n d ++ drop n buf, k')
    end }.

Class FileSystem (Os F : Type) := {
  file_open : string -> Os -> option F * Os;
  file_read_exact : nat -> F -> option bytes * F }.

(** Reading from the system's random device does not fail. *)
Class UrandomLaws (Os F : Type) `{!FileSystem Os F} : Prop :=
  read_exact_ok n f : exists b f', file_read_exact n f = (Some b, f') /\ length b = n /\ bytes_ok b.

(** ** [struct UdpTransport] *)
Definition MAX_DATAGRAM : nat := Z.to_nat 65535.

Record UdpTransport (K : Type) := mkUdp { socket : K }.
Arguments mkUdp {K} socket.
Arguments socket {K} _.

Section udp.
Context {Os Addr K : Type} `{!UdpSocket Os Addr K}.

(** An [io::Result] from the system, with its state *)
Definition io (A : Type) : Type := Os -> option A * Os.
Definition io_map {A B} (f : A -> B) (m : io A) : io B := fun o => let '(r, o') := m o in (f <$> r, o').

Definition UdpTransport_bind (addr : Addr) : io (UdpTransport K) := io_map mkUdp (sock_bind addr).

Definition UdpTransport_local_addr (t : UdpTransport K) : option SocketAddr := sock_local_addr (socket t).

Definition UdpTransport_set_read_timeout (dur : option Duration) (t : UdpTransport K)
    : option unit * UdpTransport K :=
  let '(r, k) := sock_set_read_timeout dur (socket t) in (r, mkUdp k).

(** [buf.truncate(n)] keeps the first [n] octets. *)
Definition UdpTransport_recv_from (t : UdpTransport K) : option (bytes * SocketAddr) * UdpTransport K :=
  let buf := replicate MAX_DATAGRAM 0 in
  let '(r, buf, k) := sock_recv_from buf (socket t) in
  (match r with Some (n, from) => Some (take n buf, from) | None => None end, mkUdp k).

Definition UdpTransport_send_to (data : bytes) (to : SocketAddr) (t : UdpTransport K)
    : option nat * UdpTransport K :=
  let '(r, k) := sock_send_to data to (socket t) in (r, mkUdp k).

(** The drivers do not look at the number of octets sent. *)
#[export] Instance Udp_transport : Transport (UdpTransport K) := {
  recv_from := UdpTransport_recv_from;
  send_to data to t :=
    let '(r, t') := UdpTransport_send_to data to t in (bool_decide (is_Some r), t') }.

(** ** Construction and settings of the drivers *)
Section drivers.
Context `{!Pki} {G : Type}.

(** [ikev2::Server] and [ikev2::Client] *)
Definition Server_open (addr : Addr) (g : G) (auth : AuthConfig) : io (Server.Server (UdpTransport K) G) :=
  io_map (fun t => Server.Server_bind t g auth) (UdpTransport_bind addr).
Definition Server_local_addr (s : Server.Server (UdpTransport K) G) : option SocketAddr :=
  UdpTransport_local_addr (Server.transport s).
Definition Server_set_read_timeout (dur : option Duration) (s : Server.Server (UdpTransport K) G)
    : option unit * Server.Server (UdpTransport K) G :=
  let '(r, t) := UdpTransport_set_read_timeout dur (Server.transport s) in (r, Server.put_transport t s).

Definition Client_open (addr : Addr) (g : G) : io (Server.Client (UdpTransport K) G) :=
  io_map (fun t => Server.mkClient t g) (UdpTransport_bind addr).
Definition Client_local_addr (c : Server.Client (UdpTransport K) G) : option SocketAddr :=
  UdpTransport_local_addr (Server.cl_transport c).
Definition Client_set_read_timeout (dur : option Duration) (c : Server.Client (UdpTransport K) G)
    : option unit * Server.Client (UdpTransport K) G :=
  let '(r, t) := UdpTransport_set_read_timeout dur (Server.cl_transport c) in (r, Server.put_cl_transport t c).

(** [ikev1::Server] and [ikev1::Client] *)
Definition Server1_open (addr : Addr) (g : G) (cfg : Phase1Config) : io (Server1.Server (UdpTransport K) G) :=
  io_map (fun t => Server1.Server_bind t g cfg) (UdpTransport_bind addr).
Definition Server1_local_addr (s : Server1.Server (UdpTransport K) G) : option SocketAddr :=
  UdpTransport_local_addr (Server1.transport s).
Definition Server1_set_read_timeout (dur : option Duration) (s : Server1.Server (UdpTransport K) G)
    : option unit * Server1.Server (UdpTransport K) G :=
  let '(r, t) := UdpTransport_set_read_timeout dur (Server1.transport s) in (r, Server1.put_transport t s).

Definition Client1_open (addr : Addr) (g : G) : io (Server1.Client (UdpTransport K) G) :=
  io_map (fun t => Server1.mkClient t g) (UdpTransport_bind addr).
Definition Client1_local_addr (c : Server1.Client (UdpTransport K) G) : option SocketAddr :=
  UdpTransport_local_addr (Server1.cl_transport c).
Definition Client1_set_read_timeout (dur : option Duration) (c : Server1.Client (UdpTransport K) G)
    : option unit * Server1.Client (UdpTransport K) G :=
  let '(r, t) := UdpTransport_set_read_timeout dur (Server1.cl_transport c) in (r, Server1.put_cl_transport t c).

(** [Tunnel] *)
Definition Tunnel_new (sa : ChildSa) (t : UdpTransport K) (peer : SocketAddr) : Tunnel (UdpTransport K) :=
  mkTunnel sa t peer.
Definition Tunnel_local_addr (t : Tunnel (UdpTransport K)) : option SocketAddr :=
  UdpTransport_local_addr (tun_transport t).
Definition Tunnel_set_read_timeout (dur : option Duration) (t : Tunnel (UdpTransport K))
    : option unit * Tunnel (UdpTransport K) :=
  let '(r, u) := UdpTransport_set_read_timeout dur (tun_transport t) in (r, put_tun_transport u t).
End drivers.
End udp.

(** ** [struct OsEntropy] *)
Record OsEntropy (F : Type) := mkOsEntropy { file : F }.
Arguments mkOsEntropy {F} file.
Arguments file {F} _.

Section os_entropy.
Context {Os F : Type} `{!FileSystem Os F}.

Definition OsEntropy_new : io (Os := Os) (OsEntropy F) := io_map mkOsEntropy (file_open "/dev/urandom").

(** [self.file.read_exact(out).expect(..)] *)
Definition OsEntropy_fill (n : nat) (g : OsEntropy F) : outcome bytes * OsEntropy F :=
  let '(r, f) := file_read_exact n (file g) in
  (match r with Some b => Ok b | None => Panic end, mkOsEntropy f).

Context `{!UrandomLaws Os F}.

(** Without failing reads the panic does not happen, and [OsEntropy] is a source of entropy. *)
Lemma OsEntropy_fill_ok n g : exists b g', OsEntropy_fill n g = (Ok b, g') /\ length b = n /\ bytes_ok b.
Proof.
  unfold OsEntropy_fill. destruct (read_exact_ok n (file g)) as (b & f & -> & Hl & Hb). by exists b, (mkOsEntropy f).
Qed.

#[export] Instance OsEntropy_entropy : Entropy (OsEntropy F) := fun n g =>
  match OsEntropy_fill n g with (Ok b, g') => (b, g') | (_, g') => (replicate n 0, g') end.

#[export] Instance OsEntropy_laws : EntropyLaws (OsEntropy F).
Proof.
  split; intros n g; unfold fill, OsEntropy_entropy; by destruct (OsEntropy_fill_ok n g) as (b & g' & -> & ? & ?).
Qed.
End os_entropy.

(** ** Drivers over related sockets *)

(** Two actions give the same result and lead from related states to related states. *)
Definition act_sim {S1 S2 A} (R : S1 -> S2 -> Prop) (m1 : action S1 A) (m2 : action S2 A) : Prop :=
  forall s1 s2, R s1 s2 -> (m1 s1).1 = (m2 s2).1 /\ R (m1 s1).2 (m2 s2).2.

(** Sockets that receive and send alike *)
Class TransportSim {S1 S2} `{!Transport S1, !Transport S2} (R : S1 -> S2 -> Prop) : Prop := {
  recv_from_sim n1 n2 : R n1 n2 -> (recv_from n1).1 = (recv_from n2).1 /\ R (recv_from n1).2 (recv_from n2).2;
  send_to_sim data to n1 n2 : R n1 n2 ->
    (send_to data to n1).1 = (send_to data to n2).1 /\ R (send_to data to n1).2 (send_to data to n2).2 }.

Section sim_rules.
Context {S1 S2 : Type} (R : S1 -> S2 -> Prop).

Lemma sim_bind {A B} (m1 : action S1 A) m2 (k1 : A -> action S1 B) k2 :
  act_sim R m1 m2 -> (forall a, act_sim R (k1 a) (k2 a)) -> act_sim R (act_bind m1 k1) (act_bind m2 k2).
Proof.
  intros Hm Hk s1 s2 Hs. unfold act_bind. destruct (Hm s1 s2 Hs) as [E Hs'].
  destruct (m1 s1) as [r1 t1], (m2 s2) as [r2 t2]. cbn [fst snd] in *. subst r2.
  destruct r1 as [a|e|]; [by apply Hk|done|done].
Qed.

Lemma sim_ret {A} (a : A) : act_sim R (act_ret a) (act_ret a).
Proof. by intros s1 s2 Hs. Qed.

Lemma sim_ike {A} (m : outcome A) : act_sim R (ike m) (ike m).
Proof. intros s1 s2 Hs. by destruct m. Qed.

Lemma sim_gets {A} (f1 : S1 -> A) f2 : (forall s1 s2, R s1 s2 -> f1 s1 = f2 s2) -> act_sim R (gets f1) (gets f2).
Proof. intros Hf s1 s2 Hs. cbn. by rewrite (Hf s1 s2). Qed.

Lemma sim_modify (f1 : S1 -> S1) f2 : (forall s1 s2, R s1 s2 -> R (f1 s1) (f2 s2)) -> act_sim R (modify f1) (modify f2).
Proof. intros Hf s1 s2 Hs. split; [done|by apply Hf]. Qed.

Lemma sim_zoom {T1 T2 A} (Q : T1 -> T2 -> Prop) get1 get2 put1 put2 (m1 : action T1 A) m2 :
  (forall s1 s2, R s1 s2 -> Q (get1 s1) (get2 s2)) ->
  (forall s1 s2 t1 t2, R s1 s2 -> Q t1 t2 -> R (put1 t1 s1) (put2 t2 s2)) ->
  act_sim Q m1 m2 -> act_sim R (zoom get1 put1 m1) (zoom get2 put2 m2).
Proof.
  intros Hget Hput Hm s1 s2 Hs. unfold zoom. destruct (Hm _ _ (Hget _ _ Hs)) as [E Ht].
  destruct (m1 (get1 s1)), (m2 (get2 s2)). cbn [fst snd] in *. by split; [|apply Hput].
Qed.

(** A field that both states share *)
Lemma sim_same {T A} get1 get2 put1 put2 (m : action T A) :
  (forall s1 s2, R s1 s2 -> get1 s1 = get2 s2) ->
  (forall s1 s2 t, R s1 s2 -> R (put1 t s1) (put2 t s2)) ->
  act_sim R (zoom get1 put1 m) (zoom get2 put2 m).
Proof.
  intros Hget Hput. apply (sim_zoom eq); [done|by intros s1 s2 t ? Hs <-; apply Hput|].
  by intros t ? <-.
Qed.
End sim_rules.

Lemma sim_recv `{TransportSim S1 S2 R} : act_sim R recv recv.
Proof.
  intros n1 n2 Hn. unfold recv. destruct (recv_from_sim n1 n2 Hn) as [E Hr].
  destruct (recv_from n1) as [r1 ?], (recv_from n2) as [r2 ?]. cbn [fst snd] in *. subst r2. by destruct r1.
Qed.

Lemma sim_send `{TransportSim S1 S2 R} data to : act_sim R (send data to) (send data to).
Proof.
  intros n1 n2 Hn. unfold send. destruct (send_to_sim data to n1 n2 Hn) as [E Hr].
  destruct (send_to data to n1) as [r1 ?], (send_to data to n2) as [r2 ?]. cbn [fst snd] in *. subst r2. by destruct r1.
Qed.

Section parametric.
Context `{!Primitives, !Pki, !Legacy1} {G : Type} `{!Entropy G}.
Context {Sock1 Sock2} `{!Transport Sock1, !Transport Sock2} (R : Sock1 -> Sock2 -> Prop) `{!TransportSim R}.

(** Two runs of a driver agree in everything but the socket, and the sockets are related. *)
Definition server_over (s1 : Server.Server Sock1 G) (s2 : Server.Server Sock2 G) : Prop :=
  match s1, s2 with Server.mkServer n1 g1 a1 t1 c1, Server.mkServer n2 g2 a2 t2 c2 =>
    R n1 n2 /\ (g1, a1, t1, c1) = (g2, a2, t2, c2) end.

Definition client_over (s1 : Server.Client Sock1 G) (s2 : Server.Client Sock2 G) : Prop :=
  match s1, s2 with Server.mkClient n1 g1, Server.mkClient n2 g2 => R n1 n2 /\ g1 = g2 end.

Definition server1_over (s1 : Server1.Server Sock1 G) (s2 : Server1.Server Sock2 G) : Prop :=
  match s1, s2 with Server1.mkServer n1 g1 a1 t1 c1, Server1.mkServer n2 g2 a2 t2 c2 =>
    R n1 n2 /\ (g1, a1, t1, c1) = (g2, a2, t2, c2) end.

Definition client1_over (s1 : Server1.Client Sock1 G) (s2 : Server1.Client Sock2 G) : Prop :=
  match s1, s2 with Server1.mkClient n1 g1, Server1.mkClient n2 g2 => R n1 n2 /\ g1 = g2 end.

Definition tunnel_over (t1 : Tunnel Sock1) (t2 : Tunnel Sock2) : Prop :=
  match t1, t2 with mkTunnel a1 n1 p1, mkTunnel a2 n2 p2 => R n1 n2 /\ (a1, p1) = (a2, p2) end.

(** Reading and writing the fields of related states *)
Ltac fields :=
  let s1 := fresh in let s2 := fresh in let Hs := fresh in
  intros s1 s2; intros; destruct s1, s2; cbn in *; destruct_and?; simplify_eq; by split_and?.

(** Follow the structure of two runs of the same driver. *)
Ltac sim_step :=
  lazymatch goal with
  | |- forall _, _ => intro
  | |- act_sim _ (act_bind _ _) (act_bind _ _) => apply sim_bind
  | |- act_sim _ (act_ret _) (act_ret _) => apply sim_ret
  | |- act_sim _ (ike _) (ike _) => apply sim_ike
  | |- act_sim _ (zoom _ _ recv) _ => apply (sim_zoom _ R); [fields|fields|apply sim_recv]
  | |- act_sim _ (zoom _ _ (send _ _)) _ => apply (sim_zoom _ R); [fields|fields|apply sim_send]
  | |- act_sim _ (zoom _ _ _) _ => apply sim_same; fields
  | |- act_sim _ (gets _) _ => apply sim_gets; fields
  | |- act_sim _ (modify _) _ => apply sim_modify; fields
  | |- act_sim _ (match ?x with _ => _ end) _ => destruct x
  end.
Ltac sim := repeat sim_step.

Lemma handle_one_sim : act_sim server_over Server.handle_one Server.handle_one.
Proof. unfold Server.handle_one, handle_sa_init, handle_auth. sim. Qed.

Lemma connect_sim addr cfg spi : act_sim client_over (Server.connect addr cfg spi) (Server.connect addr cfg spi).
Proof. unfold Server.connect, sa_init, authenticate. sim. Qed.

Lemma handle_one1_sim : act_sim server1_over Server1.handle_one Server1.handle_one.
Proof.
  unfold Server1.handle_one, handle_aggressive, handle_quick, set_quick, take_quick, get_session, unwrap. sim.
Qed.

Lemma connect1_sim addr cfg : act_sim client1_over (Server1.connect addr cfg) (Server1.connect addr cfg).
Proof. unfold Server1.connect, cl_send, cl_recv. sim. Qed.

Lemma tun_seal_sim inner nh : act_sim tunnel_over (tun_seal inner nh) (tun_seal inner nh).
Proof.
  intros [[i o] n1 p1] [[i2 o2] n2 p2] [Hn [= <- <- <-]]. unfold tun_seal. cbn [tun_sa outbound].
  by destruct (EspSa_seal _ inner nh) as [[]].
Qed.

Lemma tunnel_send_sim inner nh : act_sim tunnel_over (Tunnel_send inner nh) (Tunnel_send inner nh).
Proof. unfold Tunnel_send. apply sim_bind; [apply tun_seal_sim|]. sim. Qed.

Lemma tunnel_recv_sim : act_sim tunnel_over Tunnel_recv Tunnel_recv.
Proof. unfold Tunnel_recv. sim. Qed.
End parametric.

(** ** An ideal socket *)

(** The system's socket without a buffer: a receive returns the datagram that arrived. *)
Record Direct (K : Type) := mkDirect { direct : K }.
Arguments mkDirect {K} direct.
Arguments direct {K} _.

Section ideal.
Context {Os Addr K : Type} `{!UdpSocket Os Addr K, !UdpSocketLaws Os Addr K}.

#[export] Instance Direct_transport : Transport (Direct K) := {
  recv_from n := let '(r, k) := datagram (direct n) in (r, mkDirect k);
  send_to data to n := let '(r, k) := sock_send_to data to (direct n) in (bool_decide (is_Some r), mkDirect k) }.

#[export] Instance Direct_laws : TransportLaws (Direct K).
Proof.
  intros [k] data from n'. cbn. destruct (datagram k) as [[[d f]|] k'] eqn:E; [|done].
  intros [= <- _ _]. by eapply datagram_bytes.
Qed.

(** The buffer is long enough for every datagram, and [truncate] removes what is left of it. *)
Lemma udp_recv_spec (t : UdpTransport K) :
  UdpTransport_recv_from t = ((datagram (socket t)).1, mkUdp (datagram (socket t)).2).
Proof.
  unfold UdpTransport_recv_from. rewrite sock_recv_spec.
  destruct (datagram (socket t)) as [[[d from]|] k] eqn:E; [|done]. apply datagram_fits in E. cbn zeta.
  rewrite length_replicate, Nat.min_l by (unfold MAX_DATAGRAM; lia). cbn [fst snd].
  by rewrite firstn_all, take_app_length.
Qed.

Definition same_socket (t : UdpTransport K) (n : Direct K) : Prop := socket t = direct n.

#[export] Instance udp_sim : TransportSim same_socket.
Proof.
  split.
  - intros [k'] [k] E. unfold same_socket in E. cbn in E. subst k'. cbn [recv_from Udp_transport Direct_transport direct].
    rewrite udp_recv_spec. cbn [socket]. destruct (datagram k). by split.
  - intros data to [k'] [k] E. unfold same_socket in E. cbn in E. subst k'. unfold same_socket.
    cbn [send_to Udp_transport Direct_transport UdpTransport_send_to socket direct].
    unfold UdpTransport_send_to. cbn [socket]. by destruct (sock_send_to data to k).
Qed.

#[export] Instance Udp_laws : TransportLaws (UdpTransport K).
Proof.
  intros t data from n'. cbn [recv_from Udp_transport]. rewrite udp_recv_spec. intros [= E _].
  destruct (datagram (socket t)) as [r k] eqn:Ed. cbn in E. subst r. by eapply datagram_bytes.
Qed.
End ideal.

(** ** What opening a driver gives *)
Section opened.
Context {Os Addr K : Type} `{!UdpSocket Os Addr K, !UdpSocketLaws Os Addr K}.
Context `{!Primitives, !Pki, !Legacy1} {G : Type} `{!Entropy G}.

(** A server that could be bound has a fresh socket and is in an initial state, from which its
    invariants start. *)
Lemma Server_open_reachable addr (g : G) auth o s o' : Server_open addr g auth o = (Some s, o') ->
  Server.reachable [] s /\ (exists k, sock_bind addr o = (Some k, o') /\ Server.transport s = mkUdp k).
Proof.
  unfold Server_open, UdpTransport_bind, io_map. destruct (sock_bind addr o) as [[k|] o1]; [|done].
  intros [= <- <-]. split; [apply Server.reach_bind|by exists k].
Qed.

Lemma Server1_open_reachable addr (g : G) cfg o s o' : Server1_open addr g cfg o = (Some s, o') ->
  Server1.reachable [] s /\ (exists k, sock_bind addr o = (Some k, o') /\ Server1.transport s = mkUdp k).
Proof.
  unfold Server1_open, UdpTransport_bind, io_map. destruct (sock_bind addr o) as [[k|] o1]; [|done].
  intros [= <- <-]. split; [apply Server1.reach_bind|by exists k].
Qed.
End opened.

(** ** Properties *)
Section properties.
Context {Os Addr K : Type} `{!UdpSocket Os Addr K, !UdpSocketLaws Os Addr K}.
Context `{!Primitives, !Pki, !Legacy1} {G : Type} `{!Entropy G}.

(** C28: The UDP layer is transparent.  For every socket of the operating system that copies
    datagrams into the buffer it is given and cuts them off at its end, [UdpTransport::recv_from]
    returns exactly the datagram that arrived and its sender: the zeroed buffer of [MAX_DATAGRAM]
    octets is never too short for UDP's 16-bit length field, and the truncation leaves no padding.
    Hence both servers, both clients and the tunnel, over [UdpTransport], return the same results
    and end in the same state, up to the wrapped socket, as over a socket without any buffer. *)
Theorem udp_transport_transparent :
  (forall t : UdpTransport K, recv_from t = ((datagram (socket t)).1, mkUdp (datagram (socket t)).2)) /\
  act_sim (server_over (G := G) same_socket) Server.handle_one Server.handle_one /\
  act_sim (server1_over (G := G) same_socket) Server1.handle_one Server1.handle_one /\
  (forall addr cfg spi, act_sim (client_over (G := G) same_socket)
     (Server.connect addr cfg spi) (Server.connect addr cfg spi)) /\
  (forall addr cfg, act_sim (client1_over (G := G) same_socket)
     (Server1.connect addr cfg) (Server1.connect addr cfg)) /\
  (forall inner nh, act_sim (tunnel_over same_socket) (Tunnel_send inner nh) (Tunnel_send inner nh)) /\
  act_sim (tunnel_over same_socket) Tunnel_recv Tunnel_recv.
Proof.
  split_and!; intros.
  - apply udp_recv_spec.
  - apply handle_one_sim, _.
  - apply handle_one1_sim, _.
  - apply connect_sim, _.
  - apply connect1_sim, _.
  - apply tunnel_send_sim, _.
  - apply tunnel_recv_sim, _.
Qed.
End properties.

(** ** A concrete system *)

(** Sockets with queues: arrivals are octets and at most as long as UDP allows, and sending
    too long a datagram fails.  A read timeout of zero is refused, as the library does. *)
Record HostSocket := mkHost {
  host_addr : SocketAddr;
  host_timeout : option Duration;
  host_arrivals : list (bytes * SocketAddr);
  host_sent : list (bytes * SocketAddr) }.

Definition UDP_MAX : nat := Z.to_nat (2 ^ 16 - 1 - 8).

Definition host_datagram (k : HostSocket) : option (bytes * SocketAddr) * HostSocket :=
  match host_arrivals k with
  | [] => (None, k)
  | (d, from) :: rest =>
      (Some (take UDP_MAX (as_u8 <$> d), from), mkHost (host_addr k) (host_timeout k) rest (host_sent k))
  end.

#[export] Instance HostSocket_udp : UdpSocket (list SocketAddr) SocketAddr HostSocket := {
  sock_bind addr used :=
    if bool_decide (addr ∈ used) then (None, used) else (Some (mkHost addr None [] []), addr :: used);
  sock_local_addr k := Some (host_addr k);
  sock_set_read_timeout dur k :=
    if bool_decide (dur = Some 0) then (None, k)
    else (Some tt, mkHost (host_addr k) dur (host_arrivals k) (host_sent k));
  sock_recv_from buf k :=
    match host_datagram k with
    | (None, k') => (None, buf, k')
    | (Some (d, from), k') =>
        let n := Nat.min (length d) (length buf) in
        (Some (n, from), take n d ++ drop n buf, k')
    end;
  sock_send_to data to k :=
    if bool_decide (length data <= UDP_MAX)%nat
    then (Some (length data), mkHost (host_addr k) (host_timeout k) (host_arrivals k) (host_sent k ++ [(data, to)]))
    else (None, k) }.

#[export] Instance HostSocket_laws : UdpSocketLaws (list SocketAddr) SocketAddr HostSocket.
Proof.
  refine {| datagram := host_datagram |}.
  - intros k d from k'. unfold host_datagram. destruct (host_arrivals k) as [|[b f] rest]; [done|].
    intros [= <- _ _]. apply bytes_ok_take, Forall_fmap, Forall_true. intros x. by apply Z.mod_pos_bound.
  - intros k d from k'. unfold host_datagram. destruct (host_arrivals k) as [|[b f] rest]; [done|].
    intros [= <- _ _]. rewrite length_take. unfold UDP_MAX. lia.
  - done.
Defined.

(** A counter as the random device *)
#[export] Instance HostFile : FileSystem unit Z := {
  file_open path o := if String.eqb path "/dev/urandom" then (Some 0, o) else (None, o);
  file_read_exact n f := (Some ((fun i => as_u8 (f + Z.of_nat i)) <$> seq 0 n), f + Z.of_nat n) }.

#[export] Instance HostFile_laws : UrandomLaws unit Z.
Proof.
  intros n f. eexists _, _. split_and!; [reflexivity|by rewrite length_fmap, length_seq|].
  apply Forall_fmap, Forall_true. intros x. by apply Z.mod_pos_bound.
Qed.

(** A server that is opened on the system's socket hears a datagram that is not IKE. *)
Lemma udp_transport_transparent_witness :
  let s := Server.Server_bind (mkUdp (mkHost example_addr (Some 1) [([1; 2; 3], client_addr)] [])) (SeedEntropy_new 7)
    (AuthConfig_psk example_id_r [1; 2; 3]) in
  (recv_from (Server.transport s)).1 = Some ([1; 2; 3], client_addr) /\
  (Server.handle_one s).1 = Failed (Ike (Truncated 28 3)).
Proof.
  intros s. destruct (udp_transport_transparent (K := HostSocket) (G := SeedEntropy)) as (Hr & Hs & _).
  split; [rewrite Hr; vm_compute; reflexivity|].
  pose (n := Server.Server_bind (mkDirect (mkHost example_addr (Some 1) [([1; 2; 3], client_addr)] []))
    (SeedEntropy_new 7) (AuthConfig_psk example_id_r [1; 2; 3])).
  destruct (Hs s n) as [E _]; [split; reflexivity|]. rewrite E. vm_compute. reflexivity.
Defined.
