(* ===== verification/Loopback.v ===== *)
(** * The integration tests ([src/tests/handshake_udp.rs], [src/tests/ikev1_handshake_udp.rs])

    A client on the test's thread and a server on a thread of its own, over the loopback
    interface, for IKEv2 and IKEv1.  The tests are shown to pass for every lawful choice of
    the cryptographic primitives and all randomness, not by evaluation. *)
From stdpp Require Import gmap strings.
From S2P Require Import Prelude Outcome Primitives Entropy Message Payload Crypto Sk Negotiate Esp Natt Exchange Informational Sign Payloads1 Crypto1 Phase1 Quick Server1 IkeAuth Transport Rekey Server Eap Testing.
Open Scope Z_scope.

(** ** A server thread on the loopback interface *)

(** One call of a server's [handle_one] on the datagram that arrives: its result and
    what it sends back *)
Class Service (Srv Ev : Type) := serve : bytes -> Srv -> driver Ev * list bytes * Srv.

(** The thread has [lo_calls] calls of [handle_one] left to make and blocks on the socket before
    each; [lo_near] are the datagrams on their way to the client.  An error ends the thread, as
    [unwrap] does. *)
Record Loop (Srv Ev : Type) := mkLoop {
  lo_server : Srv;
  lo_calls : nat;
  lo_near : list (bytes * SocketAddr);
  lo_events : list (driver Ev) }.
Arguments mkLoop {Srv Ev} lo_server lo_calls lo_near lo_events.
Arguments lo_server {Srv Ev} _.
Arguments lo_calls {Srv Ev} _.
Arguments lo_near {Srv Ev} _.
Arguments lo_events {Srv Ev} _.

#[export] Instance Loop_transport `{Service Srv Ev} : Transport (Loop Srv Ev) := {
  recv_from l := match lo_near l with
    | [] => (None, l)
    | d :: rest => (Some d, mkLoop (lo_server l) (lo_calls l) rest (lo_events l)) end;
  send_to data to l := match lo_calls l with
    | O => (true, l)
    | S n =>
        let '(r, out, s) := serve data (lo_server l) in
        (true, mkLoop s (if r is Done _ then n else O) (lo_near l ++ ((fun d => (d, to)) <$> out))
           (lo_events l ++ [r])) end }.

(** [handle.join().unwrap()]: the events of all [n] calls, and the server *)
Fixpoint all_done {E} (rs : list (driver E)) : outcome (list E) :=
  match rs with
  | [] => Ok []
  | Done e :: rest => es ← all_done rest; Ok (e :: es)
  | _ => Panic
  end.

Definition join {Srv Ev} (l : Loop Srv Ev) : outcome (list Ev * Srv) :=
  es ← all_done (lo_events l);
  if decide (lo_calls l = 0%nat) then Ok (es, lo_server l) else Panic.

(** [.unwrap()] of a driver's result *)
Definition unwrap_driver {A St} (r : driver A * St) : outcome (A * St) :=
  match r with (Done a, s) => Ok (a, s) | _ => Panic end.

Section loop.
Context `{Service Srv Ev}.

Lemma loop_send data to (s s' : Srv) n near ev out e : serve data s = (Done e, out, s') ->
  send data to (mkLoop s (S n) near ev) =
    (Done tt, mkLoop s' n (near ++ ((fun d => (d, to)) <$> out)) (ev ++ [Done e])).
Proof. intros Es. unfold send. cbn [send_to Loop_transport lo_calls lo_server lo_near lo_events]. by rewrite Es. Qed.

Lemma loop_recv (s : Srv) n d near (ev : list (driver Ev)) :
  recv (mkLoop s n (d :: near) ev) = (Done d, mkLoop s n near ev).
Proof. done. Qed.
End loop.

(** ** What one CHILD SA seals, the other opens *)
Definition pkt : bytes := Z.of_nat <$> seq 0 40.

Definition esp_both_ways `{!Primitives} (a b : ChildSa) : test :=
  sealed ← unwrap (EspSa_seal (outbound a) pkt 4).1;
  '(got, nh) ← unwrap (EspSa_open (inbound b) sealed);
  assert_eq got pkt;;
  assert_eq nh 4;;
  sealed_r ← unwrap (EspSa_seal (outbound b) pkt 4).1;
  '(got_r, _) ← unwrap (EspSa_open (inbound a) sealed_r);
  assert_eq got_r pkt.

Definition fresh_esp (sa : EspSa) : Prop := EspSa_wf sa /\ esp_seq sa = 0.

Lemma esp_both_ways_ok `{!Primitives, !AeadLaws} a b : fresh_esp (outbound a) -> fresh_esp (outbound b) ->
  child_pair a b -> esp_both_ways a b = Ok tt.
Proof.
  intros [Wa Sa] [Wb Sb] [(A1 & A2 & A3) (B1 & B2 & B3)].
  destruct (seal_open (outbound a) (inbound b) pkt 4) as (p & Ep & Eo & _); try done; [by rewrite Sa|].
  destruct (seal_open (outbound b) (inbound a) pkt 4) as (q & Eq & Er & _); try done; [by rewrite Sb|].
  unfold esp_both_ways. rewrite Ep. cbn [unwrap mbind outcome_bind]. rewrite Eo. cbn [unwrap mbind outcome_bind].
  unfold assert_eq. rewrite !bool_decide_true by done. cbn [assert mbind outcome_bind].
  rewrite Eq. cbn [unwrap mbind outcome_bind]. rewrite Er. cbn [unwrap mbind outcome_bind].
  by rewrite !bool_decide_true by done.
Qed.

(** ** IKEv2 *)
Section ikev2.
Context `{!Primitives, !Pki, Entropy G, Entropy G2}.

#[export] Instance Server_service : Service (Server Mailbox G) ServerEvent := fun data s =>
  let '(r, s') := handle_one (put_transport (mkMailbox [(data, client_addr)] []) s) in
  (r, (outbox (transport s')).*1, s').

Definition gw_id : Identification := Identification_fqdn (ascii_bytes "gw.example").
Definition client_id : Identification := Identification_fqdn (ascii_bytes "client.example").
Definition battery : bytes := ascii_bytes "correct horse battery staple".

(** The sockets are bound on the loopback interface at addresses the system chooses ([server_addr] is
    the server's); the read timeouts do not pass.  [0x1234] and [0x5678] are the seeds of the
    test. *)
Definition full_handshake_over_udp_loopback (server_addr : SocketAddr) (server_entropy : G) (client_entropy : G2) : test :=
  let psk := battery in
  let server := Server_bind (mkMailbox [] []) server_entropy (AuthConfig_psk gw_id psk) in
  let client := mkClient (mkLoop server 2 [] []) client_entropy in
  '((sa, server_id, client_child, _), client) ←
    unwrap_driver (connect server_addr (AuthConfig_psk client_id psk) 0x12345678 client);
  '(events, server) ← join (cl_transport client);
  '(e1, e2) ← match events with [e1; e2] => Ok (e1, e2) | _ => Panic end;
  assert (match e1 with EvSaInit _ _ => true | _ => false end);;
  match e2 with
  | EvEstablished i r peer_id =>
      assert_eq peer_id client_id;;
      assert_eq i (spi_i sa);;
      assert_eq r (spi_r sa)
  | _ => Panic
  end;;
  assert_eq server_id gw_id;;
  assert_eq (c_role sa) Initiator;;
  server_child ← unwrap_some (take_child (spi_i sa) (spi_r sa) server).1;
  esp_both_ways client_child server_child.
End ikev2.

Section ikev2_run.
Context `{!Primitives, !Pki, !HmacLaws, !HashLaws, !AeadLaws, !BigUintLaws, !X25519Laws,
  Entropy G, !EntropyLaws G, Entropy G2, !EntropyLaws G2}.

Lemma initiator_complete_role l request response c :
  initiator_complete l request response = Ok c -> c_role c = Initiator.
Proof. unfold initiator_complete. intros Hc. ok_inv. done. Qed.

Lemma derived_fresh skd n1 n2 x y ca cb : u32_ok x -> u32_ok y ->
  ChildSa_derive skd n1 n2 Initiator x y = Ok ca -> ChildSa_derive skd n1 n2 Responder y x = Ok cb ->
  fresh_esp (outbound ca) /\ fresh_esp (outbound cb).
Proof.
  intros Hx Hy Ea Eb. destruct (ChildSa_derive_ok skd n1 n2 x y) as (k & _ & L1 & L2 & E1 & E2).
  rewrite E1 in Ea. rewrite E2 in Eb. injection Ea as <-. injection Eb as <-.
  split; (split; [|done]); constructor; cbn; by rewrite ?length_take, ?length_drop, ?L1, ?L2.
Qed.

Lemma serve_eq (s s' : Server Mailbox G) data r resp :
  handle_one (put_transport (mkMailbox [(data, client_addr)] []) s) = (r, s') ->
  outbox (transport s') = [(resp, client_addr)] -> serve data s = (r, [resp], s').
Proof. intros E Eo. unfold serve, Server_service. by rewrite E, Eo. Qed.

(** The handshake against a thread that handles two datagrams *)
Lemma loop_connect (s : Server Mailbox G) (g : G2) addr id_i id_r psk spi_a :
  srv_auth s = AuthConfig_psk id_r psk -> IkeAuth.id_fits id_i -> IkeAuth.id_fits id_r -> u32_ok spi_a ->
  exists sa ca cb s2 g2,
    connect addr (AuthConfig_psk id_i psk) spi_a (mkClient (mkLoop s 2 [] []) g) =
      (Done (sa, id_r, ca, None), mkClient (mkLoop s2 0 []
        [Done (EvSaInit (spi_i sa) (spi_r sa)); Done (EvEstablished (spi_i sa) (spi_r sa) id_i)]) g2) /\
    c_role sa = Initiator /\ child s2 (spi_i sa) (spi_r sa) = Some cb /\ child_pair ca cb /\
    fresh_esp (outbound ca) /\ fresh_esp (outbound cb).
Proof.
  intros Hau Hi Hr Ha.
  destruct (LocalSecret_generate_wf g NONCE_LEN) as (Hli & _); [done|].
  destruct (LocalSecret_generate g NONCE_LEN) as [li g1] eqn:Eg. cbn [fst] in Hli.
  destruct (initiator_request_ok li default_offer Hli default_offer_wf)
    as (pub & _ & _ & _ & _ & _ & Ereq & _).
  set (m := build_sa_init _ _ _ _ _ _) in Ereq. clearbody m. clear pub.
  destruct (serve_sa_init (put_transport (mkMailbox [(m, client_addr)] []) s) li m client_addr)
    as (resp & ci & cr & gs & S1 & S2 & Hs & Hci & Hcr); try done.
  set (s1 := mkServer _ _ _ _ _) in S1.
  destruct (fill_ok 8 g1) as (iv & g2 & E2 & Lv & Hv).
  destruct (psk_request_ok ci id_i psk spi_a iv) as (m2 & _ & _ & Em2 & _); try done.
  destruct (serve_auth (put_transport (mkMailbox [(m2, client_addr)] []) s1)
    ci cr id_i id_r psk spi_a iv m2 client_addr [] [])
    as (resp2 & gs2 & ca & cb & spi_b & A1 & A2 & A3 & Hp & _ & D & Hb); try done; [apply lookup_insert_eq|].
  set (s2 := mkServer _ _ _ _ _) in A1.
  pose proof Hs as (_ & Si & Sr & _ & Sk & Sni & Snr & _).
  assert (R1 : sa_init addr (mkClient (mkLoop s 2 [] []) g) =
    (Done ci, mkClient (mkLoop s1 1 [] [Done (EvSaInit (spi_i cr) (spi_r cr))]) g1)).
  { unfold sa_init. act_step (apply zoom_draw; exact Eg). act_step (apply ike_ok; exact Ereq).
    act_step (eapply zoom_done, loop_send, serve_eq; [exact S1|reflexivity]).
    act_step (eapply zoom_done, loop_recv). rewrite (ike_ok _ ci) by exact S2. reflexivity. }
  assert (R2 : authenticate addr ci (AuthConfig_psk id_i psk) spi_a
      (mkClient (mkLoop s1 1 [] [Done (EvSaInit (spi_i cr) (spi_r cr))]) g1) =
    (Done (id_r, spi_b, None), mkClient (mkLoop s2 0 []
      [Done (EvSaInit (spi_i cr) (spi_r cr)); Done (EvEstablished (spi_i cr) (spi_r cr) id_i)]) g2)).
  { unfold authenticate. act_step (apply zoom_draw; exact E2). act_step (apply ike_ok; exact Em2).
    act_step (eapply zoom_done, loop_send, serve_eq; [exact A1|reflexivity]).
    act_step (eapply zoom_done, loop_recv). rewrite (ike_ok _ (id_r, spi_b, None)) by exact A2. reflexivity. }
  exists ci, ca, cb, s2, g2. rewrite Si, Sr. split_and!.
  - unfold connect. act_step (exact R1). act_step (exact R2). act_step (apply ike_ok; exact A3). reflexivity.
  - by eapply initiator_complete_role.
  - apply lookup_insert_eq.
  - done.
  - rewrite Sk, Sni, Snr in A3. by destruct (derived_fresh _ _ _ _ _ _ _ Ha Hb A3 D).
  - rewrite Sk, Sni, Snr in A3. by destruct (derived_fresh _ _ _ _ _ _ _ Ha Hb A3 D).
Qed.
End ikev2_run.

(** ** IKEv1 *)
Module V1.
Section ikev1.
Context `{!Primitives, !Legacy1, Entropy G, Entropy G2}.

#[export] Instance Server1_service : Service (Server1.Server Mailbox G) Server1.ServerEvent := fun data s =>
  let '(r, s') := Server1.handle_one (deliver data s) in
  (r, (outbox (Server1.transport s')).*1, s').

Definition rcfg : Phase1Config := mkPhase1Config battery (Id_ipv4 [192; 168; 0; 1]).
Definition icfg : InitiatorConfig :=
  mkInitiatorConfig battery (Id_ipv4 [10; 1; 1; 1]) Modp1024 false
    ([10; 0; 99; 0], [255; 255; 255; 0]) ([10; 0; 99; 0], [255; 255; 255; 0]).

(** [0x2222] and [0x1111] are the seeds of the test. *)
Definition ikev1_full_handshake_over_udp_loopback (server_addr : SocketAddr) (server_entropy : G) (client_entropy : G2) : test :=
  let server := Server1.Server_bind (mkMailbox [] []) server_entropy rcfg in
  let client := Server1.mkClient (mkLoop server 4 [] []) client_entropy in
  '(est, client) ← unwrap_driver (Server1.connect server_addr icfg client);
  '(events, server) ← join (Server1.cl_transport client);
  '(e1, e2, e3, e4) ← match events with [e1; e2; e3; e4] => Ok (e1, e2, e3, e4) | _ => Panic end;
  assert (match e1 with Phase1SaInit => true | _ => false end);;
  assert (match e2 with Phase1Established => true | _ => false end);;
  assert (match e3 with QuickSaInit => true | _ => false end);;
  assert (match e4 with ChildSaEstablished _ => true | _ => false end);;
  rchild ← unwrap_some (Server1.take_child (p1_cky_i (est_phase1 est)) server).1;
  esp_both_ways (est_child est) rchild.
End ikev1.

Section ikev1_run.
Context `{!Primitives, !Legacy1, !HmacLaws, !HmacSha1Laws, !HashLaws, !BigUintLaws, !X25519Laws, !CbcLaws, !AeadLaws,
  Entropy G, !EntropyLaws G, Entropy G2, !EntropyLaws G2}.
Implicit Types (s : Server1.Server Mailbox G).

Lemma serve1_eq s data r out g ss cs : Server1.handle_one (deliver data s) = (r, after s out g ss cs) ->
  serve data s = (r, out, after s out g ss cs).
Proof.
  intros E. unfold serve, Server1_service. rewrite E. cbn [after Server1.transport outbox].
  rewrite <- list_fmap_compose. f_equal. f_equal. by rewrite list_fmap_id.
Qed.

Lemma loop_connect1 s (g : G2) addr ic gxi gxr :
  i1_group ic <> X25519 -> Phase1.id_fits (i1_our_id ic) -> Phase1.id_fits (c1_our_id (srv_cfg s)) ->
  i1_psk ic = c1_psk (srv_cfg s) -> ts_ok (i1_ts_local ic) -> ts_ok (i1_ts_remote ic) ->
  DhGroup_public (i1_group ic) (drawn_private g) = Ok gxi -> peer_acceptable (i1_group ic) gxi ->
  DhGroup_public (i1_group ic) (drawn_private (Server1.entropy s)) = Ok gxr -> peer_acceptable (i1_group ic) gxr ->
  exists est ch s2 g2,
    Server1.connect addr ic (Server1.mkClient (mkLoop s 4 [] []) g) =
      (Done est, Server1.mkClient (mkLoop s2 0 [] [Done Phase1SaInit; Done Phase1Established; Done QuickSaInit;
        Done (ChildSaEstablished (p1_cky_i (est_phase1 est)))]) g2) /\
    Server1.child s2 (p1_cky_i (est_phase1 est)) = Some ch /\ child_pair (est_child est) ch /\
    fresh_esp (outbound (est_child est)) /\ fresh_esp (outbound ch).
Proof.
  intros Hg Hi Hr Hp T1 T2 Ei Ai Er Ar.
  destruct (phase1_served s g ic gxi gxr) as (msg1 & ai & g1 & msg2 & msg3 & st & g2 & E1 & Hw & _ & E2 & E3 & E4); try done.
  set (s1 := after s [msg2] _ _ _) in *. set (s2 := after s [] g2 (Server1.sessions s1) (Server1.children s)) in *.
  destruct (quick_served s2 g1 st (i1_ts_local ic) (i1_ts_remote ic)) as
    (qm1 & qi & g3 & qm2 & qm3 & ci & g4 & ss1 & Q1 & _ & _ & Q2 & Q3 & Q4 & W1 & W2 & S1 & S2);
    [done..|apply lookup_insert_eq|].
  eexists (mkEstablished st ci), (mkChildSa (inbound ci) (outbound ci)), _, g3. split_and!.
  - unfold Server1.connect, cl_send, cl_recv. act_step (apply zoom_done; exact E1).
    act_step (eapply zoom_done, loop_send, serve1_eq; exact E2). act_step (eapply zoom_done, loop_recv).
    act_step (apply ike_ok; exact E3). act_step (eapply zoom_done, loop_send, serve1_eq; exact E4).
    act_step (apply zoom_done; exact Q1). act_step (eapply zoom_done, loop_send, serve1_eq; exact Q2).
    act_step (eapply zoom_done, loop_recv). act_step (apply ike_ok; exact Q3).
    act_step (eapply zoom_done, loop_send, serve1_eq; exact Q4). reflexivity.
  - apply lookup_insert_eq.
  - by split.
  - by split.
  - by split.
Qed.
End ikev1_run.
End V1.

(** ** Properties *)
Section properties.
Context `{!Primitives, !Pki, !Legacy1, !HmacLaws, !HmacSha1Laws, !HashLaws, !BigUintLaws, !X25519Laws, !CbcLaws, !AeadLaws,
  Entropy G, !EntropyLaws G, Entropy G2, !EntropyLaws G2}.

(** C11: The integration tests pass.  A client and a server thread that answers a fixed number of
    datagrams, on the loopback interface: for every lawful choice of the primitives and every
    randomness of both sides, the IKEv2 test passes; and the IKEv1 test passes whenever the two
    drawn Diffie-Hellman values are in the range its group accepts.  That is: [connect]
    succeeds, the server's calls report exactly the expected events in order (for IKEv2 with the
    client's verified identity and the SPIs the client has), the client has verified the
    server's identity, the server has the CHILD SA, and each side opens what the other seals. *)
Theorem integration_tests_pass addr (gs : G) (gc : G2) :
  full_handshake_over_udp_loopback addr gs gc = Ok tt /\
  forall gxi gxr,
    DhGroup_public Modp1024 (drawn_private gc) = Ok gxi -> peer_acceptable Modp1024 gxi ->
    DhGroup_public Modp1024 (drawn_private gs) = Ok gxr -> peer_acceptable Modp1024 gxr ->
    V1.ikev1_full_handshake_over_udp_loopback addr gs gc = Ok tt.
Proof.
  split.
  - destruct (loop_connect (Server_bind (mkMailbox [] []) gs (AuthConfig_psk gw_id battery)) gc addr client_id
      gw_id battery 0x12345678) as (sa & ca & cb & s2 & g2 & E & Hr & Hc & Hp & Fa & Fb);
      [done|by repeat constructor|by repeat constructor|done|].
    unfold full_handshake_over_udp_loopback. rewrite E. cbn [unwrap_driver mbind outcome_bind cl_transport].
    unfold join. cbn [lo_events all_done mbind outcome_bind lo_calls]. rewrite decide_True by done.
    cbn [mbind outcome_bind lo_server]. unfold assert_eq. rewrite !bool_decide_true by done.
    unfold child in Hc. cbn [assert mbind outcome_bind take_child fst]. rewrite Hc.
    by apply esp_both_ways_ok.
  - intros gxi gxr Ei Ai Er Ar. destruct (V1.loop_connect1 (Server1.Server_bind (mkMailbox [] []) gs V1.rcfg) gc addr V1.icfg gxi gxr)
      as (est & ch & s2 & g2 & E & Hc & Hp & Fa & Fb);
      [done|split; [by repeat constructor|done]|split; [by repeat constructor|done]|done|by repeat constructor..|done|done|done|done|].
    unfold V1.ikev1_full_handshake_over_udp_loopback. rewrite E. cbn [unwrap_driver mbind outcome_bind Server1.cl_transport].
    unfold join. cbn [lo_events all_done mbind outcome_bind lo_calls]. rewrite decide_True by done.
    unfold Server1.child in Hc. cbn [mbind outcome_bind lo_server assert Server1.take_child fst]. rewrite Hc.
    by apply esp_both_ways_ok.
Qed.
End properties.

Lemma integration_tests_pass_witness :
  full_handshake_over_udp_loopback client_addr (mkCounting 40) (mkCounting 20) = Ok tt /\
  V1.ikev1_full_handshake_over_udp_loopback client_addr (mkCounting 40) (mkCounting 20) = Ok tt.
Proof.
  destruct (accepted_public_drawn _ _ example_drawn_a) as (gxi & E1 & A1).
  destruct (accepted_public_drawn _ _ example_drawn_b) as (gxr & E2 & A2).
  destruct (integration_tests_pass client_addr (mkCounting 40) (mkCounting 20)) as [H2 H1].
  exact (conj H2 (H1 gxi gxr E1 A1 E2 A2)).
Defined.
