(* ===== verification/TestsCodec.v ===== *)
(** * Unit tests of the IKEv2 codecs ([message.rs], [payload.rs], [negotiate.rs], [role.rs],
    [entropy.rs], [natt.rs]) *)
From stdpp Require Import strings.
From S2P Require Import Prelude Outcome Testing Primitives Entropy Message Payload Natt Crypto Negotiate Eap.
Open Scope Z_scope.

(** ** [message.rs] *)
Module message.
Definition SA_INIT_HEADER : bytes :=
  be_bytes 8 0x1122334455667788 ++ be_bytes 8 0 ++ [0x21; 0x20; 0x22; 0x08] ++ be_bytes 4 0 ++ be_bytes 4 0x1c.

Definition parses_known_header : test :=
  h ← unwrap (IkeHeader_parse SA_INIT_HEADER);
  assert_eq (initiator_spi h) 0x1122334455667788;;
  assert_eq (responder_spi h) 0;;
  assert_eq (next_payload h) PSecurityAssociation;;
  assert_eq (major_version h, minor_version h) (2, 0);;
  assert_eq (exchange_type h) IkeSaInit;;
  assert (fl_initiator (flags h) && negb (fl_response (flags h)));;
  assert_eq (message_id h) 0;;
  assert_eq (hdr_length h) 28.

Definition header_roundtrips : test :=
  h ← unwrap (IkeHeader_parse SA_INIT_HEADER);
  assert_eq (IkeHeader_to_bytes h) SA_INIT_HEADER;;
  let rebuilt := {|
    initiator_spi := initiator_spi h; responder_spi := 0xaabbccddeeff0011; next_payload := next_payload h;
    major_version := major_version h; minor_version := minor_version h; exchange_type := IkeAuth;
    flags := mkFlags false false true; message_id := 1; hdr_length := 80 |} in
  h2 ← unwrap (IkeHeader_parse (IkeHeader_to_bytes rebuilt));
  assert_eq h2 rebuilt.

Definition rejects_short_header : test :=
  e ← unwrap_err (IkeHeader_parse (take 10 SA_INIT_HEADER));
  assert_eq e (Truncated 28 10).

(** [payloads(first, body).collect::<Result<Vec<_>, _>>()] *)
Definition collect (first : PayloadType) (body : bytes) : outcome (list RawPayload) :=
  mapM (fun r => r) (payload_items first body).

Definition walks_payload_chain : test :=
  let body := [0x22; 0x00; 0x00; 0x08; 0xAA; 0xAA; 0xAA; 0xAA; 0x00; 0x00; 0x00; 0x08; 0xBB; 0xBB; 0xBB; 0xBB] in
  got ← unwrap (collect PSecurityAssociation body);
  assert_eq (length got) 2%nat;;
  p0 ← nth_of got 0; p1 ← nth_of got 1;
  assert_eq (payload_type p0) PSecurityAssociation;;
  assert_eq (data p0) (replicate 4 0xAA);;
  assert_eq (payload_type p1) PKeyExchange;;
  assert_eq (data p1) (replicate 4 0xBB).

(** [payloads(..).next().unwrap().unwrap_err()] *)
Definition next_error (first : PayloadType) (body : bytes) : outcome IkeError :=
  r ← unwrap_some (PayloadIter_next (payloads first body)).1; unwrap_err r.

Definition payload_chain_rejects_bad_length : test :=
  err ← next_error PNonce [0x00; 0x00; 0x00; 0x28; 0x01; 0x02; 0x03; 0x04];
  assert_eq err (BadLength 40 8).

Definition payload_chain_rejects_self_referential_short_length : test :=
  err ← next_error PNotify [0x00; 0x40; 0x00; 0x02];
  assert_eq err (ShortPayload 2).

(** [for v in 0u8..=255] *)
Definition exchange_and_payload_types_roundtrip : test :=
  assert (forallb (fun v => (ExchangeType_to_u8 (ExchangeType_from_u8 v) =? v) &&
                            (PayloadType_to_u8 (PayloadType_from_u8 v) =? v)) (seqZ 0 256)).

Definition message_builder_roundtrips_through_parse : test :=
  let header := {|
    initiator_spi := 0x1122334455667788; responder_spi := 0x99aabbccddeeff00; next_payload := NoNext;
    major_version := 2; minor_version := 0; exchange_type := IkeSaInit;
    flags := mkFlags false false true; message_id := 0; hdr_length := 0 |} in
  let b := MessageBuilder_new header in
  let b := MessageBuilder_push b PSecurityAssociation (replicate 4 0xAA) in
  let b := MessageBuilder_push b PKeyExchange (replicate 36 0xBB) in
  let b := MessageBuilder_push b PNonce (replicate 32 0xCC) in
  let msg := MessageBuilder_build b in
  parsed ← unwrap (IkeHeader_parse msg);
  assert_eq (hdr_length parsed) (Z.of_nat (length msg));;
  assert_eq (next_payload parsed) PSecurityAssociation;;
  body ← slice_from msg IkeHeader_LEN;
  bodies ← unwrap (collect (next_payload parsed) body);
  assert_eq (length bodies) 3%nat;;
  b0 ← nth_of bodies 0; b1 ← nth_of bodies 1; b2 ← nth_of bodies 2;
  assert_eq (payload_type b0) PSecurityAssociation;;
  assert_eq (data b0) (replicate 4 0xAA);;
  assert_eq (payload_type b1) PKeyExchange;;
  assert_eq (length (data b1)) 36%nat;;
  assert_eq (payload_type b2) PNonce;;
  assert_eq (length (data b2)) 32%nat.

Definition tests : list test :=
  [parses_known_header; header_roundtrips; rejects_short_header; walks_payload_chain; payload_chain_rejects_bad_length;
   payload_chain_rejects_self_referential_short_length; exchange_and_payload_types_roundtrip;
   message_builder_roundtrips_through_parse].
End message.

(** ** [payload.rs] *)
Module payload.
Definition ike_proposal : Proposal := {|
  prop_num := 1; prop_protocol := protocol_id.IKE; prop_spi := [];
  transforms := [mkTransform transform_type.ENCR transform_id.AES_GCM_16 (Some 256);
                 mkTransform transform_type.PRF transform_id.PRF_HMAC_SHA2_256 None;
                 mkTransform transform_type.DH transform_id.X25519 None;
                 mkTransform transform_type.ESN transform_id.ESN_NONE None] |}.

Definition sa_roundtrips : test :=
  let sa := {| proposals := [ike_proposal] |} in
  let b := SecurityAssociation_to_bytes sa in
  p ← unwrap (SecurityAssociation_parse b); assert_eq p sa.

Definition certificate_roundtrips : test :=
  let c := Certificate_x509 [0x30; 0x82; 0x01; 0x02; 0xAB; 0xCD] in
  assert_eq (cert_encoding c) X509_SIGNATURE;;
  p ← unwrap (Certificate_parse (Certificate_to_bytes c));
  assert_eq p c;;
  bare ← unwrap (Certificate_parse [4]);
  assert_eq bare {| cert_encoding := 4; cert_data := [] |};;
  assert (is_err (Certificate_parse [])).

Definition cert_request_roundtrips_including_empty : test :=
  let req := CertRequest_x509 [replicate 20 0xAA; replicate 20 0x11] in
  p ← unwrap (CertRequest_parse (CertRequest_to_bytes req));
  assert_eq p req;;
  let empty := CertRequest_x509 [] in
  assert_eq (CertRequest_to_bytes empty) [X509_SIGNATURE];;
  p2 ← unwrap (CertRequest_parse (CertRequest_to_bytes empty));
  assert_eq p2 empty;;
  assert (is_err (CertRequest_parse [4; 0; 1; 2])).

(** [second.num = 2; second.transforms[0] = ..; second.transforms.insert(2, ..)] *)
Definition second_proposal : Proposal := {|
  prop_num := 2; prop_protocol := prop_protocol ike_proposal; prop_spi := prop_spi ike_proposal;
  transforms :=
    let ts := <[0%nat := mkTransform transform_type.ENCR transform_id.AES_CBC (Some 128)]> (transforms ike_proposal) in
    take 2 ts ++ [mkTransform transform_type.INTEG transform_id.AUTH_HMAC_SHA2_256_128 None] ++ drop 2 ts |}.

Definition sa_with_multiple_proposals_roundtrips : test :=
  let sa := {| proposals := [ike_proposal; second_proposal] |} in
  let b := SecurityAssociation_to_bytes sa in
  parsed ← unwrap (SecurityAssociation_parse b);
  assert_eq parsed sa;;
  p1 ← nth_of (proposals parsed) 1; t0 ← nth_of (transforms p1) 0;
  assert_eq (key_length t0) (Some 128).

Definition key_length_attribute_survives_roundtrip : test :=
  let sa := {| proposals := [ike_proposal] |} in
  parsed ← unwrap (SecurityAssociation_parse (SecurityAssociation_to_bytes sa));
  p0 ← nth_of (proposals parsed) 0; encr ← nth_of (transforms p0) 0; t1 ← nth_of (transforms p0) 1;
  assert_eq (tf_id encr) transform_id.AES_GCM_16;;
  assert_eq (key_length encr) (Some 256);;
  assert_eq (key_length t1) None.

Definition ke_roundtrips : test :=
  let ke := {| dh_group := transform_id.X25519; ke_data := replicate 32 0xAB |} in
  let b := KeyExchange_to_bytes ke in
  assert_eq (length b) (4 + 32)%nat;;
  p ← unwrap (KeyExchange_parse b); assert_eq p ke.

Definition nonce_roundtrips : test :=
  let nonce := {| nonce_data := seqZ 0 32 |} in
  assert_eq (nonce_data (Nonce_parse (Nonce_to_bytes nonce))) (nonce_data nonce).

Definition identification_roundtrips : test :=
  let id := Identification_fqdn (ascii_bytes "gateway.example") in
  let b := Identification_to_bytes id in
  b0 ← idx b 0;
  assert_eq b0 ID_FQDN;;
  r ← slice b 1 4;
  assert_eq r [0; 0; 0];;
  p ← unwrap (Identification_parse b); assert_eq p id.

Definition authentication_roundtrips : test :=
  let a := {| auth_meth := auth_method.SHARED_KEY; auth_data := replicate 32 0xAB |} in
  p ← unwrap (Authentication_parse (Authentication_to_bytes a)); assert_eq p a.

Definition notify_roundtrips_and_classifies : test :=
  let n := Notify_status notify_type.NAT_DETECTION_SOURCE_IP (replicate 20 0xEE) in
  p ← unwrap (Notify_parse (Notify_to_bytes n));
  assert_eq p n;;
  assert (negb (Notify_is_error n));;
  assert (Notify_is_error (Notify_status notify_type.NO_PROPOSAL_CHOSEN []));;
  let with_spi := {| n_protocol := protocol_id.ESP; n_spi := [1; 2; 3; 4]; n_type := notify_type.REKEY_SA; n_data := [] |} in
  p2 ← unwrap (Notify_parse (Notify_to_bytes with_spi)); assert_eq p2 with_spi.

Definition delete_roundtrips : test :=
  let ike := Delete_ike_sa in
  p ← unwrap (Delete_parse (Delete_to_bytes ike));
  assert_eq p ike;;
  assert_eq (del_spis ike) [];;
  let esp := Delete_esp [0xDEADBEEF; 0x00000001] in
  let b := Delete_to_bytes esp in
  b1 ← idx b 1;
  assert_eq b1 4;;
  n ← u16be b 2;
  assert_eq n 2;;
  p2 ← unwrap (Delete_parse b); assert_eq p2 esp.

Definition traffic_selectors_roundtrip : test :=
  let ts := {| selectors := [ipv4_any] |} in
  parsed ← unwrap (TrafficSelectors_parse (TrafficSelectors_to_bytes ts));
  assert_eq parsed ts;;
  s0 ← nth_of (selectors parsed) 0;
  assert_eq (start_addr s0) [0; 0; 0; 0];;
  assert_eq (end_addr s0) [255; 255; 255; 255];;
  assert_eq (end_port s0) 65535;;
  let ts2 := {| selectors := [ipv4_any; {|
    ts_type := IPV4_ADDR_RANGE; ip_protocol := 6; start_port := 443; end_port := 443;
    start_addr := [10; 0; 0; 0]; end_addr := [10; 0; 0; 255] |}] |} in
  p2 ← unwrap (TrafficSelectors_parse (TrafficSelectors_to_bytes ts2)); assert_eq p2 ts2.

Definition truncated_inputs_are_rejected_not_panicked : test :=
  e ← unwrap_err (KeyExchange_parse [0; 31; 0]);
  assert (match e with Truncated _ _ => true | _ => false end);;
  assert (is_err (SecurityAssociation_parse [0; 0; 0; 4])).

Definition tests : list test :=
  [sa_roundtrips; certificate_roundtrips; cert_request_roundtrips_including_empty; sa_with_multiple_proposals_roundtrips;
   key_length_attribute_survives_roundtrip; ke_roundtrips; nonce_roundtrips; identification_roundtrips;
   authentication_roundtrips; notify_roundtrips_and_classifies; delete_roundtrips; traffic_selectors_roundtrip;
   truncated_inputs_are_rejected_not_panicked].
End payload.

(** ** [negotiate.rs] *)
Module negotiate.
Definition tf (ttype id : Z) (key_length : option Z) : Transform := mkTransform ttype id key_length.

Definition proposal (num : Z) (ts : list Transform) : SecurityAssociation :=
  {| proposals := [{| prop_num := num; prop_protocol := protocol_id.IKE; prop_spi := []; transforms := ts |}] |}.

Definition aead_offer : list Transform :=
  [tf transform_type.ENCR transform_id.AES_GCM_16 (Some 256);
   tf transform_type.PRF transform_id.PRF_HMAC_SHA2_256 None;
   tf transform_type.DH transform_id.X25519 None].

Definition selects_aead_suite : test :=
  let sa := proposal 1 aead_offer in
  chosen ← unwrap_some (select sa);
  assert_eq (encr_id chosen) transform_id.AES_GCM_16;;
  assert_eq (integ_id chosen) None;;
  assert_eq (kl_encr (key_lengths chosen)) 36%nat;;
  assert_eq (kl_integ (key_lengths chosen)) 0%nat;;
  let echo := to_proposal chosen in
  assert (negb (existsb (fun t => tf_type t =? transform_type.INTEG) (transforms echo)));;
  assert (negb (existsb (fun t => tf_type t =? transform_type.ESN) (transforms echo))).

Definition falls_back_to_cbc_hmac : test :=
  let sa := proposal 1
    [tf transform_type.ENCR transform_id.AES_CBC (Some 256);
     tf transform_type.INTEG transform_id.AUTH_HMAC_SHA2_256_128 None;
     tf transform_type.PRF transform_id.PRF_HMAC_SHA2_256 None;
     tf transform_type.DH transform_id.X25519 None] in
  chosen ← unwrap_some (select sa);
  assert_eq (encr_id chosen) transform_id.AES_CBC;;
  assert_eq (integ_id chosen) (Some transform_id.AUTH_HMAC_SHA2_256_128);;
  assert_eq (kl_integ (key_lengths chosen)) 32%nat.

Definition rejects_unsupported_dh : test :=
  let sa := proposal 1
    [tf transform_type.ENCR transform_id.AES_GCM_16 (Some 256);
     tf transform_type.PRF transform_id.PRF_HMAC_SHA2_256 None;
     tf transform_type.DH 5 None] in
  assert_eq (select sa) None.

Definition ignores_esn_if_present : test :=
  let sa := proposal 1 (aead_offer ++ [tf transform_type.ESN transform_id.ESN_NONE None]) in
  assert_ne (select sa) None.

Definition echoed_proposal_reparses : test :=
  let sa := proposal 2 aead_offer in
  chosen ← unwrap_some (select sa);
  let echo := {| proposals := [to_proposal chosen] |} in
  p ← unwrap (SecurityAssociation_parse (SecurityAssociation_to_bytes echo));
  assert_eq p echo;;
  p0 ← nth_of (proposals echo) 0;
  assert_eq (prop_num p0) 2.

Definition tests : list test :=
  [selects_aead_suite; falls_back_to_cbc_hmac; rejects_unsupported_dh; ignores_esn_if_present; echoed_proposal_reparses].
End negotiate.

(** ** [role.rs] and [entropy.rs] *)
Module role.
Definition roles_are_symmetric : test :=
  assert_eq (peer Initiator) Responder;;
  assert_eq (peer (peer Responder)) Responder;;
  assert (header_initiator_flag Initiator);;
  assert (negb (header_initiator_flag Responder)).

Definition tests : list test := [roles_are_symmetric].
End role.

(** The IKEv2 codec, negotiation and role tests of the crate pass on the model: every
    assertion of the twenty-seven tests, on the tests' own headers, payload chains, proposals
    and roles, evaluates to true on the definitions of this development. *)
Theorem codec_tests_pass :
  Forall (fun t => t = Ok tt) (message.tests ++ payload.tests ++ negotiate.tests ++ role.tests).
Proof. apply failures_none. vm_compute. reflexivity. Qed.
