(* ===== verification/TestsCodec1.v ===== *)
(** * Unit tests of the IKEv1 codecs ([isakmp.rs], [payloads.rs], [modecfg.rs]) *)
From stdpp Require Import strings.
From S2P Require Import Prelude Outcome Testing Primitives Eap Isakmp Payloads1 ModeCfg.
Open Scope Z_scope.

(** ** [isakmp.rs] *)
Module isakmp.
Definition header_roundtrips : test :=
  let h := {|
    init_cookie := [1; 2; 3; 4; 5; 6; 7; 8]; resp_cookie := replicate 8 9; next_payload := payload.SA;
    version := VERSION_1_0; exchange_type := exchange.AGGRESSIVE; hdr_flags := 0; message_id := 0; hdr_length := 28 |} in
  p ← unwrap (IsakmpHeader_parse (IsakmpHeader_to_bytes h));
  assert_eq p h;;
  assert_eq (length (IsakmpHeader_to_bytes h)) IsakmpHeader_LEN;;
  assert (is_err (IsakmpHeader_parse (replicate 10 0))).

Definition payload_chain_roundtrips : test :=
  let payloads := [(payload.SA, replicate 12 0xAA); (payload.KE, replicate 128 0xBB);
                   (payload.NONCE, replicate 20 0xCC); (payload.ID, replicate 8 0xDD)] in
  let '(first, body) := encode_payloads payloads in
  assert_eq first payload.SA;;
  parsed ← unwrap (parse_payloads first body);
  assert_eq (length parsed) 4%nat;;
  p0 ← nth_of parsed 0; p1 ← nth_of parsed 1; p3 ← nth_of parsed 3;
  assert_eq p0 {| payload_type := payload.SA; p_data := replicate 12 0xAA |};;
  assert_eq (payload_type p1) payload.KE;;
  assert_eq (length (p_data p1)) 128%nat;;
  assert_eq p3 {| payload_type := payload.ID; p_data := replicate 8 0xDD |}.

Definition build_message_sets_next_payload_and_length : test :=
  let header := {|
    init_cookie := replicate 8 0x11; resp_cookie := replicate 8 0; next_payload := payload.NONE;
    version := VERSION_1_0; exchange_type := exchange.AGGRESSIVE; hdr_flags := 0; message_id := 0; hdr_length := 0 |} in
  let msg := build_message header [(payload.HASH, replicate 20 0x01)] in
  h ← unwrap (IsakmpHeader_parse msg);
  assert_eq (next_payload h) payload.HASH;;
  assert_eq (hdr_length h) (Z.of_nat (length msg));;
  body ← slice_from msg IsakmpHeader_LEN;
  payloads ← unwrap (parse_payloads (next_payload h) body);
  assert_eq payloads [{| payload_type := payload.HASH; p_data := replicate 20 0x01 |}].

Definition empty_chain_is_none : test :=
  let '(first, body) := encode_payloads [] in
  assert_eq first payload.NONE;;
  assert_eq body [];;
  p ← unwrap (parse_payloads payload.NONE []); assert_eq p [].

Definition truncated_and_bad_length_rejected : test :=
  assert (is_err (parse_payloads payload.KE []));;
  assert (is_err (parse_payloads payload.SA [0; 0; 0; 2]));;
  assert (is_err (parse_payloads payload.SA [0; 0; 0xFF; 0xFF; 1; 2])).

Definition tests : list test :=
  [header_roundtrips; payload_chain_roundtrips; build_message_sets_next_payload_and_length; empty_chain_is_none;
   truncated_and_bad_length_rejected].
End isakmp.

(** ** [payloads.rs] *)
Module payloads.
Definition attribute_short_and_long_roundtrip : test :=
  let s := Attribute_short attr.ENCRYPTION enc.AES_CBC in
  '(p, n) ← unwrap (Attribute_parse (Attribute_to_bytes s));
  assert_eq (p, n) (s, 4%nat);;
  assert_eq (Attribute_as_u16 s) (Some enc.AES_CBC);;
  let l := Attribute_long_u32 attr.LIFE_DURATION 28800 in
  let b := Attribute_to_bytes l in
  '(p2, n2) ← unwrap (Attribute_parse b);
  assert_eq p2 l;;
  assert_eq n2 8%nat.

Definition android_transform : Transform := {|
  t_num := 1;
  transform_id := 1;
  attributes :=
    [Attribute_short attr.ENCRYPTION enc.AES_CBC;
     Attribute_short attr.KEY_LENGTH 256;
     Attribute_short attr.HASH hash.SHA2_256;
     Attribute_short attr.GROUP_DESC 2;
     Attribute_short attr.AUTH_METHOD auth.XAUTH_INIT_PSK;
     Attribute_short attr.LIFE_TYPE life.SECONDS;
     Attribute_long_u32 attr.LIFE_DURATION 28800] |}.

Definition transform_roundtrips_and_reads_attrs : test :=
  let t := android_transform in
  parsed ← unwrap (Transform_parse (Transform_to_bytes t));
  assert_eq parsed t;;
  assert_eq (Transform_attr parsed attr.ENCRYPTION) (Some enc.AES_CBC);;
  assert_eq (Transform_attr parsed attr.KEY_LENGTH) (Some 256);;
  assert_eq (Transform_attr parsed attr.GROUP_DESC) (Some 2);;
  assert_eq (Transform_attr parsed attr.AUTH_METHOD) (Some auth.XAUTH_INIT_PSK).

Definition sa_with_multiple_transforms_roundtrips : test :=
  let t2 := {| t_num := 2; transform_id := transform_id android_transform;
    attributes := <[2%nat := Attribute_short attr.HASH hash.SHA1]> (attributes android_transform) |} in
  let sa := {| doi := IPSEC_DOI; situation := SIT_IDENTITY_ONLY; proposals := [{|
    prop_num := 1; protocol_id := protocol.ISAKMP; prop_spi := []; transforms := [android_transform; t2] |}] |} in
  parsed ← unwrap (SaPayload_parse (SaPayload_to_bytes sa));
  assert_eq parsed sa;;
  p0 ← nth_of (proposals parsed) 0;
  assert_eq (length (transforms p0)) 2%nat;;
  t1 ← nth_of (transforms p0) 1;
  assert_eq (Transform_attr t1 attr.HASH) (Some hash.SHA1).

Definition id_roundtrips : test :=
  let id := {| id_ty := id_type.KEY_ID; id_protocol := 0; id_port := 0; id_data := ascii_bytes "groupname" |} in
  p ← unwrap (Id_parse (Id_to_bytes id));
  assert_eq p id;;
  assert_eq (id_data (Id_ipv4 [10; 0; 0; 1])) [10; 0; 0; 1].

Definition tests : list test :=
  [attribute_short_and_long_roundtrip; transform_roundtrips_and_reads_attrs; sa_with_multiple_transforms_roundtrips;
   id_roundtrips].
End payloads.

(** ** [modecfg.rs] *)
Module modecfg.
Definition xauth_request_roundtrips : test :=
  let p := ConfigPayload_new cfg.REQUEST 0x1234
    [Attribute_short cfg_attr.XAUTH_TYPE xauth_type.GENERIC;
     Attribute_long_bytes cfg_attr.XAUTH_USER_NAME [];
     Attribute_long_bytes cfg_attr.XAUTH_USER_PASSWORD []] in
  let b := ConfigPayload_to_bytes p in
  back ← unwrap (ConfigPayload_parse b);
  assert_eq (cfg_type back) cfg.REQUEST;;
  assert_eq (cfg_identifier back) 0x1234;;
  a ← unwrap_some (ConfigPayload_attr back cfg_attr.XAUTH_TYPE);
  assert_eq (Attribute_as_u16 a) (Some xauth_type.GENERIC);;
  assert_ne (ConfigPayload_attr back cfg_attr.XAUTH_USER_NAME) None.

Definition reply_carries_credentials : test :=
  let p := ConfigPayload_new cfg.REPLY 0x1234
    [Attribute_long_bytes cfg_attr.XAUTH_USER_NAME (ascii_bytes "alice");
     Attribute_long_bytes cfg_attr.XAUTH_USER_PASSWORD (ascii_bytes "secret")] in
  back ← unwrap (ConfigPayload_parse (ConfigPayload_to_bytes p));
  u ← unwrap_some (ConfigPayload_attr back cfg_attr.XAUTH_USER_NAME);
  assert_eq (Attribute_bytes u) (ascii_bytes "alice");;
  w ← unwrap_some (ConfigPayload_attr back cfg_attr.XAUTH_USER_PASSWORD);
  assert_eq (Attribute_bytes w) (ascii_bytes "secret").

Definition tests : list test := [xauth_request_roundtrips; reply_carries_credentials].
End modecfg.

(** The IKEv1 codec tests of the crate pass on the model. *)
Theorem codec1_tests_pass : Forall (fun t => t = Ok tt) (isakmp.tests ++ payloads.tests ++ modecfg.tests).
Proof. apply failures_none. vm_compute. reflexivity. Qed.
