(* ===== verification/TestsVectors.v ===== *)
(** * Known answers ([crypto.rs], [mschapv2.rs], [eap.rs], [natt.rs])

    The unit tests with published vectors (RFC 4231, RFC 2759, RFC 3079) and the others of
    these files, run on the model with the standard primitives of [Standard]. *)
From stdpp Require Import strings.
From S2P Require Import Prelude Outcome Testing Primitives Message Payload Natt Crypto Eap Standard.
Open Scope Z_scope.

#[local] Existing Instances std std_legacy.

(** ** [crypto.rs] *)
Module crypto.
(** [hex("..")] of [2 n] digits *)
Definition hex (n : nat) (digits : Z) : bytes := be_bytes n digits.

Definition modp_2_pow_1_is_2_left_padded : test :=
  let one := replicate 31 0 ++ [1] in
  pub14 ← DhGroup_public Modp2048 one;
  assert_eq (length pub14) 256%nat;;
  last ← idx pub14 255;
  assert_eq last 2;;
  assert (forallb (fun b => b =? 0) (take 255 pub14)).

Definition dh_group_rejects_bad_peer_values : test :=
  let priv := replicate 32 0x44 in
  assert (is_err (DhGroup_shared Modp1024 priv (replicate 100 0)));;
  let zero := replicate 128 0 in
  assert (is_err (DhGroup_shared Modp1024 priv zero));;
  let one := <[127%nat := 1]> zero in
  assert (is_err (DhGroup_shared Modp1024 priv one));;
  let pm1 := alter (fun x => x - 1) 127%nat MODP_1024_PRIME in
  assert (is_err (DhGroup_shared Modp1024 priv pm1)).

Definition transform_id_roundtrips : test :=
  assert (forallb (fun '(g, id) => (DhGroup_transform_id g =? id) &&
      bool_decide (DhGroup_from_transform_id id = Some g)) [(X25519, 31); (Modp1024, 2); (Modp2048, 14)]);;
  assert_eq (DhGroup_from_transform_id 99) None.

Definition prf_matches_rfc4231_case1 : test :=
  let key := replicate 20 0x0b in
  let data := ascii_bytes "Hi There" in
  assert_eq (prf key data) (hex 32 0xb0344c61d8db38535ca8afceaf0bf12b881dc200c9833da726e9376c2e32cff7).

Definition prf_plus_follows_the_recurrence : test :=
  let key := ascii_bytes "key material" in
  let seed := ascii_bytes "Ni|Nr|SPIi|SPIr" in
  let out := prf_plus key seed 80 in
  let t1 := prf key (seed ++ [1]) in
  a ← slice out 0 32;
  assert_eq a t1;;
  let t2 := prf key (t1 ++ seed ++ [2]) in
  b ← slice out 32 64;
  assert_eq b t2;;
  assert_eq (length out) 80%nat.

Definition SHARED : bytes := hex 32 0x4a5d9d5ba4ce2de1728e3bf480350f25e07e21c947d19e3376f09b3c1e161742.

Definition session_keys_split_and_are_self_consistent : test :=
  let shared := SHARED in
  let ni := replicate 32 0x11 in
  let nr := replicate 32 0x22 in
  let lengths := mkKeyLengths 32 32 32 in
  keys ← derive_session_keys shared ni nr 1 2 lengths;
  assert_eq (length (sk_d keys)) 32%nat;;
  assert_eq (length (sk_ai keys)) 32%nat;;
  assert_eq (length (sk_er keys)) 32%nat;;
  assert_eq (length (sk_pr keys)) 32%nat;;
  let nonces := ni ++ nr in
  let skeyseed := prf nonces shared in
  let seed := nonces ++ be_bytes 8 1 ++ be_bytes 8 2 in
  let km := prf_plus skeyseed seed 32 in
  assert_eq (sk_d keys) km.

Definition aead_suite_has_no_integrity_keys : test :=
  keys ← derive_session_keys (replicate 32 9) (replicate 16 1) (replicate 16 2) 7 8 (mkKeyLengths 32 0 32);
  assert (bool_decide (sk_ai keys = []) && bool_decide (sk_ar keys = []));;
  assert_eq (length (sk_ei keys)) 32%nat.

Definition child_keys_split_in_keymat_order : test :=
  let skd := replicate 32 0x33 in
  let ni := replicate 16 1 in
  let nr := replicate 16 2 in
  ck ← derive_child_keys skd ni nr 36 0;
  assert_eq (length (encr_i ck)) 36%nat;;
  assert_eq (length (encr_r ck)) 36%nat;;
  assert (bool_decide (integ_i ck = []) && bool_decide (integ_r ck = []));;
  assert_ne (encr_i ck) (encr_r ck);;
  let seed := ni ++ nr in
  assert_eq (encr_i ck) (prf_plus skd seed 36).

Definition tests : list test :=
  [modp_2_pow_1_is_2_left_padded; dh_group_rejects_bad_peer_values; transform_id_roundtrips; prf_matches_rfc4231_case1;
   prf_plus_follows_the_recurrence; session_keys_split_and_are_self_consistent; aead_suite_has_no_integrity_keys;
   child_keys_split_in_keymat_order].
End crypto.

(** ** [mschapv2.rs]: the worked example of RFC 2759, section 9.2 *)
Module mschapv2.
Definition USER : bytes := ascii_bytes "User".
Definition PASSWORD : str := ascii_bytes "clientPass".
Definition AUTH_CHALLENGE : bytes := be_bytes 16 0x5B5D7C7D7B3F2F3E3C2C602132262628.
Definition PEER_CHALLENGE : bytes := be_bytes 16 0x21402324255E262A28295F2B3A337C7E.

Definition rfc2759_challenge_hash : test :=
  h ← challenge_hash PEER_CHALLENGE AUTH_CHALLENGE USER;
  assert_eq h (be_bytes 8 0xD02E4386BCE91226).

Definition rfc2759_nt_password_hash : test :=
  assert_eq (nt_password_hash PASSWORD) (be_bytes 16 0x44EBBA8D5312B8D611474411F56989AE).

Definition rfc2759_password_hash_hash : test :=
  let ph := nt_password_hash PASSWORD in
  assert_eq (hash_nt_password_hash ph) (be_bytes 16 0x41C00C584BD2D91C4017A2A12FA59F3F).

Definition rfc2759_nt_response : test :=
  nt ← generate_nt_response AUTH_CHALLENGE PEER_CHALLENGE USER PASSWORD;
  assert_eq nt (be_bytes 24 0x82309ECD8D708B5EA08FAA3981CD83544233114A3D85D6DF).

Definition rfc2759_authenticator_response : test :=
  nt ← generate_nt_response AUTH_CHALLENGE PEER_CHALLENGE USER PASSWORD;
  s ← generate_authenticator_response PASSWORD nt PEER_CHALLENGE AUTH_CHALLENGE USER;
  assert_eq s (ascii_bytes "S=407A5589115FD0D6209F510FE9C04566932CDA56").

Definition magic_constants_are_the_right_length : test :=
  assert_eq (length MPPE_MAGIC2) 84%nat;;
  assert_eq (length MPPE_MAGIC3) 84%nat;;
  assert_eq (length MPPE_MASTER_MAGIC) 27%nat.

Definition rfc3079_master_key : test :=
  let phh := be_bytes 16 0x41C00C584BD2D91C4017A2A12FA59F3F in
  nt ← generate_nt_response AUTH_CHALLENGE PEER_CHALLENGE USER PASSWORD;
  k ← get_master_key phh nt;
  assert_eq k (be_bytes 16 0xFDECE3717A8C838CB388E527AE3CDD31).

Definition msk_is_64_bytes_zero_padded_and_deterministic : test :=
  nt ← generate_nt_response AUTH_CHALLENGE PEER_CHALLENGE USER PASSWORD;
  msk ← derive_msk PASSWORD nt;
  assert (forallb (fun b => b =? 0) (drop 32 msk));;
  assert (existsb (fun b => negb (b =? 0)) (take 32 msk));;
  again ← derive_msk PASSWORD nt;
  assert_eq msk again;;
  other ← derive_msk PASSWORD (flip_at 0 0xff nt);
  assert_ne other msk.

Definition tests : list test :=
  [rfc2759_challenge_hash; rfc2759_nt_password_hash; rfc2759_password_hash_hash; rfc2759_nt_response;
   rfc2759_authenticator_response; magic_constants_are_the_right_length; rfc3079_master_key;
   msk_is_64_bytes_zero_padded_and_deterministic].
End mschapv2.

(** ** [eap.rs] *)
Module eap.
Definition eap_packet_roundtrips : test :=
  let p := {| eap_code := code.REQUEST; identifier := 7; eap_data := [eap_type.MSCHAPV2; 1; 2; 3] |} in
  let b := EapPacket_to_bytes p in
  len ← u16be b 2;
  assert_eq len (Z.of_nat (length b));;
  q ← unwrap (EapPacket_parse b);
  assert_eq (eap_code q, identifier q, eap_data q) (eap_code p, identifier p, eap_data p);;
  assert_eq (EapPacket_type p) (Some eap_type.MSCHAPV2).

Definition full_mschapv2_auth_round_matches_rfc2759 : test :=
  let auth_challenge := mschapv2.AUTH_CHALLENGE in
  let peer_challenge := mschapv2.PEER_CHALLENGE in
  let user := ascii_bytes "User" in
  let password := ascii_bytes "clientPass" in
  let chal := build_challenge 1 auth_challenge (ascii_bytes "server") in
  '(id, got_challenge, _) ← unwrap (parse_challenge chal);
  assert_eq id 1;;
  assert_eq got_challenge auth_challenge;;
  resp ← build_response id auth_challenge peer_challenge user password;
  parsed ← unwrap (parse_response resp);
  assert_eq (resp_name parsed) user;;
  auth_resp ← unwrap (verify_response auth_challenge resp password);
  assert_eq auth_resp (ascii_bytes "S=407A5589115FD0D6209F510FE9C04566932CDA56");;
  let success := build_success id auth_resp in
  o ← idx success 1;
  assert_eq o op.SUCCESS;;
  e ← unwrap_err (verify_response auth_challenge resp (ascii_bytes "wrong"));
  assert_eq e AuthFailed.

Definition tests : list test := [eap_packet_roundtrips; full_mschapv2_auth_round_matches_rfc2759].
End eap.

(** ** [natt.rs] *)
Module natt.
Definition SPI_I : Z := 0x1122334455667788.
Definition SPI_R : Z := 0x99AABBCCDDEEFF00.

Definition no_nat_when_addresses_match : test :=
  let ip := V4 (mkIpv4 203 0 113 5) in
  let port := 4500 in
  let src := source_ip_notify SPI_I SPI_R ip port in
  assert (negb (peer_is_behind_nat (n_data src) SPI_I SPI_R ip port)).

Definition nat_detected_when_address_translated : test :=
  let claimed := V4 (mkIpv4 10 0 0 7) in
  let observed := V4 (mkIpv4 203 0 113 5) in
  let src := source_ip_notify SPI_I SPI_R claimed 500 in
  assert (peer_is_behind_nat (n_data src) SPI_I SPI_R observed 500).

Definition non_esp_marker_roundtrips_and_distinguishes_esp : test :=
  let ike := [0x11; 0x22] ++ ascii_bytes "an IKE message" in
  let wrapped := wrap_ike_4500 ike in
  assert (is_ike_on_4500 wrapped);;
  u ← unwrap_some (unwrap_ike_4500 wrapped);
  assert_eq u ike;;
  let esp := [0xCA; 0xFE; 0xBA; 0xBE; 0x00] in
  assert (negb (is_ike_on_4500 esp));;
  assert_eq (unwrap_ike_4500 esp) None.

Definition tests : list test :=
  [no_nat_when_addresses_match; nat_detected_when_address_translated; non_esp_marker_roundtrips_and_distinguishes_esp].
End natt.

(** The published vectors come out: with the standard SHA-256, SHA-1, MD4, DES and HMAC the model's
    PRF gives the HMAC-SHA-256 of RFC 4231, its MS-CHAP-v2 functions the challenge hash,
    password hashes, NT-Response and authenticator response of RFC 2759 and the master
    key of RFC 3079, and the other tests of the key schedule, EAP and NAT detection pass. *)
Theorem known_answers :
  Forall (fun t => t = Ok tt) (crypto.tests ++ mschapv2.tests ++ eap.tests ++ natt.tests).
Proof. apply failures_none. vm_compute. reflexivity. Qed.
