(* ===== verification/TestsSealed.v ===== *)
(** * Tests of what is sealed ([esp.rs], [sk.rs], [fragment.rs], [auth.rs], [informational.rs],
    [mobike.rs], [tunnel.rs])

    The unit tests of ESP, the encrypted payload, its fragments, the shared-key
    authentication and the messages protected by a finished IKE_SA_INIT, run on the model with the
    AES-256-GCM and HMAC-SHA-256 of [Standard]. *)
From stdpp Require Import strings.
From S2P Require Import Prelude Outcome Testing Primitives Entropy Message Payload Natt Crypto Sk Fragment Esp Negotiate Exchange Informational IkeAuth Transport Eap Standard.
Open Scope Z_scope.

#[local] Existing Instance std.

(** [matches!(r, Err(IkeError::Crypto(_)))] *)
Definition is_crypto_err {A} (m : outcome A) : bool := match m with Err (Crypto _) => true | _ => false end.

(** ** [esp.rs] *)
Module esp.
(** [tx.seal(..).unwrap()], with the sender after it *)
Definition seal (tx : EspSa) (inner : bytes) (nh : Z) : outcome (bytes * EspSa) :=
  let '(r, tx') := EspSa_seal tx inner nh in
  packet ← unwrap r;
  Ok (packet, tx').

Definition seal_open_roundtrip : test :=
  let km := replicate 36 0x42 in
  tx ← unwrap (EspSa_new 0xCAFEBABE km);
  rx ← unwrap (EspSa_new 0xCAFEBABE km);
  let inner := ascii_bytes "a pretend inner IP packet with some length" in
  '(packet, tx) ← seal tx inner next_header.IPV4;
  spi ← slice packet 0 4;
  assert_eq spi (be_bytes 4 0xCAFEBABE);;
  '(out, nh) ← unwrap (EspSa_open rx packet);
  assert_eq out inner;;
  assert_eq nh next_header.IPV4.

(** [for len in 0..40] *)
Fixpoint for_each {A} (l : list A) (f : A -> test) : test :=
  match l with [] => Ok tt | a :: l => f a;; for_each l f end.

Definition various_lengths_roundtrip_with_correct_padding : test :=
  let km := replicate 36 9 in
  for_each (seq 0 40) (fun len =>
    tx ← unwrap (EspSa_new 1 km);
    rx ← unwrap (EspSa_new 1 km);
    let inner := Z.of_nat <$> seq 0 len in
    '(packet, tx) ← seal tx inner next_header.IPV6;
    let ct_len := (length packet - ESP_HEADER_LEN - ESP_IV_LEN - ESP_ICV_LEN)%nat in
    assert_eq (ct_len mod 4)%nat 0%nat;;
    '(out, nh) ← unwrap (EspSa_open rx packet);
    assert_eq out inner;;
    assert_eq nh next_header.IPV6).

Definition sequence_increments_and_nonces_differ : test :=
  tx ← unwrap (EspSa_new 1 (replicate 36 1));
  '(p1, tx) ← seal tx (ascii_bytes "x") 4;
  '(p2, tx) ← seal tx (ascii_bytes "x") 4;
  s1 ← slice p1 4 8;
  s2 ← slice p2 4 8;
  assert_ne s1 s2;;
  assert_ne p1 p2.

Definition wrong_spi_is_rejected : test :=
  tx ← unwrap (EspSa_new 10 (replicate 36 2));
  rx ← unwrap (EspSa_new 11 (replicate 36 2));
  '(packet, tx) ← seal tx (ascii_bytes "hello") 4;
  assert (is_crypto_err (EspSa_open rx packet)).

Definition tampering_and_wrong_key_are_rejected : test :=
  tx ← unwrap (EspSa_new 5 (replicate 36 3));
  rx ← unwrap (EspSa_new 5 (replicate 36 3));
  '(packet, tx) ← seal tx (ascii_bytes "hello world") 4;
  let last := (length packet - 1)%nat in
  let packet := flip_at last 1 packet in
  e ← unwrap_err (EspSa_open rx packet);
  assert_eq e BadIntegrity;;
  tx2 ← unwrap (EspSa_new 5 (replicate 36 7));
  rx2 ← unwrap (EspSa_new 5 (replicate 36 8));
  '(good, tx2) ← seal tx2 (ascii_bytes "y") 4;
  e ← unwrap_err (EspSa_open rx2 good);
  assert_eq e BadIntegrity.

Definition tests : list test :=
  [seal_open_roundtrip; sequence_increments_and_nonces_differ;
   wrong_spi_is_rejected; tampering_and_wrong_key_are_rejected].
End esp.

(** ** [sk.rs] *)
Module sk.
Definition header : IkeHeader := {|
  initiator_spi := 0x1111222233334444;
  responder_spi := 0x5555666677778888;
  next_payload := NoNext;
  major_version := 2;
  minor_version := 0;
  exchange_type := IkeAuth;
  flags := {| fl_initiator := true; fl_version := false; fl_response := false |};
  message_id := 1;
  hdr_length := 0 |}.

Definition seal_open_roundtrip : test :=
  let sk_e := replicate 36 0x42 in
  let iv := [1; 2; 3; 4; 5; 6; 7; 8] in
  let inner := replicate 40 0xAB in
  msg ← unwrap (build_encrypted_gcm header PIdInitiator inner sk_e iv);
  h ← unwrap (IkeHeader_parse msg);
  assert_eq (next_payload h) PEncrypted;;
  assert_eq (hdr_length h) (Z.of_nat (length msg));;
  '(first, out) ← unwrap (open_encrypted_gcm msg sk_e);
  assert_eq first PIdInitiator;;
  assert_eq out inner.

Definition empty_inner_roundtrips : test :=
  let sk_e := replicate 36 5 in
  msg ← unwrap (build_encrypted_gcm header NoNext [] sk_e (replicate 8 0));
  '(first, out) ← unwrap (open_encrypted_gcm msg sk_e);
  assert_eq first NoNext;;
  assert_eq out [].

Definition wrong_key_fails_authentication : test :=
  let sk_e := replicate 36 0x42 in
  msg ← unwrap (build_encrypted_gcm header PNonce [1; 2; 3; 4] sk_e (replicate 8 9));
  let bad := flip_at 0 0xff sk_e in
  e ← unwrap_err (open_encrypted_gcm msg bad);
  assert_eq e BadIntegrity.

Definition tampering_fails_authentication : test :=
  let sk_e := replicate 36 7 in
  msg ← unwrap (build_encrypted_gcm header PNonce [9; 9; 9; 9] sk_e (replicate 8 3));
  let last := (length msg - 1)%nat in
  let msg := flip_at last 1 msg in
  e ← unwrap_err (open_encrypted_gcm msg sk_e);
  assert_eq e BadIntegrity.

Definition rejects_wrong_key_length : test :=
  let short := replicate 32 0 in
  assert (is_crypto_err (build_encrypted_gcm header PNonce [] short (replicate 8 0))).

Definition tests : list test :=
  [seal_open_roundtrip; empty_inner_roundtrips; wrong_key_fails_authentication; tampering_fails_authentication;
   rejects_wrong_key_length].
End sk.

(** ** [fragment.rs] *)
Module fragment.
Definition header : IkeHeader := sk.header.

Definition fragment_and_reassemble_roundtrip_any_order : test :=
  let sk_e := replicate 36 0x33 in
  let inner := Z.of_nat <$> seq 0 201 in
  frags ← unwrap (build_fragments header PIdInitiator inner sk_e 1000 30);
  assert_eq (length frags) 7%nat;;
  esp.for_each frags (fun f =>
    h ← unwrap (IkeHeader_parse f);
    assert_eq (next_payload h) PEncryptedFragment);;
  let shuffled := reverse frags in
  '(first, out) ← unwrap (reassemble shuffled sk_e);
  assert_eq first PIdInitiator;;
  assert_eq out inner.

Definition single_fragment_when_it_fits : test :=
  let sk_e := replicate 36 1 in
  let inner := replicate 10 9 in
  frags ← unwrap (build_fragments header PNonce inner sk_e 5 1000);
  assert_eq (length frags) 1%nat;;
  '(first, out) ← unwrap (reassemble frags sk_e);
  assert_eq first PNonce;;
  assert_eq out inner.

Definition missing_fragment_is_rejected : test :=
  let sk_e := replicate 36 2 in
  let inner := replicate 100 7 in
  frags ← unwrap (build_fragments header PIdInitiator inner sk_e 1 30);
  let frags := take (length frags - 1) frags in
  assert (is_err (reassemble frags sk_e)).

Definition tampered_fragment_fails_authentication : test :=
  let sk_e := replicate 36 4 in
  let inner := replicate 80 3 in
  frags ← unwrap (build_fragments header PIdInitiator inner sk_e 1 30);
  f0 ← nth_of frags 0;
  let last := (length f0 - 1)%nat in
  let frags := <[0%nat := flip_at last 1 f0]> frags in
  e ← unwrap_err (reassemble frags sk_e);
  assert_eq e BadIntegrity.

Definition tests : list test :=
  [fragment_and_reassemble_roundtrip_any_order; single_fragment_when_it_fits; missing_fragment_is_rejected;
   tampered_fragment_fails_authentication].
End fragment.

(** ** [auth.rs] *)
Module auth.
Definition psk_auth_is_deterministic_and_key_sensitive : test :=
  let octets := initiator_signed_octets (ascii_bytes "real message I") (replicate 32 0x22) (replicate 32 0x11)
                  ([2; 0; 0; 0] ++ ascii_bytes "client") in
  let a1 := psk_auth (ascii_bytes "secret") octets in
  assert_eq a1 (psk_auth (ascii_bytes "secret") octets);;
  assert_eq (length a1) 32%nat;;
  assert_ne (psk_auth (ascii_bytes "other-psk") octets) a1.

Definition initiator_and_responder_octets_differ : test :=
  let i := initiator_signed_octets (ascii_bytes "msgI") (replicate 32 2) (replicate 32 9) (ascii_bytes "idi") in
  let r := responder_signed_octets (ascii_bytes "msgR") (replicate 32 1) (replicate 32 8) (ascii_bytes "idr") in
  assert_ne i r.

Definition a_verifier_recomputes_the_peer_auth : test :=
  let real_msg_i := ascii_bytes "IKE_SA_INIT request exactly as sent" in
  let nr := replicate 32 0x22 in
  let sk_pi := replicate 32 0xAB in
  let idi_body := [2; 0; 0; 0] ++ ascii_bytes "initiator.example" in
  let sent := psk_auth (ascii_bytes "correct horse") (initiator_signed_octets real_msg_i nr sk_pi idi_body) in
  let verified := psk_auth (ascii_bytes "correct horse") (initiator_signed_octets real_msg_i nr sk_pi idi_body) in
  assert_eq sent verified;;
  let tampered := psk_auth (ascii_bytes "correct horse")
                    (initiator_signed_octets (ascii_bytes "different message") nr sk_pi idi_body) in
  assert_ne sent tampered.

Definition tests : list test :=
  [psk_auth_is_deterministic_and_key_sensitive; initiator_and_responder_octets_differ;
   a_verifier_recomputes_the_peer_auth].
End auth.

(** ** [informational.rs] *)
Module informational.
Definition sa_pair : outcome (CompletedSaInit * CompletedSaInit) :=
  let init := mkLocalSecret (replicate 32 7) (replicate 32 0x11) 0xA1 in
  let resp := mkLocalSecret (replicate 32 9) (replicate 32 0x22) 0xB2 in
  request ← initiator_request init default_offer;
  '(response, resp_done) ← unwrap (responder_respond request resp);
  init_done ← unwrap (initiator_complete init request response);
  Ok (init_done, resp_done).

Definition dpd_liveness_roundtrip : test :=
  '(init_sa, resp_sa) ← sa_pair;
  req ← unwrap (dpd_request init_sa 2 (replicate 8 1));
  got ← unwrap (open_informational resp_sa req);
  assert_eq got [];;
  ack ← unwrap (build_informational resp_sa 2 true [] (replicate 8 2));
  got ← unwrap (open_informational init_sa ack);
  assert_eq got [].

Definition delete_message_roundtrips_through_sk : test :=
  '(init_sa, resp_sa) ← sa_pair;
  let del := Delete_esp [0xDEADBEEF] in
  msg ← unwrap (build_informational init_sa 3 false [(PDelete, Delete_to_bytes del)] (replicate 8 3));
  got ← unwrap (open_informational resp_sa msg);
  assert_eq (length got) 1%nat;;
  p ← nth_of got 0;
  assert_eq p.1 PDelete;;
  d ← unwrap (Delete_parse p.2);
  assert_eq d del.

Definition tampered_informational_is_rejected : test :=
  '(init_sa, resp_sa) ← sa_pair;
  msg ← unwrap (dpd_request init_sa 2 (replicate 8 5));
  let last := (length msg - 1)%nat in
  let msg := flip_at last 1 msg in
  e ← unwrap_err (open_informational resp_sa msg);
  assert_eq e BadIntegrity.

Definition tests : list test :=
  [dpd_liveness_roundtrip; delete_message_roundtrips_through_sk; tampered_informational_is_rejected].
End informational.

(** ** [mobike.rs] *)
Module mobike.
Definition sa_pair : outcome (CompletedSaInit * CompletedSaInit) := informational.sa_pair.

Definition update_sa_addresses_is_signalled_and_detected : test :=
  '(init_sa, resp_sa) ← sa_pair;
  msg ← unwrap (build_update_sa_addresses init_sa 4 (replicate 8 7));
  inner ← unwrap (open_informational resp_sa msg);
  assert (contains_update_sa_addresses inner);;
  dpd ← unwrap (dpd_request init_sa 5 (replicate 8 8));
  inner ← unwrap (open_informational resp_sa dpd);
  assert (negb (contains_update_sa_addresses inner)).

Definition mobike_supported_is_a_status_notify : test :=
  let n := mobike_supported in
  assert_eq (n_type n) notify_type.MOBIKE_SUPPORTED;;
  assert (negb (Notify_is_error n));;
  assert (peer_supports_mobike [(PNotify, Notify_to_bytes n)]).

Definition tests : list test := [update_sa_addresses_is_signalled_and_detected; mobike_supported_is_a_status_notify].
End mobike.

(** ** [tunnel.rs]

    The loopback interface is the pair of queues of [Transport]: what one socket has sent is put
    in the other's queue. *)
Module tunnel.
Definition driven {A} (m : action (Tunnel Mailbox) A) (t : Tunnel Mailbox) : outcome (A * Tunnel Mailbox) :=
  match m t with (Done a, t') => Ok (a, t') | _ => Panic end.

Definition deliver (from : SocketAddr) (sender receiver : Tunnel Mailbox) : Tunnel Mailbox :=
  put_tun_transport (mkMailbox (inbox (tun_transport receiver) ++
    ((fun p => (p.1, from)) <$> outbox (tun_transport sender))) (outbox (tun_transport receiver))) receiver.

Definition tunnel_carries_packets_both_ways_over_udp : test :=
  let sk_d := replicate 32 0x55 in
  let ni := replicate 16 1 in
  let nr := replicate 16 2 in
  let init_spi := 0xAAAAAAAA in
  let resp_spi := 0xBBBBBBBB in
  a_sa ← ChildSa_derive sk_d ni nr Initiator init_spi resp_spi;
  b_sa ← ChildSa_derive sk_d ni nr Responder resp_spi init_spi;
  let a_addr := mkSocketAddr (V4 (mkIpv4 127 0 0 1)) 40000 in
  let b_addr := mkSocketAddr (V4 (mkIpv4 127 0 0 1)) 40001 in
  let a := mkTunnel a_sa (mkMailbox [] []) b_addr in
  let b := mkTunnel b_sa (mkMailbox [] []) a_addr in
  '(_, a) ← driven (Tunnel_send (ascii_bytes "ping from A") next_header.IPV4) a;
  let b := deliver a_addr a b in
  '((got, nh), b) ← driven Tunnel_recv b;
  assert_eq got (ascii_bytes "ping from A");;
  assert_eq nh next_header.IPV4;;
  '(_, b) ← driven (Tunnel_send (ascii_bytes "pong from B") next_header.IPV4) b;
  let a := deliver b_addr b a in
  '((got, _), a) ← driven Tunnel_recv a;
  assert_eq got (ascii_bytes "pong from B").

Definition tests : list test := [tunnel_carries_packets_both_ways_over_udp].
End tunnel.

(** The forty lengths are not evaluated: every length goes through, by the round trip of [Esp]. *)
Lemma for_each_ok {A} (l : list A) f : (forall a, a ∈ l -> f a = Ok tt) -> esp.for_each l f = Ok tt.
Proof.
  induction l as [|a l IH]; intros Hf; [done|]. cbn. rewrite (Hf a) by constructor.
  apply IH. intros b Hb. apply Hf. by constructor.
Qed.

Lemma various_lengths_pass : esp.various_lengths_roundtrip_with_correct_padding = Ok tt.
Proof.
  unfold esp.various_lengths_roundtrip_with_correct_padding. apply for_each_ok. intros len Hlen.
  rewrite elem_of_seq in Hlen. rewrite !EspSa_new_ok by done. cbn [unwrap mbind outcome_bind].
  set (sa := mkEspSa _ _ _ _).
  destruct (@seal_open std std_aead sa sa (Z.of_nat <$> seq 0 len) next_header.IPV6) as (p & Hp & Ho & Hl);
    [by constructor|done|rewrite length_fmap, length_seq; lia|done..|].
  unfold esp.seal. destruct (EspSa_seal _ _ _) as [r tx]. cbn [fst] in Hp. subst r.
  cbn [unwrap mbind outcome_bind]. rewrite Ho. cbn [unwrap mbind outcome_bind].
  unfold assert_eq. rewrite (bool_decide_eq_true_2 (_ mod 4 = 0)%nat), !bool_decide_eq_true_2; [done..|].
  unfold ESP_HEADER_LEN, ESP_IV_LEN, ESP_ICV_LEN.
  apply Nat.Div0.mod_divides in Hl as [k Hk]. apply Nat.Div0.mod_divides. exists (k - 8)%nat. lia.
Qed.

(** With AES-256-GCM and HMAC-SHA-256 themselves in place of the parameters, the unit tests of
    ESP, the encrypted payload, fragments, shared-key authentication, INFORMATIONAL, MOBIKE and
    the tunnel pass: every packet opens to what was sealed, and every tampered one,
    wrong key and wrong SPI is refused with the error the test names. *)
Theorem sealed_tests_pass :
  Forall (fun t => t = Ok tt)
    (esp.various_lengths_roundtrip_with_correct_padding :: esp.tests ++ sk.tests ++ fragment.tests ++ auth.tests ++
     informational.tests ++ mobike.tests ++ tunnel.tests).
Proof.
  constructor; [apply various_lengths_pass|]. apply failures_none. vm_compute. reflexivity.
Qed.
