(* ===== verification/TestsSealed1.v ===== *)
(** * Tests of the IKEv1 key schedule and encryption ([crypto1.rs], [phase2.rs])

    Run with the SHA-1, SHA-256, HMAC and AES-256-CBC of [Standard]. *)
From stdpp Require Import strings.
From S2P Require Import Prelude Outcome Testing Primitives Eap Isakmp Crypto1 Phase2 Standard.
Open Scope Z_scope.

#[local] Existing Instances std std1.

(** ** [crypto1.rs] *)
Module crypto1.
Definition CKY_I : bytes := replicate 8 0x11.
Definition CKY_R : bytes := replicate 8 0x22.

(** The body of [for prf in [Prf::Sha1, Prf::Sha256]] *)
Definition skeyid_chain (prf : Prf) : test :=
  let gxy := replicate 128 0xAB in
  let skeyid := skeyid_psk prf (ascii_bytes "secret") (replicate 16 1) (replicate 16 2) in
  assert_eq (length skeyid) (output_len prf);;
  let d := skeyid_d prf skeyid gxy CKY_I CKY_R in
  let a := skeyid_a prf skeyid d gxy CKY_I CKY_R in
  let e := skeyid_e prf skeyid a gxy CKY_I CKY_R in
  assert_eq d (skeyid_d prf skeyid gxy CKY_I CKY_R);;
  assert_ne d a;;
  assert_ne a e;;
  assert_ne d e.

Definition skeyid_chain_is_deterministic_and_distinct : test := skeyid_chain Sha1;; skeyid_chain Sha256.

Definition hash_i_and_hash_r_differ_by_argument_order : test :=
  let prf := Sha256 in
  let skeyid := skeyid_psk prf (ascii_bytes "psk") (replicate 16 1) (replicate 16 2) in
  let gxi := replicate 128 1 in
  let gxr := replicate 128 2 in
  let sa := replicate 16 0xAA in
  let id := replicate 12 0xBB in
  let hi := hash_i prf skeyid gxi gxr CKY_I CKY_R sa id in
  let hr := hash_r prf skeyid gxr gxi CKY_R CKY_I sa id in
  assert_eq (length hi) 32%nat;;
  assert_ne hi hr.

Definition cipher_key_expansion_lengths : test :=
  let e := replicate 20 0x5A in
  k ← derive_cipher_key Sha1 e 32;
  assert_eq (length k) 32%nat;;
  k' ← derive_cipher_key Sha1 e 32;
  assert_eq k' k;;
  let e2 := replicate 32 0x77 in
  k2 ← derive_cipher_key Sha256 e2 32;
  assert_eq k2 e2.

Definition aes_cbc_roundtrips_and_chains : test :=
  let key := replicate 32 0x42 in
  let iv := phase1_iv Sha256 (replicate 128 1) (replicate 128 2) AES_BLOCK in
  assert_eq (length iv) AES_BLOCK;;
  plain ← pad_to_block (ascii_bytes "an encrypted ISAKMP payload chain") AES_BLOCK;
  ct ← unwrap (aes256_cbc_encrypt key iv plain);
  assert_eq (length ct) (length plain);;
  pt ← unwrap (aes256_cbc_decrypt key iv ct);
  assert_eq pt plain;;
  next ← next_iv ct AES_BLOCK;
  last ← slice_from ct (length ct - AES_BLOCK);
  assert_eq next last.

Definition phase2_iv_depends_on_message_id : test :=
  let p1 := phase1_iv Sha256 (replicate 128 1) (replicate 128 2) AES_BLOCK in
  let a := phase2_iv Sha256 p1 0x12345678 AES_BLOCK in
  let b := phase2_iv Sha256 p1 0x12345679 AES_BLOCK in
  assert_eq (length a) AES_BLOCK;;
  assert_ne a b.

Definition keymat_fills_requested_length : test :=
  let km := keymat Sha1 (replicate 20 0x33) 3 [0xDE; 0xAD; 0xBE; 0xEF] (replicate 16 1) (replicate 16 2) 52 in
  assert_eq (length km) 52%nat;;
  a ← slice km 0 20;
  b ← slice km 20 40;
  assert_ne a b.

Definition tests : list test :=
  [skeyid_chain_is_deterministic_and_distinct; hash_i_and_hash_r_differ_by_argument_order;
   cipher_key_expansion_lengths; aes_cbc_roundtrips_and_chains; phase2_iv_depends_on_message_id;
   keymat_fills_requested_length].
End crypto1.

(** ** [phase2.rs] *)
Module phase2.
Definition encrypted_roundtrip_verifies_hash : test :=
  let prf := Sha256 in
  let skeyid_a := replicate 32 0x11 in
  let enc_key := replicate 32 0x22 in
  let iv := replicate AES_BLOCK 0x33 in
  let hdr := {|
    init_cookie := replicate 8 1; resp_cookie := replicate 8 2; next_payload := payload.NONE;
    version := VERSION_1_0; exchange_type := exchange.TRANSACTION; hdr_flags := 0;
    message_id := 0xDEADBEEF; hdr_length := 0 |} in
  let attr := [(payload.ATTRIBUTE, [1; 0; 0; 0; 0x80; 0x11; 0; 1])] in
  '(msg, _) ← unwrap (build_encrypted hdr prf skeyid_a enc_key iv attr);
  '(h2, payloads, _) ← unwrap (parse_encrypted msg prf skeyid_a enc_key iv);
  assert_eq (message_id h2) 0xDEADBEEF;;
  assert_ne (Z.land (hdr_flags h2) flags.ENCRYPTION) 0;;
  p0 ← nth_of payloads 0;
  p1 ← nth_of payloads 1;
  a0 ← nth_of attr 0;
  assert_eq (payload_type p0) payload.HASH;;
  assert_eq (payload_type p1) payload.ATTRIBUTE;;
  assert_eq (p_data p1) a0.2;;
  let bad := replicate 32 0x99 in
  assert (is_err (parse_encrypted msg prf bad enc_key iv)).

Definition tests : list test := [encrypted_roundtrip_verifies_hash].
End phase2.

(** With HMAC-SHA-1, HMAC-SHA-256 and AES-256-CBC themselves in place of the parameters, the unit tests
    of the IKEv1 key schedule and of its encrypted messages pass. *)
Theorem sealed1_tests_pass : Forall (fun t => t = Ok tt) (crypto1.tests ++ phase2.tests).
Proof. apply failures_none. vm_compute. reflexivity. Qed.
