(* ===== verification/TestsHandshake.v ===== *)
(** * Tests of the handshakes ([exchange.rs], [ike_auth.rs], [rekey.rs], [ike_rekey.rs], [eap_auth.rs],
    [entropy.rs])

    The unit tests of IKE_SA_INIT, IKE_AUTH with shared keys, the two rekeys, EAP and
    the seeded entropy source, run on the model with the primitives [quick]
    of [Runs].  The tests that use the
    certificate fixtures are in [TestsCerts]; the one that runs the exchange over the MODP groups
    is in [TestsIkev1]. *)
From stdpp Require Import gmap strings.
From S2P Require Import Runs Prelude Outcome Testing Primitives Entropy Message Payload Natt Crypto Sk Esp Negotiate Exchange Informational Sign IkeAuth Transport Rekey Eap EapAuth.
Open Scope Z_scope.

#[local] Existing Instances quick quick_legacy.

Definition fqdn (name : string) : Identification := Identification_fqdn (ascii_bytes name).

(** ** [exchange.rs] *)
Module exchange.
Definition init_secret : LocalSecret := mkLocalSecret (replicate 32 7) (replicate 32 0x11) 0xAAAAAAAA11112222.
Definition resp_secret : LocalSecret := mkLocalSecret (replicate 32 9) (replicate 32 0x22) 0xBBBBBBBB33334444.

Definition sa_init_advertises_and_captures_signature_hashes : test :=
  request ← initiator_request init_secret default_offer;
  '(response, resp_done) ← unwrap (responder_respond request resp_secret);
  init_done ← unwrap (initiator_complete init_secret request response);
  assert (bool_decide (sighash.SHA2_256 ∈ peer_signature_hashes resp_done));;
  assert (bool_decide (sighash.SHA2_256 ∈ peer_signature_hashes init_done)).

(** The types of the notifies of a message *)
Definition notify_kinds (message : bytes) : outcome (list Z) :=
  hdr ← unwrap (IkeHeader_parse message);
  body ← slice_from message IkeHeader_LEN;
  unwrap (for_each (fun kinds p =>
    if decide (payload_type p = PNotify)
    then n ← unwrap (Notify_parse (data p)); Ok (kinds ++ [n_type n])
    else Ok kinds) (payload_items (next_payload hdr) body) []).

Definition our_addr : SocketAddr := mkSocketAddr (V4 (mkIpv4 203 0 113 9)) 500.

Definition responder_natt_emits_nat_detection_and_still_completes : test :=
  request ← initiator_request init_secret default_offer;
  let our := our_addr in
  let peer := mkSocketAddr (V4 (mkIpv4 198 51 100 7)) 41234 in
  r ← unwrap (responder_respond_natt request resp_secret our peer None);
  response ← match r with Established response _ => Ok response | _ => Panic end;
  init_done ← unwrap (initiator_complete init_secret request response);
  assert_eq (c_role init_done) Initiator;;
  kinds ← notify_kinds response;
  assert (bool_decide (notify_type.NAT_DETECTION_SOURCE_IP ∈ kinds));;
  assert (bool_decide (notify_type.NAT_DETECTION_DESTINATION_IP ∈ kinds));;
  '(plain, _) ← unwrap (responder_respond request resp_secret);
  kinds ← notify_kinds plain;
  assert (forallb (fun nt => negb (nt =? notify_type.NAT_DETECTION_SOURCE_IP)) kinds);;
  assert (forallb (fun nt => negb (nt =? notify_type.NAT_DETECTION_DESTINATION_IP)) kinds).

Definition cookie_gate_challenges_when_required_and_passes_when_not : test :=
  request ← initiator_request init_secret default_offer;
  let our := our_addr in
  let peer := mkSocketAddr (V4 (mkIpv4 198 51 100 7)) 1234 in
  let peer_ip := [198; 51; 100; 7] in
  let pol := mkCookiePolicy (ascii_bytes "s3cret") peer_ip true in
  r ← unwrap (responder_respond_natt request resp_secret our peer (Some pol));
  assert (match r with CookieRequired _ => true | _ => false end);;
  let other := ike_cookie (ascii_bytes "other") 1 (ascii_bytes "ni") (ascii_bytes "1.2.3.4") in
  assert_ne other (ike_cookie (ascii_bytes "s3cret") 1 (ascii_bytes "ni") peer_ip);;
  let pol2 := mkCookiePolicy (ascii_bytes "s3cret") peer_ip false in
  r ← unwrap (responder_respond_natt request resp_secret our peer (Some pol2));
  assert (match r with Established _ _ => true | _ => false end).

Definition initiator_and_responder_agree_on_keys : test :=
  let init := init_secret in
  let resp := resp_secret in
  request ← initiator_request init default_offer;
  '(response, resp_done) ← unwrap (responder_respond request resp);
  init_done ← unwrap (initiator_complete init request response);
  assert_eq (keys init_done) (keys resp_done);;
  assert_ne (sk_d (keys init_done)) [];;
  assert_eq (length (sk_ei (keys init_done))) 36%nat;;
  assert_eq (sk_ai (keys init_done)) [];;
  assert_eq (spi_i init_done) (ls_spi init);;
  assert_eq (spi_r init_done) (ls_spi resp);;
  assert_eq (spi_i resp_done) (ls_spi init);;
  assert_eq (spi_r resp_done) (ls_spi resp);;
  assert_eq (encr_id (suite init_done)) transform_id.AES_GCM_16;;
  assert_eq (suite init_done) (suite resp_done).

Definition different_nonces_produce_different_keys : test :=
  let init := init_secret in
  let resp := resp_secret in
  request ← initiator_request init default_offer;
  '(_, first) ← unwrap (responder_respond request resp);
  let resp2 := mkLocalSecret (dh_private resp_secret) (replicate 32 0x77) (ls_spi resp_secret) in
  '(_, second) ← unwrap (responder_respond request resp2);
  assert_ne (keys first) (keys second).

Definition responder_rejects_unsupported_offer : test :=
  p ← nth_of (proposals default_offer) 0;
  let p := mkProposal (prop_num p) (prop_protocol p) (prop_spi p)
             (<[2%nat := mkTransform transform_type.DH 5 None]> (transforms p)) in
  let offer := mkSA (<[0%nat := p]> (proposals default_offer)) in
  request ← initiator_request init_secret offer;
  err ← unwrap_err (responder_respond request resp_secret);
  assert_eq err NoProposalChosen.

Definition responder_rejects_wrong_ke_group : test :=
  let init := init_secret in
  let public := x25519_base (dh_private init) in
  let header := base_header (ls_spi init) 0 (mkFlags true false false) in
  let bad_ke := mkKE transform_id.MODP_2048 public in
  let b := MessageBuilder_new header in
  let b := MessageBuilder_push b PSecurityAssociation (SecurityAssociation_to_bytes default_offer) in
  let b := MessageBuilder_push b PKeyExchange (KeyExchange_to_bytes bad_ke) in
  let b := MessageBuilder_push b PNonce (ls_nonce init) in
  let request := MessageBuilder_build b in
  err ← unwrap_err (responder_respond request resp_secret);
  assert_eq err (DhGroupMismatch transform_id.X25519 transform_id.MODP_2048).

Definition tests : list test :=
  [sa_init_advertises_and_captures_signature_hashes; responder_natt_emits_nat_detection_and_still_completes;
   cookie_gate_challenges_when_required_and_passes_when_not; initiator_and_responder_agree_on_keys;
   different_nonces_produce_different_keys; responder_rejects_unsupported_offer; responder_rejects_wrong_ke_group].
End exchange.

(** ** [ike_auth.rs] *)
Module ike_auth.
Definition run_sa_init : outcome (CompletedSaInit * CompletedSaInit) :=
  let init := mkLocalSecret (replicate 32 7) (replicate 32 0x11) 0xA1 in
  let resp := mkLocalSecret (replicate 32 9) (replicate 32 0x22) 0xB2 in
  request ← initiator_request init default_offer;
  '(response, resp_done) ← unwrap (responder_respond request resp);
  init_done ← unwrap (initiator_complete init request response);
  Ok (init_done, resp_done).

Definition ike_auth_mutual_psk_succeeds_and_exchanges_ids : test :=
  '(init_sa, resp_sa) ← run_sa_init;
  let psk := ascii_bytes "correct horse battery staple" in
  let icfg := AuthConfig_psk (fqdn "client.example") psk in
  let rcfg := AuthConfig_psk (fqdn "gw.example") psk in
  req ← unwrap (initiator_auth_request init_sa icfg 0xDEADBEEF (replicate 8 1));
  '(resp, learned_initiator, init_spi) ←
    unwrap (responder_process_auth resp_sa req rcfg 0xCAFEBABE (replicate 8 2) None);
  assert_eq learned_initiator (fqdn "client.example");;
  assert_eq init_spi 0xDEADBEEF;;
  '(learned_responder, resp_spi, _) ← unwrap (initiator_verify_auth init_sa resp icfg);
  assert_eq learned_responder (fqdn "gw.example");;
  assert_eq resp_spi 0xCAFEBABE.

Definition ike_auth_assigns_inner_ip_via_config_payload : test :=
  '(init_sa, resp_sa) ← run_sa_init;
  let psk := ascii_bytes "correct horse battery staple" in
  let icfg := AuthConfig_psk (fqdn "client.example") psk in
  let rcfg := AuthConfig_psk (fqdn "gw.example") psk in
  req ← unwrap (initiator_auth_request init_sa icfg 0xDEADBEEF (replicate 8 1));
  let assigned := mkAssigned (mkIpv4 10 8 0 4) [mkIpv4 1 1 1 1] in
  '(resp, learned_i, _) ←
    unwrap (responder_process_auth resp_sa req rcfg 0xCAFEBABE (replicate 8 2) (Some assigned));
  assert_eq learned_i (fqdn "client.example");;
  '(_, _, got_ip) ← unwrap (initiator_verify_auth init_sa resp icfg);
  assert_eq got_ip (Some (mkIpv4 10 8 0 4)).

Definition ike_auth_without_config_payload_assigns_no_ip : test :=
  '(init_sa, resp_sa) ← run_sa_init;
  let psk := ascii_bytes "pw" in
  let icfg := AuthConfig_psk (fqdn "c") psk in
  let rcfg := AuthConfig_psk (fqdn "s") psk in
  req ← unwrap (initiator_auth_request init_sa icfg 1 (replicate 8 1));
  '(resp, _, _) ← unwrap (responder_process_auth resp_sa req rcfg 2 (replicate 8 2) None);
  '(_, _, got_ip) ← unwrap (initiator_verify_auth init_sa resp icfg);
  assert_eq got_ip None.

Definition wrong_psk_is_rejected : test :=
  '(init_sa, resp_sa) ← run_sa_init;
  let icfg := AuthConfig_psk (fqdn "client") (ascii_bytes "right") in
  let rcfg := AuthConfig_psk (fqdn "server") (ascii_bytes "wrong") in
  req ← unwrap (initiator_auth_request init_sa icfg 1 (replicate 8 1));
  e ← unwrap_err (responder_process_auth resp_sa req rcfg 2 (replicate 8 2) None);
  assert_eq e AuthFailed.

Definition tampered_ciphertext_is_rejected : test :=
  '(init_sa, resp_sa) ← run_sa_init;
  let cfg := AuthConfig_psk (fqdn "x") (ascii_bytes "psk") in
  req ← unwrap (initiator_auth_request init_sa cfg 1 (replicate 8 1));
  let last := (length req - 1)%nat in
  let req := flip_at last 1 req in
  e ← unwrap_err (responder_process_auth resp_sa req cfg 2 (replicate 8 2) None);
  assert_eq e BadIntegrity.

Definition tests : list test :=
  [ike_auth_mutual_psk_succeeds_and_exchanges_ids; ike_auth_assigns_inner_ip_via_config_payload;
   ike_auth_without_config_payload_assigns_no_ip; wrong_psk_is_rejected; tampered_ciphertext_is_rejected].
End ike_auth.

(** ** [rekey.rs] *)
Module rekey.
Definition sa_pair : outcome (CompletedSaInit * CompletedSaInit) := ike_auth.run_sa_init.

(** [child.outbound.seal(..).unwrap()] *)
Definition child_seal (c : ChildSa) (inner : bytes) (nh : Z) : outcome (bytes * ChildSa) :=
  let '(r, o) := EspSa_seal (outbound c) inner nh in
  packet ← unwrap r;
  Ok (packet, mkChildSa o (inbound c)).

Definition child_rekey_yields_matching_esp_sas : test :=
  '(init_sa, resp_sa) ← sa_pair;
  let ni := replicate 32 0x33 in
  let nr := replicate 32 0x44 in
  let init_new_spi := 0x11111111 in
  let resp_new_spi := 0x22222222 in
  let old_child_spi := 0xDEADBEEF in
  req ← unwrap (build_rekey_request init_sa 2 old_child_spi init_new_spi ni (replicate 8 1));
  '(resp, resp_child) ← unwrap (responder_process_rekey resp_sa req resp_new_spi nr (replicate 8 2) None);
  init_child ← unwrap (initiator_complete_rekey init_sa ni init_new_spi resp);
  '(pkt, init_child) ← child_seal init_child (ascii_bytes "after rekey A->B") next_header.IPV4;
  '(got, _) ← unwrap (EspSa_open (inbound resp_child) pkt);
  assert_eq got (ascii_bytes "after rekey A->B");;
  '(pkt2, resp_child) ← child_seal resp_child (ascii_bytes "after rekey B->A") next_header.IPV4;
  '(got, _) ← unwrap (EspSa_open (inbound init_child) pkt2);
  assert_eq got (ascii_bytes "after rekey B->A").

(** The first payload of a type; without one the test panics. *)
Fixpoint first_of (want : PayloadType) (items : list (outcome RawPayload)) : outcome bytes :=
  match items with
  | [] => Panic
  | r :: rest => p ← unwrap r; if decide (payload_type p = want) then Ok (data p) else first_of want rest
  end.

Definition extract_tsi (resp : bytes) (init_sa : CompletedSaInit) : outcome bytes :=
  '(first, dec) ← unwrap (open_encrypted_gcm resp (peer_sk_e init_sa));
  first_of PTrafficSelectorInitiator (payload_items first dec).

Definition responder_renarrows_tsi_to_assigned_at_rekey : test :=
  '(init_sa, resp_sa) ← sa_pair;
  let assigned := mkIpv4 10 8 0 7 in
  let narrow := TrafficSelectors_to_bytes (mkTSs [ipv4_host assigned]) in
  let wide_tsi := full_tunnel_ts in
  assert_ne narrow wide_tsi;;
  let inner :=
    [(PNotify, Notify_to_bytes (mkNotify protocol_id.ESP (be_bytes 4 0xDEADBEEF) notify_type.REKEY_SA []));
     (PSecurityAssociation, SecurityAssociation_to_bytes (esp_offer 0xAAAAAAAA));
     (PNonce, replicate 32 0x55);
     (PTrafficSelectorInitiator, wide_tsi);
     (PTrafficSelectorResponder, full_tunnel_ts)] in
  let header := create_child_header init_sa 2 false in
  req ← unwrap (build_encrypted_gcm header (first_payload_type inner) (encode_payload_chain inner)
                  (our_sk_e init_sa) (replicate 8 1));
  '(resp, _) ← unwrap (responder_process_rekey resp_sa req 0xBBBBBBBB (replicate 32 0x66) (replicate 8 2) (Some assigned));
  tsi ← extract_tsi resp init_sa;
  assert_eq tsi narrow;;
  '(resp_echo, _) ← unwrap (responder_process_rekey resp_sa req 0xCCCCCCCC (replicate 32 0x77) (replicate 8 3) None);
  tsi ← extract_tsi resp_echo init_sa;
  assert_eq tsi wide_tsi.

Definition tests : list test := [child_rekey_yields_matching_esp_sas; responder_renarrows_tsi_to_assigned_at_rekey].
End rekey.

(** ** [ike_rekey.rs] *)
Module ike_rekey.
Definition sa_pair : outcome (CompletedSaInit * CompletedSaInit) := ike_auth.run_sa_init.

Definition routes_only_a_ke_no_ts_message_as_ike_rekey : test :=
  assert (is_ike_sa_rekey [(PSecurityAssociation, []); (PNonce, []); (PKeyExchange, [])]);;
  assert (negb (is_ike_sa_rekey
    [(PSecurityAssociation, []); (PNonce, []); (PTrafficSelectorInitiator, []); (PTrafficSelectorResponder, [])])).

Definition ike_rekey_initiator_and_responder_derive_matching_keys : test :=
  '(init_sa, resp_sa) ← sa_pair;
  suite ← unwrap_some (select default_offer);
  group ← unwrap_some (DhGroup_from_transform_id (dh_id suite));
  let init_dh := replicate 32 3 in
  let ni := replicate 32 0x55 in
  let new_spi_i := 0xAABBCCDD11223344 in
  let prop := to_proposal suite in
  let prop := mkProposal (prop_num prop) protocol_id.IKE (be_bytes 8 new_spi_i) (transforms prop) in
  public ← DhGroup_public group init_dh;
  let inner :=
    [(PSecurityAssociation, SecurityAssociation_to_bytes (mkSA [prop]));
     (PNonce, ni);
     (PKeyExchange, KeyExchange_to_bytes (mkKE (dh_id suite) public))] in
  let header := {|
    initiator_spi := spi_i init_sa; responder_spi := spi_r init_sa; next_payload := NoNext;
    major_version := 2; minor_version := 0; exchange_type := CreateChildSa;
    flags := mkFlags true false false; message_id := 5; hdr_length := 0 |} in
  request ← unwrap (build_encrypted_gcm header (first_payload_type inner) (encode_payload_chain inner)
                      (our_sk_e init_sa) (replicate 8 1));
  let nr := replicate 32 0x66 in
  let new_spi_r := 0x9988776655443322 in
  '(response, new_resp) ←
    unwrap (responder_process_ike_rekey resp_sa request new_spi_r (replicate 32 9) nr (replicate 8 2));
  assert_eq (spi_i new_resp) new_spi_i;;
  assert_eq (spi_r new_resp) new_spi_r;;
  '(first, dec) ← unwrap (open_encrypted_gcm response (peer_sk_e init_sa));
  ker ← unwrap (for_each (fun ker p =>
    if decide (payload_type p = PKeyExchange)
    then k ← unwrap (KeyExchange_parse (data p)); Ok (Some k)
    else Ok ker) (payload_items first dec) None);
  ker ← unwrap_some ker;
  shared ← unwrap (DhGroup_shared group init_dh (ke_data ker));
  init_keys ← derive_rekey_session_keys (sk_d (keys init_sa)) shared ni nr new_spi_i new_spi_r (key_lengths suite);
  assert_eq (sk_d init_keys) (sk_d (keys new_resp));;
  assert_eq (sk_ei init_keys) (sk_ei (keys new_resp));;
  assert_eq (sk_er init_keys) (sk_er (keys new_resp)).

Definition tests : list test :=
  [routes_only_a_ke_no_ts_message_as_ike_rekey; ike_rekey_initiator_and_responder_derive_matching_keys].
End ike_rekey.

(** ** [entropy.rs] *)
Module entropy.
Definition seed_entropy_is_deterministic_and_varied : test :=
  let a := SeedEntropy_new 42 in
  let b := SeedEntropy_new 42 in
  assert_eq (next_array32 a).1 (next_array32 b).1;;
  let c := SeedEntropy_new 42 in
  let '(x, c) := next_array32 c in
  let '(y, c) := next_array32 c in
  assert_ne x y.

Definition tests : list test := [seed_entropy_is_deterministic_and_varied].
End entropy.

(** ** [eap_auth.rs] *)
Module eap_auth.
Inductive Outcome := OEstablished | OFailed.

#[export] Instance Outcome_eq_dec : EqDecision Outcome.
Proof. solve_decision. Defined.

Definition sa_pair : outcome (CompletedSaInit * CompletedSaInit) := ike_auth.run_sa_init.

(** [m.unwrap()], with the state after it *)
Definition stepped {S A} (r : driver A * S) : outcome (A * S) :=
  match r with (Done a, s) => Ok (a, s) | _ => Panic end.

(** [for _round in 0..12] *)
Fixpoint rounds `{!Pki} (n : nat) (initiator : EapInitiator * SeedEntropy) (responder : EapResponder * SeedEntropy)
    (in_flight : bytes) : outcome Outcome :=
  match n with
  | O => Ok OFailed
  | S n =>
      '(ev, responder) ← stepped (EapResponder_handle in_flight responder);
      match ev with
      | Reply m =>
          '(ev, initiator) ← stepped (EapInitiator_handle m initiator);
          match ev with
          | Reply m2 => rounds n initiator responder m2
          | EapEstablished _ => Ok OEstablished
          | EapFailed => Ok OFailed
          end
      | EapEstablished (Some final_msg) =>
          '(ev, _) ← stepped (EapInitiator_handle final_msg initiator);
          Ok match ev with EapEstablished None => OEstablished | _ => OFailed end
      | EapEstablished None => Ok OEstablished
      | EapFailed => Ok OFailed
      end
  end.

Definition drive `{!Pki} (initiator : EapInitiator) (responder : EapResponder) : outcome Outcome :=
  let ie := SeedEntropy_new 1 in
  let re := SeedEntropy_new 2 in
  '(in_flight, ie) ← stepped (EapInitiator_start initiator ie);
  rounds 12 (initiator, ie) (responder, re) in_flight.

Definition full_eap_mschapv2_handshake_in_process : test :=
  '(init_sa, resp_sa) ← sa_pair;
  let initiator := EapInitiator_new init_sa (fqdn "alice") (ascii_bytes "alice") (ascii_bytes "s3cret") 0x1111 Insecure in
  let responder := EapResponder_new resp_sa (fqdn "gw") (ServerPsk (ascii_bytes "psk")) (ascii_bytes "alice")
                     (ascii_bytes "s3cret") 0x2222 in
  r ← drive initiator responder;
  assert_eq r OEstablished.

Definition wrong_password_is_rejected : test :=
  '(init_sa, resp_sa) ← sa_pair;
  let initiator := EapInitiator_new init_sa (fqdn "alice") (ascii_bytes "alice") (ascii_bytes "wrong") 0x1111 Insecure in
  let responder := EapResponder_new resp_sa (fqdn "gw") (ServerPsk (ascii_bytes "psk")) (ascii_bytes "alice")
                     (ascii_bytes "right") 0x2222 in
  r ← drive initiator responder;
  assert_eq r OFailed.

Definition multi_user_selects_password_by_identity : test :=
  '(init_sa, resp_sa) ← sa_pair;
  let users := {[ascii_bytes "alice" := ascii_bytes "alice-pw"; ascii_bytes "bob" := ascii_bytes "bob-pw"]} in
  let initiator := EapInitiator_new init_sa (fqdn "bob") (ascii_bytes "bob") (ascii_bytes "bob-pw") 0x1111 Insecure in
  let responder := EapResponder_new_multi resp_sa (fqdn "gw") (ServerPsk (ascii_bytes "psk")) users 0x2222 in
  r ← drive initiator responder;
  assert_eq r OEstablished.

Definition multi_user_rejects_unknown_identity : test :=
  '(init_sa, resp_sa) ← sa_pair;
  let users := {[ascii_bytes "alice" := ascii_bytes "alice-pw"]} in
  let initiator := EapInitiator_new init_sa (fqdn "mallory") (ascii_bytes "mallory") (ascii_bytes "whatever") 0x1111 Insecure in
  let responder := EapResponder_new_multi resp_sa (fqdn "gw") (ServerPsk (ascii_bytes "psk")) users 0x2222 in
  r ← drive initiator responder;
  assert_eq r OFailed.

Definition tests : list test :=
  [full_eap_mschapv2_handshake_in_process; wrong_password_is_rejected; multi_user_selects_password_by_identity;
   multi_user_rejects_unknown_identity].
End eap_auth.

(** The in-process handshakes of the unit tests run to the end they claim: both ends of IKE_SA_INIT derive
    the same keys, the NAT detection notifies and the cookie gate act, IKE_AUTH exchanges the
    identities and SPIs and refuses a wrong key or a changed message, both rekeys give matching
    keys and the assigned selector, and EAP establishes with the right password of the
    right user only. *)
Theorem handshake_tests_pass :
  Forall (fun t => t = Ok tt)
    (exchange.tests ++ ike_auth.tests ++ rekey.tests ++ ike_rekey.tests ++ entropy.tests ++ eap_auth.tests).
Proof. apply failures_none. vm_compute. reflexivity. Qed.
