(* ===== verification/TestCerts.v ===== *)
(** * Certificate fixtures ([src/src/test_certs.rs])

    The certificates and keys of the unit tests, octet for octet: an ECDSA P-256 CA with a
    leaf for vpn.example.com, a root, intermediate and leaf, the private scalars of the leaves and an
    RSA key in PKCS#8. *)
From S2P Require Import Prelude Outcome.
Open Scope Z_scope.

Definition LEAF_SCALAR : bytes := [
  0x87; 0xb2; 0xd9; 0x39; 0x24; 0xe5; 0xec; 0x7f; 0x74; 0x70; 0x05; 0x17; 0x6e; 0xa1; 0xd4; 0xea;
  0xd0; 0x79; 0xe0; 0xe4; 0x7f; 0xb1; 0x12; 0x92; 0xa8; 0xb9; 0x80; 0x82; 0x51; 0xc1; 0x6e; 0xc7].

Definition RSA_KEY_PK8 : bytes := [
  0x30; 0x82; 0x04; 0xbc; 0x02; 0x01; 0x00; 0x30; 0x0d; 0x06; 0x09; 0x2a; 0x86; 0x48; 0x86; 0xf7;
  0x0d; 0x01; 0x01; 0x01; 0x05; 0x00; 0x04; 0x82; 0x04; 0xa6; 0x30; 0x82; 0x04; 0xa2; 0x02; 0x01;
  0x00; 0x02; 0x82; 0x01; 0x01; 0x00; 0xc7; 0x69; 0xb2; 0xc1; 0x06; 0xc3; 0x16; 0x27; 0x72; 0x59;
  0x75; 0x3f; 0xe8; 0x09; 0xab; 0x7c; 0x4c; 0x87; 0x9a; 0xc5; 0x44; 0xbb; 0xb4; 0xb9; 0x35; 0x5a;
  0x13; 0x28; 0x38; 0x51; 0x96; 0xae; 0x5e; 0x69; 0xaa; 0x0a; 0x43; 0x2b; 0x82; 0xc5; 0xa7; 0x01;
  0xba; 0xea; 0x1e; 0xa8; 0xc6; 0x74; 0xa5; 0x32; 0x91; 0xa8; 0xa7; 0xec; 0x1d; 0x92; 0x12; 0x8c;
  0x82; 0xc4; 0x60; 0xd6; 0xcf; 0xf4; 0xfa; 0x0b; 0xd6; 0xf5; 0x27; 0x33; 0x75; 0xce; 0x84; 0x77;
  0x12; 0x04; 0x29; 0xa4; 0x84; 0xbb; 0x31; 0x01; 0x06; 0xf8; 0x89; 0x9d; 0xe8; 0xa7; 0x2b; 0xf9;
  0x93; 0x7d; 0x3f; 0x09; 0x04; 0xfc; 0xfc; 0x7c; 0x8c; 0xf7; 0xd8; 0x91; 0xe6; 0x59; 0x14; 0x0c;
  0x80; 0xcd; 0x49; 0x9e; 0x44; 0xf6; 0xed; 0xd1; 0xe7; 0x94; 0x8d; 0xff; 0x91; 0x2a; 0xc2; 0x34;
  0xae; 0x7c; 0xd2; 0x8f; 0x27; 0xd1; 0x5c; 0x10; 0x91; 0x78; 0xfd; 0xdd; 0x5b; 0x5a; 0x2d; 0x76;
  0x65; 0x7c; 0x66; 0x0c; 0x09; 0xcf; 0xf1; 0xf0; 0x6f; 0x3d; 0x87; 0xd6; 0x9a; 0xb0; 0xab; 0x61;
  0x1b; 0x2f; 0x78; 0x8b; 0x2e; 0xa3; 0x40; 0xcc; 0x47; 0x2b; 0x9d; 0x0a; 0x4b; 0xf2; 0xd7; 0x60;
  0x42; 0x1a; 0xc3; 0xef; 0xd7; 0x0f; 0xad; 0x67; 0x11; 0x86; 0x6f; 0xd0; 0x81; 0xf9; 0x5a; 0x3d;
  0x6c; 0xc2; 0x1b; 0x3c; 0xed; 0xa3; 0x5b; 0x91; 0xe1; 0xba; 0x27; 0xff; 0xfb; 0x25; 0xd1; 0x53;
  0x10; 0x3e; 0xc5; 0xf5; 0x3c; 0x10; 0xcf; 0x2c; 0xb2; 0x2b; 0x4c; 0xf0; 0x85; 0xe6; 0x37; 0x4e;
  0xe3; 0x36; 0x59; 0xbd; 0x37; 0x8d; 0x90; 0xb2; 0xf9; 0x46; 0x55; 0x76; 0xb3; 0xcb; 0xf2; 0xe5;
  0x06; 0x76; 0xa9; 0x5d; 0x33; 0x4d; 0x22; 0x83; 0x9e; 0xab; 0x0a; 0x69; 0xb7; 0x42; 0x6b; 0x9b;
  0xdc; 0x54; 0xc0; 0xc9; 0xed; 0x09; 0x02; 0x03; 0x01; 0x00; 0x01; 0x02; 0x82; 0x01; 0x00; 0x12;
  0xf2; 0x7d; 0x14; 0x90; 0x22; 0xeb; 0x30; 0xf6; 0x51; 0x7f; 0xad; 0x81; 0xcb; 0xa1; 0x6a; 0x9f;
  0x0e; 0xe7; 0x6a; 0xc4; 0xfc; 0x1c; 0xd0; 0xd8; 0x3b; 0xe5; 0xc4; 0x15; 0x8d; 0xd3; 0x06; 0x60;
  0x5c; 0x23; 0xd6; 0xf3; 0xc8; 0xe7; 0x95; 0x06; 0x28; 0x48; 0xed; 0x43; 0xda; 0x7f; 0x78; 0xc7;
  0xd5; 0x85; 0x37; 0x84; 0x35; 0x10; 0x1e; 0x37; 0xfa; 0xf7; 0xd5; 0xd6; 0xe9; 0xb2; 0x3a; 0xb1;
  0xa3; 0x7c; 0x5a; 0x30; 0xce; 0x57; 0xec; 0x36; 0x73; 0xe5; 0xd7; 0x55; 0x69; 0x97; 0x5e; 0xfd;
  0xe9; 0xfe; 0x12; 0x91; 0x68; 0xda; 0x99; 0x3f; 0xb9; 0x68; 0x05; 0x27; 0x7f; 0x20; 0xe5; 0x34;
  0xcc; 0x54; 0xcc; 0x9b; 0xdc; 0x49; 0x09; 0xbf; 0xb8; 0xec; 0x68; 0x15; 0x0d; 0x9f; 0xb9; 0xe2;
  0xa0; 0xe6; 0x23; 0x1c; 0x56; 0xe3; 0x21; 0x2f; 0xf0; 0xb7; 0x7f; 0x8e; 0xb6; 0x21; 0x6f; 0x3d;
  0x1a; 0xb0; 0x5e; 0xbc; 0xbe; 0x71; 0xe4; 0xfe; 0xee; 0xb1; 0xab; 0x08; 0x4f; 0x33; 0x49; 0xc5;
  0xbe; 0x95; 0x84; 0x28; 0x0d; 0x03; 0xf4; 0xeb; 0x7e; 0x99; 0xcf; 0x40; 0x84; 0x0d; 0x68; 0xb6;
  0x48; 0xaa; 0x81; 0x6e; 0xce; 0x36; 0xb1; 0x06; 0xc3; 0x94; 0xd4; 0xd7; 0x55; 0x2a; 0xee; 0xcb;
  0x07; 0x03; 0xa4; 0x17; 0x54; 0x58; 0xbd; 0x5e; 0xe5; 0x39; 0x0b; 0xf3; 0xc0; 0x78; 0xd8; 0x62;
  0x1c; 0x06; 0x2b; 0xc4; 0xe1; 0x67; 0xfc; 0xc3; 0x34; 0xed; 0xb3; 0x5e; 0xc3; 0xe0; 0x9c; 0x92;
  0x0c; 0x1c; 0x1e; 0x54; 0x8a; 0x0f; 0xe0; 0xc5; 0x10; 0xd1; 0x7a; 0xcb; 0x9b; 0x33; 0xb7; 0x5f;
  0x3b; 0xfa; 0x01; 0x5b; 0x5a; 0x67; 0xc8; 0xf0; 0x51; 0xf1; 0xf4; 0xf4; 0x33; 0x95; 0x34; 0x60;
  0xe6; 0xe5; 0xdb; 0xa5; 0xdb; 0xa1; 0x21; 0x40; 0xbd; 0x93; 0x94; 0xa7; 0x09; 0x10; 0xfd; 0x02;
  0x81; 0x81; 0x00; 0xeb; 0x24; 0xc8; 0x12; 0x4c; 0xce; 0x20; 0x9c; 0x7b; 0x81; 0xeb; 0x30; 0x43;
  0xe3; 0xce; 0x13; 0x6d; 0x3a; 0xd3; 0xae; 0x35; 0xba; 0xc3; 0x2f; 0x37; 0xd8; 0xff; 0x61; 0x0c;
  0xee; 0x66; 0x36; 0xa2; 0x24; 0x2a; 0x56; 0xa0; 0x4f; 0x36; 0x70; 0x06; 0x21; 0x91; 0xd1; 0x21;
  0xa6; 0xe6; 0x3a; 0x2b; 0x66; 0x28; 0x22; 0xb1; 0x0a; 0xdd; 0xac; 0x74; 0xdf; 0xad; 0xc9; 0x51;
  0x13; 0x2d; 0xcb; 0x52; 0xe0; 0x9b; 0xd1; 0x82; 0xc9; 0xee; 0x46; 0x8e; 0xeb; 0xdc; 0xef; 0xdb;
  0x11; 0x5c; 0x70; 0x6e; 0xd3; 0x7a; 0xac; 0xfd; 0xb9; 0x89; 0x4c; 0x7d; 0x6c; 0x47; 0x3e; 0xd7;
  0x55; 0x8b; 0x33; 0x87; 0x15; 0x88; 0x3d; 0x4a; 0xd8; 0xb2; 0x4e; 0xdb; 0xa1; 0xa2; 0xf5; 0x68;
  0xb4; 0x8b; 0x01; 0x3e; 0xbd; 0xb8; 0x12; 0xee; 0xb6; 0xce; 0x74; 0x7e; 0x54; 0x42; 0x60; 0xcd;
  0x11; 0x9a; 0x67; 0x02; 0x81; 0x81; 0x00; 0xd9; 0x19; 0x9b; 0x37; 0x34; 0x12; 0xdc; 0xb3; 0x8c;
  0x3a; 0x42; 0x8f; 0xcd; 0xb4; 0x7b; 0x01; 0xfe; 0xc1; 0x11; 0x26; 0x17; 0xf8; 0x67; 0x50; 0xcc;
  0x4f; 0x86; 0xe8; 0x44; 0x17; 0x8b; 0x57; 0xb4; 0xec; 0x68; 0x39; 0xdc; 0x8e; 0x21; 0x03; 0x25;
  0xe8; 0xbd; 0xd6; 0x44; 0xd6; 0xae; 0x7b; 0x64; 0xbd; 0x80; 0xb7; 0x48; 0xd8; 0xcb; 0xfc; 0x01;
  0x02; 0x7b; 0x36; 0x96; 0x97; 0x92; 0xff; 0x56; 0x94; 0xe5; 0x0f; 0x1f; 0x97; 0x9c; 0xe0; 0xc5;
  0xc4; 0x32; 0xad; 0xe8; 0x15; 0x9a; 0x4b; 0x5f; 0x4a; 0xf1; 0xc0; 0x24; 0x86; 0x70; 0x0c; 0x43;
  0xb5; 0x09; 0x17; 0x92; 0x9a; 0x59; 0xa7; 0x3f; 0x20; 0xa8; 0xaf; 0xb1; 0x20; 0xb1; 0x63; 0xc3;
  0x12; 0x74; 0x72; 0x67; 0xa6; 0xbf; 0xe5; 0x5a; 0x92; 0xc4; 0xa7; 0xa8; 0xf2; 0x23; 0x99; 0x2f;
  0xb8; 0xf9; 0x1d; 0xbc; 0xa4; 0x77; 0x0f; 0x02; 0x81; 0x80; 0x23; 0x85; 0x4e; 0xe3; 0xd4; 0xce;
  0x5e; 0x86; 0xc4; 0xf1; 0x7f; 0x41; 0xaf; 0x3f; 0xbe; 0x65; 0x98; 0xde; 0x86; 0x13; 0x8e; 0xf2;
  0x43; 0x81; 0xe2; 0x81; 0xd9; 0x32; 0x23; 0xed; 0xef; 0x6a; 0xd9; 0x5b; 0x75; 0x39; 0xd8; 0xc5;
  0x9e; 0x87; 0x95; 0xa5; 0x84; 0x8d; 0x7e; 0xf3; 0xe3; 0x5b; 0x6e; 0x2a; 0xe4; 0x6d; 0x39; 0x29;
  0x57; 0x0b; 0x32; 0x2c; 0x87; 0xe8; 0x1d; 0x63; 0x34; 0x4b; 0xbe; 0x9d; 0x47; 0x6c; 0x82; 0xc1;
  0x56; 0x49; 0x3a; 0x55; 0xce; 0xee; 0x3c; 0xbd; 0x86; 0xa5; 0x45; 0x58; 0x94; 0xf3; 0x84; 0xf0;
  0x7e; 0x19; 0x1b; 0xe9; 0x3b; 0x69; 0xf6; 0xc5; 0x69; 0x5d; 0xc3; 0x4e; 0x31; 0x62; 0x70; 0xe8;
  0x03; 0x27; 0x7e; 0x6e; 0x10; 0x5b; 0xda; 0x11; 0x4b; 0xde; 0x48; 0x48; 0x08; 0x82; 0x73; 0xa5;
  0x11; 0xd2; 0xef; 0x32; 0x73; 0x44; 0x84; 0x35; 0xe0; 0x89; 0x02; 0x81; 0x80; 0x54; 0xe2; 0xdf;
  0x3e; 0xd9; 0x7c; 0x9a; 0x91; 0x15; 0xbe; 0x5d; 0xf2; 0x4e; 0x73; 0x48; 0x39; 0x82; 0x7b; 0xc9;
  0x11; 0xc5; 0x03; 0x9a; 0x9a; 0x0c; 0x18; 0xf8; 0x5d; 0xee; 0xe9; 0xe9; 0xd0; 0xf4; 0x6c; 0x0f;
  0x60; 0xb8; 0x6d; 0x56; 0x59; 0x1d; 0xc4; 0x80; 0x1d; 0xbc; 0xb2; 0xd8; 0x6c; 0x64; 0xfa; 0x77;
  0xce; 0xb2; 0x8c; 0x1a; 0x4e; 0x41; 0xb2; 0xcf; 0xac; 0x8b; 0x7b; 0x5e; 0xbd; 0xba; 0x03; 0xe4;
  0x00; 0x62; 0xd0; 0xec; 0x45; 0x32; 0xee; 0xc1; 0x06; 0x20; 0x9d; 0xf9; 0xc3; 0x88; 0xd2; 0x0b;
  0xee; 0x9e; 0x19; 0x76; 0xcc; 0x44; 0xd9; 0x0f; 0x62; 0x09; 0x2f; 0x92; 0xe8; 0x83; 0x15; 0x68;
  0xff; 0xb1; 0x59; 0x60; 0x22; 0xea; 0xce; 0x57; 0x7b; 0xb8; 0x2d; 0x8a; 0x10; 0xca; 0xb6; 0x62;
  0x70; 0x4f; 0xed; 0xc5; 0x9f; 0x8a; 0xfa; 0x5f; 0x65; 0x92; 0x32; 0x18; 0x5f; 0x02; 0x81; 0x80;
  0x60; 0x45; 0x41; 0x94; 0xb2; 0x18; 0x90; 0xb9; 0x22; 0x9f; 0x95; 0xe1; 0x92; 0x1b; 0xa0; 0x8c;
  0x7e; 0xff; 0x79; 0xbd; 0x78; 0x52; 0xad; 0x51; 0xfd; 0x54; 0x48; 0x65; 0x0a; 0x52; 0x8f; 0x11;
  0x22; 0x9c; 0x99; 0x43; 0xe8; 0x24; 0xa1; 0xbe; 0x0f; 0x05; 0x1e; 0xcf; 0xe3; 0xaf; 0xe6; 0x7a;
  0x20; 0x77; 0xc4; 0x46; 0xed; 0x31; 0x82; 0xac; 0x6d; 0x10; 0xf9; 0xe4; 0x10; 0x07; 0x9e; 0x53;
  0x19; 0x7f; 0xa6; 0x88; 0xcd; 0xc0; 0x30; 0xf5; 0x3f; 0x02; 0x9f; 0x3c; 0xe3; 0xbc; 0x4d; 0x21;
  0x97; 0xf1; 0x55; 0x78; 0x17; 0x7c; 0x71; 0x1b; 0x21; 0xe0; 0x5c; 0x7c; 0xb2; 0x05; 0xa4; 0xa3;
  0x51; 0x75; 0xfa; 0xa2; 0x46; 0x56; 0xd7; 0x49; 0x35; 0x3c; 0x10; 0xd9; 0x1d; 0x49; 0xc9; 0xc0;
  0xb2; 0x8a; 0x84; 0x32; 0xf6; 0x6b; 0x13; 0x19; 0x8a; 0x4f; 0x16; 0xbc; 0x93; 0x3e; 0x37; 0xff].

Definition CA_CERT_DER : bytes := [
  0x30; 0x82; 0x01; 0x82; 0x30; 0x82; 0x01; 0x29; 0xa0; 0x03; 0x02; 0x01; 0x02; 0x02; 0x14; 0x01;
  0xdc; 0x6d; 0x98; 0xb5; 0xb3; 0x69; 0x03; 0x94; 0xcd; 0xc9; 0xc5; 0xef; 0xa6; 0xaf; 0x4b; 0x4e;
  0x44; 0x0e; 0xc6; 0x30; 0x0a; 0x06; 0x08; 0x2a; 0x86; 0x48; 0xce; 0x3d; 0x04; 0x03; 0x02; 0x30;
  0x17; 0x31; 0x15; 0x30; 0x13; 0x06; 0x03; 0x55; 0x04; 0x03; 0x0c; 0x0c; 0x72; 0x79; 0x6b; 0x65;
  0x20; 0x74; 0x65; 0x73; 0x74; 0x20; 0x43; 0x41; 0x30; 0x1e; 0x17; 0x0d; 0x32; 0x36; 0x30; 0x37;
  0x30; 0x36; 0x31; 0x32; 0x33; 0x32; 0x34; 0x37; 0x5a; 0x17; 0x0d; 0x33; 0x36; 0x30; 0x37; 0x30;
  0x33; 0x31; 0x32; 0x33; 0x32; 0x34; 0x37; 0x5a; 0x30; 0x17; 0x31; 0x15; 0x30; 0x13; 0x06; 0x03;
  0x55; 0x04; 0x03; 0x0c; 0x0c; 0x72; 0x79; 0x6b; 0x65; 0x20; 0x74; 0x65; 0x73; 0x74; 0x20; 0x43;
  0x41; 0x30; 0x59; 0x30; 0x13; 0x06; 0x07; 0x2a; 0x86; 0x48; 0xce; 0x3d; 0x02; 0x01; 0x06; 0x08;
  0x2a; 0x86; 0x48; 0xce; 0x3d; 0x03; 0x01; 0x07; 0x03; 0x42; 0x00; 0x04; 0xeb; 0xcd; 0x6e; 0xd4;
  0x13; 0x7e; 0xa3; 0xec; 0x53; 0x63; 0xe0; 0xe9; 0x86; 0xa6; 0x1a; 0xa1; 0xd0; 0x96; 0x67; 0xb1;
  0x4a; 0xa7; 0x1b; 0x52; 0x31; 0x7b; 0xd5; 0x34; 0x99; 0x79; 0x1d; 0x2a; 0x95; 0x67; 0x2a; 0x8f;
  0x16; 0xa9; 0x7d; 0xfe; 0xce; 0x8e; 0x79; 0x13; 0xc7; 0xde; 0xfc; 0x3a; 0x06; 0x09; 0x01; 0x80;
  0x91; 0x2f; 0xfc; 0xc9; 0x6f; 0x17; 0x3b; 0xee; 0x28; 0xce; 0xb5; 0x95; 0xa3; 0x53; 0x30; 0x51;
  0x30; 0x1d; 0x06; 0x03; 0x55; 0x1d; 0x0e; 0x04; 0x16; 0x04; 0x14; 0x24; 0x32; 0x50; 0x12; 0x1c;
  0x3b; 0x4b; 0xe0; 0x6a; 0x8a; 0x7b; 0x32; 0xda; 0x2f; 0xa9; 0x64; 0x0a; 0xab; 0x30; 0x70; 0x30;
  0x1f; 0x06; 0x03; 0x55; 0x1d; 0x23; 0x04; 0x18; 0x30; 0x16; 0x80; 0x14; 0x24; 0x32; 0x50; 0x12;
  0x1c; 0x3b; 0x4b; 0xe0; 0x6a; 0x8a; 0x7b; 0x32; 0xda; 0x2f; 0xa9; 0x64; 0x0a; 0xab; 0x30; 0x70;
  0x30; 0x0f; 0x06; 0x03; 0x55; 0x1d; 0x13; 0x01; 0x01; 0xff; 0x04; 0x05; 0x30; 0x03; 0x01; 0x01;
  0xff; 0x30; 0x0a; 0x06; 0x08; 0x2a; 0x86; 0x48; 0xce; 0x3d; 0x04; 0x03; 0x02; 0x03; 0x47; 0x00;
  0x30; 0x44; 0x02; 0x20; 0x29; 0xd8; 0xed; 0x29; 0x5f; 0x6d; 0x27; 0xc0; 0xd3; 0x7d; 0x58; 0xfc;
  0x8e; 0xbc; 0xa4; 0xe7; 0xe2; 0xb0; 0xc8; 0xee; 0x3b; 0x73; 0x74; 0x47; 0x0e; 0x4b; 0x68; 0xf9;
  0x07; 0x15; 0xf4; 0x30; 0x02; 0x20; 0x73; 0x5e; 0x96; 0xf5; 0x59; 0xe7; 0xe4; 0x95; 0xa9; 0x46;
  0xa4; 0xb1; 0x6f; 0xcb; 0x1a; 0xa2; 0x11; 0x0f; 0x86; 0x8b; 0x69; 0x56; 0x73; 0x39; 0x3b; 0x3a;
  0x14; 0xa7; 0xcf; 0x31; 0x14; 0xd0].

Definition LEAF_CERT_DER : bytes := [
  0x30; 0x82; 0x01; 0x7d; 0x30; 0x82; 0x01; 0x24; 0xa0; 0x03; 0x02; 0x01; 0x02; 0x02; 0x01; 0x02;
  0x30; 0x0a; 0x06; 0x08; 0x2a; 0x86; 0x48; 0xce; 0x3d; 0x04; 0x03; 0x02; 0x30; 0x17; 0x31; 0x15;
  0x30; 0x13; 0x06; 0x03; 0x55; 0x04; 0x03; 0x0c; 0x0c; 0x72; 0x79; 0x6b; 0x65; 0x20; 0x74; 0x65;
  0x73; 0x74; 0x20; 0x43; 0x41; 0x30; 0x1e; 0x17; 0x0d; 0x32; 0x36; 0x30; 0x37; 0x30; 0x36; 0x31;
  0x32; 0x33; 0x32; 0x34; 0x37; 0x5a; 0x17; 0x0d; 0x33; 0x36; 0x30; 0x37; 0x30; 0x33; 0x31; 0x32;
  0x33; 0x32; 0x34; 0x37; 0x5a; 0x30; 0x1a; 0x31; 0x18; 0x30; 0x16; 0x06; 0x03; 0x55; 0x04; 0x03;
  0x0c; 0x0f; 0x76; 0x70; 0x6e; 0x2e; 0x65; 0x78; 0x61; 0x6d; 0x70; 0x6c; 0x65; 0x2e; 0x63; 0x6f;
  0x6d; 0x30; 0x59; 0x30; 0x13; 0x06; 0x07; 0x2a; 0x86; 0x48; 0xce; 0x3d; 0x02; 0x01; 0x06; 0x08;
  0x2a; 0x86; 0x48; 0xce; 0x3d; 0x03; 0x01; 0x07; 0x03; 0x42; 0x00; 0x04; 0xac; 0x33; 0x1e; 0x01;
  0x4a; 0x62; 0x94; 0xa9; 0xcb; 0xda; 0x42; 0x59; 0x40; 0x3a; 0x8c; 0x76; 0xbb; 0xce; 0xb1; 0x69;
  0xf5; 0x3d; 0x75; 0xa6; 0x28; 0x32; 0x18; 0x6a; 0xfa; 0x02; 0x8c; 0xff; 0x47; 0xd6; 0xfa; 0xbc;
  0xe4; 0x6a; 0x11; 0x3e; 0x56; 0xb2; 0xd4; 0x0e; 0xc4; 0x1b; 0xd6; 0xda; 0x22; 0xe5; 0x4a; 0x28;
  0xcb; 0x65; 0xbf; 0x26; 0xdd; 0xcb; 0x1f; 0x23; 0x0d; 0xae; 0xc8; 0xc3; 0xa3; 0x5e; 0x30; 0x5c;
  0x30; 0x1a; 0x06; 0x03; 0x55; 0x1d; 0x11; 0x04; 0x13; 0x30; 0x11; 0x82; 0x0f; 0x76; 0x70; 0x6e;
  0x2e; 0x65; 0x78; 0x61; 0x6d; 0x70; 0x6c; 0x65; 0x2e; 0x63; 0x6f; 0x6d; 0x30; 0x1d; 0x06; 0x03;
  0x55; 0x1d; 0x0e; 0x04; 0x16; 0x04; 0x14; 0x1b; 0x2b; 0x80; 0x4d; 0xe7; 0x44; 0xd7; 0x1c; 0x60;
  0x12; 0xba; 0x5c; 0x0d; 0x19; 0xe0; 0x81; 0x83; 0xb2; 0x0c; 0x19; 0x30; 0x1f; 0x06; 0x03; 0x55;
  0x1d; 0x23; 0x04; 0x18; 0x30; 0x16; 0x80; 0x14; 0x24; 0x32; 0x50; 0x12; 0x1c; 0x3b; 0x4b; 0xe0;
  0x6a; 0x8a; 0x7b; 0x32; 0xda; 0x2f; 0xa9; 0x64; 0x0a; 0xab; 0x30; 0x70; 0x30; 0x0a; 0x06; 0x08;
  0x2a; 0x86; 0x48; 0xce; 0x3d; 0x04; 0x03; 0x02; 0x03; 0x47; 0x00; 0x30; 0x44; 0x02; 0x20; 0x1f;
  0xad; 0xe3; 0x0e; 0x09; 0xc4; 0xd4; 0xa9; 0xd5; 0x01; 0xed; 0x3f; 0xec; 0x62; 0x9c; 0x6c; 0x6c;
  0x69; 0xc5; 0x61; 0x05; 0x1c; 0xd8; 0xe3; 0x30; 0x13; 0x29; 0xa4; 0xaf; 0x41; 0xf0; 0xa9; 0x02;
  0x20; 0x68; 0xa7; 0xfc; 0xbc; 0x1d; 0xc0; 0x5f; 0x26; 0xc7; 0x4f; 0xeb; 0xb9; 0xef; 0x24; 0xcc;
  0x20; 0xc3; 0x6b; 0x19; 0x12; 0x11; 0xa0; 0xbf; 0xfc; 0x54; 0xf1; 0x6a; 0xf9; 0x0d; 0x06; 0x9e;
  0xfc].

Definition CHAIN_ROOT_DER : bytes := [
  0x30; 0x82; 0x01; 0x99; 0x30; 0x82; 0x01; 0x3f; 0xa0; 0x03; 0x02; 0x01; 0x02; 0x02; 0x14; 0x73;
  0x68; 0xf5; 0xbd; 0x24; 0xa4; 0x74; 0xda; 0xbb; 0x9a; 0xf6; 0x14; 0xcb; 0xf6; 0x57; 0x2c; 0x5c;
  0x64; 0x57; 0x80; 0x30; 0x0a; 0x06; 0x08; 0x2a; 0x86; 0x48; 0xce; 0x3d; 0x04; 0x03; 0x02; 0x30;
  0x1a; 0x31; 0x18; 0x30; 0x16; 0x06; 0x03; 0x55; 0x04; 0x03; 0x0c; 0x0f; 0x72; 0x79; 0x6b; 0x65;
  0x20; 0x63; 0x68; 0x61; 0x69; 0x6e; 0x20; 0x72; 0x6f; 0x6f; 0x74; 0x30; 0x1e; 0x17; 0x0d; 0x32;
  0x36; 0x30; 0x37; 0x30; 0x36; 0x31; 0x35; 0x30; 0x35; 0x34; 0x35; 0x5a; 0x17; 0x0d; 0x33; 0x36;
  0x30; 0x37; 0x30; 0x33; 0x31; 0x35; 0x30; 0x35; 0x34; 0x35; 0x5a; 0x30; 0x1a; 0x31; 0x18; 0x30;
  0x16; 0x06; 0x03; 0x55; 0x04; 0x03; 0x0c; 0x0f; 0x72; 0x79; 0x6b; 0x65; 0x20; 0x63; 0x68; 0x61;
  0x69; 0x6e; 0x20; 0x72; 0x6f; 0x6f; 0x74; 0x30; 0x59; 0x30; 0x13; 0x06; 0x07; 0x2a; 0x86; 0x48;
  0xce; 0x3d; 0x02; 0x01; 0x06; 0x08; 0x2a; 0x86; 0x48; 0xce; 0x3d; 0x03; 0x01; 0x07; 0x03; 0x42;
  0x00; 0x04; 0xbc; 0x20; 0xa7; 0xf5; 0xf7; 0x3e; 0xc6; 0x6c; 0x90; 0x27; 0x23; 0x4a; 0x1a; 0x73;
  0xd4; 0xa6; 0xb0; 0x7b; 0x76; 0x26; 0x45; 0x7b; 0xca; 0xd5; 0xbb; 0xef; 0x20; 0xaf; 0xf9; 0x4b;
  0x2e; 0x57; 0xfd; 0x2f; 0x3c; 0x85; 0x4d; 0xb0; 0xbb; 0x4b; 0x7e; 0x2d; 0xbd; 0xa6; 0x6c; 0x8e;
  0x50; 0x91; 0xde; 0x59; 0x03; 0xa7; 0x3b; 0x10; 0x6d; 0xc3; 0x86; 0xd5; 0x5a; 0xe5; 0xe6; 0x51;
  0x5f; 0x26; 0xa3; 0x63; 0x30; 0x61; 0x30; 0x1d; 0x06; 0x03; 0x55; 0x1d; 0x0e; 0x04; 0x16; 0x04;
  0x14; 0x02; 0x03; 0xc4; 0x16; 0x6f; 0x68; 0xac; 0xec; 0x3b; 0x4d; 0x61; 0x25; 0x19; 0x83; 0x49;
  0x52; 0xc0; 0x2a; 0xee; 0x35; 0x30; 0x1f; 0x06; 0x03; 0x55; 0x1d; 0x23; 0x04; 0x18; 0x30; 0x16;
  0x80; 0x14; 0x02; 0x03; 0xc4; 0x16; 0x6f; 0x68; 0xac; 0xec; 0x3b; 0x4d; 0x61; 0x25; 0x19; 0x83;
  0x49; 0x52; 0xc0; 0x2a; 0xee; 0x35; 0x30; 0x0f; 0x06; 0x03; 0x55; 0x1d; 0x13; 0x01; 0x01; 0xff;
  0x04; 0x05; 0x30; 0x03; 0x01; 0x01; 0xff; 0x30; 0x0e; 0x06; 0x03; 0x55; 0x1d; 0x0f; 0x01; 0x01;
  0xff; 0x04; 0x04; 0x03; 0x02; 0x01; 0x06; 0x30; 0x0a; 0x06; 0x08; 0x2a; 0x86; 0x48; 0xce; 0x3d;
  0x04; 0x03; 0x02; 0x03; 0x48; 0x00; 0x30; 0x45; 0x02; 0x20; 0x73; 0xd7; 0xea; 0x30; 0x5a; 0xb6;
  0x6c; 0x7d; 0xb3; 0x03; 0x0e; 0xd4; 0xc9; 0x1f; 0xed; 0x96; 0x1b; 0x58; 0x8e; 0x17; 0x38; 0xbc;
  0x73; 0xbb; 0xfd; 0x37; 0x93; 0xdb; 0xa7; 0x0a; 0xfb; 0xe8; 0x02; 0x21; 0x00; 0xb5; 0x34; 0x3d;
  0x4d; 0xfe; 0xaf; 0xa8; 0xe3; 0xbd; 0xb3; 0xa6; 0x21; 0x02; 0x91; 0x62; 0xad; 0x84; 0x64; 0xc3;
  0xd3; 0x2a; 0xff; 0xbd; 0xbb; 0x31; 0xb2; 0x72; 0x28; 0xeb; 0x7e; 0x02; 0x72].

Definition CHAIN_INT_DER : bytes := [
  0x30; 0x82; 0x01; 0x8e; 0x30; 0x82; 0x01; 0x34; 0xa0; 0x03; 0x02; 0x01; 0x02; 0x02; 0x01; 0x0a;
  0x30; 0x0a; 0x06; 0x08; 0x2a; 0x86; 0x48; 0xce; 0x3d; 0x04; 0x03; 0x02; 0x30; 0x1a; 0x31; 0x18;
  0x30; 0x16; 0x06; 0x03; 0x55; 0x04; 0x03; 0x0c; 0x0f; 0x72; 0x79; 0x6b; 0x65; 0x20; 0x63; 0x68;
  0x61; 0x69; 0x6e; 0x20; 0x72; 0x6f; 0x6f; 0x74; 0x30; 0x1e; 0x17; 0x0d; 0x32; 0x36; 0x30; 0x37;
  0x30; 0x36; 0x31; 0x35; 0x30; 0x35; 0x34; 0x35; 0x5a; 0x17; 0x0d; 0x33; 0x36; 0x30; 0x37; 0x30;
  0x33; 0x31; 0x35; 0x30; 0x35; 0x34; 0x35; 0x5a; 0x30; 0x22; 0x31; 0x20; 0x30; 0x1e; 0x06; 0x03;
  0x55; 0x04; 0x03; 0x0c; 0x17; 0x72; 0x79; 0x6b; 0x65; 0x20; 0x63; 0x68; 0x61; 0x69; 0x6e; 0x20;
  0x69; 0x6e; 0x74; 0x65; 0x72; 0x6d; 0x65; 0x64; 0x69; 0x61; 0x74; 0x65; 0x30; 0x59; 0x30; 0x13;
  0x06; 0x07; 0x2a; 0x86; 0x48; 0xce; 0x3d; 0x02; 0x01; 0x06; 0x08; 0x2a; 0x86; 0x48; 0xce; 0x3d;
  0x03; 0x01; 0x07; 0x03; 0x42; 0x00; 0x04; 0x56; 0x21; 0xed; 0x89; 0x1e; 0x57; 0xd5; 0xc9; 0x11;
  0x90; 0x35; 0x93; 0xbd; 0xda; 0x51; 0xcf; 0xb8; 0xd5; 0xc4; 0x02; 0x30; 0x8b; 0x2a; 0x75; 0xb4;
  0xec; 0x0b; 0x7c; 0x94; 0xf7; 0xc2; 0x41; 0x4e; 0xab; 0x7e; 0xac; 0xef; 0xb4; 0x6f; 0xf0; 0x98;
  0x82; 0xd8; 0x71; 0xca; 0x2e; 0xde; 0x27; 0xee; 0xc0; 0xa8; 0x87; 0x58; 0x6d; 0xc1; 0xb8; 0x76;
  0xe5; 0xc7; 0x8d; 0x17; 0x81; 0xb7; 0x0d; 0xa3; 0x63; 0x30; 0x61; 0x30; 0x0f; 0x06; 0x03; 0x55;
  0x1d; 0x13; 0x01; 0x01; 0xff; 0x04; 0x05; 0x30; 0x03; 0x01; 0x01; 0xff; 0x30; 0x0e; 0x06; 0x03;
  0x55; 0x1d; 0x0f; 0x01; 0x01; 0xff; 0x04; 0x04; 0x03; 0x02; 0x01; 0x06; 0x30; 0x1d; 0x06; 0x03;
  0x55; 0x1d; 0x0e; 0x04; 0x16; 0x04; 0x14; 0xef; 0x41; 0xe2; 0x12; 0xe2; 0xd4; 0x26; 0xcf; 0x37;
  0x5f; 0x27; 0x09; 0xa0; 0x09; 0x43; 0x76; 0x9d; 0xc3; 0x1d; 0x5b; 0x30; 0x1f; 0x06; 0x03; 0x55;
  0x1d; 0x23; 0x04; 0x18; 0x30; 0x16; 0x80; 0x14; 0x02; 0x03; 0xc4; 0x16; 0x6f; 0x68; 0xac; 0xec;
  0x3b; 0x4d; 0x61; 0x25; 0x19; 0x83; 0x49; 0x52; 0xc0; 0x2a; 0xee; 0x35; 0x30; 0x0a; 0x06; 0x08;
  0x2a; 0x86; 0x48; 0xce; 0x3d; 0x04; 0x03; 0x02; 0x03; 0x48; 0x00; 0x30; 0x45; 0x02; 0x20; 0x64;
  0xfc; 0x4c; 0x1e; 0x93; 0xf6; 0x53; 0x5f; 0x33; 0x4f; 0xd4; 0xa9; 0xc3; 0xef; 0x26; 0xa8; 0x20;
  0x45; 0x14; 0x17; 0x81; 0x0f; 0xb2; 0x6f; 0x68; 0x5d; 0x42; 0x55; 0x35; 0xea; 0xdd; 0xac; 0x02;
  0x21; 0x00; 0xbb; 0x4d; 0xf9; 0xcd; 0xa8; 0xd7; 0x49; 0x85; 0x5d; 0x37; 0x98; 0x63; 0xbf; 0x82;
  0x10; 0xe7; 0xfa; 0xb3; 0x64; 0x61; 0xbb; 0x4c; 0xe5; 0x36; 0xfb; 0xe5; 0x49; 0x7e; 0x78; 0x2b;
  0xfa; 0x10].

Definition CHAIN_LEAF_DER : bytes := [
  0x30; 0x82; 0x01; 0x95; 0x30; 0x82; 0x01; 0x3a; 0xa0; 0x03; 0x02; 0x01; 0x02; 0x02; 0x01; 0x0b;
  0x30; 0x0a; 0x06; 0x08; 0x2a; 0x86; 0x48; 0xce; 0x3d; 0x04; 0x03; 0x02; 0x30; 0x22; 0x31; 0x20;
  0x30; 0x1e; 0x06; 0x03; 0x55; 0x04; 0x03; 0x0c; 0x17; 0x72; 0x79; 0x6b; 0x65; 0x20; 0x63; 0x68;
  0x61; 0x69; 0x6e; 0x20; 0x69; 0x6e; 0x74; 0x65; 0x72; 0x6d; 0x65; 0x64; 0x69; 0x61; 0x74; 0x65;
  0x30; 0x1e; 0x17; 0x0d; 0x32; 0x36; 0x30; 0x37; 0x30; 0x36; 0x31; 0x35; 0x30; 0x35; 0x34; 0x36;
  0x5a; 0x17; 0x0d; 0x33; 0x36; 0x30; 0x37; 0x30; 0x33; 0x31; 0x35; 0x30; 0x35; 0x34; 0x36; 0x5a;
  0x30; 0x1a; 0x31; 0x18; 0x30; 0x16; 0x06; 0x03; 0x55; 0x04; 0x03; 0x0c; 0x0f; 0x76; 0x70; 0x6e;
  0x2e; 0x65; 0x78; 0x61; 0x6d; 0x70; 0x6c; 0x65; 0x2e; 0x63; 0x6f; 0x6d; 0x30; 0x59; 0x30; 0x13;
  0x06; 0x07; 0x2a; 0x86; 0x48; 0xce; 0x3d; 0x02; 0x01; 0x06; 0x08; 0x2a; 0x86; 0x48; 0xce; 0x3d;
  0x03; 0x01; 0x07; 0x03; 0x42; 0x00; 0x04; 0x10; 0x07; 0xb5; 0xe9; 0xbb; 0xaa; 0x0a; 0x96; 0xfb;
  0x93; 0x0a; 0x95; 0x67; 0xc9; 0x35; 0x4c; 0x91; 0xe7; 0xc0; 0xcb; 0x63; 0x92; 0x72; 0x43; 0x43;
  0xfa; 0x37; 0x4a; 0x7e; 0x55; 0xf7; 0x2f; 0xf2; 0x4f; 0x5f; 0xbe; 0x3f; 0xdf; 0x73; 0x1e; 0x88;
  0x03; 0x30; 0x2a; 0x74; 0x4c; 0xca; 0xfc; 0x56; 0xfe; 0xaa; 0x0d; 0x5c; 0x72; 0x05; 0xfd; 0xcc;
  0xba; 0xa5; 0x2d; 0x58; 0x43; 0xf5; 0x3d; 0xa3; 0x69; 0x30; 0x67; 0x30; 0x09; 0x06; 0x03; 0x55;
  0x1d; 0x13; 0x04; 0x02; 0x30; 0x00; 0x30; 0x1a; 0x06; 0x03; 0x55; 0x1d; 0x11; 0x04; 0x13; 0x30;
  0x11; 0x82; 0x0f; 0x76; 0x70; 0x6e; 0x2e; 0x65; 0x78; 0x61; 0x6d; 0x70; 0x6c; 0x65; 0x2e; 0x63;
  0x6f; 0x6d; 0x30; 0x1d; 0x06; 0x03; 0x55; 0x1d; 0x0e; 0x04; 0x16; 0x04; 0x14; 0x11; 0x85; 0xee;
  0xdf; 0x59; 0x8e; 0x15; 0xc1; 0xd5; 0x83; 0xd4; 0x3c; 0x64; 0x05; 0x0e; 0xb3; 0xca; 0x1c; 0x49;
  0xe0; 0x30; 0x1f; 0x06; 0x03; 0x55; 0x1d; 0x23; 0x04; 0x18; 0x30; 0x16; 0x80; 0x14; 0xef; 0x41;
  0xe2; 0x12; 0xe2; 0xd4; 0x26; 0xcf; 0x37; 0x5f; 0x27; 0x09; 0xa0; 0x09; 0x43; 0x76; 0x9d; 0xc3;
  0x1d; 0x5b; 0x30; 0x0a; 0x06; 0x08; 0x2a; 0x86; 0x48; 0xce; 0x3d; 0x04; 0x03; 0x02; 0x03; 0x49;
  0x00; 0x30; 0x46; 0x02; 0x21; 0x00; 0xc3; 0x01; 0xca; 0x04; 0xfb; 0xe8; 0xd5; 0xfb; 0xbd; 0xea;
  0x00; 0xa7; 0xc6; 0x62; 0x80; 0x8f; 0x89; 0x42; 0x6c; 0x86; 0xf5; 0x82; 0xea; 0xb2; 0xf4; 0xff;
  0x9f; 0x8b; 0xeb; 0x2c; 0xe0; 0x7c; 0x02; 0x21; 0x00; 0x86; 0xea; 0xf8; 0xdf; 0x74; 0xdf; 0x72;
  0xcf; 0xab; 0x96; 0x6a; 0xa9; 0x7c; 0x39; 0x35; 0x29; 0x69; 0x08; 0x05; 0x34; 0x3c; 0x62; 0x49;
  0x18; 0xec; 0xca; 0xdf; 0x98; 0x40; 0x1d; 0x6e; 0xf5].

Definition CHAIN_LEAF_SCALAR : bytes := [
  0xd4; 0x7f; 0x50; 0x8b; 0x64; 0xe9; 0xec; 0x65; 0x9f; 0x8d; 0x0b; 0x4f; 0xe7; 0xbd; 0x19; 0x67;
  0xf1; 0xf9; 0xcd; 0x2d; 0xa5; 0xa6; 0x3c; 0xd3; 0x38; 0x9c; 0x49; 0xb8; 0xd1; 0x3f; 0x14; 0x23].
