(* ===== verification/X509.v ===== *)
(** * Reading certificates

    An instance of the parameters [Pki] that can read the crate's own certificate fixtures: DER
    (X.690), X.509 certificates (RFC 5280) with their names, validity, extensions and keys, and ECDSA
    signatures as pairs of integers (their octets).  Signing and verifying are not the elliptic-curve
    operations: a signature made here names the signer's public key and the digest,
    and the signatures inside the fixtures are accepted from the keys that issued them. *)
From stdpp Require Import strings.
From S2P Require Import Prelude Outcome Primitives Sign TestCerts.
Open Scope Z_scope.

(** ** DER *)

(** The length octets: the length, and what follows them *)
Definition der_length (l : bytes) : option (nat * bytes) :=
  match l with
  | 0x81 :: a :: rest => Some (Z.to_nat a, rest)
  | 0x82 :: a :: b :: rest => Some (Z.to_nat (256 * a + b), rest)
  | a :: rest => if a <? 0x80 then Some (Z.to_nat a, rest) else None
  | [] => None
  end.

(** One element: its tag, its contents and its whole encoding *)
Record Tlv := mkTlv { tlv_tag : Z; tlv_body : bytes; tlv_der : bytes }.

Definition der_read (l : bytes) : option (Tlv * bytes) :=
  match l with
  | tag :: l' =>
      '(n, body) ← der_length l';
      if (n <=? length body)%nat then
        let rest := drop n body in
        Some (mkTlv tag (take n body) (take (length l - length rest) l), rest)
      else None
  | [] => None
  end.

(** The elements one after the other; each takes at least two octets. *)
Fixpoint der_items (fuel : nat) (l : bytes) : option (list Tlv) :=
  match fuel, l with
  | _, [] => Some []
  | O, _ => None
  | S f, _ => '(t, rest) ← der_read l; ts ← der_items f rest; Some (t :: ts)
  end.

Definition der_sequence (tag : Z) (t : Tlv) : option (list Tlv) :=
  if tlv_tag t =? tag then der_items (length (tlv_body t)) (tlv_body t) else None.

(** A single element with nothing after it *)
Definition der_whole (l : bytes) : option Tlv :=
  match der_read l with Some (t, []) => Some t | _ => None end.

Definition SEQUENCE : Z := 0x30.
Definition INTEGER : Z := 0x02.
Definition BOOLEAN : Z := 0x01.
Definition OBJECT_IDENTIFIER : Z := 0x06.
Definition OCTET_STRING : Z := 0x04.
Definition BIT_STRING : Z := 0x03.

(** *** Object identifiers, in dotted form *)
Fixpoint decimal (fuel : nat) (n : Z) (acc : string) : string :=
  match fuel with
  | O => acc
  | S f =>
      let acc := String (Ascii.ascii_of_nat (Z.to_nat (48 + n mod 10))) acc in
      if n <? 10 then acc else decimal f (n / 10) acc
  end.

Fixpoint oid_arcs (acc : Z) (l : bytes) : list Z :=
  match l with
  | [] => []
  | b :: rest => if b <? 0x80 then acc * 128 + b :: oid_arcs 0 rest else oid_arcs (acc * 128 + (b - 0x80)) rest
  end.

Definition dotted (arcs : list Z) : string := String.concat "." (( fun n => decimal 20 n "") <$> arcs).

Definition der_oid (t : Tlv) : option string :=
  if tlv_tag t =? OBJECT_IDENTIFIER then
    match oid_arcs 0 (tlv_body t) with
    | x :: rest => Some (dotted (if x <? 80 then x / 40 :: x mod 40 :: rest else 2 :: x - 80 :: rest))
    | [] => None
    end
  else None.

(** *** Times, in seconds since 1970 *)
Definition digit (b : Z) : Z := b - 48.
Fixpoint pairs (l : bytes) : list Z :=
  match l with a :: b :: rest => 10 * digit a + digit b :: pairs rest | _ => [] end.

(** Days since 1970-01-01 of a date of the Gregorian calendar; the year starts in March. *)
Definition days_from_civil (y m d : Z) : Z :=
  let y := if m <=? 2 then y - 1 else y in
  let era := y / 400 in
  let yoe := y - era * 400 in
  let doy := (153 * (if 2 <? m then m - 3 else m + 9) + 2) / 5 + d - 1 in
  era * 146097 + (yoe * 365 + yoe / 4 - yoe / 100 + doy) - 719468.

Definition unix_seconds (y : Z) (rest : list Z) : option Z :=
  match rest with
  | [mo; d; h; mi; s] => Some (days_from_civil y mo d * 86400 + h * 3600 + mi * 60 + s)
  | _ => None
  end.

(** [UTCTime] and [GeneralizedTime] *)
Definition der_time (t : Tlv) : option Z :=
  match tlv_tag t, pairs (tlv_body t) with
  | 0x17, yy :: rest => unix_seconds (if yy <? 50 then 2000 + yy else 1900 + yy) rest
  | 0x18, c :: yy :: rest => unix_seconds (100 * c + yy) rest
  | _, _ => None
  end.

(** ** Certificates *)
Record Cert := mkCert {
  ct_tbs : bytes;
  ct_issuer : bytes;
  ct_subject : bytes;
  ct_not_before : Z;
  ct_not_after : Z;
  ct_spki : bytes;
  ct_spki_oid : string;
  ct_exts : option (list (string * bytes));
  ct_sig_oid : string;
  ct_sig : bytes }.

(** The first element of a sequence, an object identifier *)
Definition algorithm_oid (t : Tlv) : option string :=
  ts ← der_sequence SEQUENCE t;
  x ← head ts;
  der_oid x.

(** [Extension ::= SEQUENCE { extnID, critical BOOLEAN DEFAULT FALSE, extnValue }] *)
Definition der_extension (t : Tlv) : option (string * bytes) :=
  ts ← der_sequence SEQUENCE t;
  match ts with
  | [o; v] => oid ← der_oid o; Some (oid, tlv_body v)
  | [o; _; v] => oid ← der_oid o; Some (oid, tlv_body v)
  | _ => None
  end.

(** The context-specific element [[3]] at the end of the body *)
Definition der_extensions (rest : list Tlv) : option (list (string * bytes)) :=
  t ← find (fun t => tlv_tag t =? 0xa3) rest;
  s ← der_whole (tlv_body t);
  ts ← der_sequence SEQUENCE s;
  mapM der_extension ts.

Definition bit_string (t : Tlv) : option bytes :=
  if tlv_tag t =? BIT_STRING then match tlv_body t with 0 :: b => Some b | _ => None end else None.

Definition cert_read (der : bytes) : option Cert :=
  c ← der_whole der;
  parts ← der_sequence SEQUENCE c;
  match parts with
  | [tbs; sig_alg; sig] =>
      fields ← der_sequence SEQUENCE tbs;
      let fields := match fields with v :: rest => if tlv_tag v =? 0xa0 then rest else fields | [] => [] end in
      match fields with
      | _ :: _ :: issuer :: validity :: subject :: spki :: rest =>
          times ← der_sequence SEQUENCE validity;
          match times with
          | [nb; na] =>
              nb ← der_time nb;
              na ← der_time na;
              key ← der_sequence SEQUENCE spki;
              key_alg ← head key;
              key_oid ← algorithm_oid key_alg;
              sig_oid ← algorithm_oid sig_alg;
              sig ← bit_string sig;
              Some (mkCert (tlv_der tbs) (tlv_der issuer) (tlv_der subject) nb na (tlv_der spki) key_oid
                      (der_extensions rest) sig_oid sig)
          | _ => None
          end
      | _ => None
      end
  | _ => None
  end.

(** [SubjectAltName]: the names with tag [[2]] are DNS names. *)
Definition san_read (l : bytes) : option (list GeneralName) :=
  t ← der_whole l;
  ts ← der_sequence SEQUENCE t;
  Some (map (fun t => if tlv_tag t =? 0x82 then DnsName (tlv_body t) else OtherName) ts).

(** [BasicConstraints ::= SEQUENCE { cA BOOLEAN DEFAULT FALSE, .. }] *)
Definition basic_constraints_read (l : bytes) : option bool :=
  t ← der_whole l;
  ts ← der_sequence SEQUENCE t;
  match ts with
  | b :: _ => Some ((tlv_tag b =? BOOLEAN) && negb (bool_decide (tlv_body b = [0])))
  | [] => Some false
  end.

(** ** Keys and signatures *)

(** The public point of a P-256 key, uncompressed *)
Definition OID_P256 : string := "1.2.840.10045.3.1.7".

Definition ec_point (spki : bytes) : option bytes :=
  t ← der_whole spki;
  ts ← der_sequence SEQUENCE t;
  match ts with
  | [alg; key] =>
      algs ← der_sequence SEQUENCE alg;
      match algs with
      | [_; curve] =>
          oid ← der_oid curve;
          if decide (oid = OID_P256) then bit_string key else None
      | _ => None
      end
  | _ => None
  end.

(** The modulus of an RSA key in PKCS#8 *)
Definition rsa_modulus (pkcs8 : bytes) : option bytes :=
  t ← der_whole pkcs8;
  ts ← der_sequence SEQUENCE t;
  k ← ts !! 2%nat;
  key ← der_whole (tlv_body k);
  ints ← der_sequence SEQUENCE key;
  n ← ints !! 1%nat;
  Some (tlv_body n).

(** [ECDSA-Sig-Value ::= SEQUENCE { r INTEGER, s INTEGER }] *)
Definition ec_sig_read (l : bytes) : option (bytes * bytes) :=
  t ← der_whole l;
  ts ← der_sequence SEQUENCE t;
  match ts with
  | [r; s] =>
      if (tlv_tag r =? INTEGER) && (tlv_tag s =? INTEGER) then Some (tlv_body r, tlv_body s) else None
  | _ => None
  end.

Definition der_integer (b : bytes) : bytes := [INTEGER; Z.of_nat (length b)] ++ b.
Definition ec_sig_write (s : bytes * bytes) : bytes :=
  let body := der_integer s.1 ++ der_integer s.2 in
  [SEQUENCE; Z.of_nat (length body)] ++ body.

(** ** The instance *)
Section fixtures.
Context `{!Primitives}.

Definition cert_point (der : bytes) : bytes := default [] (c ← cert_read der; ec_point (ct_spki c)).

(** Which fixture was issued by which *)
Definition issuances : list (bytes * bytes) :=
  [(CA_CERT_DER, CA_CERT_DER); (LEAF_CERT_DER, CA_CERT_DER); (CHAIN_ROOT_DER, CHAIN_ROOT_DER);
   (CHAIN_INT_DER, CHAIN_ROOT_DER); (CHAIN_LEAF_DER, CHAIN_INT_DER)].

Definition issued (point digest : bytes) (s : bytes * bytes) : bool :=
  existsb (fun '(cert, issuer) =>
    match cert_read cert with
    | Some c =>
        if decide (ec_sig_read (ct_sig c) = Some s) then
          bool_decide (cert_point issuer = point) && bool_decide (sha256 (ct_tbs c) = digest)
        else false
    | None => false
    end) issuances.

(** The public points of the private scalars of the fixtures *)
Definition scalar_point (k : bytes) : option bytes :=
  if decide (k = LEAF_SCALAR) then Some (cert_point LEAF_CERT_DER)
  else if decide (k = CHAIN_LEAF_SCALAR) then Some (cert_point CHAIN_LEAF_DER)
  else None.

Definition fixture_pki : Pki := {|
  X509 := Cert;
  x509_from_der := cert_read;
  x509_spki_der c := Some (ct_spki c);
  x509_spki_oid := ct_spki_oid;
  x509_tbs_der c := Some (ct_tbs c);
  x509_signature c := Some (ct_sig c);
  x509_signature_oid := ct_sig_oid;
  x509_subject_der c := Some (ct_subject c);
  x509_issuer_der c := Some (ct_issuer c);
  x509_not_before := ct_not_before;
  x509_not_after := ct_not_after;
  x509_extensions := ct_exts;
  san_from_der := san_read;
  basic_constraints_ca := basic_constraints_read;
  RsaPrivateKey := bytes; RsaPublicKey := bytes;
  rsa_public_from_der _ := None;
  rsa_sign_pkcs1 n d := Some (n ++ d);
  rsa_verify_pkcs1 n d s := bool_decide (s = n ++ d);
  rsa_verify_pss _ _ _ := false;
  EcSigningKey := bytes; EcVerifyingKey := bytes; EcSignature := bytes * bytes;
  ec_signing_from_pkcs8 _ := None;
  ec_verifying_from_der := ec_point;
  ec_sign_prehash k d := point ← scalar_point k; Some (point, d);
  ec_verify_prehash point d s := bool_decide (s = (point, d)) || issued point d s;
  ec_signature_to_der := ec_sig_write;
  ec_signature_to_bytes s := s.1 ++ s.2;
  ec_signature_from_der := ec_sig_read |}.
End fixtures.

(** The leaf as it was issued: validity, algorithms and extensions *)
Definition cert_summary (der : bytes) : option (Z * Z * string * string * option (list string)) :=
  c ← cert_read der;
  Some (ct_not_before c, ct_not_after c, ct_spki_oid c, ct_sig_oid c, option_map (map fst) (ct_exts c)).

Example leaf_read : cert_summary LEAF_CERT_DER =
  Some (1783341167, 2098701167, OID_EC_PUBLIC_KEY, OID_ECDSA_WITH_SHA256,
        Some ["2.5.29.17"; "2.5.29.14"; "2.5.29.35"]%string).
Proof. vm_compute. reflexivity. Qed.
