(* ===== verification/TestsCerts.v ===== *)
(** * Tests with certificates ([sign.rs], [ike_auth.rs], [eap_auth.rs])

    The unit tests that use the fixtures of [TestCerts], read by [X509]: signatures and
    certificate paths with the standard SHA-1 and SHA-256, and the handshakes that authenticate with
    certificates with the primitives [quick]. *)
From stdpp Require Import gmap strings.
From S2P Require Import Runs Prelude Outcome Testing Primitives Entropy Message Payload Natt Crypto Sk Negotiate Exchange Informational Sign IkeAuth Transport Eap EapAuth Standard TestCerts X509 TestsHandshake.
Open Scope Z_scope.

(** ** [sign.rs] *)
Module sign.
#[local] Existing Instance std.
#[local] Instance certs : Pki := fixture_pki.

(** [p256::ecdsa::SigningKey::from_slice(LEAF_SCALAR).unwrap()]: the key is its scalar. *)
Definition ecdsa_leaf_signer : SigningKey := SkEcdsaP256 (LEAF_SCALAR : EcSigningKey).

Definition rsa_signing (n : bytes) : SigningKey := SkRsaSha256 (n : RsaPrivateKey).
Definition rsa_verifying (n : bytes) : VerifyingKey := VkRsa (n : RsaPublicKey).

(** [RsaPrivateKey::from_pkcs8_der(RSA_KEY_PK8).unwrap()]: the key is its modulus. *)
Definition rsa_signer : outcome (SigningKey * VerifyingKey) :=
  key ← unwrap_some (rsa_modulus RSA_KEY_PK8);
  Ok (rsa_signing key, rsa_verifying key).

Definition algorithm_identifier_lengths_match_the_der : test :=
  assert_eq (length sig_alg.RSA_SHA256) 15%nat;;
  assert_eq (length sig_alg.ECDSA_P256_SHA256) 12%nat;;
  assert_eq (length sig_alg.RSA_PSS_SHA256) 67%nat;;
  b ← idx sig_alg.RSA_PSS_SHA256 1;
  assert_eq b 0x41.

Definition ecdsa_sign_verify_roundtrip_via_certificate_key : test :=
  let signer := ecdsa_leaf_signer in
  let octets := ascii_bytes "ResponderSignedOctets: msgR | Ni | prf(SK_pr, IDr)" in
  auth ← unwrap (sign_auth_data signer octets);
  '(alg, _) ← unwrap (parse_auth_data auth);
  assert_eq alg sig_alg.ECDSA_P256_SHA256;;
  vk ← unwrap (from_cert_der LEAF_CERT_DER);
  unwrap (verify_auth_data vk auth octets);;
  assert (is_err (verify_auth_data vk auth (ascii_bytes "different octets")));;
  let bad := flip_at (length auth - 1) 1 auth in
  assert (is_err (verify_auth_data vk bad octets)).

Definition rsa_pkcs1v15_sign_verify_roundtrip : test :=
  '(signer, verifier) ← rsa_signer;
  assert_eq (algorithm_id signer) sig_alg.RSA_SHA256;;
  let octets := ascii_bytes "InitiatorSignedOctets under RSA" in
  auth ← unwrap (sign_auth_data signer octets);
  unwrap (verify_auth_data verifier auth octets);;
  assert (is_err (verify_auth_data verifier auth (ascii_bytes "tampered"))).

Definition key_and_scheme_must_agree : test :=
  '(rsa_signer, _) ← rsa_signer;
  let octets := ascii_bytes "octets" in
  rsa_auth ← unwrap (sign_auth_data rsa_signer octets);
  ec_vk ← unwrap (from_cert_der LEAF_CERT_DER);
  assert (is_err (verify_auth_data ec_vk rsa_auth octets)).

Definition chain_verification_accepts_real_issuer_and_rejects_others : test :=
  unwrap (verify_cert_signed_by LEAF_CERT_DER CA_CERT_DER);;
  assert (is_err (verify_cert_signed_by LEAF_CERT_DER LEAF_CERT_DER));;
  unwrap (verify_cert_signed_by CA_CERT_DER CA_CERT_DER).

Definition ca_key_hash_is_20_bytes_and_stable : test :=
  h1 ← unwrap (ca_key_hash CA_CERT_DER);
  h2 ← unwrap (ca_key_hash CA_CERT_DER);
  assert_eq h1 h2;;
  assert_eq (length h1) 20%nat;;
  h ← unwrap (ca_key_hash LEAF_CERT_DER);
  assert_ne h h1.

Definition parse_auth_data_rejects_truncation : test :=
  assert (is_err (parse_auth_data []));;
  assert (is_err (parse_auth_data [0x0c; 0x30; 0x0a])).

Definition chain_building_dates_and_basic_constraints : test :=
  '(nb, na) ← unwrap (cert_validity CHAIN_LEAF_DER);
  let now := nb + 1 in
  unwrap (validate_chain CHAIN_LEAF_DER [CHAIN_INT_DER] [CHAIN_ROOT_DER] now);;
  assert (is_err (validate_chain CHAIN_LEAF_DER [] [CHAIN_ROOT_DER] now));;
  unwrap (validate_chain CHAIN_LEAF_DER [] [CHAIN_INT_DER] now);;
  assert (is_err (validate_chain CHAIN_LEAF_DER [CHAIN_INT_DER] [CHAIN_ROOT_DER] (na + 1)));;
  assert (is_err (validate_chain CHAIN_LEAF_DER [CHAIN_INT_DER] [CHAIN_ROOT_DER] (nb - 1)));;
  a ← unwrap (cert_is_ca CHAIN_INT_DER);
  assert a;;
  b ← unwrap (cert_is_ca CHAIN_LEAF_DER);
  assert (negb b);;
  assert (is_err (validate_chain CHAIN_LEAF_DER [CHAIN_LEAF_DER] [CHAIN_ROOT_DER] now)).

Definition direct_leaf_to_anchor_still_validates : test :=
  '(nb, _) ← unwrap (cert_validity LEAF_CERT_DER);
  unwrap (validate_chain LEAF_CERT_DER [] [CA_CERT_DER] (nb + 1)).

Definition san_dns_name_matching : test :=
  a ← unwrap (cert_has_dns_name LEAF_CERT_DER (ascii_bytes "vpn.example.com"));
  assert a;;
  b ← unwrap (cert_has_dns_name LEAF_CERT_DER (ascii_bytes "VPN.Example.COM"));
  assert b;;
  c ← unwrap (cert_has_dns_name LEAF_CERT_DER (ascii_bytes "evil.example.com"));
  assert (negb c);;
  d ← unwrap (cert_has_dns_name LEAF_CERT_DER (ascii_bytes "example.com"));
  assert (negb d);;
  e ← unwrap (cert_has_dns_name CA_CERT_DER (ascii_bytes "vpn.example.com"));
  assert (negb e).

Definition tests : list test :=
  [algorithm_identifier_lengths_match_the_der; ecdsa_sign_verify_roundtrip_via_certificate_key;
   rsa_pkcs1v15_sign_verify_roundtrip; key_and_scheme_must_agree;
   chain_verification_accepts_real_issuer_and_rejects_others; ca_key_hash_is_20_bytes_and_stable;
   parse_auth_data_rejects_truncation; chain_building_dates_and_basic_constraints;
   direct_leaf_to_anchor_still_validates; san_dns_name_matching].
End sign.

(** ** [ike_auth.rs] *)
Module ike_auth.
#[local] Existing Instance quick.
#[local] Instance certs : Pki := fixture_pki.

Definition cert_config : outcome AuthConfig :=
  '(nb, _) ← unwrap (cert_validity LEAF_CERT_DER);
  let now := nb + 1 in
  Ok {| cfg_id := fqdn "vpn.example.com";
        cfg_local := LocalCert (SkEcdsaP256 (LEAF_SCALAR : EcSigningKey)) [LEAF_CERT_DER];
        cfg_peer := PeerCert [CA_CERT_DER] (Some (ascii_bytes "vpn.example.com")) now |}.

Definition ike_auth_mutual_certificate_succeeds : test :=
  '(init_sa, resp_sa) ← TestsHandshake.ike_auth.run_sa_init;
  icfg ← cert_config;
  req ← unwrap (initiator_auth_request init_sa icfg 0xDEADBEEF (replicate 8 1));
  rcfg ← cert_config;
  '(resp, learned_i, _) ← unwrap (responder_process_auth resp_sa req rcfg 0xCAFEBABE (replicate 8 2) None);
  assert_eq learned_i (fqdn "vpn.example.com");;
  '(learned_r, _, _) ← unwrap (initiator_verify_auth init_sa resp icfg);
  assert_eq learned_r (fqdn "vpn.example.com").

Definition ike_auth_cert_wrong_name_is_rejected : test :=
  '(init_sa, resp_sa) ← TestsHandshake.ike_auth.run_sa_init;
  icfg ← cert_config;
  rcfg ← cert_config;
  '(nb, _) ← unwrap (cert_validity LEAF_CERT_DER);
  let rcfg := {| cfg_id := cfg_id rcfg; cfg_local := cfg_local rcfg;
                 cfg_peer := PeerCert [CA_CERT_DER] (Some (ascii_bytes "wrong.example.com")) (nb + 1) |} in
  req ← unwrap (initiator_auth_request init_sa icfg 1 (replicate 8 1));
  e ← unwrap_err (responder_process_auth resp_sa req rcfg 2 (replicate 8 2) None);
  assert_eq e AuthFailed.

Definition tests : list test := [ike_auth_mutual_certificate_succeeds; ike_auth_cert_wrong_name_is_rejected].
End ike_auth.

(** ** [eap_auth.rs] *)
Module eap_auth.
#[local] Existing Instances quick quick_legacy TestsHandshake.eap_auth.Outcome_eq_dec.
#[local] Instance certs : Pki := fixture_pki.

Definition sa_pair : outcome (CompletedSaInit * CompletedSaInit) := TestsHandshake.eap_auth.sa_pair.
Definition OEstablished := TestsHandshake.eap_auth.OEstablished.
Definition OFailed := TestsHandshake.eap_auth.OFailed.
Definition drive : EapInitiator -> EapResponder -> outcome TestsHandshake.eap_auth.Outcome := TestsHandshake.eap_auth.drive.

Definition ecdsa_leaf_key : SigningKey := SkEcdsaP256 (LEAF_SCALAR : EcSigningKey).

Definition valid_now : outcome Z := '(nb, _) ← unwrap (cert_validity LEAF_CERT_DER); Ok (nb + 1).

Definition trust (cas : list bytes) : outcome ServerVerify :=
  now ← valid_now; Ok (TrustedCas cas (ascii_bytes "vpn.example.com") now).

Definition cert_server : ServerAuth := ServerCert ecdsa_leaf_key [LEAF_CERT_DER].

(** The client and the server that most tests start from *)
Definition alice (init_sa : CompletedSaInit) (verify : ServerVerify) : EapInitiator :=
  EapInitiator_new init_sa (fqdn "alice") (ascii_bytes "alice") (ascii_bytes "s3cret") 0x1111 verify.
Definition vpn (resp_sa : CompletedSaInit) (auth : ServerAuth) : EapResponder :=
  EapResponder_new resp_sa (fqdn "vpn.example.com") auth (ascii_bytes "alice") (ascii_bytes "s3cret") 0x2222.

Definition eap_with_certificate_server_auth_succeeds : test :=
  '(init_sa, resp_sa) ← sa_pair;
  verify ← trust [CA_CERT_DER];
  r ← drive (alice init_sa verify) (vpn resp_sa cert_server);
  assert_eq r OEstablished.

Definition eap_rejects_server_cert_without_a_trust_anchor : test :=
  '(init_sa, resp_sa) ← sa_pair;
  verify ← trust [];
  r ← drive (alice init_sa verify) (vpn resp_sa cert_server);
  assert_eq r OFailed.

Definition rsa_signing (n : bytes) : SigningKey := SkRsaSha256 (n : RsaPrivateKey).

Definition eap_rejects_signature_not_matching_the_presented_cert : test :=
  n ← unwrap_some (rsa_modulus RSA_KEY_PK8);
  let wrong_key := rsa_signing n in
  '(init_sa, resp_sa) ← sa_pair;
  verify ← trust [CA_CERT_DER];
  r ← drive (alice init_sa verify) (vpn resp_sa (ServerCert wrong_key [LEAF_CERT_DER]));
  assert_eq r OFailed.

Definition eap_rejects_valid_cert_for_the_wrong_name : test :=
  '(init_sa, resp_sa) ← sa_pair;
  now ← valid_now;
  let verify := TrustedCas [CA_CERT_DER] (ascii_bytes "other.example.com") now in
  r ← drive (alice init_sa verify) (vpn resp_sa cert_server);
  assert_eq r OFailed.

Definition eap_with_intermediate_cert_chain_succeeds : test :=
  '(init_sa, resp_sa) ← sa_pair;
  '(nb, _) ← unwrap (cert_validity CHAIN_LEAF_DER);
  let now := nb + 1 in
  let verify := TrustedCas [CHAIN_ROOT_DER] (ascii_bytes "vpn.example.com") now in
  let auth := ServerCert (SkEcdsaP256 (CHAIN_LEAF_SCALAR : EcSigningKey)) [CHAIN_LEAF_DER; CHAIN_INT_DER] in
  r ← drive (alice init_sa verify) (vpn resp_sa auth);
  assert_eq r OEstablished.

Definition eap_rejects_expired_server_cert : test :=
  '(init_sa, resp_sa) ← sa_pair;
  '(_, na) ← unwrap (cert_validity LEAF_CERT_DER);
  let expired := na + 1 in
  let verify := TrustedCas [CA_CERT_DER] (ascii_bytes "vpn.example.com") expired in
  r ← drive (alice init_sa verify) (vpn resp_sa cert_server);
  assert_eq r OFailed.

Definition cert_server_falls_back_to_classic_ecdsa_without_a_hash_offer : test :=
  '(init_sa, resp_sa) ← sa_pair;
  let resp_sa := mkCompleted (c_role resp_sa) (spi_i resp_sa) (spi_r resp_sa) (suite resp_sa) (keys resp_sa)
    (ni resp_sa) (nr resp_sa) (init_message resp_sa) (resp_message resp_sa) [] in
  verify ← trust [CA_CERT_DER];
  let responder := vpn resp_sa cert_server in
  let initiator := alice init_sa verify in
  '(msg1, _) ← TestsHandshake.eap_auth.stepped (EapInitiator_start initiator (SeedEntropy_new 1));
  assert (match (EapResponder_handle msg1 (responder, SeedEntropy_new 2)).1 with Done (Reply _) => true | _ => false end).

Definition client_refuses_eap_before_the_server_is_authenticated : test :=
  '(init_sa, resp_sa) ← sa_pair;
  verify ← trust [CA_CERT_DER];
  let initiator := alice init_sa verify in
  let eap := mkEap code.REQUEST 1 [eap_type.IDENTITY] in
  rogue ← unwrap (build_sk resp_sa 1 true [(PEap, EapPacket_to_bytes eap)] (replicate 8 0));
  '(ev, _) ← TestsHandshake.eap_auth.stepped (EapInitiator_handle rogue (initiator, SeedEntropy_new 1));
  assert (match ev with EapFailed => true | _ => false end).

Definition tests : list test :=
  [eap_with_certificate_server_auth_succeeds; eap_rejects_server_cert_without_a_trust_anchor;
   eap_rejects_signature_not_matching_the_presented_cert; eap_rejects_valid_cert_for_the_wrong_name;
   eap_with_intermediate_cert_chain_succeeds; eap_rejects_expired_server_cert;
   cert_server_falls_back_to_classic_ecdsa_without_a_hash_offer;
   client_refuses_eap_before_the_server_is_authenticated].
End eap_auth.

(** Certificate authentication on the crate's own certificates: the octets of [test_certs.rs] are read
    as X.509, the paths leaf to CA and leaf to intermediate to root validate and every
    other path of the tests is refused (a missing or non-CA intermediate, outside the validity, no
    trust anchor), the host name is matched without case and without suffixes, and the
    certificate handshakes of IKE_AUTH and EAP establish exactly with the expected
    name, time, anchor and signing key. *)
Theorem certificate_tests_pass :
  Forall (fun t => t = Ok tt) (sign.tests ++ ike_auth.tests ++ eap_auth.tests).
Proof. apply failures_none. vm_compute. reflexivity. Qed.
