(* ===== verification/TestsIkev1.v ===== *)
(** * Tests of the IKEv1 exchanges and of IKE_SA_INIT over MODP groups ([phase1.rs], [quick.rs],
    [exchange.rs])

    Run with the primitives [quick] of [Runs] and [toy1] of [Crypto1].  Exponentiation modulo
    the groups' primes, which takes minutes to evaluate, is replaced by multiplication: it has the
    one property these tests depend on, that both sides compute the same secret. *)
From stdpp Require Import strings.
From S2P Require Import Runs Prelude Outcome Testing Primitives Entropy Eap Message Payload Crypto Sk Negotiate Esp Natt Exchange Isakmp Payloads1 Crypto1 Phase2 Transport Phase1 Quick Loopback.
Open Scope Z_scope.

#[local] Instance stand_in : Primitives := {|
  hmac_sha256 := @hmac_sha256 quick; sha256 := @sha256 quick; sha1 := @sha1 quick;
  gcm_encrypt := @gcm_encrypt quick; gcm_decrypt := @gcm_decrypt quick;
  x25519_base := @x25519_base quick; x25519_dh := @x25519_dh quick;
  biguint_from_bytes_be := @biguint_from_bytes_be quick;
  biguint_modpow b e m := b * e mod m;
  biguint_to_bytes_be := @biguint_to_bytes_be quick |}.

(** ** [phase1.rs] *)
Module phase1.
Definition android_sa : SaPayload :=
  let mk num h := {| t_num := num; transform_id := 1; attributes :=
    [Attribute_short attr.ENCRYPTION enc.AES_CBC;
     Attribute_short attr.KEY_LENGTH 256;
     Attribute_short attr.HASH h;
     Attribute_short attr.GROUP_DESC 2;
     Attribute_short attr.AUTH_METHOD auth.XAUTH_INIT_PSK;
     Attribute_short attr.LIFE_TYPE life.SECONDS;
     Attribute_long_u32 attr.LIFE_DURATION 28800] |} in
  {| doi := IPSEC_DOI; situation := SIT_IDENTITY_ONLY;
     proposals := [ {| prop_num := 1; protocol_id := protocol.ISAKMP; prop_spi := [];
       transforms := [mk 1 hash.SHA2_384; mk 2 hash.SHA2_256] |} ] |}.

(** The header of the tests' messages *)
Definition test_header (cky_i cky_r : bytes) : IsakmpHeader := {|
  init_cookie := cky_i; resp_cookie := cky_r; next_payload := payload.NONE; version := VERSION_1_0;
  exchange_type := exchange.AGGRESSIVE; hdr_flags := 0; message_id := 0; hdr_length := 0 |}.

Definition client_msg1 (cky_i gxi ni : bytes) (idi : Id) : bytes :=
  build_message (test_header cky_i (replicate 8 0))
    [(payload.SA, SaPayload_to_bytes android_sa);
     (payload.KE, gxi);
     (payload.NONCE, ni);
     (payload.ID, Id_to_bytes idi)].

Definition full_aggressive_phase1_against_an_in_process_initiator : test :=
  let cfg := mkPhase1Config (ascii_bytes "testpsk") (Id_ipv4 [192; 168; 3; 204]) in
  let cky_i := replicate 8 0xAB in
  let i_priv := (next_array32 (SeedEntropy_new 7)).1 in
  gxi ← DhGroup_public Modp1024 i_priv;
  let ni := replicate 16 0x11 in
  let idi := mkId id_type.KEY_ID 0 0 (ascii_bytes "grp") in
  let msg1 := client_msg1 cky_i gxi ni idi in
  '((msg2, st), _) ← unwrap_driver (respond_aggressive cfg msg1 (SeedEntropy_new 9));
  assert_eq (p1_group st) Modp1024;;
  assert_eq (p1_prf st) Sha256;;
  h2 ← unwrap (IsakmpHeader_parse msg2);
  body ← slice_from msg2 IsakmpHeader_LEN;
  p2 ← unwrap (parse_payloads (next_payload h2) body);
  gxr ← p_data <$> unwrap_some (find_payload p2 payload.KE);
  nr ← p_data <$> unwrap_some (find_payload p2 payload.NONCE);
  got_hash_r ← p_data <$> unwrap_some (find_payload p2 payload.HASH);
  idr_b ← p_data <$> unwrap_some (find_payload p2 payload.ID);
  let sai_b := SaPayload_to_bytes android_sa in
  gxy ← unwrap (DhGroup_shared Modp1024 i_priv gxr);
  let skeyid := skeyid_psk Sha256 (ascii_bytes "testpsk") ni nr in
  let expect_hr := hash_r Sha256 skeyid gxr gxi (resp_cookie h2) cky_i sai_b idr_b in
  assert_eq got_hash_r expect_hr;;
  let hi := hash_i Sha256 skeyid gxi gxr cky_i (resp_cookie h2) sai_b (Id_to_bytes idi) in
  let msg3 := build_message (test_header cky_i (resp_cookie h2)) [(payload.HASH, hi)] in
  unwrap (verify_hash_i st msg3).

Definition wrong_psk_fails_hash_i : test :=
  let cfg := mkPhase1Config (ascii_bytes "right") (Id_ipv4 [10; 0; 0; 1]) in
  let cky_i := replicate 8 0x01 in
  let i_priv := (next_array32 (SeedEntropy_new 3)).1 in
  gxi ← DhGroup_public Modp1024 i_priv;
  let idi := mkId id_type.KEY_ID 0 0 (ascii_bytes "g") in
  let msg1 := client_msg1 cky_i gxi (replicate 16 0x22) idi in
  '((msg2, st), _) ← unwrap_driver (respond_aggressive cfg msg1 (SeedEntropy_new 4));
  h2 ← unwrap (IsakmpHeader_parse msg2);
  body ← slice_from msg2 IsakmpHeader_LEN;
  p2 ← unwrap (parse_payloads (next_payload h2) body);
  nr ← p_data <$> unwrap_some (find_payload p2 payload.NONCE);
  gxr ← p_data <$> unwrap_some (find_payload p2 payload.KE);
  let bad_skeyid := skeyid_psk Sha256 (ascii_bytes "wrong") (replicate 16 0x22) nr in
  let bad_hash_i := hash_i Sha256 bad_skeyid gxi gxr cky_i (resp_cookie h2) (SaPayload_to_bytes android_sa)
    (Id_to_bytes idi) in
  let msg3 := build_message (test_header cky_i (resp_cookie h2)) [(payload.HASH, bad_hash_i)] in
  e ← unwrap_err (verify_hash_i st msg3);
  assert_eq e AuthFailed.

Definition tests : list test := [full_aggressive_phase1_against_an_in_process_initiator; wrong_psk_fails_hash_i].
End phase1.

(** ** [quick.rs] *)
Module quick.
Definition ikev1_initiator_and_responder_agree_and_esp_roundtrips : test :=
  let psk := ascii_bytes "correct horse battery staple" in
  let ts := ([10; 0; 99; 0], [255; 255; 255; 0]) in
  let icfg := mkInitiatorConfig psk (Id_ipv4 [10; 1; 1; 1]) Modp1024 false ts ts in
  let rcfg := mkPhase1Config psk (Id_ipv4 [192; 168; 0; 1]) in
  let ie := SeedEntropy_new 0x1111 in
  let re := SeedEntropy_new 0x2222 in
  '((msg1, ai), ie) ← unwrap_driver (initiate_aggressive icfg ie);
  '((msg2, rstate), re) ← unwrap_driver (respond_aggressive rcfg msg1 re);
  '(msg3, istate) ← unwrap (AggressiveInitiator_complete ai msg2);
  unwrap (verify_hash_i rstate msg3);;
  '((qm1, qi), _) ← unwrap_driver (initiate_quick istate ts ts ie);
  '((qm2, qr), _) ← unwrap_driver (respond_quick rstate qm1 re);
  '(qm3, ichild) ← unwrap (QuickInitiator_complete qi qm2);
  rchild ← unwrap (QuickResponder_complete qr qm3);
  esp_both_ways ichild rchild.

Definition wrong_psk_fails_phase1 : test :=
  let ts := (replicate 4 0, replicate 4 0) in
  let icfg := mkInitiatorConfig (ascii_bytes "right") (Id_ipv4 [10; 1; 1; 1]) Modp1024 false ts ts in
  let rcfg := mkPhase1Config (ascii_bytes "wrong") (Id_ipv4 [192; 168; 0; 1]) in
  '((msg1, ai), _) ← unwrap_driver (initiate_aggressive icfg (SeedEntropy_new 1));
  '((msg2, _), _) ← unwrap_driver (respond_aggressive rcfg msg1 (SeedEntropy_new 2));
  assert (match AggressiveInitiator_complete ai msg2 with Err AuthFailed => true | _ => false end).

Definition tests : list test := [ikev1_initiator_and_responder_agree_and_esp_roundtrips; wrong_psk_fails_phase1].
End quick.

(** ** [exchange.rs] *)
Module exchange.
Definition init_secret : LocalSecret := mkLocalSecret (replicate 32 7) (replicate 32 0x11) 0xAAAAAAAA11112222.
Definition resp_secret : LocalSecret := mkLocalSecret (replicate 32 9) (replicate 32 0x22) 0xBBBBBBBB33334444.

(** The body of the loop over the group numbers *)
Definition agrees_over (gid : Z) : test :=
  let offer := Payload.mkSA [Payload.mkProposal 1 Payload.protocol_id.IKE []
    [Payload.mkTransform Payload.transform_type.ENCR Payload.transform_id.AES_GCM_16 (Some 256);
     Payload.mkTransform Payload.transform_type.PRF Payload.transform_id.PRF_HMAC_SHA2_256 None;
     Payload.mkTransform Payload.transform_type.DH gid None]] in
  request ← initiator_request init_secret offer;
  '(response, resp_done) ← unwrap (responder_respond request resp_secret);
  init_done ← unwrap (initiator_complete init_secret request response);
  assert_eq (dh_id (suite resp_done)) gid;;
  assert_eq (keys init_done) (keys resp_done).

Definition sa_init_agrees_over_modp_groups : test :=
  agrees_over Payload.transform_id.MODP_2048;; agrees_over Payload.transform_id.MODP_1024.

Definition tests : list test := [sa_init_agrees_over_modp_groups].
End exchange.

(** The unit tests of Aggressive Mode and Quick Mode, of IKE_SA_INIT over the MODP groups
    pass: the responder selects the second transform, both hashes verify, a
    wrong pre-shared key is refused by either side, and the two CHILD SAs interoperate. *)
Theorem ikev1_tests_pass :
  Forall (fun t => t = Ok tt) (phase1.tests ++ quick.tests ++ exchange.tests).
Proof. apply failures_none. vm_compute. reflexivity. Qed.
